(* ===== verification/_CoqProject ===== *)
-Q . S2P
Prelude.v
RustStr.v
Acl.v
Storage.v
StorageFacts.v
StorageProps.v
State.v
StateFacts.v
StateInv.v
StateSpec.v
StateProps.v
Concurrent.v
ConcurrentProps.v
Wakeup.v
RateLimiter.v
Heartbeat.v
Metrics.v
Config.v
Tls.v
JsonTree.v
Server.v
ServerFacts.v
ServerProps.v
Broker.v
TlsProps.v
AdminServer.v
AdminClient.v
AdminProps.v
Startup.v
Crypto.v
Client.v
Receiver.v
ReceiverProps.v
Sender.v
Pipeline.v
PipelineProps.v
Protocol.v
SenderProps.v
Lifecycle.v
Tools.v
ClientStart.v
