(* ===== verification/Prelude.v ===== *)
(** * A model of the CipherMQ message broker

    CipherMQ is a message broker: senders publish end-to-end encrypted messages
    to exchanges, queues bound to an exchange with a routing key receive them,
    and receivers consume and acknowledge them. Clients connect over mutual
    TLS; the common name of a client's certificate is its identity.

    ** Parts of the program and their files

    - [Prelude.v]: results, 64-bit counters, time, shared lemmas and the hint
      database [broker]. [RustStr.v]: the string operations of Rust the broker
      uses ([splitn], [trim], [from_utf8_lossy], ...) on byte strings.
    - [Acl.v] models [server/src/acl.rs]: roles, the command matrix, the
      resource check.
    - [Storage.v] models [server/src/storage.rs]: the actor that owns the
      database, its two tables as finite maps, its update buffers and their
      batched flushes, the encryption of public keys, the methods of the
      handle, [Storage::new]. [StorageFacts.v] states what the rest of the
      server relies on as the classes [StorageApi] and [StorageLaws] and makes
      the actor an instance; [StorageProps.v] holds the actor's theorems.
    - [State.v] models [server/src/state.rs]: every method of [ServerState] on
      a record of finite maps, and the consumer channels. [StateFacts.v] says
      what its loops compute; [StateInv.v] collects the operations in one type
      [Op], the states reachable by them, and the invariants; [StateSpec.v] is
      an abstract broker; [StateProps.v] holds the theorems. [Concurrent.v]
      splits [publish] and [register_consumer] into their accesses to the shared
      maps; [ConcurrentProps.v] and [Wakeup.v] hold the theorems about their
      interleavings.
    - [RateLimiter.v] ([rate_limiter.rs]), [Heartbeat.v] (the
      [HeartbeatMonitor] of [main.rs]), [Metrics.v] ([metrics.rs]) and
      [Config.v] ([config.rs]) model one small component each, with their
      theorems.
    - [Server.v] models [handle_client] of [server/src/server.rs] as one
      function per event of its [select!] loop, with a definition per command.
      [ServerFacts.v] shows that a session acts on the broker through
      permitted operations only; [ServerProps.v] holds the theorems.
    - [Tls.v] models mutual TLS: [server/src/auth.rs],
      [server/src/connection.rs], [build_acceptor] of the admin server, the TLS
      set-up of the three client programs, and the names read from certificates.
      [TlsProps.v] holds its theorems.
    - [Broker.v] models the process of [main.rs]: the accept loop, the sessions,
      the background tasks and the shutdown, as a step function. [Startup.v]
      models the first half of [main] (configuration, log files, storage, admin
      server, listener) and its handling of signals.
    - [AdminServer.v] models [server/src/admin_server.rs], [AdminClient.v] the
      polling console of [clients/admin/src/main.rs] and [poll.rs] on the JSON
      trees of [JsonTree.v]; [AdminProps.v] puts the two together.
    - [Crypto.v] models the end-to-end encryption of the client programs:
      [sealed_box_encrypt] and [encrypt_message] of
      [clients/sender_1/src/main.rs], [decrypt_message] of
      [clients/receiver_1/src/main.rs]. [Client.v] holds what both clients
      share: a connection and the monad of their set-up requests.
    - [Receiver.v] models the receiver: handshake, receive loop, the tasks for
      acknowledgements, heartbeats and storing as one system in which a task at
      a time makes a turn, and the connection loop of [main].
      [ReceiverProps.v] holds its theorems.
    - [Sender.v] models the sender up to its pipeline (texts, requests, public
      keys); [Pipeline.v] the pipeline: the main task and the ACK reader as a
      step function over the semaphore, the pending map and the result channel.
      [PipelineProps.v] holds its theorems.
    - [Protocol.v] and [SenderProps.v] put the clients and the server together:
      request lines parsed back, conversations, key distribution.
      [Lifecycle.v] follows one message through all programs.
    - [Tools.v] models the set-up programs of [create_ca_key]: the key maker and
      the certificate maker, with the files they write. [ClientStart.v] models
      the start of the sender and of the receiver (configuration file, logging,
      certificates, keys) in a deployment made by these programs.

    ** How the parts interact

    The handler and the broker state use the storage through the class
    [StorageApi]; theorems about ownership of messages use its laws
    [StorageLaws], which the actor of [Storage.v] satisfies. Every event of a
    session and every step of the process is a sequence of the operations [Op]
    of [StateInv.v], so that an invariant of the operations is an invariant of
    the server. The clients meet the server in [Protocol.v] and [SenderProps.v]:
    the lines a client model prints are given to [Server.on_event], and the
    texts the session writes are given back to the client model.

    ** What the theorems show

    - Broker state: what a publication does on every branch, that messages are
      queued once, kept in order and kept until they are acknowledged, expired,
      consumed or evicted; that an acknowledgement removes all copies; that the
      index-based implementation refines the abstract broker. The tracking
      theorems assume that no publication evicts a message another queue still
      holds ([guard]); [eviction_orphans_message] shows what happens otherwise.
    - Handler: confinement of a session to the operations of its role and name
      (the routing key of a binding and the queue of a [consume] are not
      checked, [foreign_key_bound]), frames for refused requests, the wire
      format of publications, deliveries and their retries, resend
      authorization.
    - Storage: round trip of public keys, write-once times, bounded buffers.
    - Process: bounded queues (a configured size of 0 still admits one message),
      and the exact value of the client counter, in any execution; clients
      locked out by their own past connections; cleanup tasks that work on
      copies of the state.
    - Clients: what a sender encrypts the receiver decrypts; in any interleaving
      of the receiver's tasks, on a working disk, each decrypted message is
      stored once or was left over when the storing task ended, and is
      acknowledged at most once; a shutdown saves everything if the receive loop
      ends before the storing task, and can lose an acknowledged message
      otherwise ([late_message_lost]); the pipeline accounts for every permit
      and every copy of every message, and its retries terminate.
      Conversations: the receiver's handshake, publications and their replies,
      and the way of a public key from receiver to sender.
      Several theorems state defects as they are: a receiver that never
      reconnects, a nonce that makes it panic, a sender that hangs after
      refusals or on a full result channel, publications lost when they arrive
      in one read, configuration requests that are always refused.
    - Composition: one message from its encryption to its record in the
      receiver's file and the acknowledgement that makes the broker forget it;
      keys and certificates from the set-up programs to the connections they
      open.
    - Concurrency: interleaved publications keep the queues sound; a message published while a consumer
      registers is never missed; the duplicate check can be passed twice.
    - TLS: every session carries the name of a certificate the authority vouches
      for and the role of that name; the set-ups of the clients agree; which
      server certificates they accept.
    - Start and administration: a server that starts runs on a valid
      configuration and its admin port checks the same certificates; the admin
      port serves administrators only; the console shows the state of the server
      at each poll. Defects: shutdowns lost while the accept loop is busy, a reply
      that ends the polling thread, metrics that are never updated.
    - Limiter, monitor, metrics, configuration: limits respected, exact bursts,
      isolation of clients, timed-out clients, injective metrics page, validity
      of a loaded configuration.

    ** Choices

    - A method of [ServerState], and an event of a session, runs as a whole in
      [State.v], [Server.v] and [Broker.v]. [Concurrent.v] refines [publish] and
      [register_consumer] to single accesses, which interleave with each other
      and with whole operations; accesses of the other methods do not interleave.
    - Clock reads, random bytes, database outcomes and socket outcomes are
      arguments of the definitions, so the theorems hold for all of them.
    - Loops are structural recursions: the reconnect loop on the attempts left
      of 5, the delivery loop on the attempts left of 3, the others on lists;
      no definition can run out of fuel. The loops of the client tasks are step
      functions; [retries_terminate] and [shutdown_saves_everything] bound the
      steps they take.
    - Ticks of the storage actor's flush interval occur in its own step relation
      ([worker_step]), not in the steps of [Broker.v].
    - The tasks of the receiver interleave at the points where they wait: each
      looks at the running flag in one turn and goes on, after its wait, in
      another. A message is handed to both channels in one turn, and the end of
      the receive loop clears the flag and aborts the helper tasks in one turn;
      an abort never cuts a write short. The bound of 4096 messages of the
      channels is not modelled. The bound of the sender's result channel is.
    - A signal that arrives at the server, the task that later triggers the
      shutdown, and the branch of the accept loop that ends it are separate
      steps ([Startup.v]); a signal before its handler is installed ends the
      process.
    - [usize] and [u64] counters that wrap in the source are integers modulo
      2^64; lengths and connection counts are natural numbers. [f64] is the
      binary64 of the Standard Library's [SpecFloat].
    - Instants are nanoseconds of the monotonic clock.

    ** Not modelled

    The libraries are parameters with their documented behaviour as classes of
    laws: TLS, PEM and X.509 ([TlsLib], [HandshakeLaws]), certificate making
    ([RcgenLaws]), TOML, JSON texts ([SerdeLaws] for values as [serde_json]
    prints and reads them, at most 127 levels deep and in UTF-8; [JsonReads],
    [JsonOk], [ReceiverJsonOk] for the derived readers and writers), Base64 and
    the ciphers ([PrimitivesOk], [CiphersOk]), PostgreSQL beyond the statements of
    [storage.rs]. Not modelled are the texts of log lines, the HTTP server and
    the HTML page of the admin client, the delegating read and write methods of
    [TlsConnection], and the shutdown of the sender's sockets after its run. *)
From Stdlib Require Export ZArith Lia.
From stdpp Require Export base list gmap strings option.
From stdpp Require Import list relations options.

#[export] Set Warnings "-clear-no-such-hyp".

(** ** Results *)

(** Rust's [Result<A, E>]. *)
Inductive result (A E : Type) : Type :=
| Ok (a : A)
| Err (e : E).
Arguments Ok {A E} _.
Arguments Err {A E} _.

Definition map_err {A E F} (f : E → F) (r : result A E) : result A F :=
  match r with Ok a => Ok a | Err e => Err (f e) end.

(** Rust's [?] operator: early return of the error. *)
Notation "'try' x ← r ; k" :=
  (match r with Ok x => k | Err e => Err e end)
  (at level 20, x name, r at level 100, k at level 200, right associativity).

Definition is_ok {A E} (r : result A E) : bool :=
  match r with Ok _ => true | Err _ => false end.

#[export] Instance result_eq_dec {A E} `{EqDecision A, EqDecision E} :
  EqDecision (result A E).
Proof. solve_decision. Defined.

(** ** 64-bit machine integers *)

(** [usize] and [u64] of the 64-bit targets the server runs on. The atomic
    operations [fetch_add] and [fetch_sub] wrap around on overflow. *)
Definition word_modulus : Z := 2 ^ 64.
Definition wrap (z : Z) : Z := z `mod` word_modulus.
Definition fetch_add (cell n : Z) : Z := wrap (cell + n).
Definition fetch_sub (cell n : Z) : Z := wrap (cell - n).

Lemma wrap_small z : (0 ≤ z < word_modulus)%Z → wrap z = z.
Proof. apply Z.mod_small. Qed.

Lemma wrap_bounds z : (0 ≤ wrap z < word_modulus)%Z.
Proof. by apply Z.mod_pos_bound. Qed.

Lemma fetch_add_sub c n : fetch_sub (fetch_add c n) n = wrap c.
Proof.
  unfold fetch_sub, fetch_add, wrap. rewrite Zminus_mod_idemp_l. f_equal; lia.
Qed.

Lemma fetch_add_wrap x n : fetch_add (wrap x) n = wrap (x + n).
Proof. unfold fetch_add, wrap. by rewrite Zplus_mod_idemp_l. Qed.
Lemma fetch_sub_wrap x n : fetch_sub (wrap x) n = wrap (x - n).
Proof. unfold fetch_sub, wrap. by rewrite Zminus_mod_idemp_l. Qed.

(** ** Time *)

(** [std::time::Instant] as nanoseconds of the monotonic clock;
    [Instant::duration_since] saturates at zero. *)
Definition duration_since (now t : Z) : Z := Z.max 0 (now - t).
Definition from_secs (s : Z) : Z := s * 1000000000.

(** ** Shared lemmas and automation *)

(** The preservation lemmas of the components are collected here. *)
Create HintDb broker.

(** A filter that every element passes changes nothing. *)
Lemma filter_all {A} (P : A → Prop) `{∀ x, Decision (P x)} (l : list A) :
  (∀ x, x ∈ l → P x) → filter P l = l.
Proof.
  induction l as [|x l IH]; intros HP; [done|].
  rewrite filter_cons_True by (apply HP; left). f_equal. apply IH. intros y Hy. apply HP. by right.
Qed.

(** What is left of a map after deleting a list of keys. *)
Lemma lookup_delete_all {V} `{Countable K} (m : gmap K V) (ks : list K) c :
  foldl (λ m k, delete k m) m ks !! c = if decide (c ∈ ks) then None else m !! c.
Proof.
  revert m. induction ks as [|k ks IH]; intros m; [done|]. cbn [foldl]. rewrite IH.
  destruct (decide (k = c)) as [->|Hne].
  - rewrite lookup_delete_eq. rewrite (decide_True (P := c ∈ c :: ks)) by (by left). by case_decide.
  - rewrite lookup_delete_ne by done. apply decide_ext. rewrite elem_of_cons. naive_solver.
Qed.

(** Invariants of a step relation. *)
Lemma rtc_preserves {A} (R : relation A) (I : A → Prop) :
  (∀ x y, R x y → I x → I y) → ∀ x y, rtc R x y → I x → I y.
Proof. intros H x y Hr. induction Hr; eauto. Qed.

(** Invariants of a loop over a list. *)
Lemma foldl_preserves {A B} (I : A → Prop) (f : A → B → A) :
  (∀ a b, I a → I (f a b)) → ∀ l a, I a → I (foldl f a l).
Proof. intros H l. induction l; intros; simpl; auto. Qed.

(** Case analysis on the innermost match of the goal, discarding the branches
    that contradict the context. *)
Ltac split_matches := repeat (case_match; simplify_eq/=; try done).
