(* ===== verification/RustStr.v ===== *)
(** The operations of Rust's [str] and [String] the broker uses: prefix tests,
    [splitn], [trim], [join] and [String::from_utf8_lossy].

    A Rust string is its UTF-8 bytes; a [string] here is a list of 8-bit
    characters, so [String.length] is [str::len]. *)
From S2P Require Import Prelude.
From stdpp Require Import list options.
From Stdlib Require Import Ascii.
#[local] Open Scope N_scope.

Module RustStr.

(** [str::is_empty] *)
Definition is_empty (s : string) : bool :=
  match s with EmptyString => true | _ => false end.

(** [str::starts_with] with a string pattern. *)
Fixpoint starts_with (p s : string) : bool :=
  match p, s with
  | EmptyString, _ => true
  | String a p', String b s' => bool_decide (a = b) && starts_with p' s'
  | String _ _, EmptyString => false
  end.

(** [str::strip_prefix] *)
Fixpoint strip_prefix (p s : string) : option string :=
  match p, s with
  | EmptyString, _ => Some s
  | String a p', String b s' => if decide (a = b) then strip_prefix p' s' else None
  | String _ _, EmptyString => None
  end.

(** The text before and after the first occurrence of a separator. *)
Fixpoint split_once (sep : ascii) (s : string) : option (string * string) :=
  match s with
  | EmptyString => None
  | String a s' =>
      if decide (a = sep) then Some (EmptyString, s')
      else (λ '(l, r), (String a l, r)) <$> split_once sep s'
  end.

(** [str::splitn(n, sep)] collected into a vector. *)
Fixpoint splitn (n : nat) (sep : ascii) (s : string) : list string :=
  match n with
  | O => []
  | S O => [s]
  | S n' => match split_once sep s with
            | Some (l, r) => l :: splitn n' sep r
            | None => [s]
            end
  end.

(** [Vec<String>::join] *)
Fixpoint join (sep : string) (l : list string) : string :=
  match l with
  | [] => ""
  | [x] => x
  | x :: l' => x +:+ sep +:+ join sep l'
  end.

(** *** Whitespace

    [char::is_whitespace] is Unicode's White_Space property: one-byte
    U+0009..U+000D and U+0020; two-byte U+0085 and U+00A0; three-byte U+1680,
    U+2000..U+200A, U+2028, U+2029, U+202F, U+205F and U+3000. *)
Definition ws1 (a : ascii) : bool :=
  let n := N_of_ascii a in ((9 <=? n) && (n <=? 13)) || (n =? 32).
Definition ws2 (a b : ascii) : bool :=
  let n := N_of_ascii a in let m := N_of_ascii b in
  (n =? 194) && ((m =? 133) || (m =? 160)).
Definition ws3 (a b c : ascii) : bool :=
  let n := N_of_ascii a in let m := N_of_ascii b in let k := N_of_ascii c in
  ((n =? 225) && (m =? 154) && (k =? 128))
  || ((n =? 226) && (m =? 128)
      && (((128 <=? k) && (k <=? 138)) || (k =? 168) || (k =? 169) || (k =? 175)))
  || ((n =? 226) && (m =? 129) && (k =? 159))
  || ((n =? 227) && (m =? 128) && (k =? 128)).

(** Drops whitespace characters from the front, for a given byte order of the
    multi-byte encodings. *)
Fixpoint drop_ws (w2 : ascii → ascii → bool) (w3 : ascii → ascii → ascii → bool)
    (s : string) : string :=
  match s with
  | EmptyString => EmptyString
  | String a s1 =>
      if ws1 a then drop_ws w2 w3 s1 else
      match s1 with
      | EmptyString => s
      | String b s2 =>
          if w2 a b then drop_ws w2 w3 s2 else
          match s2 with
          | EmptyString => s
          | String c s3 => if w3 a b c then drop_ws w2 w3 s3 else s
          end
      end
  end.

Definition trim_start (s : string) : string := drop_ws ws2 ws3 s.
Definition trim_end (s : string) : string :=
  String.rev (drop_ws (λ b a, ws2 a b) (λ c b a, ws3 a b c) (String.rev s)).
(** [str::trim] *)
Definition trim (s : string) : string := trim_end (trim_start s).

(** *** Lossy decoding

    [String::from_utf8_lossy] replaces every maximal invalid subsequence by
    U+FFFD. *)
Definition replacement : string :=
  String (ascii_of_N 239) (String (ascii_of_N 191) (String (ascii_of_N 189) "")).
Definition ascii7 (a : ascii) : bool := N_of_ascii a <? 128.
Definition cont (a : ascii) : bool :=
  let n := N_of_ascii a in (128 <=? n) && (n <=? 191).
(** Width of the sequence a lead byte announces, 0 for a byte that starts none. *)
Definition width (a : ascii) : N :=
  let n := N_of_ascii a in
  if n <? 128 then 1
  else if (194 <=? n) && (n <=? 223) then 2
  else if (224 <=? n) && (n <=? 239) then 3
  else if (240 <=? n) && (n <=? 244) then 4
  else 0.
(** The second bytes allowed after a three- and a four-byte lead. *)
Definition second3 (a b : ascii) : bool :=
  let n := N_of_ascii a in let m := N_of_ascii b in
  if n =? 224 then (160 <=? m) && (m <=? 191)
  else if n =? 237 then (128 <=? m) && (m <=? 159)
  else cont b.
Definition second4 (a b : ascii) : bool :=
  let n := N_of_ascii a in let m := N_of_ascii b in
  if n =? 240 then (144 <=? m) && (m <=? 191)
  else if n =? 244 then (128 <=? m) && (m <=? 143)
  else cont b.

Fixpoint from_utf8_lossy (s : string) : string :=
  match s with
  | EmptyString => EmptyString
  | String a s1 =>
      if width a =? 1 then String a (from_utf8_lossy s1)
      else if width a =? 0 then replacement +:+ from_utf8_lossy s1
      else
        match s1 with
        | EmptyString => replacement
        | String b s2 =>
            if width a =? 2 then
              if cont b then String a (String b (from_utf8_lossy s2))
              else replacement +:+ from_utf8_lossy s1
            else if width a =? 3 then
              if second3 a b then
                match s2 with
                | EmptyString => replacement
                | String c s3 =>
                    if cont c then String a (String b (String c (from_utf8_lossy s3)))
                    else replacement +:+ from_utf8_lossy s2
                end
              else replacement +:+ from_utf8_lossy s1
            else if second4 a b then
              match s2 with
              | EmptyString => replacement
              | String c s3 =>
                  if cont c then
                    match s3 with
                    | EmptyString => replacement
                    | String d s4 =>
                        if cont d
                        then String a (String b (String c (String d (from_utf8_lossy s4))))
                        else replacement +:+ from_utf8_lossy s3
                    end
                  else replacement +:+ from_utf8_lossy s2
              end
            else replacement +:+ from_utf8_lossy s1
        end
  end.

(** *** Characters of a string *)
Fixpoint all_chars (P : ascii → bool) (s : string) : bool :=
  match s with EmptyString => true | String a s' => P a && all_chars P s' end.
Definition no_char (c : ascii) (s : string) : bool :=
  all_chars (λ a, bool_decide (a ≠ c)) s.

(** The text is kept by [trim]: it is empty or starts and ends with a visible
    ASCII character. *)
Definition visible (a : ascii) : bool := let n := N_of_ascii a in (33 <=? n) && (n <=? 126).
Fixpoint last_char (s : string) : option ascii :=
  match s with
  | EmptyString => None
  | String a EmptyString => Some a
  | String _ s' => last_char s'
  end.
Definition first_char (s : string) : option ascii :=
  match s with EmptyString => None | String a _ => Some a end.

(** ** Lemmas *)

Lemma app_nil_r s : s +:+ "" = s.
Proof. induction s as [|a s IH]; [done|]. change (String a (s +:+ "") = String a s). by rewrite IH. Qed.
Lemma app_cons a s t : String a s +:+ t = String a (s +:+ t).
Proof. done. Qed.
Lemma app_assoc s t u : s +:+ (t +:+ u) = (s +:+ t) +:+ u.
Proof. induction s as [|a s IH]; [done|]. rewrite !app_cons. by rewrite IH. Qed.

Lemma starts_with_app p s : starts_with p (p +:+ s) = true.
Proof. induction p as [|a p IH]; [done|]. rewrite app_cons; simpl. by rewrite bool_decide_true. Qed.

Lemma starts_with_iff p s : starts_with p s = true ↔ ∃ t, s = p +:+ t.
Proof.
  split; [|by intros [t ->]; apply starts_with_app].
  revert s. induction p as [|a p IH]; intros s; [by exists s|].
  destruct s as [|b s]; [done|]; simpl.
  intros [H1%bool_decide_eq_true H2]%andb_true_iff; subst.
  destruct (IH _ H2) as [t ->]. by exists t.
Qed.

Lemma strip_prefix_app p s : strip_prefix p (p +:+ s) = Some s.
Proof.
  induction p as [|a p IH]; [by destruct s|]. rewrite app_cons; simpl.
  by rewrite decide_True.
Qed.

Lemma strip_prefix_Some p s t : strip_prefix p s = Some t ↔ s = p +:+ t.
Proof.
  split; [|by intros ->; apply strip_prefix_app].
  revert s. induction p as [|a p IH]; intros [|b s]; simpl; intros H; simplify_eq; try done.
  case_decide; [|done]. subst. rewrite app_cons. f_equal. by apply IH.
Qed.

Lemma split_once_app sep l r :
  no_char sep l = true → split_once sep (l +:+ String sep r) = Some (l, r).
Proof.
  unfold no_char. induction l as [|a l IH]; simpl.
  - intros _. change ("" +:+ String sep r) with (String sep r). simpl. by rewrite decide_True.
  - intros [H1%bool_decide_eq_true H2]%andb_true_iff.
    rewrite decide_False by done. by rewrite IH.
Qed.

Lemma split_once_none sep s : no_char sep s = true → split_once sep s = None.
Proof.
  unfold no_char. induction s as [|a s IH]; simpl; [done|].
  intros [H1%bool_decide_eq_true H2]%andb_true_iff.
  rewrite decide_False by done. by rewrite IH.
Qed.

Lemma split_once_Some sep s l r :
  split_once sep s = Some (l, r) → s = l +:+ String sep r ∧ no_char sep l = true.
Proof.
  unfold no_char. revert l r. induction s as [|a s IH]; simpl; intros l r H; [done|].
  case_decide; simplify_eq; [done|].
  apply fmap_Some in H as [[l' r'] [H ?]]; simplify_eq.
  destruct (IH _ _ H) as [-> Hn]. split; [done|]. simpl.
  by rewrite bool_decide_true, Hn.
Qed.

(** Splitting gives at least one piece and at most [n]. *)
Lemma splitn_length n sep s : (0 < n)%nat → (1 ≤ length (splitn n sep s) ≤ n)%nat.
Proof.
  revert s. induction n as [|n IH]; intros s Hn; [lia|].
  destruct n as [|n]; [simpl; lia|]. simpl.
  destruct (split_once sep s) as [[l r]|]; simpl; [|lia].
  specialize (IH r). simpl in IH. lia.
Qed.

(** *** Lossy decoding and trimming of a line *)

Lemma lossy_ascii_app s t :
  all_chars ascii7 s = true → from_utf8_lossy (s +:+ t) = s +:+ from_utf8_lossy t.
Proof.
  induction s as [|a s IH]; simpl; [done|].
  intros [Ha Hs]%andb_true_iff. unfold ascii7 in Ha.
  assert (width a = 1) as Hw by (unfold width; by rewrite Ha).
  rewrite !app_cons. cbn [from_utf8_lossy]. rewrite Hw. simpl. by rewrite IH.
Qed.

Lemma rev_app_app s t : String.rev_app s t = String.rev s +:+ t.
Proof.
  unfold String.rev. revert t. induction s as [|a s IH]; intros t; simpl; [done|].
  rewrite IH, (IH (String a "")). by rewrite <-app_assoc.
Qed.
Lemma rev_cons a s : String.rev (String a s) = String.rev s +:+ String a "".
Proof. unfold String.rev at 1. simpl. by rewrite rev_app_app. Qed.
Lemma rev_app s t : String.rev (s +:+ t) = String.rev t +:+ String.rev s.
Proof.
  induction s as [|a s IH]; [by rewrite app_nil_r|].
  rewrite app_cons, !rev_cons, IH. by rewrite app_assoc.
Qed.
Lemma rev_involutive s : String.rev (String.rev s) = s.
Proof. induction s as [|a s IH]; [done|]. rewrite rev_cons, rev_app, IH. done. Qed.

Lemma first_char_rev s : first_char (String.rev s) = last_char s.
Proof.
  induction s as [|a s IH]; [done|]. rewrite rev_cons. destruct s as [|b s]; [done|].
  cbn [last_char] in *. rewrite <-IH. destruct (String.rev (String b s)) eqn:E; [|done].
  apply (f_equal String.rev) in E. by rewrite rev_involutive in E.
Qed.

(** A visible character is not part of any whitespace encoding. *)
Lemma visible_ws a b c :
  visible a = true →
  ws1 a = false ∧ ws2 a b = false ∧ ws3 a b c = false ∧ ws2 b a = false ∧ ws3 c b a = false.
Proof.
  unfold visible, ws1, ws2, ws3. intros [H1%N.leb_le H2%N.leb_le]%andb_true_iff.
  repeat match goal with
         | |- context [N_of_ascii a =? ?n] =>
             destruct (N.eqb_spec (N_of_ascii a) n); [lia|]
         | |- context [N_of_ascii a <=? ?n] =>
             destruct (N.leb_spec (N_of_ascii a) n); try lia
         | |- context [?n <=? N_of_ascii a] =>
             destruct (N.leb_spec n (N_of_ascii a)); try lia
         end; rewrite ?andb_false_r, ?andb_false_l, ?orb_false_r; done.
Qed.

Lemma drop_ws_visible w2 w3 a s :
  visible a = true → (∀ b c, w2 a b = false ∧ w3 a b c = false) →
  drop_ws w2 w3 (String a s) = String a s.
Proof.
  intros Hv Hw. simpl. destruct (visible_ws a a a Hv) as (-> & _).
  destruct s as [|b s]; [done|]. destruct (Hw b b) as [-> _].
  destruct s as [|c s]; [done|]. by destruct (Hw b c) as [_ ->].
Qed.

(** [trim] of a line is the text without its line feed. *)
Lemma trim_line a b s :
  first_char s = Some a → last_char s = Some b → visible a = true → visible b = true →
  trim (s +:+ String (ascii_of_N 10) "") = s.
Proof.
  intros Hf Hl Ha Hb. unfold trim, trim_start, trim_end.
  destruct s as [|a' s]; [done|]. injection Hf as ->. rewrite app_cons.
  rewrite drop_ws_visible; [|done|].
  2:{ intros b' c'. by destruct (visible_ws a b' c' Ha) as (_ & ? & ? & _). }
  rewrite <-app_cons, rev_app. change (String.rev (String (ascii_of_N 10) "")) with
    (String (ascii_of_N 10) ""). rewrite app_cons.
  assert (first_char (String.rev (String a s)) = Some b) as Hr by (by rewrite first_char_rev).
  destruct (String.rev (String a s)) as [|b' r] eqn:E; [done|]. injection Hr as ->.
  change (drop_ws (λ b a, ws2 a b) (λ c b a, ws3 a b c) (String (ascii_of_N 10) ("" +:+ String b r)))
    with (drop_ws (λ b a, ws2 a b) (λ c b a, ws3 a b c) (String b r)).
  rewrite drop_ws_visible; [|done|].
  2:{ intros b' c'. by destruct (visible_ws b b' c' Hb) as (_ & _ & _ & ? & ?). }
  by rewrite <-E, rev_involutive.
Qed.

Lemma last_char_app s t : t ≠ "" → last_char (s +:+ t) = last_char t.
Proof.
  intros Ht. induction s as [|a s IH]; [done|]. rewrite app_cons.
  cbn [last_char]. destruct (s +:+ t) eqn:E; [|done]. by destruct s, t.
Qed.

(** [trim] keeps a text that starts and ends with a visible character. *)
Lemma trim_visible a b s :
  first_char s = Some a → last_char s = Some b → visible a = true → visible b = true →
  trim s = s.
Proof.
  intros Hf Hl Ha Hb. unfold trim, trim_start, trim_end.
  destruct s as [|a' s]; [done|]. injection Hf as ->.
  rewrite drop_ws_visible; [|done|].
  2:{ intros b' c'. by destruct (visible_ws a b' c' Ha) as (_ & ? & ? & _). }
  assert (first_char (String.rev (String a s)) = Some b) as Hr by (by rewrite first_char_rev).
  destruct (String.rev (String a s)) as [|b' r] eqn:E; [done|]. injection Hr as ->.
  rewrite drop_ws_visible; [|done|].
  2:{ intros b' c'. by destruct (visible_ws b b' c' Hb) as (_ & _ & _ & ? & ?). }
  by rewrite <-E, rev_involutive.
Qed.

(** [trim] keeps a visible first character. *)
Lemma drop_ws_suffix w2 w3 s : ∃ u, s = u +:+ drop_ws w2 w3 s.
Proof.
  assert (∀ n s, (String.length s ≤ n)%nat → ∃ u, s = u +:+ drop_ws w2 w3 s) as H; [|by apply (H (String.length s) s)].
  clear s. induction n as [|n IH]; intros s Hl.
  { destruct s; [by exists ""|simpl in Hl; lia]. }
  destruct s as [|a s]; [by exists ""|]. simpl in Hl. cbn [drop_ws].
  destruct (ws1 a).
  { destruct (IH s) as [u Hu]; [lia|]. exists (String a u). by rewrite app_cons, <-Hu. }
  destruct s as [|b s]; [by exists ""|]. simpl in Hl. destruct (w2 a b).
  { destruct (IH s) as [u Hu]; [lia|]. exists (String a (String b u)). by rewrite !app_cons, <-Hu. }
  destruct s as [|c s]; [by exists ""|]. simpl in Hl. destruct (w3 a b c); [|by exists ""].
  destruct (IH s) as [u Hu]; [lia|]. exists (String a (String b (String c u))).
  by rewrite !app_cons, <-Hu.
Qed.
Lemma trim_first a s :
  visible a = true → trim (String a s) = "" ∨ first_char (trim (String a s)) = Some a.
Proof.
  intros Hv. unfold trim, trim_start, trim_end. rewrite drop_ws_visible; [|done|].
  2:{ intros b c. by destruct (visible_ws a b c Hv) as (_ & ? & ? & _). }
  destruct (drop_ws_suffix (λ b a, ws2 a b) (λ c b a, ws3 a b c) (String.rev (String a s))) as [u Hu].
  apply (f_equal String.rev) in Hu. rewrite rev_involutive, rev_app in Hu.
  destruct (String.rev (drop_ws _ _ (String.rev (String a s)))) as [|b t]; [by left|right].
  rewrite app_cons in Hu. by injection Hu as -> _.
Qed.

(** [str::trim] drops spaces in front. *)
Lemma trim_space s : trim (String (ascii_of_N 32) s) = trim s.
Proof. done. Qed.

Lemma all_chars_app Q s t : all_chars Q (s +:+ t) = all_chars Q s && all_chars Q t.
Proof. induction s as [|a s IH]; [done|]. rewrite app_cons. simpl. by rewrite IH, andb_assoc. Qed.

(** A text of visible characters. *)
Lemma all_visible_first s : all_chars visible s = true → s ≠ "" →
  ∃ a, first_char s = Some a ∧ visible a = true.
Proof. destruct s as [|a s]; [done|]. intros [H _]%andb_prop _. by exists a. Qed.
Lemma all_visible_last s : all_chars visible s = true → s ≠ "" →
  ∃ a, last_char s = Some a ∧ visible a = true.
Proof.
  induction s as [|a s IH]; [done|]. intros [H1 H2]%andb_prop _. destruct s as [|b s].
  - by exists a.
  - destruct IH as (c & Hc & Hv); [done..|]. exists c. by split.
Qed.
Lemma trim_all_visible s : all_chars visible s = true → trim s = s.
Proof.
  intros H. destruct (decide (s = "")) as [->|Hne]; [done|].
  destruct (all_visible_first s H Hne) as (a & Ha & Va).
  destruct (all_visible_last s H Hne) as (b & Hb & Vb). by apply (trim_visible a b).
Qed.
Lemma visible_no_space s : all_chars visible s = true → no_char (ascii_of_N 32) s = true.
Proof.
  induction s as [|a s IH]; [done|]. intros [H1 H2]%andb_prop.
  change (bool_decide (a ≠ ascii_of_N 32) && no_char (ascii_of_N 32) s = true).
  rewrite IH by done. rewrite andb_true_r. apply bool_decide_eq_true. by intros ->.
Qed.
Lemma visible_ascii7 a : visible a = true → ascii7 a = true.
Proof.
  unfold visible, ascii7. intros [_ H]%andb_prop. apply N.leb_le in H. apply N.ltb_lt. lia.
Qed.
Lemma all_visible_ascii7 s : all_chars visible s = true → all_chars ascii7 s = true.
Proof.
  induction s as [|a s IH]; [done|]. intros [H1 H2]%andb_prop. simpl.
  by rewrite visible_ascii7, IH.
Qed.

(** ** A printable code of the positive numbers *)

Fixpoint bits (p : positive) : string :=
  match p with
  | xH => "}"
  | xO p => String "0" (bits p)
  | xI p => String "1" (bits p)
  end.
Fixpoint unbits (s : string) : option positive :=
  match s with
  | "}" => Some xH
  | String "0" s => xO <$> unbits s
  | String "1" s => xI <$> unbits s
  | _ => None
  end.
Lemma unbits_bits p : unbits (bits p) = Some p.
Proof. induction p as [p IH|p IH|]; simpl; [by rewrite IH..|done]. Qed.
Lemma unbits_trailing p a s : unbits (bits p +:+ String a s) = None.
Proof.
  induction p as [p IH|p IH|]; cbn [bits]; rewrite app_cons; cbn [unbits]; [by rewrite IH..|done].
Qed.
Lemma bits_ascii p : all_chars ascii7 (bits p) = true.
Proof. induction p; done. Qed.
Lemma bits_visible p : all_chars visible (bits p) = true.
Proof. induction p; done. Qed.
Lemma bits_last p : last_char (bits p) = Some "}"%char.
Proof. induction p as [p IH|p IH|]; [..|done]; cbn [bits last_char]; rewrite IH; by destruct p. Qed.

End RustStr.
