(* ===== verification/Acl.v ===== *)
(** The access-control list, [server/src/acl.rs]: certificate common names are
    resolved to roles, commands are checked against the permission matrix, and
    receivers are confined to resources under their own name. *)
From S2P Require Import Prelude RustStr.
From stdpp Require Import list options.

Module Acl.
Import RustStr.

(** [enum Role] *)
Inductive Role := Sender | Receiver | Admin | Unknown.
#[global] Instance Role_eq_dec : EqDecision Role.
Proof. solve_decision. Defined.

(** [Role::as_str] *)
Definition as_str (r : Role) : string :=
  match r with
  | Sender => "sender" | Receiver => "receiver" | Admin => "admin" | Unknown => "unknown"
  end.

(** [enum AuthResult] *)
Inductive AuthResult := Allowed | Denied (reason : string).

Definition is_allowed (a : AuthResult) : bool :=
  match a with Allowed => true | Denied _ => false end.

(** [struct AclManager]; the three [HashSet]s never change after [new]. *)
Record AclManager := {
  sender_cns : gset string;
  receiver_cns : gset string;
  admin_cns : gset string
}.

(** [AclManager::new] *)
Definition new (senders receivers admins : list string) : AclManager :=
  {| sender_cns := list_to_set senders;
     receiver_cns := list_to_set receivers;
     admin_cns := list_to_set admins |}.

(** [AclManager::resolve_role] *)
Definition resolve_role (m : AclManager) (cn : string) : Role :=
  if decide (cn ∈ admin_cns m) then Admin
  else if decide (cn ∈ sender_cns m) then Sender
  else if decide (cn ∈ receiver_cns m) then Receiver
  else Unknown.

Definition unknown_reason : string := "unknown role — access denied".
Definition command_reason : string := "command not permitted for this role".
Definition resource_reason : string := "resource access denied for this role".

(** The [match command] of [AclManager::check_command]. *)
Definition command_allowed (role : Role) (command : string) : bool :=
  if decide (command = "declare_queue") then bool_decide (role = Receiver)
  else if decide (command = "declare_exchange") then bool_decide (role = Receiver)
  else if decide (command = "bind") then bool_decide (role = Receiver)
  else if decide (command = "publish" ∨ command = "publish_batch")
  then bool_decide (role = Sender)
  else if decide (command = "consume") then bool_decide (role = Receiver)
  else if decide (command = "ack") then bool_decide (role = Sender ∨ role = Receiver)
  else if decide (command = "register_public_key") then bool_decide (role = Receiver)
  else if decide (command = "get_public_key") then bool_decide (role = Sender)
  else if decide (command = "resend") then bool_decide (role = Sender ∨ role = Receiver)
  else if decide (command = "heartbeat") then bool_decide (role = Receiver)
  else false.

(** [AclManager::check_command] *)
Definition check_command (role : Role) (command : string) : AuthResult :=
  if decide (role = Admin) then Allowed
  else if decide (role = Unknown) then Denied unknown_reason
  else if command_allowed role command then Allowed
  else Denied command_reason.

(** [AclManager::check_resource] *)
Definition check_resource (role : Role) (cn resource_type resource_name : string)
    : AuthResult :=
  if decide (role = Admin) then Allowed
  else if decide (role = Unknown) then Denied unknown_reason
  else if decide (role = Receiver) then
    let allowed :=
      if decide (resource_type = "queue") then
        starts_with (cn +:+ "_") resource_name || bool_decide (resource_name = cn +:+ "_queue")
      else if decide (resource_type = "exchange") then true
      else if decide (resource_type = "routing_key") then starts_with cn resource_name
      else false in
    if allowed then Allowed else Denied resource_reason
  else Denied resource_reason.

(** ** The permission matrix *)

(** The table in the documentation of [check_command], as data: the columns are
    Sender and Receiver; Admin is allowed every row. *)
Definition matrix : list (string * bool * bool) :=
  [ ("declare_queue", false, true);
    ("declare_exchange", false, true);
    ("bind", false, true);
    ("publish", true, false);
    ("publish_batch", true, false);
    ("consume", false, true);
    ("ack", true, true);
    ("register_public_key", false, true);
    ("get_public_key", true, false);
    ("resend", true, true);
    ("heartbeat", false, true) ].

(** What the documented table grants. *)
Definition granted (role : Role) (command : string) : Prop :=
  match role with
  | Admin => True
  | Unknown => False
  | Sender => ∃ r, (command, true, r) ∈ matrix
  | Receiver => ∃ s, (command, s, true) ∈ matrix
  end.

(** ** Lemmas *)

(** The verdict of the [match command], row by row. *)
Lemma command_allowed_spec role command :
  command_allowed role command = true ↔
    (role = Sender ∧ ∃ r, (command, true, r) ∈ matrix)
    ∨ (role = Receiver ∧ ∃ s, (command, s, true) ∈ matrix).
Proof.
  unfold command_allowed, matrix. split.
  - repeat case_decide; intros Hv; try done; apply bool_decide_eq_true in Hv;
      destruct_or?; subst; solve [ left; split; [done|]; eexists; repeat (constructor 1 || constructor 2)
              | right; split; [done|]; eexists; repeat (constructor 1 || constructor 2) ].
  - intros [[-> [b H]]|[-> [b H]]]; set_unfold in H; destruct_or?; simplify_eq; done.
Qed.

Lemma bool_if_allowed (b : bool) reason :
  b = true ↔ (if b then Allowed else Denied reason) = Allowed.
Proof. by destruct b. Qed.

Lemma check_resource_receiver_queue cn q :
  check_resource Receiver cn "queue" q = Allowed ↔ ∃ t, q = cn +:+ "_" +:+ t.
Proof.
  unfold check_resource. simpl.
  destruct (starts_with (cn +:+ "_") q) eqn:E; simpl.
  - split; [|done]. intros _. apply starts_with_iff in E as [t ->]. exists t. by rewrite app_assoc.
  - case_bool_decide as Hq; split; try done.
    + intros _. subst. by exists "queue".
    + intros [t ->]. rewrite app_assoc in E. by rewrite starts_with_app in E.
Qed.

Lemma app_prefix_split s t u v :
  s +:+ t = u +:+ v → (∃ w, u = s +:+ w ∧ t = w +:+ v) ∨ (∃ w, s = u +:+ w ∧ v = w +:+ t).
Proof.
  revert u. induction s as [|a s IH]; intros [|b u]; intros H.
  - left. by exists "".
  - left. by exists (String b u).
  - right. by exists (String a s).
  - rewrite !app_cons in H. injection H as -> H.
    destruct (IH _ H) as [[w [-> ->]]|[w [-> ->]]]; [left|right]; by exists w.
Qed.

(** ** Properties *)

(** C28: the code implements the permission matrix of its own comment and of
    [docs/Project_Architecture.md]: a command is allowed for a role exactly when
    the table grants it (Admin everything, Unknown nothing, any command outside
    the table to nobody but Admin). The table of the README lists no [resend]
    for receivers. *)
Theorem check_command_matrix role command :
  check_command role command = Allowed ↔ granted role command.
Proof.
  unfold check_command. destruct role; simpl; [..|done|done].
  all: rewrite <-(bool_if_allowed _ command_reason), command_allowed_spec.
  all: split; [intros [[? H]|[? H]]; done|eauto].
Qed.

(** Receivers are isolated unless their names nest: if two receivers may
    both manage a queue then they have the same name or the name of one is the
    other's followed by an underscore and more text. *)
Theorem queue_isolation cn1 cn2 q :
  check_resource Receiver cn1 "queue" q = Allowed →
  check_resource Receiver cn2 "queue" q = Allowed →
  cn1 = cn2 ∨ (∃ t, cn2 = cn1 +:+ "_" +:+ t) ∨ (∃ t, cn1 = cn2 +:+ "_" +:+ t).
Proof.
  rewrite !check_resource_receiver_queue. intros [t1 ->] [t2 H].
  apply app_prefix_split in H as [[w [-> H]]|[w [-> H]]].
  - destruct w as [|c w]; [by left; rewrite app_nil_r|].
    rewrite !app_cons in H. simplify_eq. right; left. by exists w.
  - destruct w as [|c w]; [by left; rewrite app_nil_r|].
    rewrite !app_cons in H. simplify_eq. right; right. by exists w.
Qed.

Lemma queue_isolation_witness :
  "receiver" = "receiver_1" ∨ (∃ t, "receiver_1" = "receiver" +:+ "_" +:+ t)
  ∨ (∃ t, "receiver" = "receiver_1" +:+ "_" +:+ t).
Proof. apply (queue_isolation "receiver" "receiver_1" "receiver_1_queue"); reflexivity. Defined.

End Acl.
