(* ===== verification/Storage.v ===== *)
(** The storage actor, [server/src/storage.rs]: one task owns the PostgreSQL
    pool and serves commands from a channel; delivery and acknowledgement times
    are buffered and flushed in batches; public keys are stored encrypted.

    The two tables are maps from their primary keys and every SQL statement of
    the source is a function on them. What the database, the cipher, the Base64
    codec and the random generator do is given from outside: the cipher and the
    codec are the operations of [Primitives], and each step of the actor takes
    an [Env] with the outcomes of its database calls and its random bytes. *)
From S2P Require Import Prelude RustStr.
From stdpp Require Import list options.

(** ** What the code around the actor relies on *)

(** Base64 (crate [base64], standard alphabet) and AES-256-GCM (crate
    [aes_gcm]); byte vectors are [string]s. Errors carry their display text. *)
Class Primitives := {
  b64_encode : string → string;
  b64_decode : string → result string string;
  gcm_encrypt : string → string → string → result string string;
  gcm_decrypt : string → string → string → result string string
}.

(** Documented behaviour: decoding inverts encoding; decryption under the same
    key and nonce inverts encryption; a ciphertext ends with the 16-byte tag. *)
Class PrimitivesOk (P : Primitives) : Prop := {
  b64_round_trip : ∀ x, b64_decode (b64_encode x) = Ok x;
  gcm_round_trip : ∀ k n p c, gcm_encrypt k n p = Ok c → gcm_decrypt k n c = Ok p;
  gcm_tag : ∀ k n p c, gcm_encrypt k n p = Ok c → String.length c = (String.length p + 16)%nat
}.

Module Storage.
Import RustStr.

(** [enum StorageError]; a [sqlx::Error] is its display text. *)
Inductive StorageError :=
| Postgres (e : string)
| ChannelSend (e : string)
| ChannelReceive
| EncryptionError (e : string).

#[global] Instance StorageError_eq_dec : EqDecision StorageError.
Proof. solve_decision. Defined.

(** The [Display] derived by [thiserror]. *)
Definition display (e : StorageError) : string :=
  match e with
  | Postgres e => "PostgreSQL error: " +:+ e
  | ChannelSend e => "Channel send error: " +:+ e
  | ChannelReceive => "Channel receive error"
  | EncryptionError e => "Encryption error: " +:+ e
  end.

(** [struct MessageMetadata], also the row type of [message_metadata]. *)
Record MessageMetadata := {
  message_id : string;
  client_id : string;
  exchange_name : string;
  routing_key : string;
  sent_time : option string;
  delivered_time : option string;
  acknowledged_time : option string
}.

(** [struct PublicKeyData] *)
Record PublicKeyData := { key_client_id : string; public_key : string }.

(** A row of [public_keys] without its primary key. *)
Record PublicKeyRow := { public_key_ciphertext : string; nonce : string; tag : string }.

(** [enum StorageCommand]; the reply channel of a command is the place where
    the actor's answer goes, see [Reply]. *)
Inductive StorageCommand :=
| SaveMetadata (md : MessageMetadata)
| UpdateDeliveredTimeAsync (id time : string)
| UpdateAcknowledgedTimeAsync (id time : string)
| UpdateDeliveredTime (id time : string)
| UpdateAcknowledgedTime (id time : string)
| LoadUnacknowledgedMetadata
| GetClientIdForMessage (id : string)
| SavePublicKey (k : PublicKeyData)
| GetPublicKey (cid : string)
| FlushUpdates.

(** What is sent on the reply channel; [NoReply] when the channel is dropped
    unanswered (or the command has none). *)
Inductive Reply :=
| RUnit (r : result unit StorageError)
| RRows (r : result (list MessageMetadata) StorageError)
| RText (r : result (option string) StorageError)
| NoReply.

(** The two tables created by [Storage::new]. *)
Record Db := {
  message_metadata : gmap string MessageMetadata;
  public_keys : gmap string PublicKeyRow
}.

(** The local variables of the actor's loop. *)
Record Worker := {
  db : Db;
  delivered_updates : gmap string string;
  acknowledged_updates : gmap string string;
  aes_key : string
}.

(** Inputs of one step: whether the pool reports closed, the outcomes of
    connection attempts, the outcomes of the statements executed ([Some e] is
    an [sqlx] error), and 12 random bytes. A missing outcome is a success. *)
Record Env := {
  pool_is_closed : bool;
  connects : list (option string);
  faults : list (option string);
  rnd : string
}.

Definition outcome (l : list (option string)) (n : nat) : option string :=
  default None (l !! n).

Definition BATCH_SIZE : nat := 50.
Definition max_attempts : nat := 5.

(** [Storage::connect_with_retry]: the attempts made and the outcome. The
    recursion is on the attempts left of [max_attempts]. *)
Fixpoint connect_loop (left : nat) (attempt : nat) (outcomes : list (option string))
    : nat * result unit StorageError :=
  match outcome outcomes attempt with
  | None => (S attempt, Ok ())
  | Some e =>
      match left with
      | O => (S attempt, Err (Postgres e))
      | S left' => connect_loop left' (S attempt) outcomes
      end
  end.
Definition connect_with_retry (outcomes : list (option string))
    : nat * result unit StorageError :=
  connect_loop (max_attempts - 1) 0 outcomes.

(** *** The SQL statements *)

(** [INSERT INTO message_metadata ... ON CONFLICT (message_id) DO UPDATE]: the
    conflict clause leaves [delivered_time] and [acknowledged_time] alone. *)
Definition upsert_metadata (md : MessageMetadata) (t : gmap string MessageMetadata)
    : gmap string MessageMetadata :=
  match t !! message_id md with
  | None => <[message_id md := md]> t
  | Some old =>
      <[message_id md :=
        {| message_id := message_id old;
           client_id := client_id md;
           exchange_name := exchange_name md;
           routing_key := routing_key md;
           sent_time := sent_time md;
           delivered_time := delivered_time old;
           acknowledged_time := acknowledged_time old |}]> t
  end.

(** [SET delivered_time = .. WHERE delivered_time IS NULL] on one row. *)
Definition set_delivered (time : string) (r : MessageMetadata) : MessageMetadata :=
  match delivered_time r with
  | Some _ => r
  | None => {| message_id := message_id r; client_id := client_id r;
               exchange_name := exchange_name r; routing_key := routing_key r;
               sent_time := sent_time r; delivered_time := Some time;
               acknowledged_time := acknowledged_time r |}
  end.

Definition set_acknowledged (time : string) (r : MessageMetadata) : MessageMetadata :=
  match acknowledged_time r with
  | Some _ => r
  | None => {| message_id := message_id r; client_id := client_id r;
               exchange_name := exchange_name r; routing_key := routing_key r;
               sent_time := sent_time r; delivered_time := delivered_time r;
               acknowledged_time := Some time |}
  end.

(** [UPDATE .. FROM (SELECT unnest(ids), unnest(times)) WHERE message_id = mid] *)
Definition update_from (set : string → MessageMetadata → MessageMetadata)
    (updates : gmap string string) (t : gmap string MessageMetadata)
    : gmap string MessageMetadata :=
  map_imap (λ id r, Some (match updates !! id with Some time => set time r | None => r end)) t.

Definition with_metadata (f : gmap string MessageMetadata → gmap string MessageMetadata)
    (d : Db) : Db :=
  {| message_metadata := f (message_metadata d); public_keys := public_keys d |}.

Definition with_db (f : Db → Db) (w : Worker) : Worker :=
  {| db := f (db w); delivered_updates := delivered_updates w;
     acknowledged_updates := acknowledged_updates w; aes_key := aes_key w |}.
Definition with_delivered (u : gmap string string) (w : Worker) : Worker :=
  {| db := db w; delivered_updates := u;
     acknowledged_updates := acknowledged_updates w; aes_key := aes_key w |}.
Definition with_acknowledged (u : gmap string string) (w : Worker) : Worker :=
  {| db := db w; delivered_updates := delivered_updates w;
     acknowledged_updates := u; aes_key := aes_key w |}.

(** Runs a statement that the database accepts or refuses. *)
Definition execute (fault : option string) (f : Db → Db) (w : Worker)
    : result unit StorageError * Worker :=
  match fault with
  | None => (Ok (), with_db f w)
  | Some e => (Err (Postgres e), w)
  end.

(** [Storage::flush_delivered_updates]: the buffer is cleared whether or not
    the statement succeeded. The number counts the statements executed. *)
Definition flush_delivered_updates (fault : option string) (w : Worker) : nat * Worker :=
  if decide (delivered_updates w = ∅) then (0, w)
  else
    let w' := (execute fault (with_metadata (update_from set_delivered (delivered_updates w))) w).2
    in (1, with_delivered ∅ w').

(** [Storage::flush_acknowledged_updates] *)
Definition flush_acknowledged_updates (fault : option string) (w : Worker) : nat * Worker :=
  if decide (acknowledged_updates w = ∅) then (0, w)
  else
    let w' :=
      (execute fault (with_metadata (update_from set_acknowledged (acknowledged_updates w))) w).2
    in (1, with_acknowledged ∅ w').

(** [update_delivered_time_sync] and [update_acknowledged_time_sync]: one row. *)
Definition update_delivered_time_sync (id time : string) (fault : option string) (w : Worker)
    : result unit StorageError * Worker :=
  execute fault (with_metadata (alter (set_delivered time) id)) w.
Definition update_acknowledged_time_sync (id time : string) (fault : option string) (w : Worker)
    : result unit StorageError * Worker :=
  execute fault (with_metadata (alter (set_acknowledged time) id)) w.

(** Both flushes in the order of the loop, as [FlushUpdates] and the interval
    tick run them. *)
Definition flush_both (l : list (option string)) (w : Worker) : Worker :=
  let '(n, w1) := flush_delivered_updates (outcome l 0) w in
  (flush_acknowledged_updates (outcome l n) w1).2.

Section WithPrimitives.
Context `{P : Primitives}.

(** Splits a byte vector at a position ([split_at]). *)
Definition split_at (n : nat) (s : string) : string * string :=
  (String.substring 0 n s, String.substring n (String.length s - n) s).

(** The body of the [SavePublicKey] arm. [None] is a panic: [len() - 16]
    underflows on a ciphertext shorter than its tag. *)
Definition save_public_key_arm (key : PublicKeyData) (rnd : string) (fault : option string)
    (w : Worker) : option (result unit StorageError * Worker) :=
  match b64_decode (public_key key) with
  | Err e => Some (Err (EncryptionError ("Invalid public key: " +:+ e)), w)
  | Ok bytes =>
      match gcm_encrypt (aes_key w) rnd bytes with
      | Err e => Some (Err (EncryptionError ("Encryption failed: " +:+ e)), w)
      | Ok c =>
          if decide (String.length c < 16)%nat then None
          else
            let '(ct, tg) := split_at (String.length c - 16) c in
            let row := {| public_key_ciphertext := b64_encode ct;
                          nonce := b64_encode rnd; tag := b64_encode tg |} in
            Some (execute fault
              (λ d, {| message_metadata := message_metadata d;
                       public_keys := <[key_client_id key := row]> (public_keys d) |}) w)
      end
  end.

(** The decryption of one row in the [GetPublicKey] arm; [None] is a panic
    ([Nonce::from_slice] on a nonce that is not 12 bytes long). *)
Definition decrypt_row (key : string) (r : PublicKeyRow)
    : option (result string StorageError) :=
  match b64_decode (public_key_ciphertext r) with
  | Err e => Some (Err (EncryptionError ("Invalid ciphertext: " +:+ e)))
  | Ok ct =>
      match b64_decode (nonce r) with
      | Err e => Some (Err (EncryptionError ("Invalid nonce: " +:+ e)))
      | Ok n =>
          match b64_decode (tag r) with
          | Err e => Some (Err (EncryptionError ("Invalid tag: " +:+ e)))
          | Ok tg =>
              if decide (String.length n = 12%nat) then
                Some (match gcm_decrypt key n (ct +:+ tg) with
                      | Ok p => Ok (b64_encode p)
                      | Err e => Err (EncryptionError ("Decryption failed: " +:+ e))
                      end)
              else None
          end
      end
  end.

(** The [GetPublicKey] arm. *)
Definition get_public_key_arm (cid : string) (fault : option string) (w : Worker)
    : option (result (option string) StorageError) :=
  match fault with
  | Some e => Some (Err (Postgres e))
  | None =>
      match public_keys (db w) !! cid with
      | None => Some (Ok None)
      | Some r => (λ x, match x with Ok s => Ok (Some s) | Err e => Err e end)
                    <$> decrypt_row (aes_key w) r
      end
  end.

(** The [match command] of the actor's loop. *)
Definition process (env : Env) (cmd : StorageCommand) (w : Worker) : option (Reply * Worker) :=
  let fault := outcome (faults env) 0 in
  match cmd with
  | SaveMetadata md =>
      let '(r, w') := execute fault (with_metadata (upsert_metadata md)) w in Some (RUnit r, w')
  | UpdateDeliveredTimeAsync id time =>
      let u := <[id := time]> (delivered_updates w) in
      let w' := with_delivered u w in
      Some (NoReply, if decide (BATCH_SIZE ≤ size u)
                     then (flush_delivered_updates fault w').2 else w')
  | UpdateAcknowledgedTimeAsync id time =>
      let u := <[id := time]> (acknowledged_updates w) in
      let w' := with_acknowledged u w in
      Some (NoReply, if decide (BATCH_SIZE ≤ size u)
                     then (flush_acknowledged_updates fault w').2 else w')
  | UpdateDeliveredTime id time =>
      let '(r, w') := update_delivered_time_sync id time fault w in Some (RUnit r, w')
  | UpdateAcknowledgedTime id time =>
      let '(r, w') := update_acknowledged_time_sync id time fault w in Some (RUnit r, w')
  | FlushUpdates => Some (NoReply, flush_both (faults env) w)
  | LoadUnacknowledgedMetadata =>
      Some (RRows (match fault with
                   | Some e => Err (Postgres e)
                   | None => Ok (filter (λ r, acknowledged_time r = None)
                                        (map_to_list (message_metadata (db w))).*2)
                   end), w)
  | GetClientIdForMessage id =>
      Some (RText (match fault with
                   | Some e => Err (Postgres e)
                   | None => Ok (client_id <$> message_metadata (db w) !! id)
                   end), w)
  | SavePublicKey key =>
      '(r, w') ← save_public_key_arm key (rnd env) fault w; Some (RUnit r, w')
  | GetPublicKey cid =>
      r ← get_public_key_arm cid fault w; Some (RText r, w)
  end.

(** One command taken from the channel: when the pool is closed the actor
    reconnects first, and drops the command if it cannot. *)
Definition recv (env : Env) (cmd : StorageCommand) (w : Worker) : option (Reply * Worker) :=
  if pool_is_closed env then
    match (connect_with_retry (connects env)).2 with
    | Ok _ => process env cmd w
    | Err _ => Some (NoReply, w)
    end
  else process env cmd w.

(** The flush interval's tick. *)
Definition tick (env : Env) (w : Worker) : Worker :=
  if decide (delivered_updates w = ∅ ∧ acknowledged_updates w = ∅) then w
  else flush_both (faults env) w.

(** *** The handle: a FIFO channel to the actor *)

(** [Storage] with the state of the actor behind it. The actor is dead after a
    panic. [envs] are the inputs of the coming steps; when they run out, the
    database answers and the random bytes are zero. *)
Record Store := {
  chan : list StorageCommand;
  worker : Worker;
  alive : bool;
  envs : list Env
}.

Definition calm : Env :=
  {| pool_is_closed := false; connects := []; faults := [];
     rnd := String.string_of_list_ascii (replicate 12 Ascii.zero) |}.

Definition next_env (s : list Env) : Env * list Env :=
  match s with [] => (calm, []) | e :: r => (e, r) end.

(** The actor serves the head of the channel. *)
Definition serve (s : Store) : Reply * Store :=
  match chan s with
  | [] => (NoReply, s)
  | cmd :: rest =>
      let '(env, es) := next_env (envs s) in
      match recv env cmd (worker s) with
      | Some (r, w) => (r, {| chan := rest; worker := w; alive := true; envs := es |})
      | None => (NoReply, {| chan := []; worker := worker s; alive := false; envs := es |})
      end
  end.

(** Serves [n] commands; the answer is the last one's. *)
Fixpoint serve_n (n : nat) (s : Store) : Reply * Store :=
  match n with
  | O => (NoReply, s)
  | S O => serve s
  | S n' => serve_n n' (serve s).2
  end.

Definition set_chan (c : list StorageCommand) (s : Store) : Store :=
  {| chan := c; worker := worker s; alive := alive s; envs := envs s |}.

(** A method without a reply channel: the command is queued; the error of a
    closed channel is ignored. *)
Definition cast (cmd : StorageCommand) (s : Store) : Store :=
  if alive s then set_chan (chan s ++ [cmd]) s else s.

(** A method with a reply channel: it waits while the actor serves everything
    queued before the command, and then the command. *)
Definition call (name : string) (cmd : StorageCommand) (s : Store)
    : result Reply StorageError * Store :=
  if alive s then
    let s1 := set_chan (chan s ++ [cmd]) s in
    let '(r, s2) := serve_n (length (chan s1)) s1 in
    (Ok r, s2)
  else (Err (ChannelSend ("Failed to send " +:+ name +:+ " command")), s).

Definition unit_reply (r : result Reply StorageError) : result unit StorageError :=
  match r with Ok (RUnit x) => x | Ok _ => Err ChannelReceive | Err e => Err e end.
Definition text_reply (r : result Reply StorageError) : result (option string) StorageError :=
  match r with Ok (RText x) => x | Ok _ => Err ChannelReceive | Err e => Err e end.
Definition rows_reply (r : result Reply StorageError)
    : result (list MessageMetadata) StorageError :=
  match r with Ok (RRows x) => x | Ok _ => Err ChannelReceive | Err e => Err e end.

(** The public methods of [Storage]. *)
Definition update_delivered_time_async (id time : string) (s : Store) : Store :=
  cast (UpdateDeliveredTimeAsync id time) s.
Definition update_acknowledged_time_async (id time : string) (s : Store) : Store :=
  cast (UpdateAcknowledgedTimeAsync id time) s.
Definition save_metadata (md : MessageMetadata) (s : Store) : result unit StorageError * Store :=
  let '(r, s') := call "SaveMetadata" (SaveMetadata md) s in (unit_reply r, s').
Definition update_delivered_time (id time : string) (s : Store)
    : result unit StorageError * Store :=
  let '(r, s') := call "UpdateDeliveredTime" (UpdateDeliveredTime id time) s in
  (unit_reply r, s').
Definition update_acknowledged_time (id time : string) (s : Store)
    : result unit StorageError * Store :=
  let '(r, s') := call "UpdateAcknowledgedTime" (UpdateAcknowledgedTime id time) s in
  (unit_reply r, s').
Definition load_unacknowledged_metadata (s : Store)
    : result (list MessageMetadata) StorageError * Store :=
  let '(r, s') := call "LoadUnacknowledgedMetadata" LoadUnacknowledgedMetadata s in
  (rows_reply r, s').
Definition get_client_id_for_message (id : string) (s : Store)
    : result (option string) StorageError * Store :=
  let '(r, s') := call "GetClientIdForMessage" (GetClientIdForMessage id) s in
  (text_reply r, s').
Definition save_public_key (k : PublicKeyData) (s : Store) : result unit StorageError * Store :=
  let '(r, s') := call "SavePublicKey" (SavePublicKey k) s in (unit_reply r, s').
Definition get_public_key (cid : string) (s : Store)
    : result (option string) StorageError * Store :=
  let '(r, s') := call "GetPublicKey" (GetPublicKey cid) s in (text_reply r, s').

(** *** Opening the storage *)

(** The start of the actor: it loads the configuration again, and [reloaded] is
    the text of its key, [None] when it does not load, which is a panic. The
    actor also ends at once when the key does not decode, and panics when it is
    not 32 bytes. *)
Definition start_worker (reloaded : option string) (d : Db) : option Worker :=
  match reloaded with
  | None => None
  | Some aes_key_text =>
      match b64_decode aes_key_text with
      | Ok key => if decide (String.length key = 32)
                  then Some {| db := d; delivered_updates := ∅; acknowledged_updates := ∅;
                               aes_key := key |}
                  else None
      | Err _ => None
      end
  end.

(** [Storage::new]: connect, create the two tables if they do not exist, and
    start the actor. [create1] and [create2] are the outcomes of the two
    [CREATE TABLE IF NOT EXISTS] statements, [d] the tables. *)
Definition open_storage (connects : list (option string)) (create1 create2 : option string)
    (reloaded : option string) (d : Db) (es : list Env) : result Store StorageError :=
  try _u ← (connect_with_retry connects).2;
  match create1, create2 with
  | Some e, _ | None, Some e => Err (Postgres e)
  | None, None =>
      Ok (match start_worker reloaded d with
          | Some w => {| chan := []; worker := w; alive := true; envs := es |}
          | None => {| chan := []; alive := false; envs := es;
                       worker := {| db := d; delivered_updates := ∅; acknowledged_updates := ∅;
                                    aes_key := "" |} |}
          end)
  end.

End WithPrimitives.
End Storage.
