(* ===== verification/StorageFacts.v ===== *)
(** Facts about the storage actor and the interface it offers to the rest of
    the server.

    [StorageApi] lists the methods of [Storage] that [state.rs] and [server.rs]
    call, [StorageLaws] what they promise about the owner of a message; the
    clients are modelled against these classes and the actor of [Storage.v] is
    an instance of both. *)
From S2P Require Import Prelude RustStr Storage.
From stdpp Require Import list options.

(** ** The interface *)

Class StorageApi (S : Type) := {
  api_save_metadata : Storage.MessageMetadata → S → result unit Storage.StorageError * S;
  api_update_delivered_time_async : string → string → S → S;
  api_update_acknowledged_time_async : string → string → S → S;
  api_get_client_id_for_message : string → S → result (option string) Storage.StorageError * S;
  api_save_public_key : Storage.PublicKeyData → S → result unit Storage.StorageError * S;
  api_get_public_key : string → S → result (option string) Storage.StorageError * S
}.

(** [owner s id] is the client recorded as the sender of message [id]. *)
Class StorageLaws (S : Type) `{StorageApi S} := {
  store_wf : S → Prop;
  owner : S → string → option string;
  save_metadata_law md s r s' :
    store_wf s → api_save_metadata md s = (r, s') →
    store_wf s' ∧
    ∀ id, owner s' id =
      if decide (r = Ok () ∧ id = Storage.message_id md)
      then Some (Storage.client_id md) else owner s id;
  update_delivered_law id t s :
    store_wf s → store_wf (api_update_delivered_time_async id t s)
                 ∧ ∀ k, owner (api_update_delivered_time_async id t s) k = owner s k;
  update_acknowledged_law id t s :
    store_wf s → store_wf (api_update_acknowledged_time_async id t s)
                 ∧ ∀ k, owner (api_update_acknowledged_time_async id t s) k = owner s k;
  get_client_id_law id s r s' :
    store_wf s → api_get_client_id_for_message id s = (r, s') →
    store_wf s' ∧ (∀ k, owner s' k = owner s k) ∧ (∀ o, r = Ok o → o = owner s id);
  save_public_key_law k s r s' :
    store_wf s → api_save_public_key k s = (r, s') →
    store_wf s' ∧ ∀ id, owner s' id = owner s id;
  get_public_key_law cid s r s' :
    store_wf s → api_get_public_key cid s = (r, s') →
    store_wf s' ∧ ∀ id, owner s' id = owner s id
}.

Module StorageFacts.
Import RustStr Storage.

(** ** Tables *)

(** Steps that leave the owners, the public keys and the cipher key alone. *)
Definition quiet (w w' : Worker) : Prop :=
  (∀ id, client_id <$> message_metadata (db w') !! id
         = client_id <$> message_metadata (db w) !! id)
  ∧ public_keys (db w') = public_keys (db w) ∧ aes_key w' = aes_key w.

#[export] Instance quiet_preorder : PreOrder quiet.
Proof.
  split; [by intros w|]. intros w1 w2 w3 (H1&H2&H3) (H4&H5&H6).
  split_and!; [|congruence..]. intros id. by rewrite H4.
Qed.

Lemma client_id_set_delivered t r : client_id (set_delivered t r) = client_id r.
Proof. unfold set_delivered. by destruct (delivered_time r). Qed.
Lemma client_id_set_acknowledged t r : client_id (set_acknowledged t r) = client_id r.
Proof. unfold set_acknowledged. by destruct (acknowledged_time r). Qed.

Lemma lookup_update_from set u t id :
  update_from set u t !! id =
  (λ r, match u !! id with Some time => set time r | None => r end) <$> t !! id.
Proof. unfold update_from. rewrite map_lookup_imap. by destruct (t !! id). Qed.

Lemma quiet_execute fault f w :
  (∀ d, (∀ id, client_id <$> message_metadata (f d) !! id = client_id <$> message_metadata d !! id)
        ∧ public_keys (f d) = public_keys d) →
  quiet w (execute fault f w).2.
Proof. intros Hf. destruct fault; simpl; [done|]. destruct (Hf (db w)). by split_and!. Qed.

Lemma quiet_update_from set u d :
  (∀ t r, client_id (set t r) = client_id r) →
  (∀ id, client_id <$> message_metadata (with_metadata (update_from set u) d) !! id
         = client_id <$> message_metadata d !! id)
  ∧ public_keys (with_metadata (update_from set u) d) = public_keys d.
Proof.
  intros Hset. split; [|done]. intros id. simpl. rewrite lookup_update_from.
  destruct (message_metadata d !! id); simpl; [|done]. f_equal. by case_match.
Qed.

Lemma quiet_with_delivered u w : quiet w (with_delivered u w).
Proof. by split_and!. Qed.
Lemma quiet_with_acknowledged u w : quiet w (with_acknowledged u w).
Proof. by split_and!. Qed.

Lemma quiet_flush_delivered fault w : quiet w (flush_delivered_updates fault w).2.
Proof.
  unfold flush_delivered_updates. case_decide; simpl; [done|].
  etrans; [|apply quiet_with_delivered]. apply quiet_execute. intros d.
  apply quiet_update_from, client_id_set_delivered.
Qed.
Lemma quiet_flush_acknowledged fault w : quiet w (flush_acknowledged_updates fault w).2.
Proof.
  unfold flush_acknowledged_updates. case_decide; simpl; [done|].
  etrans; [|apply quiet_with_acknowledged]. apply quiet_execute. intros d.
  apply quiet_update_from, client_id_set_acknowledged.
Qed.

(** ** The buffers *)

Definition buffers_bounded (w : Worker) : Prop :=
  size (delivered_updates w) < BATCH_SIZE ∧ size (acknowledged_updates w) < BATCH_SIZE.

Lemma execute_buffers fault f w :
  delivered_updates (execute fault f w).2 = delivered_updates w
  ∧ acknowledged_updates (execute fault f w).2 = acknowledged_updates w.
Proof. by destruct fault. Qed.

Lemma flush_delivered_buffers fault w :
  delivered_updates (flush_delivered_updates fault w).2 = ∅
  ∧ acknowledged_updates (flush_delivered_updates fault w).2 = acknowledged_updates w.
Proof. unfold flush_delivered_updates. case_decide; simpl; [done|]. by destruct fault. Qed.
Lemma flush_acknowledged_buffers fault w :
  acknowledged_updates (flush_acknowledged_updates fault w).2 = ∅
  ∧ delivered_updates (flush_acknowledged_updates fault w).2 = delivered_updates w.
Proof. unfold flush_acknowledged_updates. case_decide; simpl; [done|]. by destruct fault. Qed.

Lemma flush_both_buffers l w :
  delivered_updates (flush_both l w) = ∅ ∧ acknowledged_updates (flush_both l w) = ∅.
Proof.
  unfold flush_both. pose proof (flush_delivered_buffers (outcome l 0) w) as [H1 H2].
  destruct (flush_delivered_updates _ w) as [n w1]; simpl in *.
  pose proof (flush_acknowledged_buffers (outcome l n) w1) as [H3 H4]. by rewrite H4, H1.
Qed.

Lemma size_insert_bound (m : gmap string string) k v b :
  size m < b → ¬ b ≤ size (<[k:=v]> m) → size (<[k:=v]> m) < b.
Proof. lia. Qed.

Section WithPrimitives.
Context `{P : Primitives}.

Lemma save_public_key_arm_buffers key r fault w res w' :
  save_public_key_arm key r fault w = Some (res, w') →
  delivered_updates w' = delivered_updates w ∧ acknowledged_updates w' = acknowledged_updates w.
Proof.
  unfold save_public_key_arm. intros H. repeat (case_match || case_decide); simplify_eq; try done.
  apply (f_equal snd) in H; simpl in H; subst. apply execute_buffers.
Qed.

Lemma process_bounded env cmd w r w' :
  buffers_bounded w → process env cmd w = Some (r, w') → buffers_bounded w'.
Proof.
  unfold buffers_bounded, BATCH_SIZE. intros [Hd Ha] Hp.
  assert (size (∅ : gmap string string) = 0) as H0 by apply map_size_empty.
  destruct cmd; simpl in Hp.
  - destruct (outcome (faults env) 0); simplify_eq/=; exact (conj Hd Ha).
  - case_decide; simplify_eq; simpl; [|unfold BATCH_SIZE in *; lia].
    destruct (flush_delivered_buffers (outcome (faults env) 0)
                (with_delivered (<[id:=time]> (delivered_updates w)) w)) as [-> ->].
    simpl. lia.
  - case_decide; simplify_eq; simpl; [|unfold BATCH_SIZE in *; lia].
    destruct (flush_acknowledged_buffers (outcome (faults env) 0)
                (with_acknowledged (<[id:=time]> (acknowledged_updates w)) w)) as [-> ->].
    simpl. lia.
  - unfold update_delivered_time_sync in Hp.
    destruct (outcome (faults env) 0); simplify_eq/=; exact (conj Hd Ha).
  - unfold update_acknowledged_time_sync in Hp.
    destruct (outcome (faults env) 0); simplify_eq/=; exact (conj Hd Ha).
  - simplify_eq. exact (conj Hd Ha).
  - simplify_eq. exact (conj Hd Ha).
  - destruct (save_public_key_arm _ _ _ _) as [[r0 w0]|] eqn:E; simplify_eq/=.
    apply save_public_key_arm_buffers in E as [-> ->]. exact (conj Hd Ha).
  - destruct (get_public_key_arm _ _ _); simplify_eq/=. exact (conj Hd Ha).
  - simplify_eq. destruct (flush_both_buffers (faults env) w) as [-> ->]. lia.
Qed.

Lemma recv_bounded env cmd w r w' :
  buffers_bounded w → recv env cmd w = Some (r, w') → buffers_bounded w'.
Proof.
  unfold recv. intros Hw H. repeat case_match; simplify_eq; eauto using process_bounded.
Qed.

(** ** Draining the channel *)

(** Commands without a reply channel that only touch the buffers. *)
Definition is_async (cmd : StorageCommand) : Prop :=
  match cmd with
  | UpdateDeliveredTimeAsync _ _ | UpdateAcknowledgedTimeAsync _ _ => True
  | _ => False
  end.

(** The state of a handle between calls: only buffered updates wait in the
    channel, and random nonces have the length of the [[u8; 12]] they are. *)
Definition env_ok (e : Env) : Prop := String.length (rnd e) = 12.
Definition handle_ok (s : Store) : Prop :=
  Forall is_async (chan s) ∧ Forall env_ok (envs s).

Lemma next_env_ok l : Forall env_ok l → env_ok (next_env l).1 ∧ Forall env_ok (next_env l).2.
Proof. by destruct 1. Qed.

Lemma recv_async env cmd w :
  is_async cmd → ∃ w', recv env cmd w = Some (NoReply, w') ∧ quiet w w'.
Proof.
  intros Hc. assert (∃ w', process env cmd w = Some (NoReply, w') ∧ quiet w w') as (w' & Hp & Hq).
  { destruct cmd; try done; simpl; eexists; split; try done; case_decide;
      eauto using quiet_with_delivered, quiet_with_acknowledged.
    - etrans; [apply quiet_with_delivered|apply quiet_flush_delivered].
    - etrans; [apply quiet_with_acknowledged|apply quiet_flush_acknowledged]. }
  unfold recv. repeat case_match; eauto. by exists w.
Qed.

(** The actor serves the buffered updates before the command of a call. *)
Lemma drain l cmd s :
  Forall is_async l → Forall env_ok (envs s) → chan s = l ++ [cmd] →
  ∃ s', chan s' = [cmd] ∧ quiet (worker s) (worker s') ∧ Forall env_ok (envs s')
        ∧ serve_n (length (chan s)) s = serve s'.
Proof.
  revert s. induction l as [|c l IH]; intros s Hl He Hc.
  { exists s. by rewrite Hc. }
  inversion_clear Hl as [|? ? Hc1 Hl']. rewrite Hc. simpl.
  destruct (recv_async (next_env (envs s)).1 c (worker s)) as (w' & Hr & Hq); [done|].
  destruct (next_env_ok _ He) as [_ He'].
  set (s1 := {| chan := l ++ [cmd]; worker := w'; alive := true; envs := (next_env (envs s)).2 |}).
  assert (serve s = (NoReply, s1)) as Hs.
  { unfold serve. rewrite Hc. simpl. destruct (next_env (envs s)) as [e es]; simpl in *.
    by rewrite Hr. }
  destruct (IH s1) as (s' & H1 & H2 & H3 & H4); [done|done|done|].
  exists s'. split_and!; [done|by etrans|done|]. rewrite <-H4.
  simpl. rewrite Hs. destruct l; simpl; done.
Qed.

(** A call, after the actor caught up: it serves the command alone. *)
Lemma call_spec name cmd s r s' :
  handle_ok s → call name cmd s = (r, s') →
  if alive s then
    ∃ s0, chan s0 = [cmd] ∧ quiet (worker s) (worker s0) ∧ Forall env_ok (envs s0)
          ∧ r = Ok (serve s0).1 ∧ s' = (serve s0).2
  else s' = s ∧ r = Err (ChannelSend ("Failed to send " +:+ name +:+ " command")).
Proof.
  intros [Hc He]. unfold call. destruct (alive s); [|naive_solver].
  destruct (drain (chan s) cmd (set_chan (chan s ++ [cmd]) s)) as (s0 & H1 & H2 & H3 & H4);
    [done|done|done|].
  rewrite H4. destruct (serve s0) as [rep s2] eqn:E. intros; simplify_eq.
  exists s0. by rewrite E.
Qed.

Definition message_owner (s : Store) (id : string) : option string :=
  client_id <$> message_metadata (db (worker s)) !! id.

Lemma serve_single cmd s :
  chan s = [cmd] → Forall env_ok (envs s) → handle_ok (serve s).2.
Proof.
  intros Hc He. unfold serve. rewrite Hc. destruct (next_env_ok _ He) as [_ He'].
  destruct (next_env (envs s)) as [e es]; simpl in *. by destruct (recv e cmd _) as [[??]|].
Qed.

Lemma upsert_owner md t id :
  client_id <$> upsert_metadata md t !! id =
  if decide (id = message_id md) then Some (client_id md) else client_id <$> t !! id.
Proof.
  unfold upsert_metadata. case_decide; subst.
  - by destruct (t !! message_id md); rewrite lookup_insert_eq.
  - by destruct (t !! message_id md); rewrite lookup_insert_ne.
Qed.

(** What serving a command does to the owners, as a function of the reply. *)
Definition owner_effect (cmd : StorageCommand) (r : Reply) (id : string) : option string :=
  match cmd, r with
  | SaveMetadata md, RUnit (Ok _) => if decide (id = message_id md) then Some (client_id md) else None
  | _, _ => None
  end.

Lemma process_owner env cmd w r w' id :
  process env cmd w = Some (r, w') →
  client_id <$> message_metadata (db w') !! id =
  match owner_effect cmd r id with
  | Some c => Some c
  | None => client_id <$> message_metadata (db w) !! id
  end.
Proof.
  intros Hp. destruct cmd; simpl in Hp.
  - destruct (outcome (faults env) 0); simplify_eq/=; [done|].
    rewrite upsert_owner. by case_decide.
  - simplify_eq/=. case_decide; [|done].
    exact (proj1 (quiet_flush_delivered _ (with_delivered _ w)) id).
  - simplify_eq/=. case_decide; [|done].
    exact (proj1 (quiet_flush_acknowledged _ (with_acknowledged _ w)) id).
  - unfold update_delivered_time_sync in Hp. destruct (outcome (faults env) 0); simplify_eq/=; [done|].
    rewrite lookup_alter. case_decide; subst; [|done].
    destruct (_ !! _); simpl; [|done]. by rewrite client_id_set_delivered.
  - unfold update_acknowledged_time_sync in Hp.
    destruct (outcome (faults env) 0); simplify_eq/=; [done|].
    rewrite lookup_alter. case_decide; subst; [|done].
    destruct (_ !! _); simpl; [|done]. by rewrite client_id_set_acknowledged.
  - by simplify_eq.
  - by simplify_eq.
  - destruct (save_public_key_arm _ _ _ _) as [[r0 w0]|] eqn:E; simplify_eq/=.
    unfold save_public_key_arm in E. repeat (case_match || case_decide); simplify_eq; try done.
    by destruct (outcome (faults env) 0); simplify_eq/=.
  - destruct (get_public_key_arm _ _ _); by simplify_eq/=.
  - simplify_eq/=. unfold flush_both.
    pose proof (quiet_flush_delivered (outcome (faults env) 0) w) as Hq.
    destruct (flush_delivered_updates _ w) as [n w1]; simpl in *.
    destruct (quiet_flush_acknowledged (outcome (faults env) n) w1) as [-> _]. apply Hq.
Qed.

Lemma recv_owner env cmd w r w' id :
  recv env cmd w = Some (r, w') →
  client_id <$> message_metadata (db w') !! id =
  match owner_effect cmd r id with
  | Some c => Some c
  | None => client_id <$> message_metadata (db w) !! id
  end.
Proof.
  unfold recv. destruct (pool_is_closed env); [|apply process_owner].
  destruct (connect_with_retry (connects env)).2; [apply process_owner|].
  intros; simplify_eq. by destruct cmd.
Qed.

(** A call changes the owners exactly as its command does. *)
Lemma call_owner name cmd s r s' :
  handle_ok s → call name cmd s = (r, s') →
  handle_ok s' ∧ ∀ id, message_owner s' id =
    match r with
    | Ok rep => match owner_effect cmd rep id with
                | Some c => Some c | None => message_owner s id end
    | Err _ => message_owner s id
    end.
Proof.
  intros Hs Hcall. pose proof (call_spec _ _ _ _ _ Hs Hcall) as H.
  destruct (alive s); [|by destruct H as [-> ->]].
  destruct H as (s0 & Hc & [Hq _] & He & -> & ->). split; [by eapply serve_single|].
  intros id. unfold message_owner. rewrite <-Hq. unfold serve. rewrite Hc.
  destruct (next_env (envs s0)) as [e es].
  destruct (recv e cmd (worker s0)) as [[rep w]|] eqn:Hr; simpl;
    [exact (recv_owner _ _ _ _ _ id Hr)|].
  by destruct cmd.
Qed.

Lemma cast_owner cmd s :
  is_async cmd → handle_ok s → handle_ok (cast cmd s) ∧ ∀ id, message_owner (cast cmd s) id = message_owner s id.
Proof.
  unfold cast, handle_ok. intros Hc [H1 H2]. destruct (alive s); simpl; [|done].
  split_and!; [|done|done]. apply Forall_app. by repeat constructor.
Qed.

(** The actor implements the interface. *)
#[global] Instance Store_api : StorageApi Store := {|
  api_save_metadata := save_metadata;
  api_update_delivered_time_async := update_delivered_time_async;
  api_update_acknowledged_time_async := update_acknowledged_time_async;
  api_get_client_id_for_message := get_client_id_for_message;
  api_save_public_key := save_public_key;
  api_get_public_key := get_public_key
|}.

Lemma serve_client_id id s o :
  chan s = [GetClientIdForMessage id] →
  (serve s).1 = RText (Ok o) → o = message_owner s id.
Proof.
  intros Hc. unfold serve, message_owner. rewrite Hc.
  destruct (next_env (envs s)) as [e es]. unfold recv. simpl.
  repeat case_match; simplify_eq/=; intros Hr; by simplify_eq.
Qed.

#[global] Program Instance Store_laws : StorageLaws Store := {|
  store_wf := handle_ok;
  owner := message_owner
|}.
Next Obligation.
  intros md s r s' Hs H. unfold api_save_metadata, Store_api, save_metadata in H.
  destruct (call _ _ s) as [rep s1] eqn:E; simplify_eq.
  destruct (call_owner _ _ _ _ _ Hs E) as [H1 H2]. split; [done|]. intros id. rewrite H2.
  destruct rep as [[[[]|]| | |]|]; simpl; repeat case_decide; destruct_and?; simplify_eq; try done; exfalso; auto.
Qed.
Next Obligation. intros id t s Hs. by apply cast_owner. Qed.
Next Obligation. intros id t s Hs. by apply cast_owner. Qed.
Next Obligation.
  intros id s r s' Hs H. unfold api_get_client_id_for_message, Store_api in H.
  unfold get_client_id_for_message in H. destruct (call _ _ s) as [rep s1] eqn:E; simplify_eq.
  destruct (call_owner _ _ _ _ _ Hs E) as [H1 H2]. split_and!; [done| |].
  - intros k. rewrite H2. by destruct rep.
  - intros o Ho. pose proof (call_spec _ _ _ _ _ Hs E) as H.
    destruct (alive s); [|by destruct H as [-> ->]].
    destruct H as (s0 & Hc & [Hq _] & He & -> & ->). simpl in Ho.
    destruct (serve s0).1 as [| |x|] eqn:Hsv; simplify_eq/=.
    rewrite (serve_client_id _ _ _ Hc Hsv). apply Hq.
Qed.
Next Obligation.
  intros k s r s' Hs H. unfold api_save_public_key, Store_api, save_public_key in H.
  destruct (call _ _ s) as [rep s1] eqn:E; simplify_eq.
  destruct (call_owner _ _ _ _ _ Hs E) as [H1 H2]. split; [done|]. intros id. rewrite H2.
  by destruct rep.
Qed.
Next Obligation.
  intros cid s r s' Hs H. unfold api_get_public_key, Store_api, get_public_key in H.
  destruct (call _ _ s) as [rep s1] eqn:E; simplify_eq.
  destruct (call_owner _ _ _ _ _ Hs E) as [H1 H2]. split; [done|]. intros id. rewrite H2.
  by destruct rep.
Qed.

(** ** The life of the actor *)

(** One turn of the actor's [select!] loop. *)
Inductive worker_step : Worker → Worker → Prop :=
| step_recv env cmd w r w' : recv env cmd w = Some (r, w') → worker_step w w'
| step_tick env w : worker_step w (tick env w).

Lemma worker_step_bounded w w' : worker_step w w' → buffers_bounded w → buffers_bounded w'.
Proof.
  intros [env cmd ? r ? Hr | env ?] Hb; [by eapply recv_bounded|].
  unfold tick. case_decide; [done|]. unfold buffers_bounded.
  destruct (flush_both_buffers (faults env) w0) as [-> ->].
  rewrite map_size_empty. unfold BATCH_SIZE. lia.
Qed.

(** Times a row has recorded are still there in a later version of the row. *)
Definition keeps_times (r r' : MessageMetadata) : Prop :=
  (delivered_time r ≠ None → delivered_time r' = delivered_time r)
  ∧ (acknowledged_time r ≠ None → acknowledged_time r' = acknowledged_time r).

#[export] Instance keeps_times_preorder : PreOrder keeps_times.
Proof.
  split; [by intros r|]. unfold keeps_times. intros r1 r2 r3 [H1 H2] [H3 H4].
  split; intros Hn; [specialize (H1 Hn); rewrite <-H1 in Hn |- *; auto|].
  specialize (H2 Hn). rewrite <-H2 in Hn |- *. auto.
Qed.

Definition table_extends (t t' : gmap string MessageMetadata) : Prop :=
  ∀ id r, t !! id = Some r → ∃ r', t' !! id = Some r' ∧ keeps_times r r'.

#[export] Instance table_extends_preorder : PreOrder table_extends.
Proof.
  split.
  - intros t id r Hr. by exists r.
  - intros t1 t2 t3 H1 H2 id r Hr. destruct (H1 _ _ Hr) as (r1 & Hr1 & K1).
    destruct (H2 _ _ Hr1) as (r2 & Hr2 & K2). exists r2. split; [done|by etrans].
Qed.

Lemma keeps_set_delivered t r : keeps_times r (set_delivered t r).
Proof. unfold keeps_times, set_delivered. by destruct (delivered_time r) eqn:E; simpl. Qed.
Lemma keeps_set_acknowledged t r : keeps_times r (set_acknowledged t r).
Proof. unfold keeps_times, set_acknowledged. by destruct (acknowledged_time r) eqn:E; simpl. Qed.

Lemma extends_update_from set u t :
  (∀ time r, keeps_times r (set time r)) → table_extends t (update_from set u t).
Proof.
  intros Hset id r Hr. rewrite lookup_update_from, Hr. simpl. eexists; split; [done|].
  by destruct (u !! id).
Qed.

Lemma extends_alter f id t :
  (∀ r, keeps_times r (f r)) → table_extends t (alter f id t).
Proof.
  intros Hf k r Hr. rewrite lookup_alter. case_decide; subst; [|by exists r].
  rewrite Hr. simpl. eauto.
Qed.

Lemma extends_upsert md t : table_extends t (upsert_metadata md t).
Proof.
  intros k r Hr. unfold upsert_metadata. destruct (decide (k = message_id md)) as [->|Hk].
  - rewrite Hr. rewrite lookup_insert_eq. eexists; split; [done|]. by split.
  - exists r. by destruct (t !! message_id md); rewrite lookup_insert_ne.
Qed.

Lemma extends_execute fault f w :
  table_extends (message_metadata (db w)) (f (message_metadata (db w))) →
  table_extends (message_metadata (db w))
                (message_metadata (db (execute fault (with_metadata f) w).2)).
Proof. by destruct fault. Qed.

Lemma extends_flush_delivered fault w :
  table_extends (message_metadata (db w))
                (message_metadata (db (flush_delivered_updates fault w).2)).
Proof.
  unfold flush_delivered_updates. case_decide; [done|].
  apply (extends_execute fault), extends_update_from, keeps_set_delivered.
Qed.
Lemma extends_flush_acknowledged fault w :
  table_extends (message_metadata (db w))
                (message_metadata (db (flush_acknowledged_updates fault w).2)).
Proof.
  unfold flush_acknowledged_updates. case_decide; [done|].
  apply (extends_execute fault), extends_update_from, keeps_set_acknowledged.
Qed.
Lemma extends_flush_both l w :
  table_extends (message_metadata (db w)) (message_metadata (db (flush_both l w))).
Proof.
  unfold flush_both. pose proof (extends_flush_delivered (outcome l 0) w).
  destruct (flush_delivered_updates _ w) as [n w1]; simpl in *.
  etrans; [done|]. apply extends_flush_acknowledged.
Qed.

Lemma process_extends env cmd w r w' :
  process env cmd w = Some (r, w') →
  table_extends (message_metadata (db w)) (message_metadata (db w')).
Proof.
  intros Hp. destruct cmd; simpl in Hp.
  - destruct (execute _ _ w) as [r0 w0] eqn:E; simplify_eq.
    apply (f_equal snd) in E; simpl in E; subst. apply extends_execute, extends_upsert.
  - simplify_eq. case_decide; [|done]. apply (extends_flush_delivered _ (with_delivered _ w)).
  - simplify_eq. case_decide; [|done]. apply (extends_flush_acknowledged _ (with_acknowledged _ w)).
  - destruct (update_delivered_time_sync _ _ _ w) as [r0 w0] eqn:E; simplify_eq.
    apply (f_equal snd) in E; simpl in E; subst.
    apply extends_execute, extends_alter, keeps_set_delivered.
  - destruct (update_acknowledged_time_sync _ _ _ w) as [r0 w0] eqn:E; simplify_eq.
    apply (f_equal snd) in E; simpl in E; subst.
    apply extends_execute, extends_alter, keeps_set_acknowledged.
  - by simplify_eq.
  - by simplify_eq.
  - destruct (save_public_key_arm _ _ _ _) as [[r0 w0]|] eqn:E; simplify_eq/=.
    unfold save_public_key_arm in E. repeat (case_match || case_decide); simplify_eq; try done.
    by destruct (outcome (faults env) 0); simplify_eq/=.
  - destruct (get_public_key_arm _ _ _); by simplify_eq/=.
  - simplify_eq. apply extends_flush_both.
Qed.

Lemma worker_step_extends w w' :
  worker_step w w' → table_extends (message_metadata (db w)) (message_metadata (db w')).
Proof.
  intros [env cmd ? r ? Hr | env ?].
  - unfold recv in Hr. repeat case_match; simplify_eq; eauto using process_extends. done.
  - unfold tick. case_decide; [done|]. apply extends_flush_both.
Qed.

End WithPrimitives.
End StorageFacts.
