(* ===== verification/StorageProps.v ===== *)
(** The properties of the storage actor. *)
From S2P Require Import Prelude RustStr Storage StorageFacts.
From stdpp Require Import list options.
From stdpp Require Import relations.

Module StorageProps.
Import RustStr Storage StorageFacts.

(** ** Shared lemmas *)

Lemma substring_0_full s : String.substring 0 (String.length s) s = s.
Proof. induction s as [|a s IH]; simpl; [done|]. by rewrite IH. Qed.

Lemma split_at_app n s : n ≤ String.length s → (split_at n s).1 +:+ (split_at n s).2 = s.
Proof.
  unfold split_at; simpl. revert n.
  induction s as [|a s IH]; intros [|n] Hn; simpl in *.
  - done.
  - lia.
  - change (("" : string) +:+ String a (String.substring 0 (String.length s) s) = String a s).
    by rewrite substring_0_full.
  - rewrite app_cons. f_equal. apply IH. lia.
Qed.

Lemma connect_loop_bound left n o : (connect_loop left n o).1 ≤ S (n + left).
Proof.
  revert n. induction left as [|left IH]; intros n; simpl.
  - destruct (outcome o n); simpl; lia.
  - destruct (outcome o n); simpl; [|lia]. specialize (IH (S n)). lia.
Qed.

Lemma connect_loop_ok left n o :
  is_ok (connect_loop left n o).2 = true ↔ ∃ i, n ≤ i ≤ n + left ∧ outcome o i = None.
Proof.
  revert n. induction left as [|left IH]; intros n; simpl; destruct (outcome o n) eqn:E; simpl.
  - split; [done|]. intros (i & Hi & Ho). replace i with n in Ho by lia. congruence.
  - split; [|done]. intros _. exists n. split; [lia|done].
  - rewrite IH. split; intros (i & Hi & Ho); exists i; (split; [|done]); [lia|].
    destruct (decide (i = n)); [congruence|lia].
  - split; [|done]. intros _. exists n. split; [lia|done].
Qed.

Section WithPrimitives.
Context `{P : Primitives}.

(** A successful registration leaves the encrypted row behind. *)
Lemma save_public_key_ok key s s1 :
  handle_ok s → save_public_key key s = (Ok (), s1) →
  ∃ bytes n c,
    b64_decode (public_key key) = Ok bytes ∧ String.length n = 12
    ∧ gcm_encrypt (aes_key (worker s1)) n bytes = Ok c ∧ 16 ≤ String.length c
    ∧ chan s1 = [] ∧ alive s1 = true
    ∧ public_keys (db (worker s1)) !! key_client_id key =
      Some {| public_key_ciphertext := b64_encode (split_at (String.length c - 16) c).1;
              nonce := b64_encode n;
              tag := b64_encode (split_at (String.length c - 16) c).2 |}.
Proof.
  intros Hs Hk. unfold save_public_key in Hk.
  destruct (call _ _ s) as [r s'] eqn:E. injection Hk as Hk <-.
  pose proof (call_spec _ _ _ _ _ Hs E) as Hc.
  destruct (alive s); [|by destruct Hc as [_ ->]].
  destruct Hc as (s0 & Hc & Hq & He & -> & ->). simpl in Hk.
  unfold serve in *. rewrite Hc in *. destruct (next_env_ok _ He) as [Hn _].
  destruct (next_env (envs s0)) as [env es]; simpl in Hn.
  destruct (recv env (SavePublicKey key) (worker s0)) as [[rep w]|] eqn:Hr; [|done].
  simpl in *. unfold recv in Hr.
  assert (process env (SavePublicKey key) (worker s0) = Some (rep, w)) as Hp.
  { repeat case_match; simplify_eq; done. }
  simpl in Hp. unfold save_public_key_arm in Hp.
  destruct (b64_decode (public_key key)) as [bytes|] eqn:Hb; simplify_eq/=.
  destruct (gcm_encrypt (aes_key (worker s0)) (rnd env) bytes) as [c|] eqn:Hg; simplify_eq/=.
  destruct (decide (String.length c < 16)); simplify_eq/=.
  unfold execute in Hp. destruct (outcome (faults env) 0); simplify_eq/=.
  exists bytes, (rnd env), c. split_and!; [done|done|done|lia|done|done|].
  by rewrite lookup_insert_eq.
Qed.

(** Reading a row when the database answers. *)
Lemma get_public_key_calm cid s :
  chan s = [] → alive s = true → envs s = [] →
  (get_public_key cid s).1 =
  match public_keys (db (worker s)) !! cid with
  | None => Ok None
  | Some row => match decrypt_row (aes_key (worker s)) row with
                | Some (Ok k) => Ok (Some k)
                | Some (Err e) => Err e
                | None => Err ChannelReceive
                end
  end.
Proof.
  intros Hc Ha He. unfold get_public_key, call. rewrite Ha, Hc. simpl.
  unfold serve, set_chan. simpl. rewrite He. simpl. unfold recv. simpl.
  unfold get_public_key_arm, outcome. simpl.
  destruct (public_keys _ !! cid) as [row|]; simpl; [|done].
  by destruct (decrypt_row _ row) as [[]|].
Qed.

Lemma decrypt_row_round_trip `{!PrimitivesOk P} key n bytes c :
  gcm_encrypt key n bytes = Ok c → String.length n = 12 → 16 ≤ String.length c →
  decrypt_row key {| public_key_ciphertext := b64_encode (split_at (String.length c - 16) c).1;
                     nonce := b64_encode n;
                     tag := b64_encode (split_at (String.length c - 16) c).2 |}
  = Some (Ok (b64_encode bytes)).
Proof.
  intros Hg Hn Hl. unfold decrypt_row. cbn [public_key_ciphertext nonce tag].
  rewrite !b64_round_trip. rewrite decide_True by done.
  rewrite split_at_app by lia. by rewrite (gcm_round_trip _ _ _ _ Hg).
Qed.

Lemma saved_key_read `{!PrimitivesOk P} cid key s s1 :
  handle_ok s →
  save_public_key {| key_client_id := cid; public_key := b64_encode key |} s = (Ok (), s1) →
  envs s1 = [] →
  (get_public_key cid s1).1 = Ok (Some (b64_encode key)).
Proof.
  intros Hs Hk He.
  destruct (save_public_key_ok _ _ _ Hs Hk) as (bytes & n & c & Hb & Hn & Hg & Hl & Hc & Ha & Hrow).
  cbn [public_key key_client_id] in *. rewrite b64_round_trip in Hb. simplify_eq.
  rewrite get_public_key_calm by done. rewrite Hrow. by rewrite (decrypt_row_round_trip _ n bytes c).
Qed.

(** ** Properties *)

(** A public key registered by a client is what the server later returns
    for that client: Base64, AES-256-GCM encryption, the split into ciphertext
    and tag, the row and the way back compose to the identity. *)
Theorem public_key_round_trip `{!PrimitivesOk P} cid key s s1 :
  handle_ok s →
  save_public_key {| key_client_id := cid; public_key := b64_encode key |} s = (Ok (), s1) →
  envs s1 = [] →
  (get_public_key cid s1).1 = Ok (Some (b64_encode key)).
Proof. apply saved_key_read. Qed.

(** Both update buffers of the actor stay below the batch size of 50
    entries through any sequence of commands and interval ticks. *)
Theorem update_buffers_bounded w w' :
  rtc worker_step w w' →
  delivered_updates w = ∅ → acknowledged_updates w = ∅ →
  size (delivered_updates w') < 50 ∧ size (acknowledged_updates w') < 50.
Proof.
  intros Hs Hd Ha. apply (rtc_preserves _ _ worker_step_bounded _ _ Hs).
  unfold buffers_bounded, BATCH_SIZE. rewrite Hd, Ha, map_size_empty. lia.
Qed.

(** Delivery and acknowledgement times are written once: whatever commands
    the actor serves afterwards (a new publication of the same identifier
    included), a row that has recorded a time keeps it. *)
Theorem timestamps_write_once w w' id row :
  rtc worker_step w w' →
  message_metadata (db w) !! id = Some row →
  ∃ row', message_metadata (db w') !! id = Some row' ∧ keeps_times row row'.
Proof.
  intros Hs. revert id row. change (table_extends (message_metadata (db w))
                                                   (message_metadata (db w'))).
  induction Hs as [|w1 w2 w3 H1 _ IH]; [done|].
  etrans; [by apply worker_step_extends|done].
Qed.

(** A flush the database refuses loses the buffered times: the table is
    unchanged and the buffer is empty all the same. *)
Theorem failed_flush_drops_updates w e :
  (flush_delivered_updates (Some e) w).2 = with_delivered ∅ w
  ∧ (flush_acknowledged_updates (Some e) w).2 = with_acknowledged ∅ w.
Proof.
  unfold flush_delivered_updates, flush_acknowledged_updates.
  split; case_decide as Hd; simpl; try done; destruct w; simpl in *; by subst.
Qed.

(** A flush the database accepts records every buffered time whose row
    exists and has none yet, and changes nothing else in the table. *)
Theorem flush_records_updates w id :
  message_metadata (db (flush_delivered_updates None w).2) !! id =
  (λ r, match delivered_updates w !! id with
        | Some t => set_delivered t r
        | None => r
        end) <$> message_metadata (db w) !! id.
Proof.
  unfold flush_delivered_updates. case_decide as Hd; simpl.
  - destruct (message_metadata (db w) !! id); simpl; [|done]. by rewrite Hd, lookup_empty.
  - by rewrite lookup_update_from.
Qed.

(** Reconnecting makes at most five attempts and succeeds exactly when
    one of the first five connection attempts does. *)
Theorem connect_with_retry_spec o :
  (connect_with_retry o).1 ≤ 5
  ∧ (is_ok (connect_with_retry o).2 = true ↔ ∃ i, i < 5 ∧ outcome o i = None).
Proof.
  unfold connect_with_retry, max_attempts. split.
  - apply (connect_loop_bound 4 0 o).
  - rewrite connect_loop_ok. split; intros (i & Hi & Ho); exists i; (split; [lia|done]).
Qed.

End WithPrimitives.

(** ** Witnesses *)

(** A codec that is the identity and a cipher that appends a constant tag. *)
Definition toy_tag : string := "0123456789abcdef".
Definition toy_primitives : Primitives := {|
  b64_encode := id;
  b64_decode := Ok;
  gcm_encrypt := λ _ _ p, Ok (p +:+ toy_tag);
  gcm_decrypt := λ _ _ c, Ok (String.substring 0 (String.length c - 16) c)
|}.

Lemma length_app_str s t : String.length (s +:+ t) = String.length s + String.length t.
Proof. induction s as [|a s IH]; [done|]. rewrite app_cons. simpl. by rewrite IH. Qed.

Lemma substring_app_l s t : String.substring 0 (String.length s) (s +:+ t) = s.
Proof.
  induction s as [|a s IH]; [by destruct t|]. rewrite app_cons. simpl. by rewrite IH.
Qed.

Lemma toy_primitives_ok : PrimitivesOk toy_primitives.
Proof.
  split; [done| |]; intros k n p c H; injection H as <-.
  - simpl. f_equal. rewrite length_app_str.
    replace (String.length p + String.length toy_tag - 16) with (String.length p)
      by (simpl; lia). apply substring_app_l.
  - by rewrite length_app_str.
Qed.

Definition empty_worker : Worker :=
  {| db := {| message_metadata := ∅; public_keys := ∅ |};
     delivered_updates := ∅; acknowledged_updates := ∅; aes_key := "key" |}.
Definition empty_store : Store :=
  {| chan := [UpdateDeliveredTimeAsync "m" "t"]; worker := empty_worker; alive := true; envs := [] |}.

Lemma public_key_round_trip_witness :
  (get_public_key (P := toy_primitives) "r"
     (save_public_key (P := toy_primitives)
        {| key_client_id := "r"; public_key := "pk" |} empty_store).2).1
  = Ok (Some "pk").
Proof.
  refine (@public_key_round_trip toy_primitives toy_primitives_ok "r" "pk" empty_store _ _ _ _).
  - by repeat constructor.
  - reflexivity.
  - reflexivity.
Defined.

Definition sample_row : MessageMetadata :=
  {| message_id := "m"; client_id := "c"; exchange_name := "e"; routing_key := "k";
     sent_time := Some "t0"; delivered_time := Some "t1"; acknowledged_time := None |}.
Definition sample_worker : Worker :=
  {| db := {| message_metadata := {["m" := sample_row]}; public_keys := ∅ |};
     delivered_updates := ∅; acknowledged_updates := ∅; aes_key := "key" |}.

Lemma sample_steps cmd :
  is_Some (recv (P := toy_primitives) calm cmd sample_worker) →
  rtc (worker_step (P := toy_primitives)) sample_worker
      (default (NoReply, sample_worker) (recv (P := toy_primitives) calm cmd sample_worker)).2.
Proof.
  intros [[r w'] H]. rewrite H. apply rtc_once. by eapply (step_recv calm cmd).
Qed.

Lemma update_buffers_bounded_witness :
  size (delivered_updates
    (default (NoReply, sample_worker)
       (recv (P := toy_primitives) calm (UpdateDeliveredTimeAsync "m" "t2") sample_worker)).2) < 50
  ∧ size (acknowledged_updates
    (default (NoReply, sample_worker)
       (recv (P := toy_primitives) calm (UpdateDeliveredTimeAsync "m" "t2") sample_worker)).2) < 50.
Proof.
  refine (@update_buffers_bounded toy_primitives sample_worker _ (sample_steps _ _) _ _).
  - eexists; reflexivity.
  - reflexivity.
  - reflexivity.
Defined.

Lemma timestamps_write_once_witness :
  ∃ row', message_metadata (db
    (default (NoReply, sample_worker)
       (recv (P := toy_primitives) calm (SaveMetadata sample_row) sample_worker)).2) !! "m"
    = Some row' ∧ keeps_times sample_row row'.
Proof.
  refine (@timestamps_write_once toy_primitives sample_worker _ "m" sample_row (sample_steps _ _) _).
  - eexists; reflexivity.
  - reflexivity.
Defined.

End StorageProps.
