(* ===== verification/State.v ===== *)
(** The broker's in-memory state, [server/src/state.rs].

    Every [DashMap] is a [gmap] and every method is a function on the record
    [ServerState]; a method runs without other tasks in between (the points
    where the source awaits are the calls to the storage interface). The
    channels of the consumers live in a [Runtime]: a sender is the number of
    its channel, so clones of a sender alias the same channel. *)
From S2P Require Import Prelude RustStr Storage StorageFacts.
From stdpp Require Import list options.

Module State.

(** [struct EncryptedInputData] *)
Record EncryptedInputData := {
  message_id : string;
  receiver_client_id : string;
  enc_session_key : string;
  nonce : string;
  ciphertext : string
}.
#[global] Instance EncryptedInputData_eq_dec : EqDecision EncryptedInputData.
Proof. solve_decision. Defined.

(** An entry of a queue and an item of a consumer channel. *)
Abbreviation Entry := (string * EncryptedInputData)%type.

(** [struct MessageStatus] *)
Record MessageStatus := {
  sent_time : option Z;
  delivered_time : option Z;
  acknowledged_time : option Z
}.

Definition sent (time : Z) : MessageStatus :=
  {| sent_time := Some time; delivered_time := None; acknowledged_time := None |}.
Definition delivered (time : Z) (s : MessageStatus) : MessageStatus :=
  {| sent_time := sent_time s; delivered_time := Some time;
     acknowledged_time := acknowledged_time s |}.
Definition acknowledged (time : Z) (s : MessageStatus) : MessageStatus :=
  {| sent_time := sent_time s; delivered_time := delivered_time s;
     acknowledged_time := Some time |}.
Definition can_deliver (s : MessageStatus) : bool :=
  match acknowledged_time s with None => true | Some _ => false end.

(** ** Consumer channels *)

(** An unbounded [mpsc] channel: open while its receiver exists, with the
    items not received yet. *)
Record Chan := { open : bool; buf : list Entry }.

(** The channels and the delivery tasks spawned by [register_consumer]. *)
Record Runtime := {
  chans : gmap nat Chan;
  tasks : list (nat * list Entry)
}.

Definition set_chans (c : gmap nat Chan) (rt : Runtime) : Runtime :=
  {| chans := c; tasks := tasks rt |}.
Definition set_tasks (t : list (nat * list Entry)) (rt : Runtime) : Runtime :=
  {| chans := chans rt; tasks := t |}.

(** [UnboundedSender::is_closed] *)
Definition is_closed (rt : Runtime) (c : nat) : bool :=
  match chans rt !! c with Some ch => negb (open ch) | None => true end.

(** [UnboundedSender::send] *)
Definition send (c : nat) (e : Entry) (rt : Runtime) : result unit Entry * Runtime :=
  match chans rt !! c with
  | Some ch =>
      if open ch
      then (Ok (), set_chans (<[c := {| open := true; buf := buf ch ++ [e] |}]> (chans rt)) rt)
      else (Err e, rt)
  | None => (Err e, rt)
  end.

(** One turn of a delivery task: it sends its next message, and ends when it
    has none left or its channel is closed. *)
Definition run_task (i : nat) (rt : Runtime) : Runtime :=
  match tasks rt !! i with
  | Some (c, e :: rest) =>
      let '(r, rt') := send c e rt in
      set_tasks (<[i := (c, if is_ok r then rest else [])]> (tasks rt)) rt'
  | _ => rt
  end.

Section WithStorage.
Context {S : Type} `{A : StorageApi S}.

(** [struct ServerState] *)
Record ServerState := {
  queues : gmap string (list Entry);
  message_queues : gmap string (gset string);
  bindings : gmap string (list (string * string));
  exchanges : gmap string (list string);
  consumers : gmap string (list nat);
  message_status : gmap string MessageStatus;
  connected_clients : Z;
  storage : S;
  max_queue_size : nat
}.

Definition with_queues f (s : ServerState) : ServerState :=
  {| queues := f (queues s); message_queues := message_queues s; bindings := bindings s;
     exchanges := exchanges s; consumers := consumers s; message_status := message_status s;
     connected_clients := connected_clients s; storage := storage s;
     max_queue_size := max_queue_size s |}.
Definition with_message_queues f (s : ServerState) : ServerState :=
  {| queues := queues s; message_queues := f (message_queues s); bindings := bindings s;
     exchanges := exchanges s; consumers := consumers s; message_status := message_status s;
     connected_clients := connected_clients s; storage := storage s;
     max_queue_size := max_queue_size s |}.
Definition with_bindings f (s : ServerState) : ServerState :=
  {| queues := queues s; message_queues := message_queues s; bindings := f (bindings s);
     exchanges := exchanges s; consumers := consumers s; message_status := message_status s;
     connected_clients := connected_clients s; storage := storage s;
     max_queue_size := max_queue_size s |}.
Definition with_exchanges f (s : ServerState) : ServerState :=
  {| queues := queues s; message_queues := message_queues s; bindings := bindings s;
     exchanges := f (exchanges s); consumers := consumers s; message_status := message_status s;
     connected_clients := connected_clients s; storage := storage s;
     max_queue_size := max_queue_size s |}.
Definition with_consumers f (s : ServerState) : ServerState :=
  {| queues := queues s; message_queues := message_queues s; bindings := bindings s;
     exchanges := exchanges s; consumers := f (consumers s); message_status := message_status s;
     connected_clients := connected_clients s; storage := storage s;
     max_queue_size := max_queue_size s |}.
Definition with_message_status f (s : ServerState) : ServerState :=
  {| queues := queues s; message_queues := message_queues s; bindings := bindings s;
     exchanges := exchanges s; consumers := consumers s; message_status := f (message_status s);
     connected_clients := connected_clients s; storage := storage s;
     max_queue_size := max_queue_size s |}.
Definition with_connected_clients f (s : ServerState) : ServerState :=
  {| queues := queues s; message_queues := message_queues s; bindings := bindings s;
     exchanges := exchanges s; consumers := consumers s; message_status := message_status s;
     connected_clients := f (connected_clients s); storage := storage s;
     max_queue_size := max_queue_size s |}.
Definition with_storage f (s : ServerState) : ServerState :=
  {| queues := queues s; message_queues := message_queues s; bindings := bindings s;
     exchanges := exchanges s; consumers := consumers s; message_status := message_status s;
     connected_clients := connected_clients s; storage := f (storage s);
     max_queue_size := max_queue_size s |}.

(** [ServerState::new], the state it returns; see [Broker.v] for the two
    background tasks it spawns. *)
Definition new (st : S) (max : nat) : ServerState :=
  {| queues := ∅; message_queues := ∅; bindings := ∅; exchanges := ∅; consumers := ∅;
     message_status := ∅; connected_clients := 0; storage := st; max_queue_size := max |}.

(** ** Topology *)

(** [declare_queue] *)
Definition declare_queue (q : string) (s : ServerState) : ServerState :=
  with_queues (λ m, match m !! q with Some _ => m | None => <[q := []]> m end) s.

(** [declare_exchange] *)
Definition declare_exchange (e : string) (s : ServerState) : ServerState :=
  with_exchanges (λ m, match m !! e with Some _ => m | None => <[e := []]> m end) s.

(** [bind_queue] *)
Definition bind_queue (q e k : string) (s : ServerState) : ServerState :=
  if decide (is_Some (queues s !! q) ∧ is_Some (exchanges s !! e)) then
    let binding := (q, k) in
    with_bindings (λ m,
      match m !! e with
      | Some bs => if decide (binding ∈ bs) then m else <[e := bs ++ [binding]]> m
      | None => <[e := [binding]]> m
      end) s
  else s.

(** ** Publishing *)

(** The target queues of an exchange and a routing key. *)
Definition target_queues (e k : string) (s : ServerState) : list string :=
  match bindings s !! e with
  | Some bs => (filter (λ b, b.2 = k) bs).*1
  | None => []
  end.

(** The tracking updates when the oldest message of a full queue is dropped. *)
Definition evict (old q : string) (s : ServerState) : ServerState :=
  with_message_status (delete old) (with_message_queues (alter (λ qs, qs ∖ {[q]}) old) s).

(** One iteration of the enqueue loop of [publish]; the set is [queue_set]. *)
Definition enqueue (id : string) (msg : EncryptedInputData)
    (acc : ServerState * gset string) (q : string) : ServerState * gset string :=
  let '(s, queue_set) := acc in
  match queues s !! q with
  | None => (s, queue_set)
  | Some queue =>
      let '(s1, queue1) :=
        if decide (max_queue_size s ≤ length queue) then
          match queue with
          | [] => (s, queue)
          | (old, _) :: rest => (evict old q s, rest)
          end
        else (s, queue) in
      (with_queues (<[q := queue1 ++ [(id, msg)]]>) s1, {[q]} ∪ queue_set)
  end.

(** The [retain] closure of the notification loop: closed consumers are
    dropped, the others are sent the message and kept if that succeeds. *)
Fixpoint retain_send (e : Entry) (cs : list nat) (rt : Runtime) : list nat * Runtime :=
  match cs with
  | [] => ([], rt)
  | c :: cs' =>
      if is_closed rt c then retain_send e cs' rt
      else
        let '(r, rt1) := send c e rt in
        let '(kept, rt2) := retain_send e cs' rt1 in
        (if is_ok r then c :: kept else kept, rt2)
  end.

(** One iteration of the notification loop of [publish]. *)
Definition notify (e : Entry) (acc : ServerState * Runtime) (q : string)
    : ServerState * Runtime :=
  let '(s, rt) := acc in
  match consumers s !! q with
  | None => (s, rt)
  | Some cs => let '(kept, rt') := retain_send e cs rt in
               (with_consumers (<[q := kept]>) s, rt')
  end.

(** [publish]; [utc] is the current time in RFC 3339 form. *)
Definition publish (e k : string) (msg : EncryptedInputData) (client : string)
    (received_time : Z) (utc : string) (s : ServerState) (rt : Runtime)
    : result unit string * (ServerState * Runtime) :=
  let id := message_id msg in
  match message_status s !! id with
  | Some _ => (Err ("Duplicate message " +:+ id +:+ " ignored"), (s, rt))
  | None =>
      let metadata :=
        {| Storage.message_id := id; Storage.client_id := client;
           Storage.exchange_name := e; Storage.routing_key := k;
           Storage.sent_time := Some utc; Storage.delivered_time := None;
           Storage.acknowledged_time := None |} in
      let '(saved, st') := api_save_metadata metadata (storage s) in
      let s0 := with_storage (λ _, st') s in
      match saved with
      | Err err => (Err ("Failed to save metadata: " +:+ Storage.display err), (s0, rt))
      | Ok _ =>
          let targets := target_queues e k s0 in
          if decide (targets = []) then
            (Err ("No queues bound to exchange '" +:+ e +:+ "' with routing key '" +:+ k +:+ "'"),
             (s0, rt))
          else
            let '(s1, queue_set) := foldl (enqueue id msg) (s0, ∅) targets in
            let s2 := with_message_queues (<[id := queue_set]>) s1 in
            let s3 := with_message_status (<[id := sent received_time]>) s2 in
            (Ok (), foldl (notify (id, msg)) (s3, rt) targets)
      end
  end.

(** ** Consuming *)

(** [message_status.get(id).map(can_deliver).unwrap_or(false)] *)
Definition deliverable (s : ServerState) (id : string) : bool :=
  match message_status s !! id with Some status => can_deliver status | None => false end.

(** The queued messages a new consumer is sent. *)
Definition pending_messages (queue : list Entry) (s : ServerState) : list Entry :=
  filter (λ e, deliverable s e.1 = true) queue.

(** [register_consumer] *)
Definition register_consumer (q : string) (sender : nat) (s : ServerState) (rt : Runtime)
    : ServerState * Runtime :=
  let s1 := declare_queue q s in
  let s2 := with_consumers (λ m, <[q := default [] (m !! q) ++ [sender]]> m) s1 in
  match queues s2 !! q with
  | Some queue =>
      if decide (0 < length queue)
      then (s2, set_tasks (tasks rt ++ [(sender, pending_messages queue s2)]) rt)
      else (s2, rt)
  | None => (s2, rt)
  end.

(** The delivery branch of [handle_client] ([server.rs]) records the first
    delivery of a message in the shared maps. *)
Definition mark_delivered (id : string) (now : Z) (utc : string) (s : ServerState)
    : ServerState :=
  match message_status s !! id with
  | Some status =>
      match delivered_time status with
      | None => with_storage (api_update_delivered_time_async id utc)
                  (with_message_status (<[id := delivered now status]>) s)
      | Some _ => s
      end
  | None => s
  end.

(** [consume] *)
Definition consume (q : string) (now : Z) (utc : string) (s : ServerState)
    : option Entry * ServerState :=
  match queues s !! q with
  | Some ((id, msg) :: rest) =>
      let s1 := with_queues (<[q := rest]>) s in
      let s2 := with_message_status (alter (delivered now) id) s1 in
      (Some (id, msg), with_storage (api_update_delivered_time_async id utc) s2)
  | _ => (None, s)
  end.

(** The cleanup that [acknowledge] and [cleanup_old_messages] share: the
    message leaves the queues it is known to be in, and the tracking maps. *)
Definition remove_from (id : string) (qs : gset string) (m : gmap string (list Entry))
    : gmap string (list Entry) :=
  foldl (λ m q, alter (filter (λ e, e.1 ≠ id)) q m) m (elements qs).
Definition purge (id : string) (s : ServerState) : ServerState :=
  let s1 := match message_queues s !! id with
            | Some qs => with_queues (remove_from id qs) s
            | None => s
            end in
  with_message_status (delete id) (with_message_queues (delete id) s1).

(** [acknowledge] *)
Definition acknowledge (id : string) (now : Z) (utc : string) (s : ServerState) : ServerState :=
  match message_status s !! id with
  | None => s
  | Some _ =>
      let s1 := with_message_status (alter (acknowledged now) id) s in
      let s2 := with_storage (api_update_acknowledged_time_async id utc) s1 in
      purge id s2
  end.

(** ** Background passes *)

(** The messages one pass of [cleanup_old_messages] collects. *)
Definition is_expired (now max_age : Z) (st : MessageStatus) : bool :=
  match delivered_time st with
  | Some t => bool_decide (max_age < duration_since now t)%Z && can_deliver st
  | None => false
  end.
Definition expired_messages (now max_age : Z) (s : ServerState) : list string :=
  (filter (λ p, is_expired now max_age p.2 = true) (map_to_list (message_status s))).*1.
(** One pass of [cleanup_old_messages]. *)
Definition cleanup_old_messages (now max_age : Z) (s : ServerState) : ServerState :=
  foldl (λ s id, purge id s) s (expired_messages now max_age s).

(** One pass of [cleanup_dead_consumers]: the lists are pruned, then the
    queues whose list became empty are removed. *)
Definition cleanup_dead_consumers (rt : Runtime) (s : ServerState) : ServerState :=
  let pruned := filter (λ c, is_closed rt c = false) <$> consumers s in
  let empty_queues := (filter (λ p, p.2 = []) (map_to_list pruned)).*1 in
  with_consumers (λ _, foldl (λ m q, delete q m) pruned empty_queues) s.

(** [cleanup_consumers_for_queue]: the number of consumers removed. *)
Definition cleanup_consumers_for_queue (q : string) (rt : Runtime) (s : ServerState)
    : nat * ServerState :=
  match consumers s !! q with
  | Some cs =>
      let kept := filter (λ c, is_closed rt c = false) cs in
      (length cs - length kept, with_consumers (<[q := kept]>) s)
  | None => (0, s)
  end.

(** [get_consumer_stats] *)
Definition get_consumer_stats (rt : Runtime) (s : ServerState) : list (string * nat * nat) :=
  (λ p : string * list nat,
     (p.1, length p.2, length (filter (λ c, is_closed rt c = false) p.2)))
  <$> map_to_list (consumers s).

(** ** Client count and public keys *)

Definition increment_client_count (s : ServerState) : ServerState :=
  with_connected_clients (λ n, fetch_add n 1) s.
Definition decrement_client_count (s : ServerState) : ServerState :=
  with_connected_clients (λ n, fetch_sub n 1) s.
Definition get_client_count (s : ServerState) : Z := connected_clients s.

(** [save_public_key] *)
Definition save_public_key (client key : string) (s : ServerState)
    : result unit string * ServerState :=
  let '(r, st') := api_save_public_key
    {| Storage.key_client_id := client; Storage.public_key := key |} (storage s) in
  (map_err (λ e, "Failed to save public key: " +:+ Storage.display e) r,
   with_storage (λ _, st') s).

(** [get_public_key] *)
Definition get_public_key (client : string) (s : ServerState)
    : result (option string) string * ServerState :=
  let '(r, st') := api_get_public_key client (storage s) in
  (map_err (λ e, "Failed to get public key: " +:+ Storage.display e) r,
   with_storage (λ _, st') s).

End WithStorage.
Arguments ServerState S : clear implicits.

End State.
