(* ===== verification/StateFacts.v ===== *)
(** Lemmas about the operations of [State.v]: what the loops of [publish],
    [acknowledge] and the cleanup passes compute, and which fields each
    operation leaves alone. *)
From S2P Require Import Prelude RustStr Storage StorageFacts State.
From stdpp Require Import list options.

Module StateFacts.
Import State.

(** The queue after an enqueue: the oldest entry goes when it is full. *)
Definition push (max : nat) (l : list Entry) (e : Entry) : list Entry :=
  (if decide (max ≤ length l) then tail l else l) ++ [e].
(** The identifier an enqueue evicts. *)
Definition evicted_id (max : nat) (l : list Entry) : option string :=
  if decide (max ≤ length l) then fst <$> head l else None.

Lemma push_length max l e : length l ≤ Nat.max 1 max → length (push max l e) ≤ Nat.max 1 max.
Proof.
  intros Hl. unfold push. rewrite length_app. simpl.
  case_decide; destruct l; simpl in *; lia.
Qed.

Lemma elem_of_push max l e x : x ∈ push max l e → x = e ∨ x ∈ l.
Proof.
  unfold push. rewrite elem_of_app, list_elem_of_singleton. intros [H| ->]; [right|by left].
  case_decide; [|done]. destruct l; simpl in *; [done|]. by right.
Qed.

Lemma evicted_id_Some max l old :
  evicted_id max l = Some old → ∃ m rest, l = (old, m) :: rest ∧ max ≤ length l.
Proof.
  unfold evicted_id. case_decide; [|done]. destruct l as [|[id m] rest]; simpl; [done|].
  intros; simplify_eq. by exists m, rest.
Qed.

Section WithStorage.
Context {S : Type} `{A : StorageApi S}.
Implicit Types (s : ServerState S) (rt : Runtime) (q id : string).

Lemma targets_same_topology e k s s' :
  bindings s' = bindings s → target_queues e k s' = target_queues e k s.
Proof. unfold target_queues. by intros ->. Qed.

(** ** The enqueue loop *)

Lemma enqueue_unfold id msg s qs q :
  enqueue id msg (s, qs) q =
  match queues s !! q with
  | None => (s, qs)
  | Some l =>
      (with_queues (<[q := push (max_queue_size s) l (id, msg)]>)
         (match evicted_id (max_queue_size s) l with Some old => evict old q s | None => s end),
       {[q]} ∪ qs)
  end.
Proof.
  unfold enqueue, push, evicted_id. destruct (queues s !! q) as [l|]; [|done].
  case_decide; [|done]. destruct l as [|[old m] rest]; done.
Qed.

(** The identifiers evicted from a list of target queues. *)
Definition evicted (ts : list string) s id : Prop :=
  ∃ q l, q ∈ ts ∧ queues s !! q = Some l ∧ evicted_id (max_queue_size s) l = Some id.

(** The state and the queue set after the enqueue loop. *)
Record enqueued (id : string) (msg : EncryptedInputData) (ts : list string) s (qs : gset string)
    s' (qs' : gset string) : Prop := {
  enq_queues q : queues s' !! q =
    if decide (q ∈ ts) then (λ l, push (max_queue_size s) l (id, msg)) <$> queues s !! q
    else queues s !! q;
  enq_set q : q ∈ qs' ↔ q ∈ qs ∨ (q ∈ ts ∧ is_Some (queues s !! q));
  enq_status i st : message_status s' !! i = Some st ↔
    message_status s !! i = Some st ∧ ¬ evicted ts s i;
  enq_index i : ¬ evicted ts s i → message_queues s' !! i = message_queues s !! i;
  enq_index_dom i : is_Some (message_queues s' !! i) ↔ is_Some (message_queues s !! i);
  enq_frame : bindings s' = bindings s ∧ exchanges s' = exchanges s ∧ consumers s' = consumers s
    ∧ connected_clients s' = connected_clients s ∧ storage s' = storage s
    ∧ max_queue_size s' = max_queue_size s
}.

Lemma enqueue_one id msg s qs q :
  enqueued id msg [q] s qs (enqueue id msg (s, qs) q).1 (enqueue id msg (s, qs) q).2.
Proof.
  rewrite enqueue_unfold. destruct (queues s !! q) as [l|] eqn:Hq.
  - split; simpl.
    + intros q'. destruct (decide (q' ∈ [q])) as [->%list_elem_of_singleton|Hn].
      * rewrite Hq. by destruct (evicted_id _ l); simpl; rewrite lookup_insert_eq.
      * assert (q ≠ q') by set_solver.
        by destruct (evicted_id _ l); simpl; rewrite lookup_insert_ne.
    + set_solver.
    + intros i st. destruct (evicted_id (max_queue_size s) l) as [old|] eqn:He; simpl.
      * rewrite lookup_delete_Some. split.
        -- intros [Hne Hs]. split; [done|]. intros (q' & l' & Hq' & Hl & Hev). set_solver.
        -- intros [Hs Hev]. split; [|done]. intros ->. apply Hev.
           exists q, l. set_solver.
      * split; [|by intros []]. intros Hs. split; [done|].
        intros (q' & l' & Hq' & Hl & Hev). set_solver.
    + intros i Hi. destruct (evicted_id (max_queue_size s) l) as [old|] eqn:He; simpl; [|done].
      apply lookup_alter_ne. intros ->. apply Hi. exists q, l. set_solver.
    + intros i. destruct (evicted_id (max_queue_size s) l) as [old|]; simpl; [|done].
      rewrite lookup_alter. case_decide; [subst|done]. by rewrite fmap_is_Some.
    + by destruct (evicted_id _ l).
  - split; simpl.
    + intros q'. case_decide; [|done]. assert (q' = q) as -> by set_solver. by rewrite Hq.
    + intros q'. split; [by left|]. intros [?|[? [? ?]]]; [done|]. set_solver.
    + intros i st. split; [|by intros []]. intros Hs. split; [done|].
      intros (q' & l' & Hq' & Hl & Hev). set_solver.
    + done.
    + done.
    + done.
Qed.

Lemma enqueue_loop id msg ts s qs :
  NoDup ts →
  enqueued id msg ts s qs (foldl (enqueue id msg) (s, qs) ts).1 (foldl (enqueue id msg) (s, qs) ts).2.
Proof.
  revert s qs. induction ts as [|q ts IH]; intros s qs Hts.
  { split; simpl; try done.
    - intros q. set_solver.
    - intros i st. split; [|by intros []]. intros Hs. split; [done|].
      intros (q & l & Hq & _). set_solver. }
  apply NoDup_cons in Hts as [Hq Hts]. cbn [foldl].
  pose proof (enqueue_one id msg s qs q) as E1.
  destruct (enqueue id msg (s, qs) q) as [s1 qs1]; simpl in E1.
  pose proof (IH s1 qs1 Hts) as E2.
  destruct (foldl (enqueue id msg) (s1, qs1) ts) as [s2 qs2]; simpl in E2 |- *.
  destruct (enq_frame _ _ _ _ _ _ _ E1) as (F1&F2&F3&F4&F5&F6).
  destruct (enq_frame _ _ _ _ _ _ _ E2) as (G1&G2&G3&G4&G5&G6).
  assert (Hother : ∀ q', q' ∈ ts → queues s1 !! q' = queues s !! q').
  { intros q' Hq'. rewrite (enq_queues _ _ _ _ _ _ _ E1). rewrite decide_False; set_solver. }
  assert (Hev : ∀ i, evicted (q :: ts) s i ↔ evicted [q] s i ∨ evicted ts s1 i).
  { intros i. unfold evicted. rewrite F6. split.
    - intros (q' & l & Hq' & Hl & Hev). apply elem_of_cons in Hq' as [->|Hq'].
      + left. exists q, l. set_solver.
      + right. exists q', l. by rewrite Hother.
    - intros [(q' & l & Hq' & Hl & Hev)|(q' & l & Hq' & Hl & Hev)].
      + exists q', l. set_solver.
      + rewrite Hother in Hl by done. exists q', l. set_solver. }
  split.
  - intros q'. rewrite (enq_queues _ _ _ _ _ _ _ E2), F6.
    destruct (decide (q' ∈ ts)) as [Hin|Hin].
    { rewrite Hother by done. by rewrite decide_True by (by right). }
    rewrite (enq_queues _ _ _ _ _ _ _ E1). apply decide_ext.
    rewrite !elem_of_cons, elem_of_nil. tauto.
  - intros q'. rewrite (enq_set _ _ _ _ _ _ _ E2), (enq_set _ _ _ _ _ _ _ E1).
    rewrite !elem_of_cons, elem_of_nil.
    destruct (decide (q' ∈ ts)) as [Hin|]; [rewrite Hother by done|]; naive_solver.
  - intros i st. rewrite (enq_status _ _ _ _ _ _ _ E2), (enq_status _ _ _ _ _ _ _ E1).
    rewrite (Hev i). tauto.
  - intros i Hi. rewrite (Hev i) in Hi.
    rewrite (enq_index _ _ _ _ _ _ _ E2), (enq_index _ _ _ _ _ _ _ E1); tauto.
  - intros i. by rewrite (enq_index_dom _ _ _ _ _ _ _ E2), (enq_index_dom _ _ _ _ _ _ _ E1).
  - split_and!; congruence.
Qed.

(** ** The notification loop *)

(** How often a channel occurs in a consumer list. *)
Definition occurrences (c : nat) (cs : list nat) : nat := length (filter (λ x, x = c) cs).

(** A channel after [n] copies of an entry were sent to it. *)
Definition receive (n : nat) (e : Entry) (ch : Chan) : Chan :=
  if open ch then {| open := true; buf := buf ch ++ replicate n e |} else ch.

Lemma receive_0 e ch : receive 0 e ch = ch.
Proof. unfold receive. destruct ch as [[] b]; simpl; [|done]. by rewrite app_nil_r. Qed.
Lemma receive_add n m e ch : receive n e (receive m e ch) = receive (m + n) e ch.
Proof.
  unfold receive. destruct ch as [[] b]; simpl; [|done].
  rewrite <-app_assoc. by rewrite replicate_add.
Qed.
Lemma open_receive n e ch : open (receive n e ch) = open ch.
Proof. unfold receive. by destruct ch as [[] b]. Qed.

Lemma is_closed_false rt c : is_closed rt c = false ↔ ∃ ch, chans rt !! c = Some ch ∧ open ch = true.
Proof. unfold is_closed. destruct (chans rt !! c) as [[[] b]|]; naive_solver. Qed.

(** Sending to an open channel. *)
Lemma send_open c e rt :
  is_closed rt c = false →
  (send c e rt).1 = Ok () ∧ tasks (send c e rt).2 = tasks rt ∧
  ∀ c', chans (send c e rt).2 !! c' =
        (λ ch, receive (if decide (c' = c) then 1 else 0) e ch) <$> chans rt !! c'.
Proof.
  intros (ch & Hc & Ho)%is_closed_false. unfold send. rewrite Hc, Ho. split_and!; [done..|].
  intros c'. simpl. destruct (decide (c' = c)) as [->|Hne].
  - rewrite lookup_insert_eq, Hc. simpl. by unfold receive; rewrite Ho.
  - rewrite lookup_insert_ne by done. destruct (chans rt !! c'); simpl; [|done].
    by rewrite receive_0.
Qed.

Lemma is_closed_mono rt rt' :
  (∀ c, open <$> chans rt' !! c = open <$> chans rt !! c) → ∀ c, is_closed rt' c = is_closed rt c.
Proof.
  intros H c. specialize (H c). unfold is_closed.
  destruct (chans rt' !! c), (chans rt !! c); simpl in *; congruence.
Qed.

Lemma retain_send_spec e cs rt :
  (retain_send e cs rt).1 = filter (λ c, is_closed rt c = false) cs
  ∧ tasks (retain_send e cs rt).2 = tasks rt
  ∧ ∀ c, chans (retain_send e cs rt).2 !! c = receive (occurrences c cs) e <$> chans rt !! c.
Proof.
  revert rt. induction cs as [|c cs IH]; intros rt.
  { split_and!; try done. intros c. simpl. unfold occurrences. simpl.
    destruct (chans rt !! c); simpl; [|done]. by rewrite receive_0. }
  simpl. destruct (is_closed rt c) eqn:Hc.
  - destruct (IH rt) as (H1 & H2 & H3). rewrite filter_cons_False by congruence.
    split_and!; [done..|]. intros c'. rewrite H3. unfold occurrences.
    destruct (decide (c = c')) as [->|]; [|by rewrite filter_cons_False].
    rewrite filter_cons_True by done. simpl.
    unfold is_closed in Hc. destruct (chans rt !! c') as [[[] b]|]; simpl; try done.
  - destruct (send_open c e rt Hc) as (Hs & Ht & Hsend). destruct (send c e rt) as [r rt1].
    simpl in *. subst. destruct (IH rt1) as (H1 & H2 & H3).
    destruct (retain_send e cs rt1) as [kept rt2]; simpl in *.
    rewrite filter_cons_True by done. split_and!.
    + f_equal. rewrite H1. apply list_filter_iff. intros c'. f_equiv.
      apply is_closed_mono. intros c''. rewrite Hsend.
      destruct (chans rt !! c''); simpl; [|done]. by rewrite open_receive.
    + congruence.
    + intros c'. rewrite H3, Hsend, <-option_fmap_compose. unfold occurrences.
      destruct (chans rt !! c') as [ch|]; simpl; [|done]. f_equal. rewrite receive_add.
      destruct (decide (c' = c)) as [->|]; [by rewrite filter_cons_True|by rewrite filter_cons_False].
Qed.

(** The copies of a message a channel gets from the target queues. *)
Definition copies (ts : list string) s (c : nat) : nat :=
  sum_list ((λ q, occurrences c (default [] (consumers s !! q))) <$> ts).

Lemma notify_spec e ts s rt :
  NoDup ts →
  let '(s', rt') := foldl (notify e) (s, rt) ts in
  s' = with_consumers (λ _, consumers s') s
  ∧ tasks rt' = tasks rt
  ∧ (∀ q, consumers s' !! q =
          if decide (q ∈ ts) then filter (λ c, is_closed rt c = false) <$> consumers s !! q
          else consumers s !! q)
  ∧ (∀ c, chans rt' !! c = receive (copies ts s c) e <$> chans rt !! c).
Proof.
  revert s rt. induction ts as [|q ts IH]; intros s rt Hts.
  { cbn [foldl]. split_and!; [by destruct s|done|done|]. intros c. unfold copies. simpl.
    destruct (chans rt !! c); simpl; [|done]. by rewrite receive_0. }
  apply NoDup_cons in Hts as [Hq Hts]. cbn [foldl].
  destruct (notify e (s, rt) q) as [s1 rt1] eqn:Hn.
  assert (s1 = with_consumers (λ _, consumers s1) s ∧ tasks rt1 = tasks rt
    ∧ (∀ q', consumers s1 !! q' =
          if decide (q' = q) then filter (λ c, is_closed rt c = false) <$> consumers s !! q'
          else consumers s !! q')
    ∧ (∀ c, chans rt1 !! c =
            receive (occurrences c (default [] (consumers s !! q))) e <$> chans rt !! c))
    as (N1 & N2 & N3 & N4).
  { unfold notify in Hn. destruct (consumers s !! q) as [cs|] eqn:Hcs.
    - destruct (retain_send_spec e cs rt) as (R1 & R2 & R3).
      destruct (retain_send e cs rt) as [kept rt']; simplify_eq/=. split_and!; try done.
      intros q'. case_decide; subst; [by rewrite lookup_insert_eq, Hcs|by rewrite lookup_insert_ne].
    - simplify_eq. split_and!; [by destruct s1|done| |].
      + intros q'. case_decide; subst; [by rewrite Hcs|done].
      + intros c. simpl. unfold occurrences. simpl. destruct (chans rt1 !! c); simpl; [|done].
        by rewrite receive_0. }
  specialize (IH s1 rt1 Hts). destruct (foldl (notify e) (s1, rt1) ts) as [s2 rt2].
  destruct IH as (I1 & I2 & I3 & I4).
  assert (Hopen : ∀ c, is_closed rt1 c = is_closed rt c).
  { apply is_closed_mono. intros c. rewrite N4. destruct (chans rt !! c); simpl; [|done].
    by rewrite open_receive. }
  assert (Hother : ∀ q', q' ∈ ts → consumers s1 !! q' = consumers s !! q').
  { intros q' Hq'. rewrite N3. rewrite decide_False; [done|]. by intros ->. }
  split_and!.
  - rewrite I1. simpl. rewrite N1. done.
  - congruence.
  - intros q'. rewrite I3. destruct (decide (q' ∈ ts)) as [Hin|Hin].
    + rewrite Hother, decide_True by (done || by right).
      destruct (consumers s !! q'); simpl; [|done]. f_equal. apply list_filter_iff.
      intros c. by rewrite Hopen.
    + rewrite N3. apply decide_ext. rewrite elem_of_cons. tauto.
  - intros c. rewrite I4, N4, <-option_fmap_compose. destruct (chans rt !! c); simpl; [|done].
    f_equal. rewrite receive_add. f_equal. unfold copies. simpl. f_equal.
    apply (f_equal sum_list). apply list_fmap_ext. intros i q' Hi.
    rewrite Hother; [done|]. by eapply list_elem_of_lookup_2.
Qed.

(** ** Removal of a message *)

Lemma filter_idemp id (l : list Entry) :
  filter (λ e, e.1 ≠ id) (filter (λ e, e.1 ≠ id) l) = filter (λ e, e.1 ≠ id) l.
Proof. rewrite list_filter_filter. apply list_filter_iff. intros e. tauto. Qed.

Lemma lookup_remove_loop id l (m : gmap string (list Entry)) q :
  foldl (λ m q, alter (filter (λ e, e.1 ≠ id)) q m) m l !! q =
  if decide (q ∈ l) then filter (λ e, e.1 ≠ id) <$> m !! q else m !! q.
Proof.
  revert m. induction l as [|q' l IH]; intros m; [done|]. cbn [foldl]. rewrite IH.
  rewrite lookup_alter. destruct (decide (q' = q)) as [->|Hne].
  - rewrite (decide_True (P := q ∈ q :: l)) by (by left). case_decide; [|done].
    destruct (m !! q); simpl; [|done]. by rewrite filter_idemp.
  - apply decide_ext. rewrite elem_of_cons. naive_solver.
Qed.

Lemma lookup_remove_from id qs (m : gmap string (list Entry)) q :
  remove_from id qs m !! q =
  if decide (q ∈ qs) then filter (λ e, e.1 ≠ id) <$> m !! q else m !! q.
Proof. unfold remove_from. rewrite lookup_remove_loop. apply decide_ext. apply elem_of_elements. Qed.

Lemma lookup_purge_queues id s q :
  queues (purge id s) !! q =
  if decide (q ∈ default ∅ (message_queues s !! id))
  then filter (λ e, e.1 ≠ id) <$> queues s !! q else queues s !! q.
Proof.
  unfold purge. destruct (message_queues s !! id) as [qs|]; simpl; [apply lookup_remove_from|].
  by rewrite decide_False by set_solver.
Qed.

Lemma purge_frame id s :
  message_status (purge id s) = delete id (message_status s)
  ∧ message_queues (purge id s) = delete id (message_queues s)
  ∧ bindings (purge id s) = bindings s ∧ exchanges (purge id s) = exchanges s
  ∧ consumers (purge id s) = consumers s ∧ connected_clients (purge id s) = connected_clients s
  ∧ storage (purge id s) = storage s ∧ max_queue_size (purge id s) = max_queue_size s.
Proof. unfold purge. by destruct (message_queues s !! id). Qed.

(** Queues only lose entries in a purge. *)
Lemma purge_queue id s q l' :
  queues (purge id s) !! q = Some l' → ∃ l, queues s !! q = Some l ∧
    (l' = l ∨ l' = filter (λ e, e.1 ≠ id) l).
Proof.
  rewrite lookup_purge_queues. case_decide; [|by eauto].
  destruct (queues s !! q) as [l|]; simpl; [|done]. intros; simplify_eq. eauto.
Qed.

Lemma dom_purge id s : dom (queues (purge id s)) = dom (queues s).
Proof.
  apply set_eq. intros q. rewrite !elem_of_dom, lookup_purge_queues.
  case_decide; [|done]. by rewrite fmap_is_Some.
Qed.

(** ** The first part of [acknowledge] *)

Lemma acknowledge_eq id now utc s st :
  message_status s !! id = Some st →
  acknowledge id now utc s =
  with_storage (api_update_acknowledged_time_async id utc) (purge id s).
Proof.
  intros Hs. unfold acknowledge, purge. rewrite Hs. simpl.
  destruct (message_queues s !! id); unfold with_message_status, with_storage, with_queues,
    with_message_queues; simpl; by rewrite delete_alter_eq.
Qed.

End WithStorage.
End StateFacts.
