(* ===== verification/StateInv.v ===== *)
(** The well-formedness invariant of the broker state and its preservation by
    every operation, by rule induction on the states reachable from
    [ServerState::new]. *)
From S2P Require Import Prelude RustStr Storage StorageFacts State StateFacts.
From stdpp Require Import list options.

Module StateInv.
Import State StateFacts.

Section WithStorage.
Context {S : Type} `{A : StorageApi S}.
Implicit Types (s : ServerState S) (rt : Runtime) (q id : string).

(** ** What a successful publication does *)

Record published (e k : string) (msg : EncryptedInputData) (now : Z)
    s rt s' rt' : Prop := {
  pub_queues q : queues s' !! q =
    if decide (q ∈ target_queues e k s)
    then (λ l, push (max_queue_size s) l (message_id msg, msg)) <$> queues s !! q
    else queues s !! q;
  pub_status i st : message_status s' !! i = Some st ↔
    (i = message_id msg ∧ st = sent now)
    ∨ (i ≠ message_id msg ∧ message_status s !! i = Some st ∧ ¬ evicted (target_queues e k s) s i);
  pub_index_new : ∃ qs, message_queues s' !! message_id msg = Some qs
    ∧ ∀ q, q ∈ qs ↔ q ∈ target_queues e k s ∧ is_Some (queues s !! q);
  pub_index i : i ≠ message_id msg → ¬ evicted (target_queues e k s) s i →
    message_queues s' !! i = message_queues s !! i;
  pub_index_dom i : i ≠ message_id msg →
    is_Some (message_queues s' !! i) ↔ is_Some (message_queues s !! i);
  pub_consumers q : consumers s' !! q =
    if decide (q ∈ target_queues e k s)
    then filter (λ c, is_closed rt c = false) <$> consumers s !! q else consumers s !! q;
  pub_chans c : chans rt' !! c =
    receive (copies (target_queues e k s) s c) (message_id msg, msg) <$> chans rt !! c;
  pub_frame : bindings s' = bindings s ∧ exchanges s' = exchanges s
    ∧ connected_clients s' = connected_clients s ∧ max_queue_size s' = max_queue_size s
    ∧ tasks rt' = tasks rt
}.

(** The four outcomes of [publish]. *)
Lemma publish_cases e k msg client now utc s rt :
  NoDup (target_queues e k s) →
  let '(r, (s', rt')) := publish e k msg client now utc s rt in
  let saved := api_save_metadata
    {| Storage.message_id := message_id msg; Storage.client_id := client;
       Storage.exchange_name := e; Storage.routing_key := k;
       Storage.sent_time := Some utc; Storage.delivered_time := None;
       Storage.acknowledged_time := None |} (storage s) in
  match message_status s !! message_id msg with
  | Some _ => is_ok r = false ∧ s' = s ∧ rt' = rt
  | None =>
      storage s' = saved.2 ∧
      if is_ok saved.1 && negb (bool_decide (target_queues e k s = []))
      then r = Ok () ∧ published e k msg now s rt s' rt'
      else is_ok r = false ∧ s' = with_storage (λ _, saved.2) s ∧ rt' = rt
  end.
Proof.
  intros Hts. unfold publish. destruct (message_status s !! message_id msg); [done|].
  destruct (api_save_metadata _ (storage s)) as [[[]|err] st'] eqn:Hsave; simpl; [|done].
  set (s0 := with_storage (λ _, st') s).
  change (target_queues e k s) with (target_queues e k s0) in *.
  destruct (decide (target_queues e k s0 = [])) as [Hnil|Hnil].
  { by rewrite bool_decide_true. }
  rewrite bool_decide_false by done. simpl.
  pose proof (enqueue_loop (message_id msg) msg _ s0 ∅ Hts) as E.
  destruct (foldl (enqueue _ _) _ _) as [s1 qs]; simpl in E.
  destruct (enq_frame _ _ _ _ _ _ _ E) as (F1&F2&F3&F4&F5&F6).
  set (s3 := with_message_status _ (with_message_queues _ s1)).
  pose proof (notify_spec (message_id msg, msg) (target_queues e k s0) s3 rt Hts) as N.
  destruct (foldl (notify _) _ _) as [s4 rt4]. destruct N as (N1 & N2 & N3 & N4).
  split; [by rewrite N1; simpl; rewrite F5|]. split; [done|].
  split.
  - intros q. rewrite N1. apply (enq_queues _ _ _ _ _ _ _ E).
  - intros i st. rewrite N1. simpl. rewrite lookup_insert. case_decide; [naive_solver|].
    rewrite (enq_status _ _ _ _ _ _ _ E). naive_solver.
  - exists qs. rewrite N1. simpl. rewrite lookup_insert_eq. split; [done|].
    intros q. rewrite (enq_set _ _ _ _ _ _ _ E). set_solver.
  - intros i Hi Hev. rewrite N1. simpl. rewrite lookup_insert_ne by done.
    by apply (enq_index _ _ _ _ _ _ _ E).
  - intros i Hi. rewrite N1. simpl. rewrite lookup_insert_ne by done.
    apply (enq_index_dom _ _ _ _ _ _ _ E).
  - intros q. rewrite N3. simpl. by rewrite F3.
  - intros c. rewrite N4. unfold copies. simpl. by rewrite F3.
  - rewrite N1, N2. simpl. by rewrite F1, F2, F4, F6.
Qed.

(** ** The operations of the broker *)

Inductive Op :=
| DeclareQueue (q : string)
| DeclareExchange (e : string)
| Bind (q e k : string)
| Publish (e k : string) (msg : EncryptedInputData) (client : string) (now : Z) (utc : string)
| Register (q : string) (c : nat)
| Consume (q : string) (now : Z) (utc : string)
| MarkDelivered (id : string) (now : Z) (utc : string)
| Acknowledge (id : string) (now : Z) (utc : string)
| CleanupOld (now age : Z)
| CleanupConsumers
| CleanupQueue (q : string)
| Increment
| Decrement
| SaveKey (client key : string)
| GetKey (client : string)
| GetOwner (id : string)
| RunTask (i : nat)
| OpenChan (c : nat)
| CloseChan (c : nat)
| RecvChan (c : nat).

(** The receiver of a channel is dropped; what was not received is lost. *)
Definition close_chan (c : nat) rt : Runtime :=
  set_chans (alter (λ _, {| open := false; buf := [] |}) c (chans rt)) rt.
Definition open_chan (c : nat) rt : Runtime :=
  match chans rt !! c with
  | Some _ => rt
  | None => set_chans (<[c := {| open := true; buf := [] |}]> (chans rt)) rt
  end.
Definition recv_chan (c : nat) rt : Runtime :=
  set_chans (alter (λ ch, {| open := open ch; buf := tail (buf ch) |}) c (chans rt)) rt.

Definition exec (op : Op) (c : ServerState S * Runtime) : ServerState S * Runtime :=
  let '(s, rt) := c in
  match op with
  | DeclareQueue q => (declare_queue q s, rt)
  | DeclareExchange e => (declare_exchange e s, rt)
  | Bind q e k => (bind_queue q e k s, rt)
  | Publish e k msg client now utc => (publish e k msg client now utc s rt).2
  | Register q ch => register_consumer q ch s rt
  | Consume q now utc => ((consume q now utc s).2, rt)
  | MarkDelivered id now utc => (mark_delivered id now utc s, rt)
  | Acknowledge id now utc => (acknowledge id now utc s, rt)
  | CleanupOld now age => (cleanup_old_messages now age s, rt)
  | CleanupConsumers => (cleanup_dead_consumers rt s, rt)
  | CleanupQueue q => ((cleanup_consumers_for_queue q rt s).2, rt)
  | Increment => (increment_client_count s, rt)
  | Decrement => (decrement_client_count s, rt)
  | SaveKey client key => ((save_public_key client key s).2, rt)
  | GetKey client => ((get_public_key client s).2, rt)
  | GetOwner id => (with_storage (λ st, (api_get_client_id_for_message id st).2) s, rt)
  | RunTask i => (s, run_task i rt)
  | OpenChan ch => (s, open_chan ch rt)
  | CloseChan ch => (s, close_chan ch rt)
  | RecvChan ch => (s, recv_chan ch rt)
  end.

(** The states a server goes through, from a fresh one, when each operation
    satisfies a condition in the state it is applied to. *)
Inductive reachable_under (G : Op → ServerState S * Runtime → Prop) (max : nat)
    : ServerState S * Runtime → Prop :=
| reach_new st rt : reachable_under G max (new st max, rt)
| reach_step op c : reachable_under G max c → G op c → reachable_under G max (exec op c).

(** ** Well-formedness *)

Record wf s : Prop := {
  wf_ids q l e : queues s !! q = Some l → e ∈ l → message_id e.2 = e.1;
  wf_bound q l : queues s !! q = Some l → length l ≤ Nat.max 1 (max_queue_size s);
  wf_bindings e bs : bindings s !! e = Some bs →
    NoDup bs ∧ is_Some (exchanges s !! e) ∧ ∀ b, b ∈ bs → is_Some (queues s !! b.1);
  wf_index id : is_Some (message_status s !! id) → is_Some (message_queues s !! id);
  wf_unacked id st : message_status s !! id = Some st → acknowledged_time st = None
}.

(** Operations that touch none of the fields the invariants speak about. *)
Definition same_core s s' : Prop :=
  queues s' = queues s ∧ message_queues s' = message_queues s ∧ bindings s' = bindings s
  ∧ exchanges s' = exchanges s ∧ message_status s' = message_status s
  ∧ max_queue_size s' = max_queue_size s.

Lemma wf_same_core s s' : same_core s s' → wf s → wf s'.
Proof. intros (H1&H2&H3&H4&H5&H6) []. split; rewrite ?H1, ?H2, ?H3, ?H4, ?H5, ?H6; done. Qed.

Lemma targets_NoDup e k s : wf s → NoDup (target_queues e k s).
Proof.
  intros Hwf. unfold target_queues. destruct (bindings s !! e) as [bs|] eqn:Hb; [|constructor].
  destruct (wf_bindings _ Hwf _ _ Hb) as [Hnd _].
  apply NoDup_fmap_2_strong; [|by apply NoDup_filter].
  intros [q1 k1] [q2 k2] H1 H2 Hq. apply list_elem_of_filter in H1 as [H1 _].
  apply list_elem_of_filter in H2 as [H2 _]. naive_solver.
Qed.

(** Target queues exist. *)
Lemma targets_declared e k s q : wf s → q ∈ target_queues e k s → is_Some (queues s !! q).
Proof.
  intros Hwf. unfold target_queues. destruct (bindings s !! e) as [bs|] eqn:Hb; [|set_solver].
  destruct (wf_bindings _ Hwf _ _ Hb) as (_ & _ & Hd).
  intros (b & -> & Hin%list_elem_of_filter)%list_elem_of_fmap. naive_solver.
Qed.

Lemma wf_new st max : wf (new st max).
Proof. split; simpl; intros *; rewrite lookup_empty; done. Qed.

Lemma lookup_declare_queue q s q' :
  queues (declare_queue q s) !! q' =
  match queues s !! q' with Some l => Some l | None => if decide (q' = q) then Some [] else None end.
Proof.
  unfold declare_queue. simpl. destruct (queues s !! q) eqn:Hq.
  - destruct (queues s !! q') eqn:Hq'; [done|]. by rewrite decide_False by congruence.
  - destruct (decide (q' = q)) as [->|]; [by rewrite lookup_insert_eq, Hq|].
    rewrite lookup_insert_ne by done. by destruct (queues s !! q').
Qed.

Lemma wf_declare_queue q s : wf s → wf (declare_queue q s).
Proof.
  intros []. split; try done.
  - intros q' l e. rewrite lookup_declare_queue. destruct (queues s !! q') eqn:Hq.
    + intros; simplify_eq; eauto.
    + case_decide; [|done]. intros; simplify_eq. set_solver.
  - intros q' l. rewrite lookup_declare_queue. destruct (queues s !! q') eqn:Hq.
    + intros; simplify_eq; eauto.
    + case_decide; [|done]. intros; simplify_eq. simpl. lia.
  - intros e bs Hb. destruct (wf_bindings0 e bs Hb) as (H1 & H2 & H3). split_and!; [done..|].
    intros b Hin. rewrite lookup_declare_queue. destruct (H3 b Hin) as [l ->]. eauto.
Qed.

Lemma wf_declare_exchange e s : wf s → wf (declare_exchange e s).
Proof.
  intros []. split; try done.
  intros e' bs Hb. destruct (wf_bindings0 e' bs Hb) as (H1 & H2 & H3). split_and!; [done| |done].
  simpl. destruct (exchanges s !! e) eqn:He; [done|].
  destruct (decide (e = e')) as [->|]; [by rewrite lookup_insert_eq|by rewrite lookup_insert_ne].
Qed.

Lemma wf_bind_queue q e k s : wf s → wf (bind_queue q e k s).
Proof.
  intros Hwf. unfold bind_queue. case_decide as Hg; [|done]. destruct Hg as [Hq He].
  pose proof Hwf as []. split; try done. intros e' bs Hb. simpl in Hb.
  destruct (decide (e = e')) as [->|Hne].
  - destruct (bindings s !! e') as [bs0|] eqn:Hb0.
    + destruct (wf_bindings0 _ _ Hb0) as (H1 & H2 & H3). case_decide as Hin; [naive_solver|].
      rewrite lookup_insert_eq in Hb. simplify_eq. split_and!; [|done|].
      * apply NoDup_app. split_and!; [done| |apply NoDup_singleton]. set_solver.
      * intros b. rewrite elem_of_app, list_elem_of_singleton. intros [?| ->]; [by apply H3|done].
    + rewrite lookup_insert_eq in Hb. simplify_eq. split_and!; [apply NoDup_singleton|done|].
      intros b ->%list_elem_of_singleton. done.
  - destruct (bindings s !! e) as [bs0|] eqn:Hb0; [case_decide|];
      rewrite ?lookup_insert_ne in Hb by done; by eapply wf_bindings0.
Qed.

Lemma wf_published e k msg now s rt s' rt' :
  wf s → published e k msg now s rt s' rt' → wf s'.
Proof.
  intros Hwf Hp. pose proof Hwf as []. destruct (pub_frame _ _ _ _ _ _ _ _ Hp) as (F1&F2&F3&F4&_).
  assert (Hq : ∀ q l', queues s' !! q = Some l' → ∃ l, queues s !! q = Some l ∧
             (l' = l ∨ l' = push (max_queue_size s) l (message_id msg, msg))).
  { intros q l'. rewrite (pub_queues _ _ _ _ _ _ _ _ Hp). case_decide; [|by eauto].
    destruct (queues s !! q); simpl; [|done]. intros; simplify_eq; eauto. }
  split.
  - intros q l' e0 Hl Hin. destruct (Hq _ _ Hl) as (l & Hs & [->| ->]); [by eapply wf_ids0|].
    apply elem_of_push in Hin as [->|Hin]; [done|by eapply wf_ids0].
  - intros q l' Hl. rewrite F4. destruct (Hq _ _ Hl) as (l & Hs & [->| ->]); [by eapply wf_bound0|].
    apply push_length. by eapply wf_bound0.
  - intros e0 bs. rewrite F1, F2. intros Hb. destruct (wf_bindings0 _ _ Hb) as (H1 & H2 & H3).
    split_and!; [done..|]. intros b Hin. rewrite (pub_queues _ _ _ _ _ _ _ _ Hp).
    case_decide; [rewrite fmap_is_Some|]; by apply H3.
  - intros i [st Hst]. apply (pub_status _ _ _ _ _ _ _ _ Hp) in Hst as [[-> _]|(Hne & Hs & _)].
    + destruct (pub_index_new _ _ _ _ _ _ _ _ Hp) as (qs & -> & _). eauto.
    + apply (pub_index_dom _ _ _ _ _ _ _ _ Hp); [done|]. by apply wf_index0.
  - intros i st Hst. apply (pub_status _ _ _ _ _ _ _ _ Hp) in Hst as [[_ ->]|(_ & Hs & _)];
      [done|by eapply wf_unacked0].
Qed.

Lemma wf_publish e k msg client now utc s rt :
  wf s → wf (publish e k msg client now utc s rt).2.1.
Proof.
  intros Hwf. pose proof (publish_cases e k msg client now utc s rt (targets_NoDup e k s Hwf)) as H.
  destruct (publish e k msg client now utc s rt) as [r [s' rt']]. simpl in *.
  destruct (message_status s !! message_id msg); [by destruct H as (_ & -> & _)|].
  destruct H as [_ H]. destruct (_ && _).
  - destruct H as [_ H]. by eapply wf_published.
  - destruct H as (_ & -> & _). by apply (wf_same_core s).
Qed.

Lemma filter_elem id (l : list Entry) e : e ∈ filter (λ e, e.1 ≠ id) l → e ∈ l.
Proof. by intros [_ ?]%list_elem_of_filter. Qed.

Lemma wf_purge id s : wf s → wf (purge id s).
Proof.
  intros []. destruct (purge_frame id s) as (P1&P2&P3&P4&_&_&_&P8).
  split; rewrite ?P1, ?P2, ?P3, ?P4, ?P8.
  - intros q l' e Hl Hin. apply purge_queue in Hl as (l & Hl & [->| ->]); eauto using filter_elem.
  - intros q l' Hl. apply purge_queue in Hl as (l & Hl & [->| ->]); [by eapply wf_bound0|].
    etrans; [apply length_filter|by eapply wf_bound0].
  - intros e bs Hb. destruct (wf_bindings0 _ _ Hb) as (H1 & H2 & H3). split_and!; [done..|].
    intros b Hin. apply elem_of_dom. rewrite dom_purge. apply elem_of_dom. auto.
  - intros i [st Hst]. apply lookup_delete_Some in Hst as [Hne Hst].
    rewrite lookup_delete_ne by done. eauto.
  - intros i st Hst. apply lookup_delete_Some in Hst as [Hne Hst]. eauto.
Qed.

Lemma wf_acknowledge id now utc s : wf s → wf (acknowledge id now utc s).
Proof.
  intros Hwf. destruct (message_status s !! id) as [st|] eqn:Hs.
  - rewrite (acknowledge_eq _ _ _ _ _ Hs). apply (wf_same_core (purge id s)); [done|].
    by apply wf_purge.
  - unfold acknowledge. by rewrite Hs.
Qed.

Lemma wf_cleanup_old now age s : wf s → wf (cleanup_old_messages now age s).
Proof.
  intros Hwf. unfold cleanup_old_messages. apply foldl_preserves; [|done].
  intros; by apply wf_purge.
Qed.

(** A message status may change as long as it stays unacknowledged. *)
Lemma wf_set_status id st st' s :
  message_status s !! id = Some st → acknowledged_time st' = acknowledged_time st →
  wf s → wf (with_message_status (<[id := st']>) s).
Proof.
  intros Hs Ha []. split; try done; simpl.
  - intros i [st0 Hst]. apply wf_index0. rewrite lookup_insert in Hst.
    case_decide; subst; eauto.
  - intros i st0 Hst. rewrite lookup_insert in Hst. case_decide; simplify_eq; [|eauto].
    rewrite Ha. eauto.
Qed.

Lemma wf_mark_delivered id now utc s : wf s → wf (mark_delivered id now utc s).
Proof.
  intros Hwf. unfold mark_delivered. destruct (message_status s !! id) as [st|] eqn:Hs; [|done].
  destruct (delivered_time st); [done|].
  apply (wf_same_core (with_message_status (<[id := delivered now st]>) s)); [done|].
  by eapply wf_set_status.
Qed.

Lemma wf_consume q now utc s : wf s → wf (consume q now utc s).2.
Proof.
  intros Hwf. unfold consume. destruct (queues s !! q) as [[|[id m] rest]|] eqn:Hq; [done| |done].
  cbn [snd]. pose proof Hwf as [].
  assert (wf (with_queues (<[q := rest]>) s)) as H1.
  { split; try done; simpl.
    - intros q' l e. rewrite lookup_insert. case_decide; intros; simplify_eq; [|eauto].
      eapply wf_ids0; [done|]. by right.
    - intros q' l. rewrite lookup_insert. case_decide; intros; simplify_eq; [|eauto].
      specialize (wf_bound0 _ _ Hq). simpl in *. lia.
    - intros e bs Hb. destruct (wf_bindings0 _ _ Hb) as (H1 & H2 & H3). split_and!; [done..|].
      intros b Hin. rewrite lookup_insert. case_decide; eauto. }
  set (s1 := with_queues (<[q := rest]>) s) in *.
  destruct (message_status s1 !! id) as [st|] eqn:Hs.
  - apply (wf_same_core (with_message_status (<[id := delivered now st]>) s1)).
    + repeat split. simpl. apply map_eq. intros i. rewrite lookup_insert, lookup_alter.
      case_decide; [subst|done]. by unfold s1 in Hs; simpl in Hs; rewrite Hs.
    + by eapply wf_set_status.
  - apply (wf_same_core s1); [|done]. repeat split. simpl. apply map_eq. intros i.
    rewrite lookup_alter. case_decide; [subst|done]. simpl in Hs. by rewrite Hs.
Qed.

Lemma register_consumer_state q c s rt :
  (register_consumer q c s rt).1 =
  with_consumers (λ m, <[q := default [] (m !! q) ++ [c]]> m) (declare_queue q s).
Proof. unfold register_consumer. by repeat (case_match || case_decide). Qed.

(** Every operation preserves well-formedness. *)
End WithStorage.

#[export] Hint Resolve wf_new wf_declare_queue wf_declare_exchange wf_bind_queue wf_publish
  wf_consume wf_mark_delivered wf_acknowledge wf_cleanup_old : broker.

Abbreviation reachable := (reachable_under (λ _ _, True)).

Section Reachability.
Context {S : Type} `{A : StorageApi S}.
Implicit Types (s : ServerState S) (rt : Runtime) (q id : string).

Lemma wf_exec op c : wf c.1 → wf (exec op c).1.
Proof.
  destruct c as [s rt]; simpl. intros Hwf. destruct op; simpl; try done; auto with broker.
  - rewrite register_consumer_state. apply (wf_same_core (declare_queue q s)); [done|].
    by apply wf_declare_queue.
  - by apply (wf_same_core s).
  - apply (wf_same_core s); [|done]. unfold cleanup_consumers_for_queue. by case_match.
  - by apply (wf_same_core s).
  - by apply (wf_same_core s).
  - apply (wf_same_core s); [|done]. unfold save_public_key. by case_match.
  - apply (wf_same_core s); [|done]. unfold get_public_key. by case_match.
  - by apply (wf_same_core s).
Qed.

Lemma reachable_wf G max c : reachable_under G max c → wf c.1.
Proof. induction 1; [apply wf_new|by apply wf_exec]. Qed.

(** A sequence of operations, each satisfying the condition where it runs. *)
Fixpoint admissible (G : Op → ServerState S * Runtime → Prop) (ops : list Op)
    (c : ServerState S * Runtime) : Prop :=
  match ops with
  | [] => True
  | op :: ops' => G op c ∧ admissible G ops' (exec op c)
  end.
Definition run (ops : list Op) (c : ServerState S * Runtime) : ServerState S * Runtime :=
  foldl (λ c op, exec op c) c ops.

Lemma reachable_run G max ops c :
  reachable_under G max c → admissible G ops c → reachable_under G max (run ops c).
Proof.
  revert c. induction ops as [|op ops IH]; intros c Hc Ha; [done|].
  destruct Ha. apply IH; [by constructor|done].
Qed.

Lemma admissible_True ops c : admissible (λ _ _, True) ops c.
Proof. revert c. by induction ops. Qed.

Lemma purge_list_max l s : max_queue_size (foldl (λ s id, purge id s) s l) = max_queue_size s.
Proof.
  revert s. induction l as [|id l IH]; intros s; [done|]. cbn [foldl]. rewrite IH. by apply purge_frame.
Qed.

Lemma max_queue_size_exec op c : wf c.1 → max_queue_size (exec op c).1 = max_queue_size c.1.
Proof.
  destruct c as [s rt]; simpl. intros Hwf. destruct op; simpl; try done.
  - unfold bind_queue. by case_decide.
  - pose proof (publish_cases e k msg client now utc s rt (targets_NoDup e k s Hwf)) as H.
    destruct (publish e k msg client now utc s rt) as [r [s' rt']]. simpl in *.
    destruct (message_status s !! message_id msg); [by destruct H as (_ & -> & _)|].
    destruct H as [_ H]. destruct (_ && _); [|by destruct H as (_ & -> & _)].
    destruct H as [_ H]. apply H.
  - by rewrite register_consumer_state.
  - unfold consume. by repeat case_match.
  - unfold mark_delivered. by repeat case_match.
  - unfold acknowledge. case_match; [|done]. by destruct (purge_frame id
      (with_storage (api_update_acknowledged_time_async id utc)
         (with_message_status (alter (acknowledged now) id) s))) as (_&_&_&_&_&_&_&->).
  - apply purge_list_max.
  - unfold cleanup_consumers_for_queue. by case_match.
  - unfold save_public_key. by case_match.
  - unfold get_public_key. by case_match.
Qed.

Lemma reachable_max G max c : reachable_under G max c → max_queue_size c.1 = max.
Proof.
  induction 1 as [|op c Hc IH]; [done|]. by rewrite max_queue_size_exec; [|eapply reachable_wf].
Qed.

(** ** The tracking invariant *)

(** Every queued message is tracked: it has a status, the index of its
    identifier names the queue, and it is in the queue once. *)
Record tracked s : Prop := {
  tr_status q l e : queues s !! q = Some l → e ∈ l → is_Some (message_status s !! e.1);
  tr_index q l e : queues s !! q = Some l → e ∈ l →
    ∃ qs, message_queues s !! e.1 = Some qs ∧ q ∈ qs;
  tr_once q l : queues s !! q = Some l → NoDup l.*1
}.

(** Every identifier is in at most one queue. *)
Definition single s : Prop := ∀ q1 q2 l1 l2 e1 e2,
  queues s !! q1 = Some l1 → queues s !! q2 = Some l2 → e1 ∈ l1 → e2 ∈ l2 → e1.1 = e2.1 → q1 = q2.

(** A publication drops no message that another queue still holds. *)
Definition evict_safe (ts : list string) s : Prop := ∀ q l i q' l' e,
  q ∈ ts → queues s !! q = Some l → evicted_id (max_queue_size s) l = Some i →
  queues s !! q' = Some l' → e ∈ l' → e.1 = i → q' = q.

Lemma single_evict_safe ts s : single s → evict_safe ts s.
Proof.
  intros Hs q l i q' l' e _ Hl Hev Hl' He Hi.
  apply evicted_id_Some in Hev as (m & rest & -> & _).
  eapply Hs; [exact Hl'|exact Hl|exact He|by left|done].
Qed.

Lemma elem_of_push_strong max l e x :
  NoDup l.*1 → x ∈ push max l e → x = e ∨ (x ∈ l ∧ evicted_id max l ≠ Some x.1).
Proof.
  intros Hnd. unfold push, evicted_id. rewrite elem_of_app, list_elem_of_singleton.
  intros [H| ->]; [right|by left]. case_decide; [|done].
  destruct l as [|[i m] rest]; [done|]. simpl in *. split; [by right|].
  intros [= ->]. apply NoDup_cons in Hnd as [Hn _]. apply Hn. by apply list_elem_of_fmap_2.
Qed.

Lemma tracked_published e k msg now s rt s' rt' :
  tracked s → message_status s !! message_id msg = None →
  evict_safe (target_queues e k s) s → published e k msg now s rt s' rt' → tracked s'.
Proof.
  intros [] Hfresh Hsafe Hp.
  set (ts := target_queues e k s) in *.
  (* every surviving entry is the new one, or an old one that was not evicted *)
  assert (Hold : ∀ q l' x, queues s' !! q = Some l' → x ∈ l' →
     (x = (message_id msg, msg) ∧ q ∈ ts ∧ is_Some (queues s !! q))
     ∨ (∃ l, queues s !! q = Some l ∧ x ∈ l ∧ ¬ evicted ts s x.1)).
  { intros q l' x Hl Hx. rewrite (pub_queues _ _ _ _ _ _ _ _ Hp) in Hl. fold ts in Hl.
    destruct (decide (q ∈ ts)) as [Hin|Hout].
    - destruct (queues s !! q) as [l|] eqn:Hq; simplify_eq/=.
      apply elem_of_push_strong in Hx as [->|[Hx Hne]]; [left; eauto| |by eapply tr_once0].
      right. exists l. split_and!; [done..|]. intros (q0 & l0 & Hq0 & Hl0 & Hev).
      assert (q = q0) as <- by (by eapply (Hsafe q0 l0 x.1 q l x)). congruence.
    - right. exists l'. split_and!; [done..|]. intros (q0 & l0 & Hq0 & Hl0 & Hev).
      assert (q = q0) as <- by (by eapply (Hsafe q0 l0 x.1 q l' x)). done. }
  assert (Hne : ∀ q l x, queues s !! q = Some l → x ∈ l → x.1 ≠ message_id msg).
  { intros q l x Hl Hx Heq. destruct (tr_status0 _ _ _ Hl Hx) as [st Hst]. congruence. }
  split.
  - intros q l' x Hl Hx. destruct (Hold _ _ _ Hl Hx) as [[-> _]|(l & Hs & Hx' & Hev)].
    + exists (sent now). apply (pub_status _ _ _ _ _ _ _ _ Hp). by left.
    + destruct (tr_status0 _ _ _ Hs Hx') as [st Hst]. exists st.
      apply (pub_status _ _ _ _ _ _ _ _ Hp). right. eauto.
  - intros q l' x Hl Hx. destruct (Hold _ _ _ Hl Hx) as [(-> & Hq)|(l & Hs & Hx' & Hev)].
    + destruct (pub_index_new _ _ _ _ _ _ _ _ Hp) as (qs & Hqs & Hiff). exists qs.
      split; [done|]. by apply Hiff.
    + rewrite (pub_index _ _ _ _ _ _ _ _ Hp); eauto.
  - intros q l' Hl. rewrite (pub_queues _ _ _ _ _ _ _ _ Hp) in Hl. case_decide; [|eauto].
    destruct (queues s !! q) as [l|] eqn:Hq; simplify_eq/=. unfold push.
    rewrite fmap_app. apply NoDup_app. split_and!; [| |apply NoDup_singleton].
    + case_decide; [|eauto]. specialize (tr_once0 _ _ Hq). destruct l; [done|].
      by apply NoDup_cons in tr_once0 as [_ ?].
    + intros i (x & -> & Hx)%list_elem_of_fmap. simpl. rewrite list_elem_of_singleton.
      apply (Hne q l); [done|]. case_decide; [|done]. destruct l; [done|]. by right.
Qed.

Lemma single_published e k msg now s rt s' rt' :
  tracked s → single s → message_status s !! message_id msg = None →
  length (target_queues e k s) ≤ 1 → published e k msg now s rt s' rt' → single s'.
Proof.
  intros [] Hs Hfresh Hlen Hp q1 q2 l1 l2 e1 e2 H1 H2 He1 He2 Heq.
  assert (Hold : ∀ q l' x, queues s' !! q = Some l' → x ∈ l' →
     (x.1 = message_id msg ∧ q ∈ target_queues e k s)
     ∨ (∃ l, queues s !! q = Some l ∧ x ∈ l ∧ x.1 ≠ message_id msg)).
  { intros q l' x Hl Hx. rewrite (pub_queues _ _ _ _ _ _ _ _ Hp) in Hl.
    assert (∀ l, queues s !! q = Some l → x ∈ l → x.1 ≠ message_id msg) as Hne.
    { intros l Hq Hin Hid. destruct (tr_status0 _ _ _ Hq Hin) as [st Hst]. congruence. }
    case_decide; [|right; by eauto].
    destruct (queues s !! q) as [l|] eqn:Hq; simplify_eq/=.
    apply elem_of_push in Hx as [->|Hx]; [by left|right; eauto]. }
  destruct (Hold _ _ _ H1 He1) as [[I1 T1]|(l1' & Q1 & M1 & N1)],
           (Hold _ _ _ H2 He2) as [[I2 T2]|(l2' & Q2 & M2 & N2)]; try congruence.
  - destruct (target_queues e k s) as [|q [|q' ts]]; simpl in Hlen; [set_solver| |lia].
    apply list_elem_of_singleton in T1, T2. congruence.
  - by eapply Hs.
Qed.

(** Operations that only take entries out of queues, or add empty queues, and
    keep the tracking of the entries that stay. *)
Definition shrinks s s' : Prop := ∀ q l', queues s' !! q = Some l' →
  l' = [] ∨ ∃ l, queues s !! q = Some l ∧ l' `sublist_of` l ∧ ∀ e, e ∈ l' →
    (is_Some (message_status s !! e.1) → is_Some (message_status s' !! e.1))
    ∧ message_queues s' !! e.1 = message_queues s !! e.1.

Lemma sublist_fmap_fst (l l' : list Entry) : l' `sublist_of` l → l'.*1 `sublist_of` l.*1.
Proof. induction 1; simpl; by constructor. Qed.

Lemma shrinks_tracked s s' : shrinks s s' → tracked s → tracked s'.
Proof.
  intros Hsh []. split.
  - intros q l' e Hl He. destruct (Hsh _ _ Hl) as [->|(l & Hs & Hsub & Hk)]; [set_solver|].
    apply (Hk e He). eapply tr_status0; [exact Hs|]. by apply (elem_of_sublist l').
  - intros q l' e Hl He. destruct (Hsh _ _ Hl) as [->|(l & Hs & Hsub & Hk)]; [set_solver|].
    destruct (Hk e He) as [_ ->]. eapply tr_index0; [exact Hs|]. by apply (elem_of_sublist l').
  - intros q l' Hl. destruct (Hsh _ _ Hl) as [->|(l & Hs & Hsub & _)]; [constructor|].
    eapply sublist_NoDup; [by eapply tr_once0|]. by apply sublist_fmap_fst.
Qed.

Lemma shrinks_single s s' : shrinks s s' → single s → single s'.
Proof.
  intros Hsh Hs q1 q2 l1 l2 e1 e2 H1 H2 He1 He2 Heq.
  destruct (Hsh _ _ H1) as [->|(l1' & Q1 & S1 & _)]; [set_solver|].
  destruct (Hsh _ _ H2) as [->|(l2' & Q2 & S2 & _)]; [set_solver|].
  eapply Hs; [exact Q1|exact Q2|by apply (elem_of_sublist l1)|by apply (elem_of_sublist l2)|done].
Qed.

Lemma shrinks_refl s s' :
  queues s' = queues s → message_queues s' = message_queues s →
  (∀ i, is_Some (message_status s !! i) → is_Some (message_status s' !! i)) → shrinks s s'.
Proof. intros Hq Hm Hst q l'. rewrite Hq, Hm. intros Hl. right. exists l'. naive_solver. Qed.

Lemma shrinks_declare_queue q s : shrinks s (declare_queue q s).
Proof.
  intros q' l'. rewrite lookup_declare_queue. destruct (queues s !! q') eqn:Hq.
  - intros; simplify_eq. right. by exists l'.
  - case_decide; [|done]. intros; simplify_eq. by left.
Qed.

Lemma shrinks_purge id s : tracked s → shrinks s (purge id s).
Proof.
  intros Ht q l' Hl. destruct (purge_frame id s) as (P1 & P2 & _). rewrite P1, P2.
  assert (∃ l, queues s !! q = Some l ∧ l' `sublist_of` l ∧ ∀ e, e ∈ l' → e.1 ≠ id)
    as (l & Hs & Hsub & Hne).
  { rewrite lookup_purge_queues in Hl. case_decide as Hd.
    - destruct (queues s !! q) as [l|]; simplify_eq/=. exists l. split_and!; [done| |].
      + apply sublist_filter.
      + by intros e [? _]%list_elem_of_filter.
    - exists l'. split_and!; [done..|]. intros e He <-.
      destruct (tr_index _ Ht _ _ _ Hl He) as (qs & Hqs & Hin). rewrite Hqs in Hd. done. }
  right. exists l. split_and!; [done..|]. intros e He.
  by rewrite !lookup_delete_ne by (apply not_eq_sym; auto).
Qed.

(** The invariant of a server that evicts safely, and of one whose routing
    keys address one queue each. *)
Definition inv (direct : bool) s : Prop := tracked s ∧ (direct = true → single s).

Lemma inv_shrinks d s s' : shrinks s s' → inv d s → inv d s'.
Proof.
  intros Hsh [Ht Hs]. split; [by eapply shrinks_tracked|].
  intros Hd. eapply shrinks_single; eauto.
Qed.

Lemma inv_purge d s id : inv d s → inv d (purge id s).
Proof. intros Hi. eapply inv_shrinks; [|done]. apply shrinks_purge, Hi. Qed.

(** The condition on publications. *)
Definition guard (direct : bool) (op : Op) (c : ServerState S * Runtime) : Prop :=
  match op with
  | Publish e k _ _ _ _ =>
      if direct then length (target_queues e k c.1) ≤ 1
      else evict_safe (target_queues e k c.1) c.1
  | _ => True
  end.

Lemma inv_publish d e k msg client now utc s rt :
  wf s → guard d (Publish e k msg client now utc) (s, rt) → inv d s →
  inv d (publish e k msg client now utc s rt).2.1.
Proof.
  intros Hwf Hg [Ht Hs]. simpl in Hg.
  pose proof (publish_cases e k msg client now utc s rt (targets_NoDup e k s Hwf)) as H.
  destruct (publish e k msg client now utc s rt) as [r [s' rt']]. simpl in *.
  destruct (message_status s !! message_id msg) eqn:Hm; [by destruct H as (_ & -> & _)|].
  destruct H as [_ H]. destruct (_ && _).
  - destruct H as [_ H]. split.
    + eapply tracked_published; [done..| |done]. destruct d; [|done].
      by apply single_evict_safe, Hs.
    + intros ->. eapply single_published; eauto.
  - destruct H as (_ & -> & _). apply (inv_shrinks d s); [|done]. by apply shrinks_refl.
Qed.

Lemma shrinks_consume q now utc s : shrinks s (consume q now utc s).2.
Proof.
  unfold consume. destruct (queues s !! q) as [[|[id m] rest]|] eqn:Hq;
    [by apply shrinks_refl| |by apply shrinks_refl].
  assert (∀ i, is_Some (message_status s !! i) →
               is_Some (alter (delivered now) id (message_status s) !! i)) as Hst.
  { intros i [x Hx]. rewrite lookup_alter. case_decide; subst; rewrite Hx; by eexists. }
  intros q' l'. simpl. rewrite lookup_insert. intros Hl. right.
  case_decide; simplify_eq.
  - eexists. split_and!; [done|by constructor|auto].
  - exists l'. split_and!; [done..|auto].
Qed.

Lemma shrinks_mark_delivered id now utc s : shrinks s (mark_delivered id now utc s).
Proof.
  unfold mark_delivered. destruct (message_status s !! id) as [st|] eqn:Hs; [|by apply shrinks_refl].
  destruct (delivered_time st); apply shrinks_refl; try done. simpl.
  intros i. rewrite lookup_insert. case_decide; [by eauto|done].
Qed.

Lemma inv_acknowledge d id now utc s : inv d s → inv d (acknowledge id now utc s).
Proof.
  intros Hi. destruct (message_status s !! id) as [st|] eqn:Hs.
  - rewrite (acknowledge_eq _ _ _ _ _ Hs). apply (inv_shrinks d (purge id s)).
    + by apply shrinks_refl.
    + by apply inv_purge.
  - unfold acknowledge. by rewrite Hs.
Qed.

Lemma inv_exec d op c : wf c.1 → guard d op c → inv d c.1 → inv d (exec op c).1.
Proof.
  destruct c as [s rt]; simpl. intros Hwf Hg Hi.
  destruct op; simpl; try done;
    eauto using inv_publish, inv_acknowledge, inv_shrinks, shrinks_declare_queue,
      shrinks_consume, shrinks_mark_delivered;
    try (apply (inv_shrinks d s); [apply shrinks_refl; done|done]).
  - apply (inv_shrinks d s); [|done]. unfold bind_queue. case_decide; by apply shrinks_refl.
  - rewrite register_consumer_state. apply (inv_shrinks d (declare_queue q s)).
    + by apply shrinks_refl.
    + eauto using inv_shrinks, shrinks_declare_queue.
  - unfold cleanup_old_messages. apply foldl_preserves; [|done]. intros; by apply inv_purge.
  - apply (inv_shrinks d s); [|done]. unfold cleanup_consumers_for_queue.
    case_match; by apply shrinks_refl.
  - apply (inv_shrinks d s); [|done]. unfold save_public_key. case_match; by apply shrinks_refl.
  - apply (inv_shrinks d s); [|done]. unfold get_public_key. case_match; by apply shrinks_refl.
Qed.

Lemma inv_new d st max : inv d (new st max).
Proof.
  split; [split|intros _ ?]; simpl; intros *; rewrite lookup_empty; done.
Qed.

Lemma reachable_inv d max c : reachable_under (guard d) max c → inv d c.1.
Proof.
  induction 1 as [|op c Hc IH Hg]; [apply inv_new|].
  apply inv_exec; [by eapply reachable_wf|done|done].
Qed.

(** In a tracked state the index finds every copy: removing a message through
    it is a full scan of all queues. *)
Lemma purge_full_scan id s :
  tracked s → queues (purge id s) = filter (λ e, e.1 ≠ id) <$> queues s.
Proof.
  intros Ht. apply map_eq. intros q. rewrite lookup_purge_queues, lookup_fmap.
  case_decide as Hd; [done|]. destruct (queues s !! q) as [l|] eqn:Hq; simpl; [|done].
  f_equal. symmetry. apply filter_all. intros e He <-.
  destruct (tr_index _ Ht _ _ _ Hq He) as (qs & Hqs & Hin). by rewrite Hqs in Hd.
Qed.

End Reachability.
End StateInv.
