(* ===== verification/StateSpec.v ===== *)
(** An abstract broker and the proof that [State.v] implements it.

    The abstract broker keeps queues, routes and the set of live identifiers.
    It has no index of the queues a message is in and no delivery times:
    acknowledging a message removes it from every queue by a full scan, and an
    expiry pass removes any set of live messages. The implementation finds the
    queues through [message_queues]; the refinement shows that it agrees. *)
From S2P Require Import Prelude RustStr Storage StorageFacts State StateFacts.
From S2P Require Import StateInv.
From stdpp Require Import list options.

Module StateSpec.
Import State StateFacts StateInv.

Record Abs := {
  a_queues : gmap string (list Entry);
  a_live : gset string;
  a_routes : gmap string (list (string * string));
  a_exchanges : gset string
}.

Definition set_a_queues m a : Abs :=
  {| a_queues := m; a_live := a_live a; a_routes := a_routes a; a_exchanges := a_exchanges a |}.
Definition set_a_live m a : Abs :=
  {| a_queues := a_queues a; a_live := m; a_routes := a_routes a; a_exchanges := a_exchanges a |}.

Definition a_declare (q : string) (a : Abs) : Abs :=
  set_a_queues (match a_queues a !! q with
                | Some _ => a_queues a
                | None => <[q := []]> (a_queues a)
                end) a.

Definition a_bind (q e k : string) (a : Abs) : Abs :=
  if decide (q ∈ dom (a_queues a) ∧ e ∈ a_exchanges a) then
    let bs := default [] (a_routes a !! e) in
    {| a_queues := a_queues a; a_live := a_live a; a_exchanges := a_exchanges a;
       a_routes := <[e := if decide ((q, k) ∈ bs) then bs else bs ++ [(q, k)]]> (a_routes a) |}
  else a.

Definition a_targets (e k : string) (a : Abs) : list string :=
  (filter (λ b, b.2 = k) (default [] (a_routes a !! e))).*1.

(** Every target queue gets one copy at its back; full queues lose their
    oldest message, which is then no longer live. *)
Definition push_all (max : nat) (ts : list string) (e : Entry) (m : gmap string (list Entry)) :=
  map_imap (λ q l, Some (if decide (q ∈ ts) then push max l e else l)) m.
Definition evicted_ids (max : nat) (ts : list string) (m : gmap string (list Entry))
    : gset string := list_to_set (omap (λ q, m !! q ≫= evicted_id max) ts).
Definition a_publish (max : nat) (e k : string) (msg : EncryptedInputData) (a : Abs) : Abs :=
  let ts := a_targets e k a in
  set_a_queues (push_all max ts (message_id msg, msg) (a_queues a))
    (set_a_live ({[message_id msg]} ∪ (a_live a ∖ evicted_ids max ts (a_queues a))) a).

(** Removal of messages by a scan of all queues. *)
Definition a_drop (ids : gset string) (a : Abs) : Abs :=
  set_a_queues (filter (λ x, x.1 ∉ ids) <$> a_queues a) (set_a_live (a_live a ∖ ids) a).

(** The transitions of the abstract broker. *)
Definition spec_step (max : nat) (op : Op) (a a' : Abs) : Prop :=
  match op with
  | DeclareQueue q | Register q _ => a' = a_declare q a
  | DeclareExchange e =>
      a' = {| a_queues := a_queues a; a_live := a_live a; a_routes := a_routes a;
              a_exchanges := {[e]} ∪ a_exchanges a |}
  | Bind q e k => a' = a_bind q e k a
  | Publish e k msg _ _ _ =>
      (a' = a) ∨ ((message_id msg ∉ a_live a) ∧ a_targets e k a ≠ [] ∧ a' = a_publish max e k msg a)
  | Consume q _ _ => a' = set_a_queues (alter tail q (a_queues a)) a
  | Acknowledge id _ _ => a' = (if decide (id ∈ a_live a) then a_drop {[id]} a else a)
  | CleanupOld _ _ => ∃ ids, ids ⊆ a_live a ∧ a' = a_drop ids a
  | _ => a' = a
  end.

Section WithStorage.
Context {S : Type} `{A : StorageApi S}.
Implicit Types (s : ServerState S) (rt : Runtime).

Definition abs (s : ServerState S) : Abs :=
  {| a_queues := queues s; a_live := dom (message_status s); a_routes := bindings s;
     a_exchanges := dom (exchanges s) |}.

Lemma a_targets_abs e k s : a_targets e k (abs s) = target_queues e k s.
Proof. unfold a_targets, target_queues. simpl. by destruct (bindings s !! e). Qed.

Lemma elem_of_evicted_ids s ts i :
  i ∈ evicted_ids (max_queue_size s) ts (queues s) ↔ evicted ts s i.
Proof.
  unfold evicted_ids, evicted. rewrite elem_of_list_to_set, list_elem_of_omap.
  setoid_rewrite bind_Some. naive_solver.
Qed.

(** A published state abstracts to the abstract publication. *)
Lemma abs_published e k msg now s rt s' rt' :
  published e k msg now s rt s' rt' → abs s' = a_publish (max_queue_size s) e k msg (abs s).
Proof.
  intros Hp. destruct (pub_frame _ _ _ _ _ _ _ _ Hp) as (F1 & F2 & _).
  unfold a_publish. rewrite a_targets_abs. unfold abs, set_a_queues, set_a_live. simpl.
  rewrite F1, F2. f_equal.
  - apply map_eq. intros q. rewrite (pub_queues _ _ _ _ _ _ _ _ Hp).
    unfold push_all. rewrite map_lookup_imap. destruct (queues s !! q); simpl; by case_decide.
  - apply set_eq. intros i. rewrite elem_of_union, elem_of_difference, elem_of_singleton,
      elem_of_evicted_ids, !elem_of_dom.
    split.
    + intros [st Hst]. apply (pub_status _ _ _ _ _ _ _ _ Hp) in Hst. naive_solver.
    + intros H. destruct (decide (i = message_id msg)) as [->|Hne].
      * exists (sent now). apply (pub_status _ _ _ _ _ _ _ _ Hp). by left.
      * destruct H as [?|[[st Hst] Hev]]; [done|]. exists st.
        apply (pub_status _ _ _ _ _ _ _ _ Hp). by right.
Qed.

Lemma abs_publish e k msg client now utc s rt :
  wf s →
  spec_step (max_queue_size s) (Publish e k msg client now utc) (abs s)
    (abs (publish e k msg client now utc s rt).2.1).
Proof.
  intros Hwf.
  pose proof (publish_cases e k msg client now utc s rt (targets_NoDup e k s Hwf)) as H.
  destruct (publish e k msg client now utc s rt) as [r [s' rt']]. simpl in *.
  destruct (message_status s !! message_id msg) eqn:Hm; [left; by destruct H as (_ & -> & _)|].
  destruct H as [_ H]. destruct (is_ok _ && negb _) eqn:Hb; [|left; by destruct H as (_ & -> & _)].
  right. split_and!.
  - by apply not_elem_of_dom.
  - rewrite a_targets_abs. apply andb_true_iff in Hb as [_ Hb].
    by apply negb_true_iff, bool_decide_eq_false in Hb.
  - by eapply abs_published, H.
Qed.

(** In a tracked state, removing messages through the index is a full scan. *)
Lemma purge_list_abs l s :
  tracked s → abs (foldl (λ s id, purge id s) s l) = a_drop (list_to_set l) (abs s).
Proof.
  revert s. induction l as [|id l IH]; intros s Ht; cbn [foldl].
  - unfold a_drop, abs, set_a_queues, set_a_live. simpl. f_equal; [|set_solver].
    apply map_eq. intros q. rewrite lookup_fmap. destruct (queues s !! q); simpl; [|done].
    f_equal. symmetry. apply filter_all. set_solver.
  - rewrite IH by (eapply shrinks_tracked; [by apply shrinks_purge|done]).
    destruct (purge_frame id s) as (P1 & _ & P3 & P4 & _).
    unfold a_drop, abs, set_a_queues, set_a_live.
    cbn [a_queues a_live a_routes a_exchanges]. rewrite P1, P3, P4. f_equal.
    + rewrite purge_full_scan by done. apply map_eq. intros q. rewrite !lookup_fmap.
      destruct (queues s !! q); simpl; [|done]. f_equal. rewrite list_filter_filter.
      apply list_filter_iff. set_solver.
    + rewrite dom_delete_L. set_solver.
Qed.

Lemma abs_acknowledge id now utc s :
  tracked s →
  abs (acknowledge id now utc s) = if decide (id ∈ a_live (abs s)) then a_drop {[id]} (abs s) else abs s.
Proof.
  intros Ht. destruct (message_status s !! id) as [st|] eqn:Hs.
  - rewrite (acknowledge_eq _ _ _ _ _ Hs), decide_True by (by apply elem_of_dom_2 in Hs).
    transitivity (abs (purge id s)); [done|].
    pose proof (purge_list_abs [id] s Ht) as H. cbn [foldl] in H. rewrite H. simpl.
    by rewrite union_empty_r_L.
  - unfold acknowledge. rewrite Hs, decide_False; [done|]. by apply not_elem_of_dom.
Qed.

Lemma abs_consume q now utc s :
  abs (consume q now utc s).2 = set_a_queues (alter tail q (queues s)) (abs s).
Proof.
  unfold consume, abs, set_a_queues.
  destruct (queues s !! q) as [[|[id m] rest]|] eqn:Hq; simpl; f_equal.
  - symmetry. apply map_eq. intros q'. rewrite lookup_alter. case_decide; subst; [by rewrite Hq|done].
  - apply map_eq. intros q'. rewrite lookup_alter, lookup_insert.
    case_decide; subst; [by rewrite Hq|done].
  - by rewrite dom_alter_L.
  - symmetry. apply map_eq. intros q'. rewrite lookup_alter. case_decide; subst; [by rewrite Hq|done].
Qed.

Lemma expired_live now age s : list_to_set (expired_messages now age s) ⊆ dom (message_status s).
Proof.
  intros i. rewrite elem_of_list_to_set. unfold expired_messages.
  intros ([j st] & -> & [_ Hin]%list_elem_of_filter)%list_elem_of_fmap.
  apply elem_of_map_to_list in Hin. by apply elem_of_dom_2 in Hin.
Qed.

Lemma abs_bind q e k s : abs (bind_queue q e k s) = a_bind q e k (abs s).
Proof.
  unfold bind_queue, a_bind. simpl.
  rewrite (decide_ext (is_Some (queues s !! q) ∧ is_Some (exchanges s !! e))
             (q ∈ dom (queues s) ∧ e ∈ dom (exchanges s))) by (by rewrite !elem_of_dom).
  case_decide; [|done]. unfold abs. simpl. f_equal.
  destruct (bindings s !! e) as [bs|] eqn:Hb; simpl; [|done].
  case_decide; [by rewrite insert_id|done].
Qed.

End WithStorage.
End StateSpec.
