(* ===== verification/StateProps.v ===== *)
(** The properties of the broker state. *)
From S2P Require Import Prelude RustStr Storage StorageFacts StorageProps State.
From S2P Require Import StateFacts StateInv StateSpec.
From stdpp Require Import list options.

Module StateProps.
Import State StateFacts StateInv StateSpec.

Section WithStorage.
Context {S : Type} `{A : StorageApi S}.
Implicit Types (s : ServerState S) (rt : Runtime) (c : ServerState S * Runtime).

(** ** Shared lemmas *)

Lemma abs_exec d op c :
  wf c.1 → guard d op c → inv d c.1 →
  spec_step (max_queue_size c.1) op (abs c.1) (abs (exec op c).1).
Proof.
  destruct c as [s rt]; simpl. intros Hwf Hg [Ht _].
  destruct op; simpl; try done.
  - unfold abs. simpl. f_equal. destruct (exchanges s !! e) eqn:He; [|by rewrite dom_insert_L].
    apply elem_of_dom_2 in He. set_solver.
  - apply abs_bind.
  - by apply abs_publish.
  - by rewrite register_consumer_state.
  - apply abs_consume.
  - unfold mark_delivered. destruct (message_status s !! id) as [st|] eqn:Hs; [|done].
    destruct (delivered_time st); [done|]. unfold abs. simpl. f_equal.
    apply elem_of_dom_2 in Hs. rewrite dom_insert_L. set_solver.
  - by apply abs_acknowledge.
  - exists (list_to_set (expired_messages now age s)). split; [apply expired_live|].
    by apply purge_list_abs.
  - unfold cleanup_consumers_for_queue. by case_match.
  - unfold save_public_key. by case_match.
  - unfold get_public_key. by case_match.
Qed.

(** The operations that may take an entry out of a queue. *)
Definition removes (op : Op) (q : string) (x : Entry) s : Prop :=
  match op with
  | Acknowledge id _ _ => id = x.1
  | CleanupOld now age => x.1 ∈ expired_messages now age s
  | Consume q' _ _ => q' = q
  | Publish e k _ _ _ _ =>
      q ∈ target_queues e k s
      ∧ (queues s !! q ≫= evicted_id (max_queue_size s)) = Some x.1
  | _ => False
  end.

Lemma elem_of_push_kept max l e x :
  x ∈ l → evicted_id max l ≠ Some x.1 → x ∈ push max l e.
Proof.
  unfold push, evicted_id. intros Hx Hev. apply elem_of_app. left. case_decide; [|done].
  destruct l as [|y l]; [by apply elem_of_nil in Hx|]. simpl in *.
  apply elem_of_cons in Hx as [->|Hx]; [done|done].
Qed.

Lemma elem_of_drop (ids : gset string) (m : gmap string (list Entry)) q l x :
  m !! q = Some l → x ∈ l → x.1 ∉ ids →
  ∃ l', (filter (λ x, x.1 ∉ ids) <$> m) !! q = Some l' ∧ x ∈ l'.
Proof.
  intros Hl Hx Hn. exists (filter (λ x, x.1 ∉ ids) l). rewrite lookup_fmap, Hl.
  split; [done|]. by apply list_elem_of_filter.
Qed.

(** What an operation makes of one queue. *)
Inductive queue_evolves (l l' : list Entry) : Prop :=
| evolves_loses : l' `sublist_of` l → queue_evolves l l'
| evolves_gains e : l' `sublist_of` l ++ [e] → queue_evolves l l'.

Lemma push_sublist max l e : push max l e `sublist_of` l ++ [e].
Proof.
  unfold push. apply sublist_app; [|done]. case_decide; [|done].
  destruct l; simpl; [done|]. by constructor.
Qed.

Lemma purge_evolves id s q l :
  queues s !! q = Some l → ∃ l', queues (purge id s) !! q = Some l' ∧ l' `sublist_of` l.
Proof.
  intros Hl. rewrite lookup_purge_queues. case_decide; [|by eauto].
  rewrite Hl. eexists. split; [done|]. apply sublist_filter.
Qed.

Lemma purge_list_evolves ids s q l :
  queues s !! q = Some l →
  ∃ l', queues (foldl (λ s id, purge id s) s ids) !! q = Some l' ∧ l' `sublist_of` l.
Proof.
  revert s l. induction ids as [|id ids IH]; intros s l Hl; [by eauto|]. cbn [foldl].
  destruct (purge_evolves id s q l Hl) as (l1 & H1 & S1).
  destruct (IH _ _ H1) as (l2 & H2 & S2). exists l2. split; [done|by etrans].
Qed.

Lemma declare_queue_keeps q q' s l :
  queues s !! q' = Some l → queues (declare_queue q s) !! q' = Some l.
Proof. intros Hl. rewrite lookup_declare_queue. by rewrite Hl. Qed.

Lemma publish_evolves e k msg client now utc s rt q l :
  wf s → queues s !! q = Some l →
  ∃ l', queues (publish e k msg client now utc s rt).2.1 !! q = Some l' ∧ queue_evolves l l'.
Proof.
  intros Hwf Hl.
  pose proof (publish_cases e k msg client now utc s rt (targets_NoDup e k s Hwf)) as H.
  destruct (publish e k msg client now utc s rt) as [r [s' rt']]. simpl in *.
  destruct (message_status s !! message_id msg).
  { destruct H as (_ & -> & _). exists l. split; [done|by constructor]. }
  destruct H as [_ H]. destruct (_ && _).
  - destruct H as [_ H]. rewrite (pub_queues _ _ _ _ _ _ _ _ H), Hl. case_decide; simpl.
    + eexists. split; [done|]. eapply evolves_gains, push_sublist.
    + exists l. split; [done|by constructor].
  - destruct H as (_ & -> & _). exists l. split; [done|by constructor].
Qed.

Lemma consume_evolves q now utc s q' l :
  queues s !! q' = Some l →
  ∃ l', queues (consume q now utc s).2 !! q' = Some l' ∧ l' `sublist_of` l.
Proof.
  intros Hl. unfold consume. destruct (queues s !! q) as [[|[id m] rest]|] eqn:Hq;
    [by eauto| |by eauto]. simpl. rewrite lookup_insert. case_decide; [|by eauto].
  simplify_eq. eexists. split; [done|by constructor].
Qed.

(** A drained delivery task: its channel has received its messages in order. *)
Lemma run_task_drains i ch es rt (c : nat) :
  tasks rt !! i = Some (c, es) → chans rt !! c = Some ch → open ch = true →
  chans (Nat.iter (length es) (run_task i) rt) !! c = Some {| open := true; buf := buf ch ++ es |}
  ∧ tasks (Nat.iter (length es) (run_task i) rt) = <[i := (c, [])]> (tasks rt).
Proof.
  revert ch rt. induction es as [|e es IH]; intros ch rt Ht Hc Ho.
  { simpl. rewrite app_nil_r. destruct ch as [o b]; simpl in *; subst.
    split; [done|]. by rewrite list_insert_id. }
  cbn [length]. rewrite Nat.iter_succ_r.
  assert (run_task i rt = set_tasks (<[i := (c, es)]> (tasks rt))
    (set_chans (<[c := {| open := true; buf := buf ch ++ [e] |}]> (chans rt)) rt)) as ->.
  { unfold run_task, send. by rewrite Ht, Hc, Ho. }
  destruct (IH {| open := true; buf := buf ch ++ [e] |}
    (set_tasks (<[i := (c, es)]> (tasks rt))
      (set_chans (<[c := {| open := true; buf := buf ch ++ [e] |}]> (chans rt)) rt)))
    as [H1 H2].
  - simpl. apply list_lookup_insert_eq. by eapply lookup_lt_Some.
  - simpl. apply lookup_insert_eq.
  - done.
  - simpl buf in H1. rewrite <-app_assoc in H1. split; [done|].
    rewrite H2. simpl. apply list_insert_insert_eq.
Qed.

(** ** Properties *)

(** No queue of a reachable broker holds more messages than the configured
    maximum (a maximum of zero acts as one). *)
Theorem queue_bound max c q l :
  reachable max c → queues c.1 !! q = Some l → length l ≤ Nat.max 1 max.
Proof.
  intros Hr Hl. rewrite <-(reachable_max _ _ _ Hr). by eapply wf_bound; [eapply reachable_wf|].
Qed.

(** C9: a publication succeeds exactly when its identifier is not live, the
    metadata row is saved and some queue is bound to the exchange and key. *)
Theorem publish_ok_iff max e k msg client now utc c :
  reachable max c →
  is_ok (publish e k msg client now utc c.1 c.2).1 = true ↔
  message_status c.1 !! message_id msg = None
  ∧ is_ok (api_save_metadata
      {| Storage.message_id := message_id msg; Storage.client_id := client;
         Storage.exchange_name := e; Storage.routing_key := k;
         Storage.sent_time := Some utc; Storage.delivered_time := None;
         Storage.acknowledged_time := None |} (storage c.1)).1 = true
  ∧ target_queues e k c.1 ≠ [].
Proof.
  intros Hr. pose proof (publish_cases e k msg client now utc c.1 c.2
    (targets_NoDup e k c.1 (reachable_wf _ _ _ Hr))) as H.
  destruct (publish e k msg client now utc c.1 c.2) as [r [s' rt']]. simpl in *.
  destruct (message_status c.1 !! message_id msg); [destruct H as (-> & _); naive_solver|].
  destruct H as [_ H]. destruct (is_ok (fst _)); simpl in H; [|destruct H as (-> & _); naive_solver].
  case_bool_decide; simpl in H; destruct H as [-> _]; naive_solver.
Qed.

(** A successful publication appends exactly one copy to the back of every
    bound queue (dropping the oldest entry of a full one) and leaves every
    other queue alone; the message becomes live with its sent time, and its
    index names exactly the bound queues. *)
Theorem publish_enqueues_once max e k msg client now utc c s' rt' :
  reachable max c →
  publish e k msg client now utc c.1 c.2 = (Ok (), (s', rt')) →
  (∀ q l, queues c.1 !! q = Some l →
     queues s' !! q = Some (if decide (q ∈ target_queues e k c.1)
                            then push max l (message_id msg, msg) else l))
  ∧ message_status s' !! message_id msg = Some (sent now)
  ∧ (∃ qs, message_queues s' !! message_id msg = Some qs
           ∧ ∀ q, q ∈ qs ↔ q ∈ target_queues e k c.1).
Proof.
  intros Hr Hp. pose proof (reachable_wf _ _ _ Hr) as Hwf.
  pose proof (publish_cases e k msg client now utc c.1 c.2 (targets_NoDup e k c.1 Hwf)) as H.
  rewrite Hp in H. rewrite <-(reachable_max _ _ _ Hr).
  destruct (message_status c.1 !! message_id msg); [by destruct H|]. destruct H as [_ H].
  destruct (_ && _); [|by destruct H]. destruct H as [_ H]. split_and!.
  - intros q l Hl. rewrite (pub_queues _ _ _ _ _ _ _ _ H), Hl. by case_decide.
  - apply (pub_status _ _ _ _ _ _ _ _ H). by left.
  - destruct (pub_index_new _ _ _ _ _ _ _ _ H) as (qs & Hqs & Hiff). exists qs. split; [done|].
    intros q. rewrite Hiff. split; [by intros []|]. intros Hq. split; [done|].
    by eapply targets_declared.
Qed.

(** A successful publication sends every open consumer one copy for each
    time it is registered on a bound queue, sends nobody else anything, and
    forgets the closed consumers of the bound queues. *)
Theorem publish_notifies_consumers max e k msg client now utc c s' rt' :
  reachable max c →
  publish e k msg client now utc c.1 c.2 = (Ok (), (s', rt')) →
  (∀ ch, chans rt' !! ch =
     receive (copies (target_queues e k c.1) c.1 ch) (message_id msg, msg) <$> chans c.2 !! ch)
  ∧ (∀ q, consumers s' !! q =
       if decide (q ∈ target_queues e k c.1)
       then filter (λ ch, is_closed c.2 ch = false) <$> consumers c.1 !! q
       else consumers c.1 !! q).
Proof.
  intros Hr Hp. pose proof (publish_cases e k msg client now utc c.1 c.2
    (targets_NoDup e k c.1 (reachable_wf _ _ _ Hr))) as H.
  rewrite Hp in H. destruct (message_status c.1 !! message_id msg); [by destruct H|].
  destruct H as [_ H]. destruct (_ && _); [|by destruct H]. destruct H as [_ H].
  split; apply H.
Qed.

(** A rejected publication leaves the queues, the tracking maps, the
    topology and the consumers alone; at most the storage has seen it. *)
Theorem publish_error_frame max e k msg client now utc c err s' rt' :
  reachable max c →
  publish e k msg client now utc c.1 c.2 = (Err err, (s', rt')) →
  s' = with_storage (λ _, storage s') c.1 ∧ rt' = c.2.
Proof.
  intros Hr Hp. pose proof (publish_cases e k msg client now utc c.1 c.2
    (targets_NoDup e k c.1 (reachable_wf _ _ _ Hr))) as H.
  rewrite Hp in H. destruct (message_status c.1 !! message_id msg).
  - destruct H as (_ & -> & ->). by destruct c as [[] ?].
  - destruct H as [_ H]. destruct (_ && _); [by destruct H|]. by destruct H as (_ & -> & ->).
Qed.

(** C18: when no publication evicts a message that another queue still holds
    (a routing key with one queue never does), every queued message of every
    reachable state is live, indexed under its queue and queued there once. *)
Theorem queued_messages_tracked d max c q l x :
  reachable_under (guard d) max c → queues c.1 !! q = Some l → x ∈ l →
  is_Some (message_status c.1 !! x.1)
  ∧ (∃ qs, message_queues c.1 !! x.1 = Some qs ∧ q ∈ qs)
  ∧ NoDup l.*1.
Proof.
  intros Hr Hl Hx. destruct (reachable_inv _ _ _ Hr) as [[] _]. split_and!; eauto.
Qed.

(** C5: in a broker in which no publication has evicted a message that another
    queue still held ([guard]), acknowledging a live message removes every copy
    of it from every queue, keeps all other messages in order, and makes the
    message unknown. *)
Theorem acknowledge_removes_everywhere d max c id now utc :
  reachable_under (guard d) max c → is_Some (message_status c.1 !! id) →
  queues (acknowledge id now utc c.1) = filter (λ x, x.1 ≠ id) <$> queues c.1
  ∧ message_status (acknowledge id now utc c.1) = delete id (message_status c.1)
  ∧ message_queues (acknowledge id now utc c.1) = delete id (message_queues c.1).
Proof.
  intros Hr [st Hs]. rewrite (acknowledge_eq _ _ _ _ _ Hs).
  destruct (purge_frame id c.1) as (P1 & P2 & _). split_and!; [|done..].
  by apply purge_full_scan, (reachable_inv _ _ _ Hr).
Qed.

(** Acknowledging an identifier that is not live changes nothing, so a
    second acknowledgement of a message is ignored. *)
Theorem acknowledge_idempotent id now utc now' utc' s :
  acknowledge id now' utc' (acknowledge id now utc s) = acknowledge id now utc s.
Proof.
  destruct (message_status s !! id) as [st|] eqn:Hs.
  - rewrite (acknowledge_eq _ _ _ _ _ Hs). unfold acknowledge at 1. simpl.
    destruct (purge_frame id s) as [P1 _]. simpl in P1. by rewrite P1, lookup_delete_eq.
  - unfold acknowledge. by rewrite Hs, Hs.
Qed.

(** C2: refinement: in a broker in which no publication evicts a message that
    another queue still holds ([guard], for the operation and for those before
    it), every operation is a transition of the abstract broker that keeps
    queues, routes and live identifiers only. *)
Theorem broker_refines_spec d max c op :
  reachable_under (guard d) max c → guard d op c →
  spec_step max op (abs c.1) (abs (exec op c).1).
Proof.
  intros Hr Hg. rewrite <-(reachable_max _ _ _ Hr).
  by apply (abs_exec d); [eapply reachable_wf| |eapply reachable_inv].
Qed.

(** C4: a queued message is kept: in a broker in which no publication evicts a
    message that another queue still holds ([guard], for the operation and for
    those before it), after any operation that is not its acknowledgement, its
    expiry, a [consume] of its queue or a publication that evicts it as the
    oldest of a full queue, it is still in its queue. *)
Theorem queued_message_kept d max c op q l x :
  reachable_under (guard d) max c → guard d op c →
  queues c.1 !! q = Some l → x ∈ l → ¬ removes op q x c.1 →
  ∃ l', queues (exec op c).1 !! q = Some l' ∧ x ∈ l'.
Proof.
  intros Hr Hg Hl Hx Hn. pose proof (reachable_inv _ _ _ Hr) as Hi.
  assert (a_queues (abs c.1) !! q = Some l) as Hl' by done.
  pose proof (abs_exec d op c (reachable_wf _ _ _ Hr) Hg Hi) as Hs.
  change (queues (exec op c).1) with (a_queues (abs (exec op c).1)).
  destruct op; simpl in Hs, Hn; try (rewrite Hs; exists l; by split).
  - rewrite Hs. exists l. split; [|done]. by apply declare_queue_keeps.
  - rewrite Hs. exists l. split; [|done]. unfold a_bind. by case_decide.
  - destruct Hs as [->|(_ & _ & ->)]; [by eauto|]. simpl. unfold push_all.
    rewrite map_lookup_imap, Hl. rewrite a_targets_abs. simpl. eexists. split; [done|].
    case_decide; [|done]. apply elem_of_push_kept; [done|]. intros Hev. apply Hn. by rewrite Hl.
  - rewrite Hs. exists l. split; [|done]. by apply declare_queue_keeps.
  - rewrite Hs. simpl. rewrite lookup_alter_ne by done. by eauto.
  - rewrite Hs. case_decide; [|by eauto]. simpl. apply (elem_of_drop _ _ _ l); [done..|].
    rewrite elem_of_singleton. intros Hid. by apply Hn.
  - replace (exec (CleanupOld now age) c).1 with (cleanup_old_messages now age c.1)
      by (by destruct c).
    unfold cleanup_old_messages. rewrite purge_list_abs by apply Hi. simpl.
    apply (elem_of_drop _ _ _ l); [done..|]. by rewrite elem_of_list_to_set.
Qed.

(** Queues are first-in first-out: no operation reorders or invents
    messages; a queue only loses entries or gains one at its back, and is never
    removed. *)
Theorem queues_fifo max c op q l :
  reachable max c → queues c.1 !! q = Some l →
  ∃ l', queues (exec op c).1 !! q = Some l' ∧ queue_evolves l l'.
Proof.
  intros Hr Hl. pose proof (reachable_wf _ _ _ Hr) as Hwf. destruct c as [s rt]; simpl in *.
  assert (queue_evolves l l) as Hrefl by by constructor.
  assert (∀ s', (∃ l', queues s' !! q = Some l' ∧ l' `sublist_of` l) →
                ∃ l', queues s' !! q = Some l' ∧ queue_evolves l l') as Hsub.
  { intros s' (l' & ? & ?). exists l'. split; [done|by constructor]. }
  destruct op; cbn [exec fst]; eauto using declare_queue_keeps, publish_evolves, consume_evolves,
    purge_list_evolves.
  - exists l. unfold bind_queue. split; [by case_decide|done].
  - exists l. rewrite register_consumer_state. split; [by apply declare_queue_keeps|done].
  - exists l. unfold mark_delivered. split; [by repeat case_match|done].
  - unfold acknowledge. destruct (message_status s !! id); [|by eauto].
    by apply Hsub, purge_evolves.
  - exists l. unfold cleanup_consumers_for_queue. split; [by case_match|done].
  - exists l. unfold save_public_key. split; [by case_match|done].
  - exists l. unfold get_public_key. split; [by case_match|done].
Qed.

(** Registering a consumer declares its queue, appends the consumer, and
    (once its delivery task has run) has sent the consumer the queued messages
    that are live, oldest first, after what its channel already held. *)
Theorem register_consumer_backlog q ch x s rt :
  chans rt !! ch = Some x → open x = true →
  let '(s', rt') := register_consumer q ch s rt in
  let backlog := filter (λ e, deliverable s e.1 = true) (default [] (queues s !! q)) in
  is_Some (queues s' !! q)
  ∧ consumers s' !! q = Some (default [] (consumers s !! q) ++ [ch])
  ∧ chans (Nat.iter (length backlog) (run_task (length (tasks rt))) rt') !! ch
    = Some {| open := true; buf := buf x ++ backlog |}.
Proof.
  intros Hc Ho. pose proof (register_consumer_state q ch s rt) as Hst.
  unfold register_consumer in *. set (s2 := with_consumers _ (declare_queue q s)) in *.
  assert (queues s2 !! q = Some (default [] (queues s !! q))) as Hq.
  { change (queues s2) with (queues (declare_queue q s)).
    rewrite lookup_declare_queue, decide_True by done. by destruct (queues s !! q). }
  rewrite Hq. set (backlog := filter _ _).
  assert (consumers s2 !! q = Some (default [] (consumers s !! q) ++ [ch])) as Hcs
    by (unfold s2; simpl; apply lookup_insert_eq).
  destruct (decide (0 < length (default [] (queues s !! q)))) as [Hlen|Hlen].
  - split_and!; [by rewrite Hq|done|].
    destruct (run_task_drains (length (tasks rt)) x backlog
      (set_tasks (tasks rt ++ [(ch, pending_messages (default [] (queues s !! q)) s2)]) rt) ch)
      as [H _]; [|done|done|done].
    simpl. by rewrite lookup_app_r, Nat.sub_diag.
  - split_and!; [by rewrite Hq|done|].
    assert (backlog = []) as ->.
    { unfold backlog. by destruct (default [] (queues s !! q)); [|simpl in Hlen; lia]. }
    simpl. rewrite app_nil_r. destruct x; simpl in *. by subst.
Qed.

(** One pass of [cleanup_old_messages] removes exactly the messages that
    were delivered longer ago than the limit and not acknowledged, from every
    queue and from the tracking maps. *)
Theorem cleanup_old_messages_spec d max c now age :
  reachable_under (guard d) max c →
  (∀ id, id ∈ expired_messages now age c.1 ↔
     ∃ st t, message_status c.1 !! id = Some st ∧ delivered_time st = Some t
             ∧ (age < Z.max 0 (now - t))%Z ∧ acknowledged_time st = None)
  ∧ queues (cleanup_old_messages now age c.1)
    = filter (λ x, x.1 ∉ expired_messages now age c.1) <$> queues c.1
  ∧ dom (message_status (cleanup_old_messages now age c.1))
    = dom (message_status c.1) ∖ list_to_set (expired_messages now age c.1).
Proof.
  intros Hr. pose proof (reachable_inv _ _ _ Hr) as [Ht _].
  pose proof (purge_list_abs (expired_messages now age c.1) c.1 Ht) as Habs. split_and!.
  - intros id. unfold expired_messages. rewrite list_elem_of_fmap. split.
    + intros ([i st] & -> & [He Hin]%list_elem_of_filter). apply elem_of_map_to_list in Hin.
      unfold is_expired, can_deliver, duration_since in He. simpl in *.
      destruct (delivered_time st) as [t|] eqn:Hd; [|done].
      destruct (acknowledged_time st) eqn:Ha; [by rewrite andb_false_r in He|].
      exists st, t. apply andb_true_iff in He as [He%bool_decide_eq_true _]. done.
    + intros (st & t & Hst & Hd & Hlt & Ha). exists (id, st). split; [done|].
      apply list_elem_of_filter. split; [|by apply elem_of_map_to_list].
      unfold is_expired, can_deliver. simpl. rewrite Hd, Ha.
      by rewrite bool_decide_true.
  - apply (f_equal a_queues) in Habs. cbn [a_queues abs a_drop set_a_queues] in Habs.
    unfold cleanup_old_messages. rewrite Habs. apply map_eq. intros q. rewrite !lookup_fmap.
    destruct (queues c.1 !! q); [|done]. cbn [fmap option_fmap option_map]. f_equal.
    apply list_filter_iff. intros x. by rewrite elem_of_list_to_set.
  - apply (f_equal a_live) in Habs. exact Habs.
Qed.

(** One pass of [cleanup_dead_consumers] keeps exactly the open consumers
    of every queue, in order, and drops the lists that become empty. *)
Theorem cleanup_dead_consumers_spec rt s q cs' :
  consumers (cleanup_dead_consumers rt s) !! q = Some cs' ↔
  cs' ≠ [] ∧ ∃ cs, consumers s !! q = Some cs ∧ cs' = filter (λ ch, is_closed rt ch = false) cs.
Proof.
  unfold cleanup_dead_consumers. simpl. rewrite lookup_delete_all.
  set (pruned := filter (λ ch, is_closed rt ch = false) <$> consumers s).
  assert (pruned !! q = Some cs' ↔ ∃ cs, consumers s !! q = Some cs
            ∧ cs' = filter (λ ch, is_closed rt ch = false) cs) as Hp.
  { unfold pruned. rewrite lookup_fmap, fmap_Some. naive_solver. }
  assert (q ∈ (filter (λ p, p.2 = []) (map_to_list pruned)).*1 ↔ pruned !! q = Some []) as Hq.
  { rewrite list_elem_of_fmap. setoid_rewrite list_elem_of_filter. split.
    - intros ([k v] & -> & Hv & Hin%elem_of_map_to_list). simpl in *. by subst.
    - intros H. exists (q, []). split_and!; [done..|]. by apply elem_of_map_to_list. }
  rewrite <-Hp. case_decide as Hd; rewrite Hq in Hd.
  - rewrite Hd. split; [done|]. intros [? [= <-]]. done.
  - split; [|by intros []]. intros H. split; [congruence|done].
Qed.

(** Binding a declared queue to a declared exchange adds exactly that route:
    publications with the key reach the old targets and the queue, once. *)
Theorem bind_queue_routes max c q e k e' k' :
  reachable max c → is_Some (queues c.1 !! q) → is_Some (exchanges c.1 !! e) →
  NoDup (target_queues e' k' (bind_queue q e k c.1))
  ∧ ∀ q', q' ∈ target_queues e' k' (bind_queue q e k c.1)
          ↔ q' ∈ target_queues e' k' c.1 ∨ (q' = q ∧ e' = e ∧ k' = k).
Proof.
  intros Hr Hq He. split.
  { apply targets_NoDup, wf_bind_queue. by eapply reachable_wf. }
  assert (∀ s x, x ∈ target_queues e' k' s ↔ (x, k') ∈ default [] (bindings s !! e')) as Hin.
  { intros s x. unfold target_queues. destruct (bindings s !! e') as [bs|]; simpl; [|set_solver].
    rewrite list_elem_of_fmap. setoid_rewrite list_elem_of_filter. split.
    - intros ([y z] & -> & Hz & Hy). simpl in *. by subst.
    - intros H. by exists (x, k'). }
  intros q'. rewrite !Hin. unfold bind_queue. rewrite decide_True by done. simpl.
  destruct (decide (e = e')) as [->|Hne].
  - destruct (bindings c.1 !! e') as [bs|] eqn:Hb; simpl.
    + case_decide; [|rewrite lookup_insert_eq; simpl]; rewrite ?Hb; simpl; set_solver.
    + rewrite lookup_insert_eq. simpl. set_solver.
  - destruct (bindings c.1 !! e) as [bs|]; [case_decide|];
      rewrite ?lookup_insert_ne by done; naive_solver.
Qed.

End WithStorage.

(** ** A concrete broker *)

#[local] Existing Instance StorageProps.toy_primitives.

Definition msg (id : string) : EncryptedInputData :=
  {| message_id := id; receiver_client_id := "r"; enc_session_key := "k"; nonce := "n";
     ciphertext := "c" |}.
(** One open channel, number 7. *)
Definition rt0 : Runtime :=
  {| chans := {[7 := {| open := true; buf := [] |}]}; tasks := [] |}.
Definition fresh (max : nat) : ServerState Storage.Store * Runtime :=
  (new StorageProps.empty_store max, rt0).

(** Queue [a] bound to exchange [e] with key [k]. *)
Definition setup : list Op := [DeclareQueue "a"; DeclareExchange "e"; Bind "a" "e" "k"].
Definition m1 : Op := Publish "e" "k" (msg "m1") "s" 1 "t1".

Lemma fresh_run G max ops :
  admissible G ops (fresh max) → reachable_under G max (run ops (fresh max)).
Proof. apply reachable_run. constructor. Qed.

Definition ready := run (setup ++ [Register "a" 7]) (fresh 2).
Lemma ready_reachable : reachable 2 ready.
Proof. apply fresh_run, admissible_True. Qed.
Definition loaded := run (setup ++ [m1]) (fresh 2).
Lemma loaded_reachable : reachable_under (guard true) 2 loaded.
Proof. apply fresh_run. repeat (split; [vm_compute; done || lia|]). done. Qed.

Lemma ready_a : queues ready.1 !! "a" = Some [].
Proof. vm_compute. reflexivity. Qed.
Lemma loaded_a : queues loaded.1 !! "a" = Some [("m1", msg "m1")].
Proof. vm_compute. reflexivity. Qed.

(** The outcomes of two publications. *)
Definition accepted := publish "e" "k" (msg "m1") "s" 1 "t1" ready.1 ready.2.
Definition unroutable := publish "e" "k0" (msg "m1") "s" 1 "t1" ready.1 ready.2.
Lemma accepted_eq :
  publish "e" "k" (msg "m1") "s" 1 "t1" ready.1 ready.2 = (Ok (), (accepted.2.1, accepted.2.2)).
Proof. vm_compute. reflexivity. Qed.
Lemma unroutable_eq :
  publish "e" "k0" (msg "m1") "s" 1 "t1" ready.1 ready.2 =
               (Err "No queues bound to exchange 'e' with routing key 'k0'",
                (unroutable.2.1, unroutable.2.2)).
Proof. vm_compute. reflexivity. Qed.

Lemma queue_bound_witness : length [("m1", msg "m1")] ≤ Nat.max 1 2.
Proof.
  refine (queue_bound 2 loaded "a" _ _ loaded_a). apply fresh_run, admissible_True.
Defined.

Lemma publish_ok_iff_witness :
  is_ok (publish "e" "k" (msg "m1") "s" 1 "t1" ready.1 ready.2).1 = true.
Proof.
  refine (proj2 (publish_ok_iff 2 "e" "k" (msg "m1") "s" 1 "t1" ready ready_reachable) _).
  vm_compute. by split_and!.
Defined.

Lemma publish_enqueues_once_witness :
  queues accepted.2.1 !! "a" = Some [("m1", msg "m1")].
Proof.
  rewrite (proj1 (publish_enqueues_once 2 "e" "k" (msg "m1") "s" 1 "t1" ready _ _
    ready_reachable accepted_eq) "a" [] ready_a). vm_compute. reflexivity.
Defined.

Lemma publish_notifies_consumers_witness :
  chans accepted.2.2 !! 7 = Some {| open := true; buf := [("m1", msg "m1")] |}.
Proof.
  rewrite (proj1 (publish_notifies_consumers 2 "e" "k" (msg "m1") "s" 1 "t1" ready _ _
    ready_reachable accepted_eq) 7). vm_compute. reflexivity.
Defined.

Lemma publish_error_frame_witness :
  queues unroutable.2.1 = queues ready.1.
Proof.
  destruct (publish_error_frame 2 "e" "k0" (msg "m1") "s" 1 "t1" ready _ _ _
    ready_reachable unroutable_eq) as [H _]. exact (f_equal queues H).
Defined.

Lemma queued_messages_tracked_witness : is_Some (message_status loaded.1 !! "m1").
Proof.
  refine (proj1 (queued_messages_tracked true 2 loaded "a" [("m1", msg "m1")] ("m1", msg "m1")
    loaded_reachable loaded_a _)). apply list_elem_of_here.
Defined.

Lemma acknowledge_removes_everywhere_witness :
  queues (acknowledge "m1" 5 "t5" loaded.1) !! "a" = Some [].
Proof.
  rewrite (proj1 (acknowledge_removes_everywhere true 2 loaded "m1" 5 "t5" loaded_reachable
    ltac:(vm_compute; by eexists))). vm_compute. reflexivity.
Defined.

Lemma broker_refines_spec_witness :
  a_queues (abs (exec (Acknowledge "m1" 5 "t5") loaded).1) !! "a" = Some [].
Proof.
  pose proof (broker_refines_spec true 2 loaded (Acknowledge "m1" 5 "t5") loaded_reachable I) as H.
  rewrite H. vm_compute. reflexivity.
Defined.

Lemma queued_message_kept_witness :
  ∃ l', queues (exec (Acknowledge "other" 5 "t5") loaded).1 !! "a" = Some l'
        ∧ ("m1", msg "m1") ∈ l'.
Proof.
  refine (queued_message_kept true 2 loaded (Acknowledge "other" 5 "t5") "a" [("m1", msg "m1")]
    ("m1", msg "m1") loaded_reachable I loaded_a _ _).
  - apply list_elem_of_here.
  - intros H. discriminate H.
Defined.

Lemma queues_fifo_witness :
  ∃ l', queues (exec m1 ready).1 !! "a" = Some l' ∧ queue_evolves [] l'.
Proof.
  refine (queues_fifo 2 ready m1 "a" [] ready_reachable ready_a).
Defined.

Lemma register_consumer_backlog_witness :
  let '(s', rt') := register_consumer "a" 7 loaded.1 loaded.2 in
  consumers s' !! "a" = Some [7].
Proof.
  pose proof (register_consumer_backlog "a" 7 {| open := true; buf := [] |} loaded.1 loaded.2
    ltac:(vm_compute; reflexivity) eq_refl) as H.
  destruct (register_consumer "a" 7 loaded.1 loaded.2) as [s' rt']. destruct H as (_ & H & _).
  rewrite H. vm_compute. reflexivity.
Defined.

Lemma cleanup_old_messages_spec_witness :
  queues (cleanup_old_messages 100 10 (exec (MarkDelivered "m1" 5 "t5") loaded).1) !! "a" = Some [].
Proof.
  rewrite (proj1 (proj2 (cleanup_old_messages_spec true 2 (exec (MarkDelivered "m1" 5 "t5") loaded)
    100 10 (reach_step _ _ (MarkDelivered "m1" 5 "t5") loaded loaded_reachable I)))). vm_compute. reflexivity.
Defined.

Lemma bind_queue_routes_witness :
  NoDup (target_queues "e" "k2" (bind_queue "a" "e" "k2" loaded.1)).
Proof.
  refine (proj1 (bind_queue_routes 2 loaded "a" "e" "k2" "e" "k2" _ _ _)).
  - apply fresh_run, admissible_True.
  - vm_compute. by eexists.
  - vm_compute. by eexists.
Defined.

(** Queues [a] and [b] share the key [k]; [a] also has the key [k2]. *)
Definition fanout : list Op :=
  [DeclareQueue "a"; DeclareQueue "b"; DeclareExchange "e"; Bind "a" "e" "k"; Bind "b" "e" "k";
   Bind "a" "e" "k2"; m1; Publish "e" "k2" (msg "m2") "s" 2 "t2";
   Publish "e" "k2" (msg "m3") "s" 3 "t3"].
Definition orphaned := run fanout (fresh 2).

(** With a key bound to two queues the tracking breaks: when a full queue
    evicts the message, its status is removed although the other queue still
    holds it. The copy there is not sent to a new consumer, acknowledging it
    changes nothing, and publishing the identifier again is accepted and
    queues it twice. *)
Theorem eviction_orphans_message :
  reachable 2 orphaned
  ∧ queues orphaned.1 !! "b" = Some [("m1", msg "m1")]
  ∧ message_status orphaned.1 !! "m1" = None
  ∧ tasks (exec (Register "b" 7) orphaned).2 = [(7, [])]
  ∧ queues (exec (Acknowledge "m1" 9 "t9") orphaned).1 !! "b" = Some [("m1", msg "m1")]
  ∧ queues (exec m1 orphaned).1 !! "b" = Some [("m1", msg "m1"); ("m1", msg "m1")].
Proof.
  split; [apply fresh_run, admissible_True|]. vm_compute. by split_and!.
Qed.

End StateProps.
