(* ===== verification/Concurrent.v ===== *)
(** Publications that interleave. [ServerState::publish] and
    [register_consumer] of [server/src/state.rs] take no lock over their whole
    body: every access to a [DashMap] is atomic on its own, and the connection
    tasks run on several threads. Here both are split at these accesses, and a
    machine runs any number of publications beside the other operations.

    [State.v] runs each method as a whole; [stages_compute_publish] shows that
    the two agree when nothing comes in between. *)
From S2P Require Import Prelude RustStr Storage StorageFacts State StateFacts StateInv.
From stdpp Require Import list relations options.

Module Concurrent.
Import State.

Section Stages.
Context {S : Type} `{A : StorageApi S}.
Implicit Types (s : ServerState S) (rt : Runtime) (q id : string).

(** The arguments of a call of [publish]. *)
Record Pub := {
  exchange : string; key : string; msg : EncryptedInputData; client : string;
  received : Z; utc : string
}.

(** Where a publication is: the accesses that are still to come. *)
Inductive Stage :=
| Check                                             (* [message_status.contains_key] *)
| Save                                              (* [storage.save_metadata] *)
| Route                                             (* [bindings.get] *)
| Enqueue (targets todo : list string) (queue_set : gset string)  (* [queues.get_mut] *)
| Track (targets : list string) (queue_set : gset string)         (* [message_queues.insert] *)
| Mark (targets : list string)                      (* [message_status.insert] *)
| Notify (todo : list string)                       (* [consumers.get_mut] *)
| Done (r : result unit string).

Definition metadata (p : Pub) : Storage.MessageMetadata :=
  {| Storage.message_id := message_id (msg p); Storage.client_id := client p;
     Storage.exchange_name := exchange p; Storage.routing_key := key p;
     Storage.sent_time := Some (utc p); Storage.delivered_time := None;
     Storage.acknowledged_time := None |}.

(** One access of a publication. *)
Definition pub_step (p : Pub) (st : Stage) (c : ServerState S * Runtime)
    : Stage * (ServerState S * Runtime) :=
  let '(s, rt) := c in
  let id := message_id (msg p) in
  match st with
  | Check =>
      match message_status s !! id with
      | Some _ => (Done (Err ("Duplicate message " +:+ id +:+ " ignored")), c)
      | None => (Save, c)
      end
  | Save =>
      let '(saved, st') := api_save_metadata (metadata p) (storage s) in
      let c' := (with_storage (λ _, st') s, rt) in
      match saved with
      | Err err => (Done (Err ("Failed to save metadata: " +:+ Storage.display err)), c')
      | Ok _ => (Route, c')
      end
  | Route =>
      let targets := target_queues (exchange p) (key p) s in
      if decide (targets = []) then
        (Done (Err ("No queues bound to exchange '" +:+ exchange p +:+ "' with routing key '"
                    +:+ key p +:+ "'")), c)
      else (Enqueue targets targets ∅, c)
  | Enqueue targets [] queue_set => (Track targets queue_set, c)
  | Enqueue targets (q :: todo) queue_set =>
      let '(s', queue_set') := enqueue id (msg p) (s, queue_set) q in
      (Enqueue targets todo queue_set', (s', rt))
  | Track targets queue_set => (Mark targets, (with_message_queues (<[id := queue_set]>) s, rt))
  | Mark targets => (Notify targets, (with_message_status (<[id := sent (received p)]>) s, rt))
  | Notify [] => (Done (Ok ()), c)
  | Notify (q :: todo) => (Notify todo, notify (id, msg p) (s, rt) q)
  | Done r => (Done r, c)
  end.

(** A publication on its own: its accesses one after the other. *)
Fixpoint pub_run (n : nat) (p : Pub) (st : Stage) (c : ServerState S * Runtime)
    : Stage * (ServerState S * Runtime) :=
  match n with
  | O => (st, c)
  | Datatypes.S n => let '(st', c') := pub_step p st c in pub_run n p st' c'
  end.

(** ** Machines *)

(** The shared state and the publications under way. *)
Record Machine := {
  core : ServerState S * Runtime;
  threads : list (Pub * Stage)
}.

Inductive Label :=
| Spawn (p : Pub)           (* a session calls [publish] *)
| Run (i : nat)             (* a publication makes an access *)
| Do (op : StateInv.Op).    (* another operation *)

Definition step (l : Label) (m : Machine) : Machine :=
  match l with
  | Spawn p => {| core := core m; threads := threads m ++ [(p, Check)] |}
  | Run i =>
      match threads m !! i with
      | Some (p, st) =>
          let '(st', c') := pub_step p st (core m) in
          {| core := c'; threads := <[i := (p, st')]> (threads m) |}
      | None => m
      end
  | Do op => {| core := StateInv.exec op (core m); threads := threads m |}
  end.
Definition run (ls : list Label) (m : Machine) : Machine := foldl (λ m l, step l m) m ls.

(** ** Registrations *)

(** Where a [register_consumer] is. *)
Inductive RegStage := Declaring | Push | Snapshot | Registered.

Definition reg_step (q : string) (sender : nat) (st : RegStage) (c : ServerState S * Runtime)
    : RegStage * (ServerState S * Runtime) :=
  let '(s, rt) := c in
  match st with
  | Declaring => (Push, (declare_queue q s, rt))
  | Push => (Snapshot, (with_consumers (λ m, <[q := default [] (m !! q) ++ [sender]]> m) s, rt))
  | Snapshot =>
      (Registered,
       match queues s !! q with
       | Some queue =>
           if decide (0 < length queue)
           then (s, set_tasks (tasks rt ++ [(sender, pending_messages queue s)]) rt)
           else (s, rt)
       | None => (s, rt)
       end)
  | Registered => (Registered, c)
  end.

(** ** Lemmas *)

Lemma pub_run_app n m p st c :
  pub_run (n + m) p st c = let '(st', c') := pub_run n p st c in pub_run m p st' c'.
Proof.
  revert st c. induction n as [|n IH]; intros st c; [done|]. simpl.
  destruct (pub_step p st c) as [st' c']. apply IH.
Qed.

Lemma run_enqueue p targets todo s rt qs :
  pub_run (length todo) p (Enqueue targets todo qs) (s, rt)
  = (Enqueue targets [] (foldl (enqueue (message_id (msg p)) (msg p)) (s, qs) todo).2,
     ((foldl (enqueue (message_id (msg p)) (msg p)) (s, qs) todo).1, rt)).
Proof.
  revert s qs. induction todo as [|q todo IH]; intros s qs; [done|].
  cbn [length pub_run pub_step foldl]. destruct (enqueue _ _ (s, qs) q) as [s' qs']. apply IH.
Qed.

Lemma run_notify p todo c :
  pub_run (length todo) p (Notify todo) c
  = (Notify [], foldl (notify (message_id (msg p), msg p)) c todo).
Proof.
  revert c. induction todo as [|q todo IH]; intros [s rt]; [done|].
  cbn [length pub_run pub_step foldl]. apply IH.
Qed.

(** A publication on its own reaches its end, with the result of [publish]. *)
Lemma pub_run_publish p s rt :
  let '(r, c) := publish (exchange p) (key p) (msg p) (client p) (received p) (utc p) s rt in
  pub_run (7 + 2 * length (target_queues (exchange p) (key p) s)) p Check (s, rt) = (Done r, c).
Proof.
  assert (∀ n r c, pub_run n p (Done r) c = (Done r, c)) as Hdone.
  { intros n r [s0 rt0]. induction n as [|n IH]; [done|]. exact IH. }
  set (ts := target_queues (exchange p) (key p) s). unfold publish.
  change (7 + 2 * length ts) with (1 + (1 + (1 + (4 + 2 * length ts)))).
  rewrite (pub_run_app 1). cbn [pub_run pub_step].
  destruct (message_status s !! message_id (msg p)) as [st|]; [by rewrite Hdone|].
  rewrite (pub_run_app 1). cbn [pub_run pub_step]. fold (metadata p).
  destruct (api_save_metadata (metadata p) (storage s)) as [[[]|err] st']; [|by rewrite Hdone].
  rewrite (pub_run_app 1). cbn [pub_run pub_step].
  change (target_queues (exchange p) (key p) (with_storage (λ _, st') s)) with ts.
  case_decide as Hts; [by rewrite Hdone|]. set (id := message_id (msg p)).
  replace (4 + 2 * length ts) with (length ts + (3 + (length ts + 1))) by lia.
  rewrite pub_run_app, run_enqueue. fold id.
  destruct (foldl (enqueue id (msg p)) (with_storage (λ _, st') s, ∅) ts) as [s1 qs].
  cbn [fst snd]. rewrite pub_run_app. cbn [pub_run pub_step].
  rewrite pub_run_app, run_notify. fold id.
  by destruct (foldl (notify (id, msg p)) _ ts) as [s4 rt4].
Qed.

Lemma stages_publish p s rt :
  let '(r, c) := publish (exchange p) (key p) (msg p) (client p) (received p) (utc p) s rt in
  ∃ n, pub_run n p Check (s, rt) = (Done r, c).
Proof. pose proof (pub_run_publish p s rt). destruct (publish _ _ _ _ _ _ _ _). eauto. Qed.

(** The accesses of a publication, with nothing in between, compute what
    [State.publish] does: the same result and the same state, within seven
    accesses and two per target queue. *)
Theorem stages_compute_publish p s rt :
  let '(r, c) := publish (exchange p) (key p) (msg p) (client p) (received p) (utc p) s rt in
  pub_run (7 + 2 * length (target_queues (exchange p) (key p) s)) p Check (s, rt) = (Done r, c).
Proof. apply pub_run_publish. Qed.

Lemma reg_steps_register q ch s rt :
  let '(st1, c1) := reg_step q ch Declaring (s, rt) in
  let '(st2, c2) := reg_step q ch st1 c1 in
  let '(st3, c3) := reg_step q ch st2 c2 in
  st3 = Registered ∧ c3 = register_consumer q ch s rt.
Proof. done. Qed.

End Stages.
End Concurrent.
