(* ===== verification/ConcurrentProps.v ===== *)
(** Theorems about interleaved publications ([Concurrent.v]): what holds in
    every interleaving, and the race of the duplicate check. *)
From S2P Require Import Prelude RustStr Storage StorageFacts StorageProps State StateFacts StateInv.
From S2P Require Import Concurrent.
From stdpp Require Import list relations options.

Module ConcurrentProps.
Import State StateFacts Concurrent.

Section Machines.
Context {S : Type} {A : StorageApi S}.
Implicit Types (s : ServerState S) (rt : Runtime) (q id : string).

(** ** Sound queues *)

(** A queue within its bound whose entries carry their own identifiers. *)
Definition sound_queue (max : nat) (l : list Entry) : Prop :=
  length l ≤ Nat.max 1 max ∧ ∀ e, e ∈ l → message_id e.2 = e.1.
Definition sound (max : nat) s : Prop :=
  max_queue_size s = max ∧ ∀ q l, queues s !! q = Some l → sound_queue max l.

Lemma sound_sublist max l l' : l' `sublist_of` l → sound_queue max l → sound_queue max l'.
Proof.
  intros Hs [Hl Hi]. split; [apply sublist_length in Hs; lia|].
  intros e He. apply Hi. by eapply sublist_subseteq.
Qed.

(** Operations that only shorten queues or create empty ones. *)
Definition narrows s s' : Prop :=
  max_queue_size s' = max_queue_size s
  ∧ ∀ q l', queues s' !! q = Some l' →
      l' = [] ∨ ∃ l, queues s !! q = Some l ∧ l' `sublist_of` l.

Lemma narrows_sound max s s' : narrows s s' → sound max s → sound max s'.
Proof.
  intros [Hm Hq] [Hs Hl]. split; [congruence|]. intros q l' [->|(l & H1 & H2)]%Hq.
  - split; [simpl; lia|]. set_solver.
  - by eapply sound_sublist, Hl.
Qed.

Lemma narrows_refl s s' :
  max_queue_size s' = max_queue_size s → queues s' = queues s → narrows s s'.
Proof. intros Hm Hq. split; [done|]. rewrite Hq. eauto. Qed.

Lemma narrows_trans s1 s2 s3 : narrows s1 s2 → narrows s2 s3 → narrows s1 s3.
Proof.
  intros [Hm1 H1] [Hm2 H2]. split; [congruence|]. intros q l' [->|(l & Hl & Hs)]%H2; [by left|].
  apply H1 in Hl as [->|(l0 & Hl0 & Hs0)].
  - left. by apply sublist_nil_r in Hs.
  - right. exists l0. split; [done|]. by etrans.
Qed.

Lemma narrows_purge id s : narrows s (purge id s).
Proof.
  split; [by destruct (purge_frame id s) as (_&_&_&_&_&_&_&?)|].
  intros q l' (l & Hl & [->| ->])%purge_queue; right; exists l; split; try done.
  apply sublist_filter.
Qed.

Lemma narrows_publish_free op s rt :
  (∀ e k m cl now u, op ≠ StateInv.Publish e k m cl now u) →
  narrows s (StateInv.exec op (s, rt)).1.
Proof.
  intros Hop. destruct op; simpl; try (by apply narrows_refl).
  - split; [done|]. intros q' l'. rewrite StateInv.lookup_declare_queue.
    destruct (queues s !! q') as [l|]; [intros [= <-]; eauto|]. case_decide; [|done].
    intros [= <-]. by left.
  - apply narrows_refl; unfold bind_queue; by case_decide.
  - by destruct (Hop e k msg0 client0 now utc0).
  - rewrite StateInv.register_consumer_state. split; [done|]. intros q' l' Hl. simpl in Hl.
    change (queues (declare_queue q s) !! q' = Some l') in Hl.
    rewrite StateInv.lookup_declare_queue in Hl. destruct (queues s !! q') as [l|]; [simplify_eq; eauto|].
    case_decide; simplify_eq. by left.
  - unfold consume. destruct (queues s !! q) as [[|[id m] rest]|] eqn:Hq; try by apply narrows_refl.
    repeat case_match; simplify_eq/=; try (by apply narrows_refl);
      (split; [done|]; simpl; intros q' l' Hl; right;
       destruct (decide (q = q')) as [->|];
       [rewrite lookup_insert_eq in Hl; simplify_eq; eexists; split; [done|by apply sublist_cons]
       |rewrite lookup_insert_ne in Hl by done; eauto]).
  - apply narrows_refl; unfold mark_delivered; by repeat case_match.
  - unfold acknowledge. case_match; [|by apply narrows_refl].
    eapply narrows_trans; [|apply narrows_purge]. by apply narrows_refl.
  - unfold cleanup_old_messages. generalize (expired_messages now age s). intros ids.
    revert s. induction ids as [|id ids IH]; intros s; [by apply narrows_refl|]. simpl.
    eapply narrows_trans; [apply narrows_purge|apply IH].
  - apply narrows_refl; unfold cleanup_consumers_for_queue; by case_match.
  - apply narrows_refl; unfold save_public_key; by case_match.
  - apply narrows_refl; unfold get_public_key; by case_match.
Qed.

Lemma sound_enqueue max m s qs q :
  sound max s → sound max (enqueue (message_id m) m (s, qs) q).1.
Proof.
  intros [Hm Hs]. rewrite enqueue_unfold. destruct (queues s !! q) as [l|] eqn:Hq; [|by split].
  simpl. split; [by destruct (evicted_id _ l)|]. intros q' l'.
  assert (queues (match evicted_id (max_queue_size s) l with
                  | Some old => evict old q s | None => s end) = queues s) as Hqs
    by (by destruct (evicted_id _ l)).
  simpl. rewrite Hqs. destruct (decide (q = q')) as [->|Hne].
  - rewrite lookup_insert_eq. intros [= <-]. destruct (Hs _ _ Hq) as [Hl Hi]. rewrite Hm. split.
    + by apply push_length.
    + intros e [->|He]%elem_of_push; [done|by apply Hi].
  - rewrite lookup_insert_ne by done. apply Hs.
Qed.

Lemma sound_same max s s' :
  queues s' = queues s → max_queue_size s' = max_queue_size s → sound max s → sound max s'.
Proof. intros Hq Hm. apply narrows_sound. by apply narrows_refl. Qed.

Lemma sound_notify max e q s rt : sound max s → sound max (notify e (s, rt) q).1.
Proof.
  unfold notify. destruct (consumers s !! q); [|done]. destruct (retain_send _ _ _). by apply sound_same.
Qed.

(** Every access of a publication keeps the queues sound. *)
Lemma sound_pub_step max p st s rt :
  sound max s → sound max (pub_step p st (s, rt)).2.1.
Proof.
  intros Hs. destruct st as [| | |ts [|q todo] qs|ts qs|ts|[|q todo]|r]; cbn [pub_step]; try done.
  - by case_match.
  - destruct (api_save_metadata _ _) as [[[]|] st']; by apply (sound_same max s).
  - by case_decide.
  - pose proof (sound_enqueue max (msg p) s qs q Hs) as H.
    by destruct (enqueue (message_id (msg p)) (msg p) (s, qs) q).
  - by apply sound_notify.
Qed.

Lemma sound_pub_run max n p st c : sound max c.1 → sound max (pub_run n p st c).2.1.
Proof.
  revert st c. induction n as [|n IH]; intros st [s rt] Hs; [done|]. cbn [pub_run].
  pose proof (sound_pub_step max p st s rt Hs) as H1.
  destruct (pub_step p st (s, rt)) as [st' c']. by apply IH.
Qed.

Lemma sound_exec max op c : sound max c.1 → sound max (StateInv.exec op c).1.
Proof.
  destruct c as [s rt]. intros Hs. cbn [fst] in Hs.
  destruct op as [| | |e k m cl now u| | | | | | | | | | | | | | | |];
    try (eapply narrows_sound; [by apply narrows_publish_free|exact Hs]).
  pose proof (stages_publish {| exchange := e; key := k; msg := m; client := cl; received := now;
    utc := u |} s rt) as H. simpl in H |- *.
  destruct (publish e k m cl now u s rt) as [r c']. destruct H as [n H].
  change c' with ((Done r, c').2). rewrite <-H. by apply sound_pub_run.
Qed.

(** C17: in every interleaving of publications, access by access, with each other
    and with all other operations no queue exceeds its bound, and every queued
    message carries its own identifier. *)
Theorem interleaved_queues_sound st max rt0 ls q l e :
  let m := Concurrent.run ls {| core := (new st max, rt0); threads := [] |} in
  queues (core m).1 !! q = Some l → e ∈ l →
  length l ≤ Nat.max 1 max ∧ message_id e.2 = e.1.
Proof.
  intros m. enough (sound max (core m).1) as [_ Hs].
  { intros Hq He. destruct (Hs q l Hq) as [H1 H2]. split; [done|by apply H2]. }
  unfold m, Concurrent.run. apply (foldl_preserves (λ m, sound max (core m).1)).
  - intros m' lab Hm. destruct lab as [p|i|op]; cbn [Concurrent.step core]; [done| |by apply sound_exec].
    destruct (threads m' !! i) as [[p stg]|]; [|done]. destruct (core m') as [s rt]. simpl in Hm.
    pose proof (sound_pub_step max p stg s rt Hm) as H1.
    by destruct (pub_step p stg (s, rt)) as [stg' c'].
  - split; [done|]. cbn [core fst new queues]. intros q' l'. by rewrite lookup_empty.
Qed.

(** ** The duplicate check *)

Lemma run_thread n i p st m :
  threads m !! i = Some (p, st) →
  Concurrent.run (replicate n (Run i)) m
  = {| core := (pub_run n p st (core m)).2;
       threads := <[i := (p, (pub_run n p st (core m)).1)]> (threads m) |}.
Proof.
  revert st m. induction n as [|n IH]; intros st m Hi.
  - simpl. rewrite list_insert_id by done. by destruct m.
  - cbn [replicate Concurrent.run foldl pub_run]. unfold Concurrent.step at 2. rewrite Hi.
    destruct (pub_step p st (core m)) as [st' c'].
    change (foldl _ ?m (replicate n (Run i))) with (Concurrent.run (replicate n (Run i)) m).
    rewrite (IH st'); cbn [core threads]; [|apply list_lookup_insert_eq; by eapply lookup_lt_Some].
    by rewrite list_insert_insert_eq.
Qed.

(** A publication to one queue that has passed its check succeeds. *)
Lemma past_check p s rt q l u st' :
  api_save_metadata (metadata p) (storage s) = (Ok u, st') →
  target_queues (exchange p) (key p) s = [q] → queues s !! q = Some l →
  length l < max_queue_size s →
  ∃ s' rt', pub_run 8 p Save (s, rt) = (Done (Ok ()), (s', rt'))
    ∧ queues s' = <[q := l ++ [(message_id (msg p), msg p)]]> (queues s)
    ∧ bindings s' = bindings s ∧ max_queue_size s' = max_queue_size s ∧ storage s' = st'.
Proof.
  intros Hsave Ht Hq Hl. change 8 with (1 + (1 + (1 + (1 + (1 + (1 + (1 + 1))))))).
  rewrite (pub_run_app 1). cbn [pub_run pub_step]. rewrite Hsave.
  rewrite (pub_run_app 1). cbn [pub_run pub_step].
  change (target_queues (exchange p) (key p) (with_storage (λ _, st') s))
    with (target_queues (exchange p) (key p) s). rewrite Ht, decide_False by done.
  rewrite (pub_run_app 1). cbn [pub_run pub_step enqueue queues max_queue_size with_storage].
  rewrite Hq, decide_False by lia.
  do 4 (rewrite (pub_run_app 1); cbn [pub_run pub_step]). unfold notify.
  match goal with |- context [consumers ?x !! q] => destruct (consumers x !! q) end;
    [destruct (retain_send _ _ _) as [kept rt']|]; cbn [pub_run pub_step]; eauto 10.
Qed.

Lemma machine_run_app ls1 ls2 m : Concurrent.run (ls1 ++ ls2) m = Concurrent.run ls2 (Concurrent.run ls1 m).
Proof. apply foldl_app. Qed.

Lemma both_pass p1 p2 s rt :
  message_id (msg p1) = message_id (msg p2) → message_status s !! message_id (msg p1) = None →
  Concurrent.run [Run 0; Run 1] {| core := (s, rt); threads := [(p1, Check); (p2, Check)] |}
  = {| core := (s, rt); threads := [(p1, Save); (p2, Save)] |}.
Proof.
  intros Hid Hnew. cbn [Concurrent.run foldl Concurrent.step threads lookup list_lookup core pub_step].
  rewrite Hnew. cbn [insert list_insert threads lookup list_lookup core pub_step].
  by rewrite <-Hid, Hnew.
Qed.

(** C34: the duplicate check is not atomic: two publications of one identifier
    that both pass it before either has marked the message both succeed, and
    the queue holds the identifier twice, even with different contents. *)
Theorem duplicate_check_race p1 p2 s rt q l u1 st1 u2 st2 :
  message_id (msg p1) = message_id (msg p2) →
  exchange p1 = exchange p2 → key p1 = key p2 →
  message_status s !! message_id (msg p1) = None →
  target_queues (exchange p1) (key p1) s = [q] → queues s !! q = Some l →
  length l + 1 < max_queue_size s →
  api_save_metadata (metadata p1) (storage s) = (Ok u1, st1) →
  api_save_metadata (metadata p2) st1 = (Ok u2, st2) →
  let m := Concurrent.run ([Run 0; Run 1] ++ replicate 8 (Run 0) ++ replicate 8 (Run 1))
             {| core := (s, rt); threads := [(p1, Check); (p2, Check)] |} in
  threads m = [(p1, Done (Ok ())); (p2, Done (Ok ()))]
  ∧ queues (core m).1 !! q
    = Some (l ++ [(message_id (msg p1), msg p1); (message_id (msg p1), msg p2)]).
Proof.
  intros Hid He Hk Hnew Ht Hq Hl Hs1 Hs2. rewrite !machine_run_app, both_pass by done.
  destruct (past_check p1 s rt q l u1 st1 Hs1 Ht Hq ltac:(lia)) as (s1 & rt1 & R1 & Q1 & B1 & M1 & S1).
  rewrite (run_thread 8 0 p1 Save) by done. cbn [core threads]. rewrite R1.
  cbn [fst snd insert list_insert].
  destruct (past_check p2 s1 rt1 q (l ++ [(message_id (msg p1), msg p1)]) u2 st2)
    as (s2 & rt2 & R2 & Q2 & _).
  - by rewrite S1.
  - rewrite <-He, <-Hk. rewrite (targets_same_topology _ _ s s1 B1). exact Ht.
  - by rewrite Q1, lookup_insert_eq.
  - rewrite List.length_app, M1. simpl. lia.
  - rewrite (run_thread 8 1 p2 Save) by done. cbn [core threads]. rewrite R2.
    cbn [fst snd insert list_insert]. split; [done|].
    rewrite Q2, lookup_insert_eq, <-List.app_assoc. by rewrite Hid.
Qed.

End Machines.
(** ** Witnesses *)

#[local] Existing Instance StorageProps.toy_primitives.

Definition letter (text : string) : EncryptedInputData :=
  {| message_id := "m"; receiver_client_id := "r"; enc_session_key := ""; nonce := "";
     ciphertext := text |}.
Definition call (text : string) : Pub :=
  {| exchange := "e"; key := "k"; msg := letter text; client := "s"; received := 5; utc := "t" |}.
Definition bound : ServerState Storage.Store :=
  bind_queue "q" "e" "k" (declare_exchange "e" (declare_queue "q" (new StorageProps.empty_store 10))).
Definition channel1 : Runtime := StateInv.open_chan 1 {| chans := ∅; tasks := [] |}.

Definition saved (text : string) (st : Storage.Store) : Storage.Store :=
  (api_save_metadata (metadata (call text)) st).2.

Lemma duplicate_check_race_witness :
  queues (core (Concurrent.run ([Run 0; Run 1] ++ replicate 8 (Run 0) ++ replicate 8 (Run 1))
    {| core := (bound, channel1); threads := [(call "a", Check); (call "b", Check)] |})).1 !! "q"
  = Some ([] ++ [(message_id (msg (call "a")), msg (call "a"));
                 (message_id (msg (call "a")), msg (call "b"))]).
Proof.
  assert (message_status bound !! "m" = None) as H1 by (vm_compute; reflexivity).
  assert (target_queues "e" "k" bound = ["q"]) as H2 by (vm_compute; reflexivity).
  assert (queues bound !! "q" = Some []) as H3 by (vm_compute; reflexivity).
  assert (length (@nil Entry) + 1 < max_queue_size bound) as H4 by (vm_compute; lia).
  assert (api_save_metadata (metadata (call "a")) (storage bound)
          = (Ok (), saved "a" (storage bound))) as H5 by (vm_compute; reflexivity).
  assert (api_save_metadata (metadata (call "b")) (saved "a" (storage bound))
          = (Ok (), saved "b" (saved "a" (storage bound)))) as H6 by (vm_compute; reflexivity).
  exact (proj2 (duplicate_check_race (call "a") (call "b") bound channel1 "q" [] () _ () _
    eq_refl eq_refl eq_refl H1 H2 H3 H4 H5 H6)).
Defined.

Lemma interleaved_queues_sound_witness :
  length [("m", letter "a")] ≤ Nat.max 1 10 ∧ message_id (letter "a") = "m".
Proof.
  refine (interleaved_queues_sound StorageProps.empty_store 10 channel1
    ([Do (StateInv.DeclareQueue "q"); Do (StateInv.DeclareExchange "e");
      Do (StateInv.Bind "q" "e" "k"); Spawn (call "a")] ++ replicate 9 (Run 0))
    "q" [("m", letter "a")] ("m", letter "a") _ _).
  - vm_compute. reflexivity.
  - apply list_elem_of_here.
Defined.

End ConcurrentProps.
