(* ===== verification/Wakeup.v ===== *)
(** Consumers that register during a publication ([Concurrent.v]): whatever the
    interleaving, no wake-up is lost. *)
From S2P Require Import Prelude RustStr Storage StorageFacts StorageProps State StateFacts StateInv.
From S2P Require Import Concurrent ConcurrentProps.
From stdpp Require Import list relations options.

Module Wakeup.
Import State StateFacts Concurrent.

Section Race.
Context {S : Type} {A : StorageApi S}.
Implicit Types (s : ServerState S) (rt : Runtime) (c : ServerState S * Runtime).
(** One publication, one queue it is routed to, and one consumer channel. *)
Context (p : Pub) (q : string) (ch : nat).

Definition entry : Entry := (message_id (msg p), msg p).
Definition routed s : Prop :=
  q ∈ target_queues (exchange p) (key p) s ∧ NoDup (target_queues (exchange p) (key p) s).
Definition queued s : Prop := ∃ l, queues s !! q = Some l ∧ entry ∈ l.
Definition live s : Prop := deliverable s (message_id (msg p)) = true.
Definition listed s : Prop := ch ∈ default [] (consumers s !! q).
(** The entry waits in the channel, or a delivery task is about to send it. *)
Definition on_its_way rt : Prop :=
  (∃ chn, chans rt !! ch = Some chn ∧ entry ∈ buf chn)
  ∨ ∃ todo, (ch, todo) ∈ tasks rt ∧ entry ∈ todo.

(** What every operation other than receiving from the channel, closing it and
    running a delivery task keeps. *)
Record gentle c c' : Prop := {
  g_routed : routed c.1 → routed c'.1;
  g_declared : is_Some (queues c.1 !! q) → is_Some (queues c'.1 !! q);
  g_listed : is_closed c.2 ch = false → listed c.1 → listed c'.1;
  g_chan chn : chans c.2 !! ch = Some chn → open chn = true →
    ∃ more, chans c'.2 !! ch = Some {| open := true; buf := buf chn ++ more |};
  g_tasks t : t ∈ tasks c.2 → t ∈ tasks c'.2
}.

Lemma gentle_open c c' : gentle c c' → is_closed c.2 ch = false → is_closed c'.2 ch = false.
Proof.
  intros Hg (chn & Hc & Ho)%is_closed_false. destruct (g_chan _ _ Hg chn Hc Ho) as [more Hm].
  apply is_closed_false. eauto.
Qed.

#[local] Instance gentle_preorder : PreOrder gentle.
Proof.
  split.
  - intros c. split; try done. intros [o b] Hc Ho. exists []. rewrite List.app_nil_r, Hc.
    simpl in *. by subst.
  - intros c1 c2 c3 H1 H2. split.
    + intros ?. by apply (g_routed _ _ H2), (g_routed _ _ H1).
    + intros ?. by apply (g_declared _ _ H2), (g_declared _ _ H1).
    + intros Ho Hl. apply (g_listed _ _ H2); [by eapply gentle_open|]. by apply (g_listed _ _ H1).
    + intros chn Hc Ho. destruct (g_chan _ _ H1 chn Hc Ho) as [more Hm].
      destruct (g_chan _ _ H2 _ Hm eq_refl) as [more' Hm']. exists (more ++ more').
      by rewrite List.app_assoc.
    + intros t Ht. by apply (g_tasks _ _ H2), (g_tasks _ _ H1).
Qed.

(** Changes of the broker state alone. *)
Lemma gentle_state s s' rt :
  bindings s' = bindings s → (is_Some (queues s !! q) → is_Some (queues s' !! q)) →
  (is_closed rt ch = false → listed s → listed s') → gentle (s, rt) (s', rt).
Proof.
  intros Hb Hq Hl. split; simpl; try done.
  - unfold routed, target_queues. by rewrite Hb.
  - intros [o b] Hc Ho. exists []. rewrite List.app_nil_r, Hc. simpl in *. by subst.
Qed.

Lemma enqueue_keeps id m s qs q' s' qs' :
  enqueue id m (s, qs) q' = (s', qs') →
  bindings s' = bindings s ∧ consumers s' = consumers s ∧ (is_Some (queues s !! q) → is_Some (queues s' !! q)).
Proof.
  intros He. pose proof (enqueue_one id m s qs q') as E. rewrite He in E. simpl in E.
  destruct (enq_frame _ _ _ _ _ _ _ E) as (H1 & _ & H3 & _). split; [done|]. split; [done|].
  rewrite (enq_queues _ _ _ _ _ _ _ E). case_decide; [|done]. by rewrite fmap_is_Some.
Qed.

Lemma gentle_notify e s rt q' : gentle (s, rt) (notify e (s, rt) q').
Proof.
  unfold notify. destruct (consumers s !! q') as [cs|] eqn:Hcs; [|done].
  destruct (retain_send_spec e cs rt) as (R1 & R2 & R3).
  destruct (retain_send e cs rt) as [kept rt']. simpl in *. subst. split; simpl; try done.
  - intros Ho Hl. unfold listed in *. simpl. destruct (decide (q' = q)) as [->|].
    + rewrite lookup_insert_eq. rewrite Hcs in Hl. simpl in *. by apply list_elem_of_filter.
    + by rewrite lookup_insert_ne.
  - intros [o b] Hc Ho. rewrite R3, Hc. simpl in *. subst. eexists. reflexivity.
  - by rewrite R2.
Qed.

Lemma gentle_pub_step p' st c : gentle c (pub_step p' st c).2.
Proof.
  destruct c as [s rt].
  destruct st as [| | |ts [|q' todo] qs|ts qs|ts|[|q' todo]|r]; cbn [pub_step]; try done.
  - by case_match.
  - destruct (api_save_metadata _ _) as [[[]|] st']; by apply gentle_state.
  - by case_decide.
  - destruct (enqueue _ _ (s, qs) q') as [s' qs'] eqn:He.
    destruct (enqueue_keeps _ _ _ _ _ _ _ He) as (H1 & H2 & H3).
    apply gentle_state; try done. unfold listed. by rewrite H2.
  - by apply gentle_state.
  - by apply gentle_state.
  - apply gentle_notify.
Qed.

Lemma gentle_pub_run n p' st c : gentle c (pub_run n p' st c).2.
Proof.
  revert st c. induction n as [|n IH]; intros st c; [done|]. cbn [pub_run].
  pose proof (gentle_pub_step p' st c) as H. destruct (pub_step p' st c) as [st' c'].
  etrans; [exact H|apply IH].
Qed.

Lemma gentle_reg_step q' ch' st c : gentle c (reg_step q' ch' st c).2.
Proof.
  destruct c as [s rt]. destruct st; cbn [reg_step snd]; [| | |done].
  - apply gentle_state; try done. rewrite StateInv.lookup_declare_queue. by destruct (queues s !! q).
  - apply gentle_state; try done. unfold listed. simpl. intros _ Hl.
    destruct (decide (q' = q)) as [->|]; [|by rewrite lookup_insert_ne].
    rewrite lookup_insert_eq. simpl. apply elem_of_app. by left.
  - destruct (queues s !! q') as [l|]; [|done]. case_decide; [|done].
    split; simpl; try done.
    + intros [o b] Hc Ho. exists []. rewrite List.app_nil_r, Hc. simpl in *. by subst.
    + intros t Ht. apply elem_of_app. by left.
Qed.

(** The operations that act on the channel itself. *)
Definition on_channel (op : StateInv.Op) : Prop :=
  match op with
  | StateInv.RunTask _ => True
  | StateInv.CloseChan c | StateInv.RecvChan c => c = ch
  | _ => False
  end.

Definition on_channel_dec (op : StateInv.Op) : bool :=
  match op with
  | StateInv.RunTask _ => true
  | StateInv.CloseChan c | StateInv.RecvChan c => bool_decide (c = ch)
  | _ => false
  end.
Lemma on_channel_dec_true op : on_channel_dec op = true ↔ on_channel op.
Proof. destruct op; simpl; try done; apply bool_decide_eq_true. Qed.

Lemma listed_cleanup rt s :
  is_closed rt ch = false → listed s → listed (cleanup_dead_consumers rt s).
Proof.
  intros Ho Hl. unfold listed, cleanup_dead_consumers in *. simpl.
  set (pruned := filter _ <$> consumers s).
  destruct (consumers s !! q) as [cs|] eqn:Hcs; [|by apply elem_of_nil in Hl].
  assert (pruned !! q = Some (filter (λ n : nat, is_closed rt n = false) cs)) as Hp
    by (unfold pruned; by rewrite lookup_fmap, Hcs).
  assert (ch ∈ filter (λ n : nat, is_closed rt n = false) cs) as Hin by (by apply list_elem_of_filter).
  rewrite lookup_delete_all, decide_False, Hp; [done|].
  intros ((q0 & l0) & Hq0 & [Hnil Hin0]%list_elem_of_filter)%list_elem_of_fmap. simpl in *. subst.
  apply elem_of_map_to_list in Hin0. rewrite Hp in Hin0. injection Hin0 as Hin0.
  rewrite Hin0 in Hin. by apply elem_of_nil in Hin.
Qed.

Lemma purge_gentle id s rt : gentle (s, rt) (purge id s, rt).
Proof.
  destruct (purge_frame id s) as (_ & _ & H1 & _ & H2 & _). apply gentle_state; [done| |].
  - rewrite <-!elem_of_dom. by rewrite dom_purge.
  - unfold listed. by rewrite H2.
Qed.

Lemma gentle_bind q' e k s rt :
  gentle (s, rt) (bind_queue q' e k s, rt).
Proof.
  unfold bind_queue. case_decide; [|done]. split; try done.
  - intros [Hin Hnd]. unfold routed, target_queues in *. simpl in *.
    destruct (decide (e = exchange p)) as [->|]; [|destruct (bindings s !! e);
      [case_decide|]; rewrite ?lookup_insert_ne by done; done].
    destruct (bindings s !! exchange p) as [bs|] eqn:Hb; [|by apply elem_of_nil in Hin].
    case_decide as Hbs; [by rewrite Hb|]. rewrite lookup_insert_eq, filter_app, fmap_app.
    split; [apply elem_of_app; by left|]. rewrite filter_cons, filter_nil. case_decide as Hk.
    -- simpl in Hk. subst. apply NoDup_app. split; [done|]. split; [|apply NoDup_singleton].
      intros x Hx ->%list_elem_of_singleton. apply list_elem_of_fmap in Hx as ([q0 k0] & Hq0 & Hx).
      apply list_elem_of_filter in Hx as [Hk0 Hx]. simpl in *. by subst.
    -- by rewrite List.app_nil_r.
  - intros [o b] Hc Ho. exists []. rewrite List.app_nil_r. simpl in *. rewrite Hc. by subst.
Qed.

Lemma gentle_publish e k m cl now u s rt :
  gentle (s, rt) (publish e k m cl now u s rt).2.
Proof.
  pose proof (stages_publish {| exchange := e; key := k; msg := m; client := cl; received := now;
    utc := u |} s rt) as H. simpl in H. destruct (publish e k m cl now u s rt) as [r c'].
  destruct H as [n H]. change c' with ((Done r, c').2). rewrite <-H. apply gentle_pub_run.
Qed.

Lemma gentle_register q' (c' : nat) s rt :
  gentle (s, rt) (register_consumer q' c' s rt).
Proof.
  pose proof (reg_steps_register q' c' s rt) as H.
  pose proof (gentle_reg_step q' c' Declaring (s, rt)) as G1.
  destruct (reg_step q' c' Declaring (s, rt)) as [st1 c1].
  pose proof (gentle_reg_step q' c' st1 c1) as G2. destruct (reg_step q' c' st1 c1) as [st2 c2].
  pose proof (gentle_reg_step q' c' st2 c2) as G3. destruct (reg_step q' c' st2 c2) as [st3 c3].
  destruct H as [_ <-]. etrans; [exact G1|]. etrans; [exact G2|exact G3].
Qed.

Lemma gentle_consume q' now u s rt :
  gentle (s, rt) ((consume q' now u s).2, rt).
Proof.
  unfold consume. destruct (queues s !! q') as [[|[id m] rest]|]; try done.
  repeat case_match; simplify_eq/=; try done; (apply gentle_state; try done; simpl;
    destruct (decide (q' = q)) as [->|]; [by rewrite lookup_insert_eq|by rewrite lookup_insert_ne]).
Qed.

Lemma gentle_exec op c : ¬ on_channel op → gentle c (StateInv.exec op c).
Proof.
  destruct c as [s rt]. intros Hop.
  destruct op as [q'|e|q' e k|e k m cl now u|q' c'|q' now u|id now u|id now u|now age| |q'| | | | | |i|c'|c'|c'];
    cbn [StateInv.exec]; try (by apply gentle_state).
  - apply gentle_state; try done. rewrite StateInv.lookup_declare_queue. by destruct (queues s !! q).
  - apply gentle_bind.
  - apply gentle_publish.
  - apply gentle_register.
  - apply gentle_consume.
  - unfold mark_delivered. repeat case_match; try done; by apply gentle_state.
  - unfold acknowledge. case_match; [|done]. etrans; [|apply purge_gentle]. by apply gentle_state.
  - unfold cleanup_old_messages. generalize (expired_messages now age s). intros ids.
    revert s. induction ids as [|id ids IH]; intros s; [done|]. simpl.
    etrans; [apply purge_gentle|apply IH].
  - apply gentle_state; [done|done|]. apply listed_cleanup.
  - unfold cleanup_consumers_for_queue. destruct (consumers s !! q') as [cs|] eqn:Hcs; [|done].
    apply gentle_state; [done|done|]. intros Ho Hl. unfold listed in *. simpl.
    destruct (decide (q' = q)) as [->|]; [|by rewrite lookup_insert_ne].
    rewrite lookup_insert_eq. rewrite Hcs in Hl. simpl in *. by apply list_elem_of_filter.
  - unfold save_public_key. case_match; by apply gentle_state.
  - unfold get_public_key. case_match; by apply gentle_state.
  - by destruct Hop.
  - unfold StateInv.open_chan. destruct (chans rt !! c') as [chn|] eqn:Hc'; [done|].
    split; simpl; try done. intros [o b] Hc Ho. exists []. rewrite lookup_insert_ne by congruence.
    rewrite List.app_nil_r, Hc. simpl in *. by subst.
  - split; simpl; try done. intros [o b] Hc Ho. exists [].
    rewrite lookup_alter_ne by (intros ->; by apply Hop).
    rewrite List.app_nil_r, Hc. simpl in *. by subst.
  - split; simpl; try done. intros [o b] Hc Ho. exists [].
    rewrite lookup_alter_ne by (intros ->; by apply Hop).
    rewrite List.app_nil_r, Hc. simpl in *. by subst.
Qed.

(** *** The race *)

(** The publication, the registration, the state they share with everybody
    else, and what the consumer has received. *)
Record Race := {
  stage : Stage; reg : RegStage; shared : ServerState S * Runtime; got : list Entry
}.

(** The message is not taken away: neither acknowledged, expired, consumed nor
    evicted. *)
Definition spares c c' : Prop := (queued c.1 → queued c'.1) ∧ (live c.1 → live c'.1).

(** What an operation makes the consumer receive. *)
Definition received_by (op : StateInv.Op) rt : list Entry :=
  match op with
  | StateInv.RecvChan c =>
      if decide (c = ch) then match chans rt !! ch with Some chn => take 1 (buf chn) | None => [] end
      else []
  | _ => []
  end.

Inductive race_step : Race → Race → Prop :=
| race_pub r :
    race_step r {| stage := (pub_step p (stage r) (shared r)).1; reg := reg r;
                   shared := (pub_step p (stage r) (shared r)).2; got := got r |}
| race_reg r :
    race_step r {| stage := stage r; reg := (reg_step q ch (reg r) (shared r)).1;
                   shared := (reg_step q ch (reg r) (shared r)).2; got := got r |}
| race_other p' st r :
    spares (shared r) (pub_step p' st (shared r)).2 →
    race_step r {| stage := stage r; reg := reg r; shared := (pub_step p' st (shared r)).2;
                   got := got r |}
| race_op op r :
    op ≠ StateInv.CloseChan ch → spares (shared r) (StateInv.exec op (shared r)) →
    race_step r {| stage := stage r; reg := reg r; shared := StateInv.exec op (shared r);
                   got := got r ++ received_by op (shared r).2 |}.

Definition arrives (g : list Entry) rt : Prop := entry ∈ g ∨ on_its_way rt.

(** The publication has notified the consumers of the queue. *)
Definition reached (st : Stage) : Prop :=
  match st with Notify todo => q ∉ todo | Done (Ok _) => True | _ => False end.
Definition reached_dec (st : Stage) : bool :=
  match st with Notify todo => bool_decide (q ∉ todo) | Done (Ok _) => true | _ => false end.
Lemma reached_dec_true st : reached_dec st = true ↔ reached st.
Proof. destruct st as [| | | | | | |[]]; simpl; try done. apply bool_decide_eq_true. Qed.
Definition stage_ok (st : Stage) s : Prop :=
  match st with
  | Enqueue ts todo _ => NoDup todo ∧ q ∈ ts ∧ (q ∈ todo ∨ queued s)
  | Track ts _ | Mark ts => q ∈ ts ∧ queued s
  | Notify _ | Done (Ok _) => queued s ∧ live s
  | _ => True
  end.
Record race_ok (r : Race) : Prop := {
  j_routed : routed (shared r).1;
  j_declared : is_Some (queues (shared r).1 !! q);
  j_open : is_closed (shared r).2 ch = false;
  j_listed : reg r = Snapshot ∨ reg r = Registered → listed (shared r).1;
  j_stage : stage_ok (stage r) (shared r).1;
  j_done : reg r = Registered → reached (stage r) → arrives (got r) (shared r).2
}.

Lemma stage_ok_spared st c c' : spares c c' → stage_ok st c.1 → stage_ok st c'.1.
Proof. intros [Hq Hl]. destruct st as [| | |ts todo qs|ts qs|ts|todo|[]]; simpl; naive_solver. Qed.

Lemma arrives_gentle g c c' :
  gentle c c' → is_closed c.2 ch = false → arrives g c.2 → arrives g c'.2.
Proof.
  intros Hg (chn & Hc & Ho)%is_closed_false [Hin|[(chn' & Hc' & Hin)|(todo & Ht & Hin)]].
  - by left.
  - right. left. simplify_eq. destruct (g_chan _ _ Hg chn Hc Ho) as [more Hm].
    eexists. split; [exact Hm|]. simpl. apply elem_of_app. by left.
  - right. right. exists todo. split; [by apply (g_tasks _ _ Hg)|done].
Qed.

(** A gentle step that spares the message keeps the invariant. *)
Lemma race_ok_gentle r c' g :
  gentle (shared r) c' → spares (shared r) c' → race_ok r →
  race_ok {| stage := stage r; reg := reg r; shared := c'; got := got r ++ g |}.
Proof.
  intros Hg Hs []. split; simpl.
  - by apply (g_routed _ _ Hg).
  - by apply (g_declared _ _ Hg).
  - by eapply gentle_open.
  - intros ?. apply (g_listed _ _ Hg); auto.
  - by eapply stage_ok_spared.
  - intros H1 H2. destruct (arrives_gentle (got r) _ _ Hg j_open0 (j_done0 H1 H2)) as [?|?].
    + left. apply elem_of_app. by left.
    + by right.
Qed.

(** Receiving from the channel and running a delivery task. *)
Lemma arrives_recv g rt :
  arrives g rt → arrives (g ++ received_by (StateInv.RecvChan ch) rt) (StateInv.recv_chan ch rt).
Proof.
  intros [Hin|[(chn & Hc & Hin)|(todo & Ht & Hin)]].
  - left. apply elem_of_app. by left.
  - simpl. rewrite decide_True, Hc by done. destruct (buf chn) as [|e b] eqn:Hb; [by apply elem_of_nil in Hin|].
    apply elem_of_cons in Hin as [<-|Hin].
    + left. apply elem_of_app. right. by left.
    + right. left. simpl. rewrite lookup_alter_eq, Hc. eexists. split; [done|]. simpl. by rewrite Hb.
  - right. right. by exists todo.
Qed.

Lemma run_task_open i rt : is_closed rt ch = false → is_closed (run_task i rt) ch = false.
Proof.
  intros (chn & Hc & Ho)%is_closed_false. apply is_closed_false. unfold run_task.
  destruct (tasks rt !! i) as [[c [|e rest]]|]; [by eauto| |by eauto].
  unfold send. destruct (chans rt !! c) as [chn'|] eqn:Hc'; [|by eauto]. destruct (open chn') eqn:Ho'; simpl; [|by eauto].
  destruct (decide (c = ch)) as [->|]; [rewrite lookup_insert_eq|rewrite lookup_insert_ne by done]; eauto.
Qed.

Lemma arrives_run_task g i rt :
  is_closed rt ch = false → arrives g rt → arrives g (run_task i rt).
Proof.
  intros (chn & Hc & Ho)%is_closed_false Ha. unfold run_task.
  destruct (tasks rt !! i) as [[c [|e rest]]|] eqn:Hi; [done| |done].
  destruct Ha as [?|Ha]; [by left|]. right.
  assert (i < length (tasks rt)) as Hlt by (by eapply lookup_lt_Some).
  destruct (decide (c = ch)) as [->|Hne].
  - unfold send. rewrite Hc, Ho. simpl. destruct Ha as [(chn' & Hc' & Hin)|(todo & Ht & Hin)].
    + left. simplify_eq. simpl. rewrite lookup_insert_eq. eexists. split; [done|]. simpl.
      apply elem_of_app. by left.
    + apply list_elem_of_lookup in Ht as [j Hj]. destruct (decide (j = i)) as [->|Hji].
      * rewrite Hi in Hj. injection Hj as <-. apply elem_of_cons in Hin as [<-|Hin].
        -- left. simpl. rewrite lookup_insert_eq. eexists. split; [done|]. simpl.
           apply elem_of_app. right. by left.
        -- right. exists rest. split; [|done]. simpl. apply list_elem_of_lookup. exists i.
           by rewrite list_lookup_insert_eq.
      * right. exists todo. split; [|done]. simpl. apply list_elem_of_lookup. exists j.
        by rewrite list_lookup_insert_ne.
  - destruct Ha as [(chn' & Hc' & Hin)|(todo & Ht & Hin)].
    + left. exists chn'. split; [|done]. unfold send.
      destruct (chans rt !! c) as [x|]; [|done]. destruct (open x); [|done]. simpl.
      by rewrite lookup_insert_ne.
    + right. exists todo. split; [|done]. destruct (send c e rt) as [res rt']. simpl.
      apply list_elem_of_lookup in Ht as [j Hj]. apply list_elem_of_lookup. exists j.
      rewrite list_lookup_insert_ne; [done|]. intros ->. rewrite Hi in Hj. by injection Hj as [= -> _].
Qed.

(** *** The accesses of the publication itself *)

Lemma enqueue_queued s qs s' qs' q' :
  enqueue (message_id (msg p)) (msg p) (s, qs) q' = (s', qs') →
  is_Some (queues s !! q) → q' = q ∨ queued s → queued s'.
Proof.
  intros He [l Hl] Hor. pose proof (enqueue_one (message_id (msg p)) (msg p) s qs q') as E.
  rewrite He in E. simpl in E. pose proof (enq_queues _ _ _ _ _ _ _ E q) as Hq.
  unfold queued. destruct (decide (q' = q)) as [->|Hne].
  - rewrite decide_True, Hl in Hq by (by left). simpl in Hq. eexists. split; [exact Hq|].
    unfold push, entry. apply elem_of_app. right. by left.
  - rewrite decide_False in Hq by (intros ->%list_elem_of_singleton; done). rewrite Hq.
    by destruct Hor.
Qed.

Lemma stage_ok_step st s rt :
  routed s → is_Some (queues s !! q) → stage_ok st s →
  stage_ok (pub_step p st (s, rt)).1 (pub_step p st (s, rt)).2.1.
Proof.
  intros [Hin Hnd] Hd Hst.
  destruct st as [| | |ts [|q' todo] qs|ts qs|ts|[|q' todo]|[]]; cbn [pub_step]; try done.
  - by case_match.
  - by destruct (api_save_metadata _ _) as [[[]|] st'].
  - case_decide; [done|]. simpl. split; [done|]. split; [done|by left].
  - simpl in Hst |- *. destruct Hst as (_ & Hts & [Hnil|Hq]); [by apply elem_of_nil in Hnil|done].
  - destruct Hst as (Hnd' & Hts & Hor). apply NoDup_cons in Hnd' as [Hn Hnd'].
    destruct (enqueue _ _ (s, qs) q') as [s' qs'] eqn:He. simpl. split; [done|]. split; [done|].
    destruct Hor as [[<-|Hin']%elem_of_cons|Hq]; [right|by left|right];
      (eapply enqueue_queued; [exact He|done|auto]).
  - simpl in Hst |- *. destruct Hst as [_ Hq]. split; [exact Hq|]. unfold live, deliverable. simpl.
    by rewrite lookup_insert_eq.
  - unfold notify. destruct (consumers s !! q') as [cs|]; [|exact Hst].
    by destruct (retain_send _ _ _).
Qed.

(** Notifying the queue of a listed open consumer sends it the entry. *)
Lemma notify_arrives g s rt :
  is_closed rt ch = false → listed s → arrives g (notify entry (s, rt) q).2.
Proof.
  intros (chn & Hc & Ho)%is_closed_false Hl. right. left. unfold notify. unfold listed in Hl.
  destruct (consumers s !! q) as [cs|] eqn:Hcs; [|by apply elem_of_nil in Hl]. simpl in Hl.
  destruct (retain_send_spec entry cs rt) as (_ & _ & R3). specialize (R3 ch).
  destruct (retain_send entry cs rt) as [kept rt']. simpl in *. rewrite Hc in R3. simpl in R3.
  eexists. split; [exact R3|]. unfold receive. rewrite Ho. simpl. apply elem_of_app. right.
  assert (0 < occurrences ch cs) as Hpos.
  { unfold occurrences. assert (ch ∈ filter (λ x, x = ch) cs) as Hf by (by apply list_elem_of_filter).
    destruct (filter _ cs); [by apply elem_of_nil in Hf|simpl; lia]. }
  apply elem_of_replicate. split; [done|]. lia.
Qed.

Lemma race_ok_pub r :
  race_ok r →
  race_ok {| stage := (pub_step p (stage r) (shared r)).1; reg := reg r;
             shared := (pub_step p (stage r) (shared r)).2; got := got r |}.
Proof.
  intros Hr. pose proof Hr as []. pose proof (gentle_pub_step p (stage r) (shared r)) as Hg.
  split; simpl.
  - by apply (g_routed _ _ Hg).
  - by apply (g_declared _ _ Hg).
  - by eapply gentle_open.
  - intros ?. apply (g_listed _ _ Hg); auto.
  - destruct (shared r) as [s rt]. by apply stage_ok_step.
  - intros Hreg Hre. destruct (decide (reached_dec (stage r) = true)) as [Hb|Hb].
    { apply (arrives_gentle (got r) _ _ Hg j_open0). apply j_done0; [done|].
      by apply reached_dec_true. }
    destruct (shared r) as [s rt] eqn:Hsh.
    destruct (stage r) as [| | |ts [|q' todo] qs|ts qs|ts|[|q' todo]|[]] eqn:Hst;
      cbn [pub_step] in Hre |- *.
    + by destruct (message_status s !! _).
    + by destruct (api_save_metadata _ _) as [[[]|] st'].
    + by case_decide.
    + done.
    + by destruct (enqueue _ _ _ _).
    + done.
    + simpl in Hre, j_stage0. by destruct j_stage0.
    + done.
    + simpl in Hre, Hb. destruct (decide (q' = q)) as [->|Hne].
      * apply notify_arrives; [done|]. apply j_listed0. by right.
      * destruct Hb. apply bool_decide_eq_true. by apply not_elem_of_cons.
    + done.
    + done.
Qed.

Lemma reg_step_spares st c : spares c (reg_step q ch st c).2.
Proof.
  destruct c as [s rt]. destruct st; cbn [reg_step snd]; [| | |done].
  - split; [|done]. intros (l & Hl & Hin). exists l. split; [|done]. cbn [fst] in *.
    by rewrite StateInv.lookup_declare_queue, Hl.
  - done.
  - destruct (queues s !! q) as [l|]; [|done]. by case_decide.
Qed.

Lemma race_ok_reg r :
  race_ok r →
  race_ok {| stage := stage r; reg := (reg_step q ch (reg r) (shared r)).1;
             shared := (reg_step q ch (reg r) (shared r)).2; got := got r |}.
Proof.
  intros Hr. pose proof (gentle_reg_step q ch (reg r) (shared r)) as Hg.
  destruct (race_ok_gentle r _ [] Hg (reg_step_spares _ _) Hr) as [K1 K2 K3 K4 K5 K6].
  pose proof Hr as [J1 J2 J3 J4 J5 J6]. simpl in *. rewrite List.app_nil_r in K6.
  split; simpl; try done.
  - intros Hpost. destruct (shared r) as [s rt]. destruct (reg r) eqn:Hreg; simpl in Hpost.
    + by destruct Hpost.
    + unfold listed. simpl. rewrite lookup_insert_eq. simpl. apply elem_of_app. right. by left.
    + apply K4. by left.
    + apply K4. by right.
  - intros Hpost Hre. destruct (reg r) eqn:Hreg; try (destruct (shared r); done); [|by apply K6].
    destruct (shared r) as [s rt]. cbn [reg_step] in Hpost |- *.
    assert (queued s ∧ live s) as [(l & Hl & Hin) Hlive].
    { destruct (stage r) as [| | | | | |todo|[]]; simpl in *; done. }
    rewrite Hl, decide_True by (destruct l; [by apply elem_of_nil in Hin|simpl; lia]).
    right. right. exists (pending_messages l s). split.
    + simpl. apply elem_of_app. right. by left.
    + unfold pending_messages. by apply list_elem_of_filter.
Qed.

Lemma race_ok_op op r :
  op ≠ StateInv.CloseChan ch → spares (shared r) (StateInv.exec op (shared r)) → race_ok r →
  race_ok {| stage := stage r; reg := reg r; shared := StateInv.exec op (shared r);
             got := got r ++ received_by op (shared r).2 |}.
Proof.
  intros Hop Hs Hr. destruct (decide (on_channel_dec op = true)) as [Hon|Hon].
  - pose proof Hr as [J1 J2 J3 J4 J5 J6]. destruct (shared r) as [s rt]. simpl in *.
    destruct op; try done; simpl in *.
    + rewrite List.app_nil_r. split; simpl; auto using run_task_open.
      intros ??. apply arrives_run_task; auto.
    + apply bool_decide_eq_true in Hon as ->. by destruct Hop.
    + apply bool_decide_eq_true in Hon as ->. split; simpl; try done.
      * apply is_closed_false. apply is_closed_false in J3 as (chn & Hc & Ho).
        unfold StateInv.recv_chan. simpl. rewrite lookup_alter_eq, Hc. by eexists.
      * intros ??. rewrite decide_True by done. pose proof (arrives_recv (got r) rt) as Ha.
        simpl in Ha. rewrite decide_True in Ha by done. apply Ha. auto.
  - apply race_ok_gentle; [|done|done]. apply gentle_exec. intros H. apply Hon.
    by apply on_channel_dec_true.
Qed.

Lemma race_ok_step r r' : race_step r r' → race_ok r → race_ok r'.
Proof.
  intros [r0|r0|p' st r0 Hs|op r0 Hop Hs] Hr.
  - by apply race_ok_pub.
  - by apply race_ok_reg.
  - pose proof (race_ok_gentle r0 _ [] (gentle_pub_step p' st (shared r0)) Hs Hr) as H.
    by rewrite List.app_nil_r in H.
  - by apply race_ok_op.
Qed.

(** C8: no wake-up is lost: a consumer that registers on a queue at any moment
    of a publication to it, with any accesses of other publications and any
    other operations in between, has the message or will be sent it once both
    have returned, unless the message was removed or the consumer left. *)
Theorem no_lost_wakeup s rt r :
  routed s → is_Some (queues s !! q) → is_closed rt ch = false →
  rtc race_step {| stage := Check; reg := Declaring; shared := (s, rt); got := [] |} r →
  stage r = Done (Ok ()) → reg r = Registered →
  entry ∈ got r
  ∨ (∃ chn, chans (shared r).2 !! ch = Some chn ∧ entry ∈ buf chn)
  ∨ ∃ todo, (ch, todo) ∈ tasks (shared r).2 ∧ entry ∈ todo.
Proof.
  intros Hro Hd Ho Hrtc Hst Hreg.
  assert (race_ok r) as Hr.
  { eapply rtc_preserves; [apply race_ok_step|exact Hrtc|]. split; simpl; try done.
    by intros [|]. }
  apply (j_done _ Hr Hreg). by rewrite Hst.
Qed.

(** A schedule of the two alone: [true] is the publication's turn. *)
Fixpoint play (sched : list bool) (r : Race) : Race :=
  match sched with
  | [] => r
  | b :: sched =>
      play sched
        (if b then {| stage := (pub_step p (stage r) (shared r)).1; reg := reg r;
                      shared := (pub_step p (stage r) (shared r)).2; got := got r |}
         else {| stage := stage r; reg := (reg_step q ch (reg r) (shared r)).1;
                 shared := (reg_step q ch (reg r) (shared r)).2; got := got r |})
  end.
Lemma play_race sched r : rtc race_step r (play sched r).
Proof.
  revert r. induction sched as [|[] sched IH]; intros r; [done| |];
    (eapply rtc_l; [|apply IH]); constructor.
Qed.

End Race.

(** ** Witness *)

Import ConcurrentProps.
#[local] Existing Instance StorageProps.toy_primitives.

(** The consumer registers between the enqueueing and the marking. *)
Definition schedule : list bool :=
  [true; true; true; true; true; false; false; false; true; true; true; true].

Lemma no_lost_wakeup_witness :
  let r := play (call "a") "q" 1 schedule
    {| stage := Check; reg := Declaring; shared := (bound, channel1); got := [] |} in
  entry (call "a") ∈ got r
  ∨ (∃ chn, chans (shared r).2 !! 1 = Some chn ∧ entry (call "a") ∈ buf chn)
  ∨ ∃ todo, (1, todo) ∈ tasks (shared r).2 ∧ entry (call "a") ∈ todo.
Proof.
  apply (no_lost_wakeup (call "a") "q" 1 bound channel1).
  - assert (target_queues "e" "k" bound = ["q"]) as Ht by (vm_compute; reflexivity).
    unfold routed. cbn [exchange key call]. rewrite Ht. split; [apply list_elem_of_here|].
    apply NoDup_singleton.
  - vm_compute. eauto.
  - vm_compute. reflexivity.
  - apply play_race.
  - vm_compute. reflexivity.
  - vm_compute. reflexivity.
Defined.

End Wakeup.
