(* ===== verification/RateLimiter.v ===== *)
(** Request rates and connection counts, [server/src/rate_limiter.rs].

    An [f64] is a binary64 number in the representation of the Standard
    Library's [SpecFloat], whose operations are the correctly rounded ones of
    IEEE 754; an [Instant] is a number of nanoseconds. Each call to
    [Instant::now] is an argument. *)
From S2P Require Import Prelude.
From stdpp Require Import list relations options.
From Stdlib Require Import SpecFloat.

Module RateLimiter.

(** ** Binary64 arithmetic *)

Definition f64_of_Z (z : Z) : spec_float := binary_normalize 53 1024 z 0 false.
Definition f64_add : spec_float → spec_float → spec_float := SFadd 53 1024.
Definition f64_sub : spec_float → spec_float → spec_float := SFsub 53 1024.
Definition f64_mul : spec_float → spec_float → spec_float := SFmul 53 1024.
Definition f64_div : spec_float → spec_float → spec_float := SFdiv 53 1024.
Definition f64_ge (x y : spec_float) : bool :=
  match SFcompare x y with Some Gt | Some Eq => true | _ => false end.
(** [f64::min]: the other argument when one is not a number. *)
Definition f64_min (x y : spec_float) : spec_float :=
  match SFcompare x y with
  | Some Gt => y
  | Some _ => x
  | None => match x with S754_nan => y | _ => x end
  end.
(** [Duration::as_secs_f64] *)
Definition as_secs_f64 (d : Z) : spec_float :=
  f64_add (f64_of_Z (d `div` 1000000000))
          (f64_div (f64_of_Z (d `mod` 1000000000)) (f64_of_Z 1000000000)).

(** ** Token buckets *)

(** [struct Bucket] *)
Record Bucket := { tokens : spec_float; last : Z; burst : spec_float; rps : spec_float }.

(** [Bucket::new] *)
Definition new_bucket (b r : spec_float) (now : Z) : Bucket :=
  {| tokens := b; last := now; burst := b; rps := r |}.

(** [Bucket::take] *)
Definition take (now : Z) (b : Bucket) : bool * Bucket :=
  let tokens1 := f64_min
    (f64_add (tokens b) (f64_mul (as_secs_f64 (duration_since now (last b))) (rps b)))
    (burst b) in
  if f64_ge tokens1 (f64_of_Z 1)
  then (true, {| tokens := f64_sub tokens1 (f64_of_Z 1); last := now;
                 burst := burst b; rps := rps b |})
  else (false, {| tokens := tokens1; last := now; burst := burst b; rps := rps b |}).

(** [struct RateLimitConfig] *)
Record RateLimitConfig := {
  global_rps : spec_float;
  global_burst : spec_float;
  publish_rps : spec_float;
  publish_burst : spec_float;
  max_connections_per_ip : nat;
  max_connections_per_cn : nat
}.

(** [enum RateLimitResult] *)
Inductive RateLimitResult := Allowed | RateLimited | ConnectionLimit.
Definition is_allowed (r : RateLimitResult) : bool :=
  match r with Allowed => true | _ => false end.

(** [struct Connections] *)
Record Connections := { by_ip : gmap string nat; by_cn : gmap string nat }.

(** [struct RateLimiter] *)
Record RateLimiter := {
  config : RateLimitConfig;
  global : gmap string Bucket;
  publish : gmap string Bucket;
  connections : Connections
}.

(** [RateLimiter::new] *)
Definition new (c : RateLimitConfig) : RateLimiter :=
  {| config := c; global := ∅; publish := ∅; connections := {| by_ip := ∅; by_cn := ∅ |} |}.

Definition with_global m (rl : RateLimiter) : RateLimiter :=
  {| config := config rl; global := m; publish := publish rl; connections := connections rl |}.
Definition with_publish m (rl : RateLimiter) : RateLimiter :=
  {| config := config rl; global := global rl; publish := m; connections := connections rl |}.
Definition with_connections c (rl : RateLimiter) : RateLimiter :=
  {| config := config rl; global := global rl; publish := publish rl; connections := c |}.

(** [m.entry(cn).or_insert_with(|| Bucket::new(b, r)).take()]: the bucket is
    created at [t0] and taken from at [t1]. *)
Definition take_entry (cn : string) (b r : spec_float) (t0 t1 : Z) (m : gmap string Bucket)
    : bool * gmap string Bucket :=
  let '(ok, bucket) := take t1 (default (new_bucket b r t0) (m !! cn)) in
  (ok, <[cn := bucket]> m).

(** [RateLimiter::check]; [t] gives the instants its clock reads return. *)
Definition check (cn : string) (is_publish : bool) (t : nat → Z) (rl : RateLimiter)
    : RateLimitResult * RateLimiter :=
  let '(ok, g) := take_entry cn (global_burst (config rl)) (global_rps (config rl))
                    (t 0) (t 1) (global rl) in
  let rl1 := with_global g rl in
  if negb ok then (RateLimited, rl1)
  else if is_publish then
    let '(ok', p) := take_entry cn (publish_burst (config rl)) (publish_rps (config rl))
                       (t 2) (t 3) (publish rl1) in
    (if ok' then Allowed else RateLimited, with_publish p rl1)
  else (Allowed, rl1).

(** ** Connection counts *)

Definition count (m : gmap string nat) (k : string) : nat := default 0 (m !! k).
Definition inc (m : gmap string nat) (k : string) : gmap string nat := <[k := S (count m k)]> m.

(** [RateLimiter::check_connection] *)
Definition check_connection (cn ip : string) (rl : RateLimiter) : RateLimitResult * RateLimiter :=
  let c := connections rl in
  if decide (0 < max_connections_per_ip (config rl)
             ∧ max_connections_per_ip (config rl) ≤ count (by_ip c) ip) then (ConnectionLimit, rl)
  else if decide (0 < max_connections_per_cn (config rl)
                  ∧ max_connections_per_cn (config rl) ≤ count (by_cn c) cn)
  then (ConnectionLimit, rl)
  else (Allowed,
        with_connections {| by_ip := inc (by_ip c) ip; by_cn := inc (by_cn c) cn |} rl).

(** [dec] *)
Definition dec (m : gmap string nat) (k : string) : gmap string nat :=
  match m !! k with
  | Some v => if decide (1 < v) then <[k := v - 1]> m else delete k m
  | None => m
  end.

(** [RateLimiter::release_connection] *)
Definition release_connection (cn ip : string) (rl : RateLimiter) : RateLimiter :=
  let c := connections rl in
  with_connections {| by_ip := dec (by_ip c) ip; by_cn := dec (by_cn c) cn |} rl.

(** [RateLimiter::connection_stats] *)
Definition connection_stats (rl : RateLimiter) : gmap string nat * gmap string nat :=
  (by_ip (connections rl), by_cn (connections rl)).

(** ** Lemmas *)

Lemma count_inc m k k' : count (inc m k) k' = if decide (k = k') then S (count m k') else count m k'.
Proof.
  unfold inc, count. destruct (decide (k = k')) as [->|Hne];
    [by rewrite lookup_insert_eq|by rewrite lookup_insert_ne].
Qed.

Lemma count_dec m k k' :
  count (dec m k) k' = if decide (k = k') then count m k' - 1 else count m k'.
Proof.
  unfold dec, count. destruct (decide (k = k')) as [->|Hne].
  - destruct (m !! k') as [v|] eqn:Hv; [|by rewrite Hv]. case_decide.
    + by rewrite lookup_insert_eq.
    + rewrite lookup_delete_eq. simpl. lia.
  - destruct (m !! k) as [v|]; [|done]. case_decide;
      [by rewrite lookup_insert_ne|by rewrite lookup_delete_ne].
Qed.

(** The counts stay within the limits. *)
Definition within_limits (rl : RateLimiter) : Prop :=
  (0 < max_connections_per_ip (config rl) →
     ∀ ip, count (by_ip (connections rl)) ip ≤ max_connections_per_ip (config rl))
  ∧ (0 < max_connections_per_cn (config rl) →
     ∀ cn, count (by_cn (connections rl)) cn ≤ max_connections_per_cn (config rl)).

(** The operations on a limiter. *)
Inductive limiter_step : RateLimiter → RateLimiter → Prop :=
| step_check cn pub t rl : limiter_step rl (check cn pub t rl).2
| step_connection cn ip rl : limiter_step rl (check_connection cn ip rl).2
| step_release cn ip rl : limiter_step rl (release_connection cn ip rl).

Lemma check_frame cn pub t rl :
  config (check cn pub t rl).2 = config rl ∧ connections (check cn pub t rl).2 = connections rl.
Proof. unfold check. by repeat (case_match; simplify_eq/=). Qed.

Lemma config_step rl rl' : limiter_step rl rl' → config rl' = config rl.
Proof.
  intros []; [apply check_frame| |done]. unfold check_connection. by repeat case_decide.
Qed.

Lemma within_limits_step rl rl' : limiter_step rl rl' → within_limits rl → within_limits rl'.
Proof.
  intros [cn pub t rl0|cn ip rl0|cn ip rl0] [Hip Hcn].
  - destruct (check_frame cn pub t rl0) as [H1 H2]. unfold within_limits. by rewrite H1, H2.
  - unfold check_connection. case_decide as H1; [done|]. case_decide as H2; [done|].
    split; simpl; intros Hp k; rewrite count_inc; case_decide; subst; auto; lia.
  - split; simpl; intros Hp k; rewrite count_dec;
      [specialize (Hip Hp k)|specialize (Hcn Hp k)]; case_decide; lia.
Qed.

(** *** Bursts *)

(** The number of requests granted among [k] at one instant. *)
Fixpoint granted (k : nat) (now : Z) (b : Bucket) : nat * Bucket :=
  match k with
  | O => (0, b)
  | S k' => let '(ok, b1) := take now b in
            let '(n, b2) := granted k' now b1 in
            ((if ok then 1 else 0) + n, b2)
  end.

(** Whole numbers of tokens. *)
Definition whole (n : nat) : spec_float := f64_of_Z (Z.of_nat n).

#[local] Instance spec_float_eq_dec : EqDecision spec_float.
Proof. solve_decision. Defined.

(** A finite number other than minus zero. *)
Definition plain (x : spec_float) : bool :=
  match x with S754_finite _ _ _ | S754_zero false => true | _ => false end.

(** Up to 200 tokens, taking one is exact and the cap does not round. *)
Definition whole_step (n : nat) : bool :=
  bool_decide (f64_ge (whole n) (f64_of_Z 1) = bool_decide (1 ≤ n))
  && bool_decide (n = 0 ∨ f64_sub (whole n) (f64_of_Z 1) = whole (n - 1))
  && plain (whole n).
Definition whole_min (b n : nat) : bool := bool_decide (f64_min (whole n) (whole b) = whole n).

Lemma whole_steps : forallb whole_step (seq 0 201) = true.
Proof. vm_compute. reflexivity. Qed.
Lemma whole_mins : forallb (λ b, forallb (whole_min b) (seq 0 (S b))) (seq 0 201) = true.
Proof. vm_compute. reflexivity. Qed.

Lemma forallb_seq (f : nat → bool) k n : forallb f (seq 0 k) = true → n < k → f n = true.
Proof. rewrite forallb_forall. intros H Hn. apply H, in_seq. lia. Qed.

Lemma whole_facts n :
  n ≤ 200 →
  f64_ge (whole n) (f64_of_Z 1) = bool_decide (1 ≤ n)
  ∧ (n = 0 ∨ f64_sub (whole n) (f64_of_Z 1) = whole (n - 1)) ∧ plain (whole n) = true.
Proof.
  intros Hn. pose proof (forallb_seq _ _ n whole_steps ltac:(lia)) as H. unfold whole_step in H.
  by apply andb_true_iff in H as [[H1%bool_decide_eq_true H2%bool_decide_eq_true]%andb_true_iff H3].
Qed.
Lemma whole_min_le b n : n ≤ b → b ≤ 200 → f64_min (whole n) (whole b) = whole n.
Proof.
  intros Hn Hb. pose proof (forallb_seq _ _ b whole_mins ltac:(lia)) as H.
  apply (forallb_seq _ _ n) in H; [|lia]. by apply bool_decide_eq_true in H.
Qed.

Definition finite (x : spec_float) : bool :=
  match x with S754_finite _ _ _ | S754_zero _ => true | _ => false end.

(** No time has passed: the refill adds nothing. *)
Lemma refill_none x r :
  finite r = true → plain x = true → f64_add x (f64_mul (as_secs_f64 0) r) = x.
Proof.
  intros Hr Hx. assert (as_secs_f64 0 = S754_zero false) as -> by (vm_compute; reflexivity).
  destruct x as [[]| | |s m e]; try done; destruct r as [[]| | |[] m' e']; done.
Qed.

Lemma take_same_instant n b r now :
  n ≤ b → b ≤ 200 → finite r = true →
  take now {| tokens := whole n; last := now; burst := whole b; rps := r |} =
  (bool_decide (1 ≤ n), {| tokens := whole (n - 1); last := now; burst := whole b; rps := r |}).
Proof.
  intros Hn Hb Hr. unfold take. cbn [tokens last burst rps].
  replace (duration_since now now) with 0%Z by (unfold duration_since; lia).
  destruct (whole_facts n) as (H1 & H2 & H3); [lia|].
  rewrite refill_none by done. rewrite whole_min_le, H1 by lia.
  case_bool_decide as Hd; [destruct H2 as [->|H2]; [lia|by rewrite H2]|].
  by replace n with 0 by lia.
Qed.

Lemma granted_same_instant k n b r now :
  n ≤ b → b ≤ 200 → finite r = true →
  (granted k now {| tokens := whole n; last := now; burst := whole b; rps := r |}).1 = Nat.min k n.
Proof.
  revert n. induction k as [|k IH]; intros n Hn Hb Hr; [done|]. cbn [granted].
  rewrite take_same_instant by done. specialize (IH (n - 1) ltac:(lia) Hb Hr).
  destruct (granted k now _) as [m b']. cbn [fst] in IH |- *. rewrite IH.
  case_bool_decide; lia.
Qed.

(** The checks alone: no connection is released. *)
Inductive check_step : RateLimiter → RateLimiter → Prop :=
| check_request cn pub t rl : check_step rl (check cn pub t rl).2
| check_conn cn ip rl : check_step rl (check_connection cn ip rl).2.

Lemma count_check_step rl rl' cn :
  check_step rl rl' →
  config rl' = config rl
  ∧ count (by_cn (connections rl)) cn ≤ count (by_cn (connections rl')) cn.
Proof.
  intros [cn' pub t rl0|cn' ip rl0].
  - destruct (check_frame cn' pub t rl0) as [H1 H2]. by rewrite H1, H2.
  - unfold check_connection. case_decide; [done|]. case_decide; [done|]. split; [done|]. simpl.
    rewrite count_inc. case_decide; lia.
Qed.

(** Without releases, a client at its limit is refused for good. *)
Lemma locked_out rl rl' cn ip :
  0 < max_connections_per_cn (config rl) ≤ count (by_cn (connections rl)) cn →
  rtc check_step rl rl' → check_connection cn ip rl' = (ConnectionLimit, rl').
Proof.
  intros Hl Hr.
  assert (0 < max_connections_per_cn (config rl') ≤ count (by_cn (connections rl')) cn) as [H1 H2].
  { revert Hl. refine (rtc_preserves check_step (λ rl, 0 < max_connections_per_cn (config rl)
      ≤ count (by_cn (connections rl)) cn) _ _ _ Hr).
    intros x y Hxy [? ?]. destruct (count_check_step x y cn Hxy) as [-> ?]. lia. }
  unfold check_connection. case_decide; [done|]. by rewrite decide_True.
Qed.

(** ** Properties *)

(** Through any sequence of checks and releases, no client name and no
    address ever has more counted connections than its limit. *)
Theorem connection_limits_respected c rl :
  rtc limiter_step (new c) rl →
  (0 < max_connections_per_ip c →
     ∀ ip, count (by_ip (connections rl)) ip ≤ max_connections_per_ip c)
  ∧ (0 < max_connections_per_cn c →
     ∀ cn, count (by_cn (connections rl)) cn ≤ max_connections_per_cn c).
Proof.
  intros Hr.
  assert (config rl = c ∧ within_limits rl) as [<- H]; [|exact H].
  refine (rtc_preserves limiter_step (λ rl, config rl = c ∧ within_limits rl) _ _ _ Hr _).
  - intros x y Hxy [Hc Hw]. rewrite (config_step _ _ Hxy). by eauto using within_limits_step.
  - split; [done|]. split; simpl; intros _ k; unfold count; rewrite lookup_empty; simpl; lia.
Qed.

(** Closing a connection that was counted undoes the count: a check that
    passes, followed by the release, leaves every count as it was. *)
Theorem release_undoes_check cn ip rl rl' :
  check_connection cn ip rl = (Allowed, rl') →
  (∀ k, count (by_ip (connections (release_connection cn ip rl'))) k
        = count (by_ip (connections rl)) k)
  ∧ (∀ k, count (by_cn (connections (release_connection cn ip rl'))) k
        = count (by_cn (connections rl)) k).
Proof.
  unfold check_connection. case_decide; [done|]. case_decide; [done|]. intros [= <-].
  split; intros k; simpl; rewrite count_dec, count_inc; case_decide; lia.
Qed.

(** Clients do not share request budgets: a request of one client leaves
    the buckets of another, and so the answer to its requests, unchanged. *)
Theorem rate_limit_isolation cn cn' pub pub' t t' rl :
  cn ≠ cn' →
  (check cn' pub' t' (check cn pub t rl).2).1 = (check cn' pub' t' rl).1.
Proof.
  intros Hne.
  assert (∀ b r t0 t1 m, (take_entry cn b r t0 t1 m).2 !! cn' = m !! cn') as Htake.
  { intros b r t0 t1 m. unfold take_entry. destruct (take _ _). simpl. by rewrite lookup_insert_ne. }
  assert (∀ rl1, config rl1 = config rl → global rl1 !! cn' = global rl !! cn' →
    publish rl1 !! cn' = publish rl !! cn' →
    (check cn' pub' t' rl1).1 = (check cn' pub' t' rl).1) as Hsame.
  { intros rl1 H1 H2 H3. unfold check, take_entry. rewrite H1, H2. cbn [publish with_global].
    rewrite H3. destruct (take (t' 1) _) as [ok b]. destruct ok; [|done]. destruct pub'; [|done].
    by destruct (take (t' 3) _). }
  apply Hsame; [apply check_frame| |]; unfold check;
    pose proof (Htake (global_burst (config rl)) (global_rps (config rl)) (t 0) (t 1) (global rl)) as Hg;
    destruct (take_entry cn _ _ (t 0) (t 1) _) as [[] g]; simpl in *; try done;
    destruct pub; try done; cbn [publish with_global];
    pose proof (Htake (publish_burst (config rl)) (publish_rps (config rl)) (t 2) (t 3) (publish rl)) as Hp;
    by destruct (take_entry cn _ _ (t 2) (t 3) _) as [[] p].
Qed.

(** C31: of any number of requests at one instant a fresh bucket of [b] tokens
    grants exactly the first [b] (for every burst up to 200, the default). *)
Theorem burst_exact b r now k :
  b ≤ 200 → finite r = true →
  (granted k now (new_bucket (whole b) r now)).1 = Nat.min k b.
Proof. intros. by apply granted_same_instant. Qed.

(** ** Witnesses *)

Definition config1 : RateLimitConfig :=
  {| global_rps := f64_of_Z 100; global_burst := f64_of_Z 200;
     publish_rps := f64_of_Z 50; publish_burst := f64_of_Z 100;
     max_connections_per_ip := 50; max_connections_per_cn := 1 |}.
Definition one_connection : RateLimiter := (check_connection "c" "10.0.0.1" (new config1)).2.

Lemma connection_limits_respected_witness :
  count (by_cn (connections one_connection)) "c" ≤ 1.
Proof.
  refine (proj2 (connection_limits_respected config1 one_connection _) _ "c").
  - apply rtc_once. constructor.
  - simpl. lia.
Defined.

Lemma release_undoes_check_witness :
  count (by_cn (connections (release_connection "c" "10.0.0.1" one_connection))) "c" = 0.
Proof.
  rewrite (proj2 (release_undoes_check "c" "10.0.0.1" (new config1) one_connection
    ltac:(vm_compute; reflexivity)) "c"). vm_compute. reflexivity.
Defined.

Lemma rate_limit_isolation_witness :
  (check "d" false (λ _, 0%Z) (check "c" true (λ _, 0%Z) (new config1)).2).1
  = (check "d" false (λ _, 0%Z) (new config1)).1.
Proof. apply rate_limit_isolation. discriminate. Defined.

Lemma burst_exact_witness : (granted 300 0 (new_bucket (whole 200) (f64_of_Z 100) 0)).1 = 200.
Proof.
  rewrite (burst_exact 200 (f64_of_Z 100) 0 300) by (lia || (vm_compute; reflexivity)).
  reflexivity.
Defined.

End RateLimiter.
