(* ===== verification/Heartbeat.v ===== *)
(** The heartbeat monitor, [HeartbeatMonitor] of [server/src/main.rs]. *)
From S2P Require Import Prelude.
From stdpp Require Import list options.

Module Heartbeat.

(** [struct HeartbeatMonitor] *)
Record HeartbeatMonitor := { heartbeats : gmap string Z; timeout_duration : Z }.

Definition with_heartbeats f (h : HeartbeatMonitor) : HeartbeatMonitor :=
  {| heartbeats := f (heartbeats h); timeout_duration := timeout_duration h |}.

(** [HeartbeatMonitor::new] *)
Definition new (timeout_seconds : Z) : HeartbeatMonitor :=
  {| heartbeats := ∅; timeout_duration := from_secs timeout_seconds |}.

(** [record_heartbeat] *)
Definition record_heartbeat (client : string) (now : Z) (h : HeartbeatMonitor) : HeartbeatMonitor :=
  with_heartbeats (<[client := now]>) h.

(** [is_alive] *)
Definition is_alive (client : string) (now : Z) (h : HeartbeatMonitor) : bool :=
  match heartbeats h !! client with
  | Some t => bool_decide (duration_since now t < timeout_duration h)%Z
  | None => false
  end.

(** [remove_client] *)
Definition remove_client (client : string) (h : HeartbeatMonitor) : HeartbeatMonitor :=
  with_heartbeats (delete client) h.

(** One tick of [monitor_task]. *)
Definition timed_out (now : Z) (h : HeartbeatMonitor) : list string :=
  (filter (λ p, (timeout_duration h < duration_since now p.2)%Z) (map_to_list (heartbeats h))).*1.
Definition monitor_tick (now : Z) (h : HeartbeatMonitor) : HeartbeatMonitor :=
  with_heartbeats (λ m, foldl (λ m c, delete c m) m (timed_out now h)) h.

(** [get_stats]: the number of clients, and of those that are alive. *)
Definition get_stats (now : Z) (h : HeartbeatMonitor) : nat * nat :=
  (size (heartbeats h),
   length (filter (λ p, (duration_since now p.2 < timeout_duration h)%Z)
             (map_to_list (heartbeats h)))).

(** ** Lemmas *)

Lemma elem_of_timed_out now h c :
  c ∈ timed_out now h ↔
  ∃ t, heartbeats h !! c = Some t ∧ (timeout_duration h < duration_since now t)%Z.
Proof.
  unfold timed_out. rewrite list_elem_of_fmap. setoid_rewrite list_elem_of_filter. split.
  - intros ([k t] & -> & Ht & Hin%elem_of_map_to_list). eauto.
  - intros (t & Hc & Ht). exists (c, t). split_and!; [done..|]. by apply elem_of_map_to_list.
Qed.

(** ** Properties *)

(** A tick of the monitor forgets exactly the clients whose last heartbeat
    is older than the timeout and keeps the times of all others. *)
Theorem monitor_tick_spec now h c t :
  heartbeats (monitor_tick now h) !! c = Some t ↔
  heartbeats h !! c = Some t ∧ (duration_since now t ≤ timeout_duration h)%Z.
Proof.
  unfold monitor_tick. simpl. rewrite lookup_delete_all.
  case_decide as Hd; rewrite elem_of_timed_out in Hd.
  - destruct Hd as (t' & Hc & Ht). split; [done|]. intros [Hc' Ht']. simplify_eq. lia.
  - split; [|by intros []]. intros Hc. split; [done|].
    destruct (decide (duration_since now t ≤ timeout_duration h)%Z); [done|].
    exfalso. apply Hd. exists t. split; [done|lia].
Qed.

(** A client that was heard from is alive exactly until the timeout has
    passed, and a tick of the monitor never forgets an alive client. *)
Theorem heartbeat_keeps_alive c now now' tick h :
  is_alive c now' (record_heartbeat c now h)
    = bool_decide (duration_since now' now < timeout_duration h)%Z
  ∧ (is_alive c tick h = true → is_alive c now' (monitor_tick tick h) = is_alive c now' h).
Proof.
  split.
  - unfold is_alive, record_heartbeat. simpl. by rewrite lookup_insert_eq.
  - unfold is_alive. destruct (heartbeats h !! c) as [t|] eqn:Hc; [|done].
    intros Ht%bool_decide_eq_true. unfold monitor_tick. simpl. rewrite lookup_delete_all.
    rewrite decide_False; [by rewrite Hc|]. rewrite elem_of_timed_out.
    intros (t' & Hc' & Ht'). simplify_eq. lia.
Qed.

(** The statistics count every listed client once, and as alive exactly
    those [is_alive] accepts at that instant. *)
Theorem get_stats_counts now h :
  (get_stats now h).2 ≤ (get_stats now h).1
  ∧ (get_stats now h).2 = size (filter (λ p, is_alive p.1 now h = true) (heartbeats h)).
Proof.
  unfold get_stats. simpl. split.
  - etrans; [apply length_filter|]. by rewrite length_map_to_list.
  - rewrite <-length_map_to_list. apply Permutation_length.
    apply NoDup_Permutation.
    + apply NoDup_filter, NoDup_map_to_list.
    + apply NoDup_map_to_list.
    + intros [c t]. rewrite list_elem_of_filter, !elem_of_map_to_list, map_lookup_filter_Some.
      unfold is_alive. simpl. split.
      * intros [Ht Hc]. rewrite Hc. by rewrite bool_decide_true.
      * intros [Hc Ht]. rewrite Hc in Ht. by apply bool_decide_eq_true in Ht.
Qed.

End Heartbeat.
