(* ===== verification/Metrics.v ===== *)
(** Counters and their rendering, [server/src/metrics.rs]. *)
From S2P Require Import Prelude RustStr.
From stdpp Require Import list pretty options.
From Stdlib Require Import Ascii.

Module Metrics.
Import RustStr.

(** A line feed. *)
Definition nl : string := String (ascii_of_N 10) "".
(** [to_string] of an unsigned integer. *)
Definition decimal (z : Z) : string := pretty (Z.to_N z).

(** [struct ServerSnapshot] *)
Record ServerSnapshot := {
  connected_clients : Z;
  queue_count : Z;
  total_messages : Z;
  consumer_count : Z
}.

(** [struct Metrics]; the counters are [AtomicU64]. *)
Record Metrics := {
  messages_published : Z;
  messages_acked : Z;
  messages_delivered : Z;
  errors_total : Z;
  connections_total : Z;
  connections_rejected_rate_limit : Z;
  connections_rejected_conn_limit : Z;
  requests_rate_limited : Z;
  snapshot : ServerSnapshot;
  start_time : Z
}.

(** [Metrics::new] *)
Definition new (now : Z) : Metrics :=
  {| messages_published := 0; messages_acked := 0; messages_delivered := 0; errors_total := 0;
     connections_total := 0; connections_rejected_rate_limit := 0;
     connections_rejected_conn_limit := 0; requests_rate_limited := 0;
     snapshot := {| connected_clients := 0; queue_count := 0; total_messages := 0;
                    consumer_count := 0 |};
     start_time := now |}.

(** The counters the server increments, [fetch_add(1)]. *)
Inductive Counter := Published | Acked | Connections | RejectedConnLimit | RateLimited.
#[global] Instance Counter_eq_dec : EqDecision Counter.
Proof. solve_decision. Defined.
Definition bump (c : Counter) (m : Metrics) : Metrics :=
  {| messages_published :=
       (match c with Published => fetch_add (messages_published m) 1 | _ => messages_published m end);
     messages_acked := (match c with Acked => fetch_add (messages_acked m) 1 | _ => messages_acked m end);
     messages_delivered := messages_delivered m; errors_total := errors_total m;
     connections_total :=
       (match c with Connections => fetch_add (connections_total m) 1 | _ => connections_total m end);
     connections_rejected_rate_limit := connections_rejected_rate_limit m;
     connections_rejected_conn_limit :=
       (match c with RejectedConnLimit => fetch_add (connections_rejected_conn_limit m) 1
        | _ => connections_rejected_conn_limit m end);
     requests_rate_limited :=
       (match c with RateLimited => fetch_add (requests_rate_limited m) 1
        | _ => requests_rate_limited m end);
     snapshot := snapshot m; start_time := start_time m |}.

(** [update_snapshot] *)
Definition update_snapshot (s : ServerSnapshot) (m : Metrics) : Metrics :=
  {| messages_published := messages_published m; messages_acked := messages_acked m;
     messages_delivered := messages_delivered m; errors_total := errors_total m;
     connections_total := connections_total m;
     connections_rejected_rate_limit := connections_rejected_rate_limit m;
     connections_rejected_conn_limit := connections_rejected_conn_limit m;
     requests_rate_limited := requests_rate_limited m; snapshot := s; start_time := start_time m |}.

(** [metric], the text appended to [out]. *)
Definition metric (name help : string) (value : Z) (kind : string) : string :=
  "# HELP " +:+ name +:+ " " +:+ help +:+ nl +:+ "# TYPE " +:+ name +:+ " " +:+ kind +:+ nl
  +:+ name +:+ " " +:+ decimal value +:+ nl.

(** [start_time.elapsed().as_secs()] *)
Definition uptime (now : Z) (m : Metrics) : Z := duration_since now (start_time m) `div` from_secs 1.

(** The samples of [render_prometheus], in order. *)
Definition samples (now : Z) (m : Metrics) : list (string * string * Z * string) :=
  let s := snapshot m in
  [("ciphermq_messages_published_total", "Total messages published", messages_published m, "counter");
   ("ciphermq_messages_acked_total", "Total messages acknowledged", messages_acked m, "counter");
   ("ciphermq_messages_delivered_total", "Total messages delivered", messages_delivered m, "counter");
   ("ciphermq_errors_total", "Total server errors", errors_total m, "counter");
   ("ciphermq_connections_total", "Accepted client connections", connections_total m, "counter");
   ("ciphermq_connections_rejected_rate_limit_total", "Connections rejected by rate limit",
    connections_rejected_rate_limit m, "counter");
   ("ciphermq_connections_rejected_conn_limit_total", "Connections rejected by connection limit",
    connections_rejected_conn_limit m, "counter");
   ("ciphermq_requests_rate_limited_total", "Requests rejected by rate limit",
    requests_rate_limited m, "counter");
   ("ciphermq_connected_clients", "Current connected clients", connected_clients s, "gauge");
   ("ciphermq_queue_count", "Current queue count", queue_count s, "gauge");
   ("ciphermq_messages_in_queues", "Messages currently in queues", total_messages s, "gauge");
   ("ciphermq_consumer_count", "Current consumers", consumer_count s, "gauge");
   ("ciphermq_uptime_seconds", "Server uptime", uptime now m, "gauge")].

(** [render_prometheus] *)
Definition render_prometheus (now : Z) (m : Metrics) : string :=
  foldl (λ out '(name, help, value, kind), out +:+ metric name help value kind) "" (samples now m).

(** [render_status] *)
Definition render_status (now : Z) (m : Metrics) : string :=
  let s := snapshot m in
  "=== CipherMQ Node Status ===" +:+ nl
  +:+ "Connected clients: " +:+ decimal (connected_clients s) +:+ nl
  +:+ "Queues:            " +:+ decimal (queue_count s) +:+ nl
  +:+ "Messages in queues: " +:+ decimal (total_messages s) +:+ nl
  +:+ "Consumers:          " +:+ decimal (consumer_count s) +:+ nl
  +:+ "Uptime:             " +:+ decimal (uptime now m) +:+ "s" +:+ nl
  +:+ "Published:          " +:+ decimal (messages_published m) +:+ nl
  +:+ "Acknowledged:       " +:+ decimal (messages_acked m) +:+ nl
  +:+ "Rate limited:       " +:+ decimal (requests_rate_limited m) +:+ nl.

(** ** Lemmas *)

Lemma app_inj_l s t u : s +:+ t = s +:+ u → t = u.
Proof. induction s as [|a s IH]; intros H; [done|]. rewrite !app_cons in H. injection H. auto. Qed.

(** Decimal numerals have no line feed. *)
Lemma digit_no_nl x : pretty_N_char x ≠ ascii_of_N 10.
Proof.
  destruct x as [|p]; [done|].
  destruct p as [[[[]|[]|]|[[]|[]|]|]|[[[]|[]|]|[[]|[]|]|]|]; done.
Qed.

Lemma no_nl_go x s : no_char (ascii_of_N 10) s = true → no_char (ascii_of_N 10) (pretty_N_go x s) = true.
Proof.
  revert s. induction (N.lt_wf_0 x) as [x _ IH]; intros s Hs.
  destruct (decide (0 < x)%N) as [Hx|Hx].
  - rewrite pretty_N_go_step by done. apply IH.
    + apply N.div_lt; [done|lia].
    + unfold no_char in *. cbn [all_chars]. rewrite Hs, andb_true_r.
      apply bool_decide_eq_true, digit_no_nl.
  - replace x with 0%N by lia. by rewrite pretty_N_go_0.
Qed.

Lemma decimal_no_nl z : no_char (ascii_of_N 10) (decimal z) = true.
Proof. unfold decimal, pretty, pretty_N. case_decide; [done|]. by apply no_nl_go. Qed.

Lemma decimal_inj z z' : (0 ≤ z)%Z → (0 ≤ z')%Z → decimal z = decimal z' → z = z'.
Proof. intros Hz Hz' H%pretty_N_inj. apply Z2N.inj in H; lia. Qed.

(** A line of text ends at its first line feed. *)
Lemma line_inj s s' r r' :
  no_char (ascii_of_N 10) s = true → no_char (ascii_of_N 10) s' = true →
  s +:+ nl +:+ r = s' +:+ nl +:+ r' → s = s' ∧ r = r'.
Proof.
  intros Hs Hs' H. apply (f_equal (split_once (ascii_of_N 10))) in H.
  change (nl +:+ r) with (String (ascii_of_N 10) r) in H.
  change (nl +:+ r') with (String (ascii_of_N 10) r') in H.
  rewrite !split_once_app in H by done. by simplify_eq.
Qed.

Lemma metric_inj name help kind v v' r r' :
  (0 ≤ v)%Z → (0 ≤ v')%Z →
  metric name help v kind +:+ r = metric name help v' kind +:+ r' → v = v' ∧ r = r'.
Proof.
  intros Hv Hv' H. unfold metric in H. rewrite <-!app_assoc in H.
  do 12 apply app_inj_l in H. apply line_inj in H as [H ->]; [|apply decimal_no_nl..].
  by apply decimal_inj in H.
Qed.

(** Samples that differ in their values only. *)
Definition same_sample (a b : string * string * Z * string) : Prop :=
  a.1.1 = b.1.1 ∧ a.2 = b.2 ∧ (0 ≤ a.1.2)%Z ∧ (0 ≤ b.1.2)%Z.
Definition render_samples (l : list (string * string * Z * string)) : string :=
  foldr (λ '(name, help, value, kind) r, metric name help value kind +:+ r) "" l.

Lemma render_prometheus_eq now m : render_prometheus now m = render_samples (samples now m).
Proof.
  unfold render_prometheus, render_samples. generalize (samples now m). intros l.
  change (foldr _ "" l) with ("" +:+ foldr (λ '(name, help, value, kind) r,
    metric name help value kind +:+ r) "" l).
  generalize "" at 1 2. induction l as [|[[[name help] v] kind] l IH]; intros out; simpl.
  - by rewrite app_nil_r.
  - by rewrite IH, app_assoc.
Qed.

Lemma render_samples_inj l l' :
  Forall2 same_sample l l' → render_samples l = render_samples l' → l = l'.
Proof.
  induction 1 as [|[[[n h] v] k] [[[n' h'] v'] k'] l l' Hs _ IH]; [done|].
  unfold same_sample in Hs; simpl in Hs. destruct Hs as (? & ? & ? & ?); simplify_eq. simpl.
  intros H. apply metric_inj in H as [-> H]; [|done..]. by rewrite IH.
Qed.

(** All values are those of unsigned integers. *)
Record unsigned (m : Metrics) : Prop := {
  u_published : (0 ≤ messages_published m)%Z; u_acked : (0 ≤ messages_acked m)%Z;
  u_delivered : (0 ≤ messages_delivered m)%Z; u_errors : (0 ≤ errors_total m)%Z;
  u_connections : (0 ≤ connections_total m)%Z;
  u_rejected_rate : (0 ≤ connections_rejected_rate_limit m)%Z;
  u_rejected_conn : (0 ≤ connections_rejected_conn_limit m)%Z;
  u_limited : (0 ≤ requests_rate_limited m)%Z;
  u_clients : (0 ≤ connected_clients (snapshot m))%Z; u_queues : (0 ≤ queue_count (snapshot m))%Z;
  u_total : (0 ≤ total_messages (snapshot m))%Z; u_consumers : (0 ≤ consumer_count (snapshot m))%Z
}.

Lemma uptime_nonneg now m : (0 ≤ uptime now m)%Z.
Proof. unfold uptime, duration_since. apply Z.div_pos; [lia|done]. Qed.

(** ** Properties *)

(** The Prometheus page determines every value it reports: two servers
    that render the same page have the same counters, gauges and uptime. *)
Theorem prometheus_faithful now now' m m' :
  unsigned m → unsigned m' →
  render_prometheus now m = render_prometheus now' m' → samples now m = samples now' m'.
Proof.
  intros [] []. rewrite !render_prometheus_eq. apply render_samples_inj. unfold samples.
  repeat (constructor; [by split_and!; simpl; auto using uptime_nonneg|]). constructor.
Qed.

(** ** Witnesses *)

Lemma fresh_unsigned now : unsigned (new now).
Proof. by split. Qed.

Lemma prometheus_faithful_witness : samples 5 (new 3) = samples 7 (new 5).
Proof.
  exact (prometheus_faithful 5 7 (new 3) (new 5) (fresh_unsigned 3) (fresh_unsigned 5)
    ltac:(vm_compute; reflexivity)).
Defined.

End Metrics.
