(* ===== verification/Config.v ===== *)
(** Loading and validating the configuration, [server/src/config.rs].

    Reading the file and parsing TOML (crate [toml] with the derived
    deserializers) are parameters of [load]. *)
From S2P Require Import Prelude RustStr Storage StorageFacts StorageProps.
From S2P Require Import RateLimiter.
From stdpp Require Import list options.
From Stdlib Require Import SpecFloat.

Module Config.
Import RustStr.

(** [enum ConfigError]; foreign errors are their display text. *)
Inductive ConfigError :=
| ReadError (e : string)
| ParseError (e : string)
| MissingField (f : string).

Record ServerConfig := { address : string; connection_type : string }.
Record TlsConfig := {
  cert_path : option string;
  key_path : option string;
  ca_cert_path : option string
}.
Record LoggingConfig := {
  level : string;
  rotation : string;
  info_file_path : string;
  debug_file_path : string;
  error_file_path : string;
  max_size_mb : Z
}.
Record DatabaseConfig := {
  host : string;
  port : Z;
  user : string;
  password : string;
  dbname : string
}.
Record EncryptionConfig := { algorithm : string; aes_key : string }.
Record PerformanceConfig := {
  max_queue_size : nat;
  heartbeat_timeout : Z;
  cleanup_interval : Z;
  consumer_cleanup_interval : Z;
  idle_timeout_sec : Z
}.
Record AdminConfig := {
  admin_enabled : bool;
  admin_address : string;
  allowed_cns : list string
}.
Record RateLimitConfig := {
  enabled : bool;
  global_rps : spec_float;
  global_burst : spec_float;
  publish_rps : spec_float;
  publish_burst : spec_float;
  max_connections_per_ip : nat;
  max_connections_per_cn : nat
}.
Record AclConfig := {
  sender_cns : list string;
  receiver_cns : list string;
  admin_cns : list string
}.
Record Config := {
  server : ServerConfig;
  tls : TlsConfig;
  logging : LoggingConfig;
  database : DatabaseConfig;
  encryption : EncryptionConfig;
  performance : PerformanceConfig;
  admin : AdminConfig;
  rate_limit : RateLimitConfig;
  acl : AclConfig
}.

(** The [Default] implementations. *)
Definition default_performance : PerformanceConfig :=
  {| max_queue_size := Z.to_nat 10000; heartbeat_timeout := 60; cleanup_interval := 3000;
     consumer_cleanup_interval := 60; idle_timeout_sec := 60 |}.
Definition default_admin : AdminConfig :=
  {| admin_enabled := false; admin_address := "127.0.0.1:9091"; allowed_cns := [] |}.
Definition default_rate_limit : RateLimitConfig :=
  {| enabled := false;
     global_rps := RateLimiter.f64_of_Z 100; global_burst := RateLimiter.f64_of_Z 200;
     publish_rps := RateLimiter.f64_of_Z 50; publish_burst := RateLimiter.f64_of_Z 100;
     max_connections_per_ip := 50; max_connections_per_cn := 20 |}.

(** The limiter configuration built in [main]; [enabled] is not passed on. *)
Definition limiter_config (c : Config) : RateLimiter.RateLimitConfig :=
  {| RateLimiter.global_rps := global_rps (rate_limit c);
     RateLimiter.global_burst := global_burst (rate_limit c);
     RateLimiter.publish_rps := publish_rps (rate_limit c);
     RateLimiter.publish_burst := publish_burst (rate_limit c);
     RateLimiter.max_connections_per_ip := max_connections_per_ip (rate_limit c);
     RateLimiter.max_connections_per_cn := max_connections_per_cn (rate_limit c) |}.

(** ** Validation *)

(** [if guard { return Err(MissingField(f)) }] *)
Definition require (b : bool) (f : string) : result unit ConfigError :=
  if b then Ok () else Err (MissingField f).

Definition is_some {A} (o : option A) : bool := match o with Some _ => true | None => false end.
(** [if s.is_empty() { d } else { s }] *)
Definition or_default (s d : string) : string := if is_empty s then d else s.

Definition fill_logging (l : LoggingConfig) : LoggingConfig :=
  {| level := or_default (level l) "info";
     rotation := or_default (rotation l) "daily";
     info_file_path := or_default (info_file_path l) "logs/info.log";
     debug_file_path := or_default (debug_file_path l) "logs/debug.log";
     error_file_path := or_default (error_file_path l) "logs/error.log";
     max_size_mb := if decide (max_size_mb l = 0%Z) then 10%Z else max_size_mb l |}.

Definition cipher : string := "x25519_chacha20_poly1305".

Section Load.
Context `{P : Primitives}.
(** [fs::read_to_string] and [toml::from_str]. *)
Variables (read_to_string : string → result string string)
          (toml_from_str : string → result Config string).

(** The checks [load] makes of a parsed configuration, and its defaults. *)
Definition validate (c : Config) : result Config ConfigError :=
  try _u ← (if bool_decide (connection_type (server c) = "tls") then
            try _u ← require (is_some (cert_path (tls c))) "tls.cert_path";
            try _u ← require (is_some (key_path (tls c))) "tls.key_path";
            require (is_some (ca_cert_path (tls c))) "tls.ca_cert_path"
          else Ok ());
  try _u ← require (negb (is_empty (host (database c)))) "database.host";
  try _u ← require (negb (is_empty (user (database c)))) "database.user";
  try _u ← require (negb (is_empty (dbname (database c)))) "database.dbname";
  try _u ← require (bool_decide (algorithm (encryption c) = cipher)) "encryption.algorithm";
  try _u ← require (negb (is_empty (aes_key (encryption c)))) "encryption.aes_key";
  try key ← map_err (λ e, MissingField ("Invalid AES key: " +:+ e))
              (b64_decode (aes_key (encryption c)));
  try _u ← require (bool_decide (String.length key = 32)) "encryption.aes_key";
  Ok {| server := server c; tls := tls c; logging := fill_logging (logging c);
        database := database c; encryption := encryption c; performance := performance c;
        admin := admin c; rate_limit := rate_limit c; acl := acl c |}.

(** [Config::load] *)
Definition load (path : string) : result Config ConfigError :=
  try content ← map_err ReadError (read_to_string path);
  try c ← map_err ParseError (toml_from_str content);
  validate c.

(** What a loaded configuration satisfies. *)
Record valid (c : Config) : Prop := {
  v_tls : connection_type (server c) = "tls" →
    is_Some (cert_path (tls c)) ∧ is_Some (key_path (tls c)) ∧ is_Some (ca_cert_path (tls c));
  v_db : host (database c) ≠ "" ∧ user (database c) ≠ "" ∧ dbname (database c) ≠ "";
  v_cipher : algorithm (encryption c) = cipher;
  v_key : aes_key (encryption c) ≠ ""
          ∧ ∃ key, b64_decode (aes_key (encryption c)) = Ok key ∧ String.length key = 32
}.

Lemma is_empty_false s : is_empty s = false ↔ s ≠ "".
Proof. by destruct s. Qed.

Lemma validate_ok c c' :
  validate c = Ok c' ↔
  valid c ∧ c' = {| server := server c; tls := tls c; logging := fill_logging (logging c);
     database := database c; encryption := encryption c; performance := performance c;
     admin := admin c; rate_limit := rate_limit c; acl := acl c |}.
Proof.
  unfold validate, require. split.
  - intros H.
    destruct (if bool_decide (connection_type (server c) = "tls") then _ else _) as [[]|e] eqn:Ht;
      [|done].
    destruct (is_empty (host _)) eqn:H1; [done|]. destruct (is_empty (user _)) eqn:H2; [done|].
    destruct (is_empty (dbname _)) eqn:H3; [done|]. simpl in H.
    destruct (bool_decide (algorithm _ = _)) eqn:H4; [|done].
    destruct (is_empty (aes_key _)) eqn:H5; [done|]. simpl in H.
    destruct (b64_decode (aes_key _)) as [key|] eqn:H6; [|done]. simpl in H.
    destruct (bool_decide (String.length key = 32)) eqn:H7; [|done]. simplify_eq.
    split; [|done]. apply bool_decide_eq_true in H4, H7. split.
    + intros Htls. rewrite bool_decide_true in Ht by done.
      destruct (cert_path _); [|done]. destruct (key_path _); [|done].
      destruct (ca_cert_path _); [|done]. eauto.
    + rewrite <-!is_empty_false. done.
    + done.
    + split; [by apply is_empty_false|eauto].
  - intros [[Ht (H1 & H2 & H3) H4 (H5 & key & H6 & H7)] ->].
    apply is_empty_false in H1, H2, H3, H5. rewrite H1, H2, H3, H5, H6. simpl.
    rewrite (bool_decide_true (algorithm _ = _)), (bool_decide_true (String.length _ = _)) by done.
    case_bool_decide as Htls; [|done].
    destruct (Ht Htls) as ([? Ha] & [? Hb] & [? Hc]). by rewrite Ha, Hb, Hc.
Qed.

Lemma fill_logging_idemp l : fill_logging (fill_logging l) = fill_logging l.
Proof.
  unfold fill_logging, or_default. destruct l as [a b c d e f]; simpl.
  f_equal; [by destruct a|by destruct b|by destruct c|by destruct d|by destruct e|].
  by repeat case_decide.
Qed.

(** C24: a configuration that loads is usable: with TLS all three certificate
    paths are there, the database is named, the key decodes to 32 bytes, and
    every logging field has a value; loading what was loaded changes nothing. *)
Theorem load_valid path c :
  load path = Ok c →
  valid c ∧ level (logging c) ≠ "" ∧ rotation (logging c) ≠ ""
  ∧ info_file_path (logging c) ≠ "" ∧ debug_file_path (logging c) ≠ ""
  ∧ error_file_path (logging c) ≠ "" ∧ max_size_mb (logging c) ≠ 0%Z
  ∧ validate c = Ok c.
Proof.
  unfold load. intros H. destruct (read_to_string path) as [content|]; [|done]. simpl in H.
  destruct (toml_from_str content) as [c0|]; [|done]. simpl in H.
  apply validate_ok in H as [Hv ->].
  assert (∀ s d, d ≠ "" → or_default s d ≠ "") as Hd by (intros [] d; done).
  split_and!; try (by apply Hd).
  - by destruct Hv.
  - simpl. by case_decide.
  - apply validate_ok. split; [by destruct Hv|]. simpl. by rewrite fill_logging_idemp.
Qed.

(** The key the storage actor finds when it loads the configuration. *)
Definition actor_key : option string :=
  match load "config.toml" with Ok c => Some (aes_key (encryption c)) | Err _ => None end.

(** A validated configuration never kills the storage actor at its start:
    when the database is reachable and its tables can be created, the actor
    runs and its channel is open, whatever the tables hold. *)
Theorem loaded_config_starts_storage connects d es s :
  is_ok (load "config.toml") = true → Forall StorageFacts.env_ok es →
  Storage.open_storage connects None None actor_key d es = Ok s →
  Storage.alive s = true ∧ StorageFacts.handle_ok s ∧ Storage.db (Storage.worker s) = d.
Proof.
  intros Hl He Ho. unfold actor_key in Ho. destruct (load "config.toml") as [c|] eqn:Hc; [|done].
  unfold load in Hc. destruct (read_to_string _) as [content|]; [|done]. simpl in Hc.
  destruct (toml_from_str content) as [c0|]; [|done]. simpl in Hc.
  apply validate_ok in Hc as [[_ _ _ (_ & key & Hk & Hlen)] ->].
  unfold Storage.open_storage, Storage.start_worker in Ho. simpl in Ho.
  destruct (Storage.connect_with_retry connects).2; [|done].
  rewrite Hk, decide_True in Ho by done. injection Ho as <-. by repeat split.
Qed.

End Load.

(** ** Witnesses *)

Definition raw_config : Config :=
  {| server := {| address := "127.0.0.1:5672"; connection_type := "tls" |};
     tls := {| cert_path := Some "c"; key_path := Some "k"; ca_cert_path := Some "ca" |};
     logging := {| level := ""; rotation := ""; info_file_path := ""; debug_file_path := "";
                   error_file_path := ""; max_size_mb := 0 |};
     database := {| host := "h"; port := 5432; user := "u"; password := ""; dbname := "d" |};
     encryption := {| algorithm := cipher; aes_key := "0123456789abcdef0123456789abcdef" |};
     performance := default_performance; admin := default_admin; rate_limit := default_rate_limit;
     acl := {| sender_cns := []; receiver_cns := []; admin_cns := [] |} |}.

Definition loaded : Config :=
  match validate (P := StorageProps.toy_primitives) raw_config with
  | Ok c => c | Err _ => raw_config
  end.

Lemma load_valid_witness : level (logging loaded) ≠ "".
Proof.
  exact (proj1 (proj2 (load_valid (P := StorageProps.toy_primitives) Ok (λ _, Ok raw_config)
    "config.toml" loaded eq_refl))).
Defined.

Lemma loaded_config_starts_storage_witness :
  Storage.alive (match Storage.open_storage (P := StorageProps.toy_primitives) [] None None
                   (actor_key (P := StorageProps.toy_primitives) Ok (λ _, Ok raw_config))
                   (Storage.db StorageProps.sample_worker) [] with
                 | Ok s => s | Err _ => StorageProps.empty_store end) = true.
Proof.
  refine (proj1 (loaded_config_starts_storage (P := StorageProps.toy_primitives) Ok
    (λ _, Ok raw_config) [] (Storage.db StorageProps.sample_worker) [] _ eq_refl _ _)).
  - constructor.
  - reflexivity.
Defined.

End Config.
