(* ===== verification/Tls.v ===== *)
(** Mutual TLS: how the server, the admin server and the three client programs
    load their certificates, and how a connection gets the name of its client
    ([server/src/auth.rs], [server/src/connection.rs], the TLS parts of
    [server/src/admin_server.rs], [clients/sender_1/src/main.rs],
    [clients/receiver_1/src/main.rs] and [clients/admin/src/main.rs]).

    The crates [rustls_pemfile], [rustls] and [x509_parser] are a class
    [TlsLib]; a certificate in DER form is its bytes, an error its text. *)
From S2P Require Import Prelude RustStr.
From stdpp Require Import list options.

(** [rustls::pki_types::PrivateKeyDer] *)
Inductive PrivateKeyDer :=
| Pkcs8 (der : string)
| Pkcs1 (der : string)
| Sec1 (der : string).
#[global] Instance PrivateKeyDer_eq_dec : EqDecision PrivateKeyDer.
Proof. solve_decision. Defined.

(** An attribute of an X.509 name: its type, and its text by
    [AttributeTypeAndValue::as_str] and by [attr_value().as_str()]. *)
Record Attribute := {
  attr_type : string;
  as_str : result string string;
  value_as_str : result string string
}.

(** A name: a sequence of relative distinguished names. *)
Definition Subject : Type := list (list Attribute).

(** The object identifier of the common name. *)
Definition OID_X509_COMMON_NAME : string := "2.5.4.3".

Class TlsLib := {
  (** The items the iterators of [rustls_pemfile] yield for a file. *)
  pem_certs : string → list (result string string);
  pkcs8_private_keys : string → list (result string string);
  rsa_private_keys : string → list (result string string);
  ec_private_keys : string → list (result string string);
  (** [RootCertStore::add], [WebPkiClientVerifier::builder(..).build()],
      [with_single_cert], [with_client_auth_cert]: their checks. *)
  root_add : string → result () string;
  verifier_build : list string → result () string;
  single_cert : list string → PrivateKeyDer → result () string;
  client_auth_cert : list string → PrivateKeyDer → result () string;
  (** Path validation against root certificates, of a client certificate and of
      a server certificate for a host name. *)
  webpki_client : list string → string → list string → bool;
  webpki_server : list string → string → list string → string → bool;
  (** [x509_parser]: a certificate's subject, and the first block of a PEM file. *)
  parse_x509 : string → result Subject string;
  parse_x509_pem : string → result string string
}.

Module Tls.
Import RustStr.

(** [collect::<Result<Vec<_>, _>>()] *)
Fixpoint collect {A E} (l : list (result A E)) : result (list A) E :=
  match l with
  | [] => Ok []
  | Ok a :: l => try rest ← collect l; Ok (a :: rest)
  | Err e :: _ => Err e
  end.

(** [Vec::pop] on an owned vector of keys: its last element. *)
Definition pop {A} (l : list A) : option A := last l.
Definition ok_or {A E} (o : option A) (e : E) : result A E :=
  match o with Some a => Ok a | None => Err e end.

(** [rustls::ServerConfig] as both servers build it. *)
Record ServerConfig := {
  client_roots : list string;
  server_chain : list string;
  server_key : PrivateKeyDer
}.

(** The verifier of server certificates: the default one, or
    [danger::NoHostnameVerifier]. *)
Inductive ServerCertVerifier := WebPkiServerVerifier | NoHostnameVerifier.

(** [rustls::ClientConfig] as the clients build it. *)
Record ClientConfig := {
  roots : list string;
  client_chain : list string;
  client_key : PrivateKeyDer;
  verifier : ServerCertVerifier
}.

(** [struct TlsConfig] of the sender and of the receiver, the fields their
    connectors use. *)
Record TlsConfig := {
  certificate_path : string;
  client_cert_path : string;
  client_key_path : string;
  check_hostname : bool
}.

(** [struct TlsCfg] of the admin client. *)
Record TlsCfg := {
  ca_cert_path : string;
  admin_cert_path : string;
  admin_key_path : string
}.

Section Load.
Context `{L : TlsLib}.
(** [File::open] and reading: the content of a path, or the error. *)
Variable files : string → result string string.

(** [for cert in certs { root_store.add(cert)?; }] *)
Fixpoint add_roots (certs store : list string) : result (list string) string :=
  match certs with
  | [] => Ok store
  | c :: certs => try _u ← root_add c; add_roots certs (store ++ [c])
  end.

(** ** The servers *)

(** [configure_mtls] of [auth.rs] *)
Definition configure_mtls (cert_path key_path ca_cert_path : string)
    : result ServerConfig string :=
  try cert_file ← files cert_path;
  try certs ← collect (pem_certs cert_file);
  try key_file ← files key_path;
  try keys ← collect (pkcs8_private_keys key_file);
  try key ← ok_or (head (Pkcs8 <$> keys)) "No private key found";
  try ca_file ← files ca_cert_path;
  try ca_certs ← collect (pem_certs ca_file);
  try root_store ← add_roots ca_certs [];
  try _u ← verifier_build root_store;
  try _u ← single_cert certs key;
  Ok {| client_roots := root_store; server_chain := certs; server_key := key |}.

(** [for c in certs { roots.add(c?)?; }]: reading and adding alternate. *)
Fixpoint read_roots (items : list (result string string)) (store : list string)
    : result (list string) string :=
  match items with
  | [] => Ok store
  | item :: items => try c ← item; try _u ← root_add c; read_roots items (store ++ [c])
  end.

(** [build_acceptor] of [admin_server.rs] *)
Definition build_acceptor (cert key ca : string) : result ServerConfig string :=
  try cert_file ← files cert;
  try certs ← collect (pem_certs cert_file);
  try key_file ← files key;
  try keys ← collect (pkcs8_private_keys key_file);
  try private_key ← ok_or (Pkcs8 <$> head keys) "No private key";
  try ca_file ← files ca;
  try store ← read_roots (pem_certs ca_file) [];
  try _u ← verifier_build store;
  try _u ← single_cert certs private_key;
  Ok {| client_roots := store; server_chain := certs; server_key := private_key |}.

(** ** The clients *)

Definition open_context (context path : string) : result string string :=
  map_err (λ _, context) (files path).

(** The roots and the chain, the first half of all three client set-ups. *)
Definition load_roots (context path : string) : result (list string) string :=
  try ca_file ← open_context context path;
  try ca_certs ← collect (pem_certs ca_file);
  add_roots ca_certs [].
Definition load_chain (context path : string) : result (list string) string :=
  try cert_file ← open_context context path;
  collect (pem_certs cert_file).

Definition choose_verifier (check : bool) : ServerCertVerifier :=
  if check then WebPkiServerVerifier else NoHostnameVerifier.

Definition client_config (store chain : list string) (key : PrivateKeyDer)
    (v : ServerCertVerifier) : result ClientConfig string :=
  try _u ← client_auth_cert chain key;
  Ok {| roots := store; client_chain := chain; client_key := key; verifier := v |}.

(** The private key of the sender: the last PKCS8 key of the file, or the last
    RSA key, or the last EC key. *)
Definition sender_key (cfg : TlsConfig) : result PrivateKeyDer string :=
  try key_file ← open_context ("Cannot open client key " +:+ client_key_path cfg) (client_key_path cfg);
  try keys ← collect (pkcs8_private_keys key_file);
  match pop keys with
  | Some key => Ok (Pkcs8 key)
  | None =>
      try reader ← files (client_key_path cfg);
      try rsa ← collect (rsa_private_keys reader);
      match pop rsa with
      | Some key => Ok (Pkcs1 key)
      | None =>
          try reader ← files (client_key_path cfg);
          try ec ← collect (ec_private_keys reader);
          try key ← ok_or (pop ec) ("No private key found in " +:+ client_key_path cfg);
          Ok (Sec1 key)
      end
  end.

(** [build_tls_connector] of the sender *)
Definition sender_connector (cfg : TlsConfig) : result ClientConfig string :=
  try store ← load_roots ("Cannot open CA cert " +:+ certificate_path cfg) (certificate_path cfg);
  try chain ← load_chain ("Cannot open client cert " +:+ client_cert_path cfg) (client_cert_path cfg);
  try private_key ← sender_key cfg;
  client_config store chain private_key (choose_verifier (check_hostname cfg)).

(** [build_tls_connector] of the receiver: the first PKCS8 key, no other kind. *)
Definition receiver_connector (cfg : TlsConfig) : result ClientConfig string :=
  try store ← load_roots ("Cannot open CA cert " +:+ certificate_path cfg) (certificate_path cfg);
  try chain ← load_chain ("Cannot open client cert " +:+ client_cert_path cfg) (client_cert_path cfg);
  try key_file ← open_context ("Cannot open client key " +:+ client_key_path cfg) (client_key_path cfg);
  try keys ← collect (pkcs8_private_keys key_file);
  match keys with
  | [] => Err ("No PKCS8 private key found in " +:+ client_key_path cfg)
  | key :: _ => client_config store chain (Pkcs8 key) (choose_verifier (check_hostname cfg))
  end.

(** [load_key] of the admin client *)
Definition load_key (path : string) : result PrivateKeyDer string :=
  try r ← files path;
  try keys ← collect (pkcs8_private_keys r);
  match pop keys with
  | Some key => Ok (Pkcs8 key)
  | None =>
      try r ← files path;
      try keys ← collect (rsa_private_keys r);
      match pop keys with
      | Some key => Ok (Pkcs1 key)
      | None =>
          try r ← files path;
          try keys ← collect (ec_private_keys r);
          match pop keys with
          | Some key => Ok (Sec1 key)
          | None => Err ("No private key found in " +:+ path)
          end
      end
  end.

(** [load_tls_config] of the admin client *)
Definition load_tls_config (tls : TlsCfg) : result ClientConfig string :=
  try store ← load_roots ("opening CA cert: " +:+ ca_cert_path tls) (ca_cert_path tls);
  try chain ← load_chain "opening client cert" (admin_cert_path tls);
  try key ← load_key (admin_key_path tls);
  map_err (λ _, "building TLS config") (client_config store chain key WebPkiServerVerifier).

(** [verify_server_cert]: the default verifier validates the path and the name,
    [NoHostnameVerifier] asserts. *)
Definition verify_server_cert (cfg : ClientConfig) (end_entity : string)
    (intermediates : list string) (server_name : string) : bool :=
  match verifier cfg with
  | WebPkiServerVerifier => webpki_server (roots cfg) end_entity intermediates server_name
  | NoHostnameVerifier => true
  end.

(** ** The name of a client *)

(** The loop over the attributes of the server: the first common name that is a
    string. *)
Fixpoint attributes_cn (rdn : list Attribute) : option string :=
  match rdn with
  | [] => None
  | attr :: rdn =>
      if bool_decide (attr_type attr = OID_X509_COMMON_NAME)
      then match as_str attr with Ok cn => Some cn | Err _ => attributes_cn rdn end
      else attributes_cn rdn
  end.
Fixpoint subject_cn (subject : Subject) : option string :=
  match subject with
  | [] => None
  | rdn :: subject =>
      match attributes_cn rdn with Some cn => Some cn | None => subject_cn subject end
  end.

(** A TLS stream of the server: the certificates of its peer. *)
Record TlsStream := { peer_certificates : option (list string) }.

(** [TlsConnection::extract_client_id] *)
Definition extract_client_id (stream : TlsStream) : result string string :=
  match peer_certificates stream with
  | Some cert_chain =>
      match head cert_chain with
      | Some client_cert =>
          match parse_x509 client_cert with
          | Ok subject => ok_or (subject_cn subject) "No Common Name found in client certificate"
          | Err e => Err ("Failed to parse certificate: " +:+ e)
          end
      | None => Err "No client certificate provided"
      end
  | None => Err "No client certificates found"
  end.

(** [extract_admin_cn] of [admin_server.rs] *)
Definition extract_admin_cn (stream : TlsStream) : string :=
  match peer_certificates stream with
  | Some cert_chain =>
      match head cert_chain with
      | Some client_cert =>
          match parse_x509 client_cert with
          | Ok subject => default "unknown" (subject_cn subject)
          | Err _ => "unknown"
          end
      | None => "unknown"
      end
  | None => "unknown"
  end.

(** The loop of the sender over its own certificate: the first common name,
    which must be a string. *)
Fixpoint own_attributes_cn (rdn : list Attribute) : option (result string string) :=
  match rdn with
  | [] => None
  | attr :: rdn =>
      if bool_decide (attr_type attr = OID_X509_COMMON_NAME)
      then Some (map_err (λ e, "CN is not UTF-8: " +:+ e) (value_as_str attr))
      else own_attributes_cn rdn
  end.
Fixpoint own_subject_cn (subject : Subject) : result string string :=
  match subject with
  | [] => Err "No Common Name found in client certificate"
  | rdn :: subject =>
      match own_attributes_cn rdn with Some r => r | None => own_subject_cn subject end
  end.

(** [extract_client_id] of the sender *)
Definition sender_client_id (cfg : TlsConfig) : result string string :=
  try pem ← open_context ("Cannot read cert " +:+ client_cert_path cfg) (client_cert_path cfg);
  try cert ← map_err (λ e, "PEM parse error: " +:+ e) (parse_x509_pem pem);
  try subject ← map_err (λ e, "X.509 parse error: " +:+ e) (parse_x509 cert);
  own_subject_cn subject.

End Load.

(** ** Authentication *)

(** [struct MTlsAuth] and [struct TlsConnection] *)
Record MTlsAuth := { acceptor : ServerConfig }.
Record TlsConnection := { stream : TlsStream; client_id : string }.

(** Incoming connections: the certificates the peer presents, and
    [TlsAcceptor::accept]. *)
Class Handshakes (Tcp : Type) := {
  presented : Tcp → list string;
  accept : ServerConfig → Tcp → result TlsStream string
}.

(** What [rustls] promises of [accept] with a client verifier: it succeeds only
    for a client that presents a certificate valid for the roots, and the stream
    then shows the chain the client presented. *)
Class HandshakeLaws {L : TlsLib} (Tcp : Type) `{!Handshakes Tcp} : Prop :=
  accept_verified (cfg : ServerConfig) (tcp : Tcp) (s : TlsStream) :
    accept cfg tcp = Ok s →
    ∃ c rest, presented tcp = c :: rest
              ∧ peer_certificates s = Some (c :: rest)
              ∧ webpki_client (client_roots cfg) c rest = true.

Section Accept.
Context {L : TlsLib} {Tcp : Type} {H : Handshakes Tcp}.

(** [MTlsAuth::new] *)
Definition new_auth (files : string → result string string)
    (cert_path key_path ca_cert_path : string) : result MTlsAuth string :=
  try config ← configure_mtls files cert_path key_path ca_cert_path;
  Ok {| acceptor := config |}.

(** [TlsConnection::new] *)
Definition new_connection (tcp : Tcp) (acc : ServerConfig) : result TlsConnection string :=
  try s ← accept acc tcp;
  try cn ← extract_client_id s;
  Ok {| stream := s; client_id := cn |}.

(** [MTlsAuth::authenticate] *)
Definition authenticate (a : MTlsAuth) (tcp : Tcp) : result TlsConnection string :=
  new_connection tcp (acceptor a).

End Accept.

End Tls.
