(* ===== verification/JsonTree.v ===== *)
(** JSON values as the programs build them ([serde_json::json!]) and the
    deserializers [serde] derives, as functions on values. The text format is
    the class [Serde]. *)
From S2P Require Import Prelude RustStr.
From stdpp Require Import countable list options.
From Stdlib Require Import Ascii.

#[local] Set Warnings "-register-all".

(** [serde_json::Value]; an object lists its fields in the order of their keys,
    as the map of [serde_json] holds them; [JReal] is a number that is no
    integer, by its text. *)
Inductive Value :=
| JNull
| JBool (b : bool)
| JNum (n : Z)
| JReal (text : string)
| JStr (s : string)
| JArr (l : list Value)
| JObj (fields : list (string * Value)).

Module JsonTree.
Import RustStr.

(** [Map::insert] *)
Fixpoint insert_field (k : string) (v : Value) (l : list (string * Value)) : list (string * Value) :=
  match l with
  | [] => [(k, v)]
  | (k', v') :: l' =>
      match String.compare k k' with
      | Lt => (k, v) :: l
      | Eq => (k, v) :: l'
      | Gt => (k', v') :: insert_field k v l'
      end
  end.
(** [json!({ .. })] *)
Definition obj (fields : list (string * Value)) : Value :=
  JObj (foldl (λ l '(k, v), insert_field k v l) [] fields).

(** The field of a key. *)
Fixpoint get (k : string) (l : list (string * Value)) : option Value :=
  match l with
  | [] => None
  | (k', v) :: l => if decide (k = k') then Some v else get k l
  end.

Definition num_of_nat (n : nat) : Value := JNum (Z.of_nat n).
(** A [HashMap<String, usize>] *)
Definition of_counts (m : gmap string nat) : Value :=
  obj (prod_map id num_of_nat <$> map_to_list m).

(** The values that printing and reading keep: an object lists its keys in
    strictly ascending order, an integer is one of [u64], there is no other
    number, and arrays and objects nest at most [depth] deep; the recursion limit
    of [serde_json] allows 127. *)
Definition is_u64 (n : Z) : bool := (0 <=? n)%Z && (n <? word_modulus)%Z.
Definition below (k : string) (fields : list (string * Value)) : bool :=
  match fields with [] => true | (k', _) :: _ => String.ltb k k' end.
Fixpoint ascending (fields : list (string * Value)) : bool :=
  match fields with [] => true | (k, _) :: rest => below k rest && ascending rest end.
Fixpoint fits_in (depth : nat) (v : Value) {struct v} : bool :=
  match v with
  | JNum n => is_u64 n
  | JReal _ => false
  | JArr l => match depth with 0 => false | S depth => forallb (fits_in depth) l end
  | JObj fields =>
      match depth with
      | 0 => false
      | S depth => ascending fields && forallb (λ kv, fits_in depth kv.2) fields
      end
  | _ => true
  end.
Definition fits (v : Value) : bool := fits_in 127 v.

(** ** Derived deserializers *)

(** A struct of [n] fields is read from an object, or from an array of at most
    [n] values; the reader takes the position and the key of a field. *)
Definition as_struct (n : nat) (v : Value) : option (nat → string → option Value) :=
  match v with
  | JObj fields => Some (λ _ k, get k fields)
  | JArr l => if decide (length l ≤ n) then Some (λ i _, l !! i) else None
  | _ => None
  end.
Definition required {A} (f : nat → string → option Value) (i : nat) (k : string)
    (dec : Value → option A) : option A := f i k ≫= dec.
(** [#[serde(default)]] *)
Definition defaulted {A} (d : A) (f : nat → string → option Value) (i : nat) (k : string)
    (dec : Value → option A) : option A :=
  match f i k with Some v => dec v | None => Some d end.

Definition dec_u64 (v : Value) : option Z :=
  match v with JNum n => if is_u64 n then Some n else None | _ => None end.
Definition dec_string (v : Value) : option string :=
  match v with JStr s => Some s | _ => None end.
Definition dec_bool (v : Value) : option bool :=
  match v with JBool b => Some b | _ => None end.
Definition dec_vec {A} (dec : Value → option A) (v : Value) : option (list A) :=
  match v with JArr l => mapM dec l | _ => None end.
(** [HashMap<String, usize>] *)
Definition dec_counts (v : Value) : option (gmap string Z) :=
  match v with
  | JObj fields =>
      l ← mapM (λ kv : string * Value, n ← dec_u64 kv.2; Some (kv.1, n)) fields;
      Some (list_to_map l)
  | _ => None
  end.

End JsonTree.

(** [to_string] of a value and [serde_json::from_str]. *)
Class Serde := {
  print : Value → string;
  parse : string → result Value string
}.

(** What the programs rely on: a printed value is read back, its text is UTF-8
    on one line and begins and ends with a visible character. (A string that is
    not UTF-8 is no string of Rust; for values with such strings the laws are
    about any extension of the two functions.) *)
Class SerdeLaws (J : Serde) : Prop := {
  parse_print v : JsonTree.fits v = true → parse (print v) = Ok v;
  print_one_line v : RustStr.no_char (ascii_of_N 10) (print v) = true;
  print_utf8 v t : RustStr.from_utf8_lossy (print v +:+ t) = print v +:+ RustStr.from_utf8_lossy t;
  print_visible v : ∃ a b, RustStr.first_char (print v) = Some a
    ∧ RustStr.last_char (print v) = Some b
    ∧ RustStr.visible a = true ∧ RustStr.visible b = true
}.

Module JsonFacts.
Import RustStr JsonTree.

Lemma value_ind' (P : Value → Prop) :
  P JNull → (∀ b, P (JBool b)) → (∀ n, P (JNum n)) → (∀ t, P (JReal t)) → (∀ s, P (JStr s)) →
  (∀ l, Forall P l → P (JArr l)) → (∀ fs, Forall (λ kv, P kv.2) fs → P (JObj fs)) → ∀ v, P v.
Proof.
  intros H1 H2 H3 H4 H5 H6 H7. refine (fix go v := _). destruct v as [|b|n|t|s|l|fs];
    [exact H1|apply H2|apply H3|apply H4|apply H5|apply H6|apply H7].
  - induction l as [|v l IH]; constructor; [apply go|exact IH].
  - induction fs as [|[k v] fs IH]; constructor; [apply go|exact IH].
Qed.

Lemma compare_refl s : String.compare s s = Eq.
Proof. induction s as [|a s IH]; simpl; [done|]. unfold Ascii.compare. by rewrite N.compare_refl. Qed.

(** Fields as a finite map. *)
Lemma list_to_map_insert_field k v l :
  list_to_map (insert_field k v l) = (<[k := v]> (list_to_map l) : gmap string Value).
Proof.
  induction l as [|[k' v'] l IH]; simpl; [done|].
  destruct (String.compare k k') eqn:Hc; simpl.
  - apply String.compare_eq_iff in Hc as ->. by rewrite insert_insert_eq.
  - done.
  - rewrite IH. apply insert_insert_ne. intros <-.
    by rewrite compare_refl in Hc.
Qed.

Lemma fields_foldl fs l :
  NoDup (fs.*1) → (∀ k, k ∈ fs.*1 → (list_to_map l : gmap string Value) !! k = None) →
  list_to_map (foldl (λ l '(k, v), insert_field k v l) l fs)
  = (list_to_map fs ∪ list_to_map l : gmap string Value).
Proof.
  revert l. induction fs as [|[k v] fs IH]; intros l Hnd Hl; simpl.
  { by rewrite map_empty_union. }
  apply NoDup_cons in Hnd as [Hk Hnd]. rewrite IH; [|done|].
  - rewrite list_to_map_insert_field, <-insert_union_l. symmetry. apply insert_union_r.
    by apply not_elem_of_list_to_map_1.
  - intros k' Hk'. rewrite list_to_map_insert_field, lookup_insert_ne by (intros <-; done).
    apply Hl. by right.
Qed.

Lemma of_counts_fields m :
  ∃ fs, of_counts m = JObj fs ∧ list_to_map fs = (num_of_nat <$> m : gmap string Value).
Proof.
  eexists. split; [done|]. rewrite fields_foldl.
  - simpl. rewrite (right_id_L ∅ (∪)), <-map_to_list_fmap. apply list_to_map_to_list.
  - rewrite <-map_to_list_fmap. apply NoDup_fst_map_to_list.
  - intros k _. apply lookup_empty.
Qed.

(** Inserting fields keeps a property of the values. *)
Lemma insert_field_Forall (P : string * Value → Prop) k v l :
  P (k, v) → Forall P l → Forall P (insert_field k v l).
Proof.
  intros Hv. induction 1 as [|[k' v'] l Hk Hl IH]; simpl; [by repeat constructor|].
  destruct (String.compare k k'); repeat constructor; auto.
Qed.
Lemma obj_Forall (P : string * Value → Prop) fs :
  Forall P fs → Forall P (foldl (λ l '(k, v), insert_field k v l) [] fs).
Proof.
  generalize (@nil (string * Value)) (Forall_nil_2 P). induction fs as [|[k v] fs IH]; intros l Hl HF; simpl; [done|].
  apply Forall_cons in HF as [Hv HF]. apply IH; [|done]. by apply insert_field_Forall.
Qed.

Lemma forallb_Forall' {A} (f : A → bool) l : forallb f l = true ↔ Forall (λ x, f x = true) l.
Proof. rewrite forallb_forall, Forall_forall. split; intros H x Hx; apply H; by apply list_elem_of_In. Qed.

(** [json!] makes objects with ascending keys. *)
Lemma ltb_compare k k' : String.ltb k k' = true ↔ String.compare k k' = Lt.
Proof. unfold String.ltb. by destruct (String.compare k k'). Qed.
Lemma insert_ascending k v l : ascending l = true → ascending (insert_field k v l) = true.
Proof.
  assert (∀ k k', String.compare k k' = Gt → String.ltb k' k = true) as Hgt.
  { intros a b H. apply ltb_compare. rewrite String.compare_antisym, H. done. }
  induction l as [|[k' v'] l IH]; [done|]. intros Hs. simpl in Hs |- *.
  apply andb_prop in Hs as [Hb Hl]. destruct (String.compare k k') eqn:Hc; simpl.
  - apply String.compare_eq_iff in Hc as ->. by rewrite Hb, Hl.
  - rewrite (proj2 (ltb_compare k k') Hc). by rewrite Hb, Hl.
  - rewrite IH, andb_true_r by done. destruct l as [|[k'' v''] l]; simpl; [by apply Hgt|].
    destruct (String.compare k k''); simpl; [by apply Hgt..|done].
Qed.
Lemma obj_ascending fs : ascending (foldl (λ l '(k, v), insert_field k v l) [] fs) = true.
Proof.
  assert (ascending [] = true) as H0 by done. revert H0. generalize (@nil (string * Value)).
  induction fs as [|[k v] fs IH]; intros l Hl; [done|]. simpl. by apply IH, insert_ascending.
Qed.

Lemma fits_obj n fs : Forall (λ kv, fits_in n kv.2 = true) fs → fits_in (S n) (obj fs) = true.
Proof.
  intros HF. unfold obj. cbn [fits_in]. rewrite obj_ascending. cbn [andb].
  apply forallb_Forall'. by apply obj_Forall.
Qed.

Lemma fits_mono n m v : n ≤ m → fits_in n v = true → fits_in m v = true.
Proof.
  intros Hle. revert n m Hle.
  induction v as [|b|z|t|s|l HF|fs HF] using value_ind'; intros n m Hle; try done; simpl.
  - destruct n as [|n]; [done|]. destruct m as [|m]; [lia|]. rewrite !forallb_Forall'.
    intros HL. rewrite Forall_forall in HF, HL |- *. intros v Hv. apply (HF v Hv n); [lia|by apply HL].
  - destruct n as [|n]; [done|]. destruct m as [|m]; [lia|]. intros [-> HL]%andb_prop. cbn [andb].
    rewrite !forallb_Forall' in HL |- *. rewrite Forall_forall in HF, HL |- *.
    intros v Hv. apply (HF v Hv n); [lia|by apply HL].
Qed.

(** *** An encoding of values, for the witnesses *)

Definition leaf : Type := Z + (string + bool).
Fixpoint enc (v : Value) : gen_tree leaf :=
  match v with
  | JNull => GenNode 0 []
  | JBool b => GenNode 1 [GenLeaf (inr (inr b))]
  | JNum n => GenNode 2 [GenLeaf (inl n)]
  | JReal t => GenNode 3 [GenLeaf (inr (inl t))]
  | JStr s => GenNode 4 [GenLeaf (inr (inl s))]
  | JArr l => GenNode 5 (map enc l)
  | JObj fs => GenNode 6 (map (λ kv, GenNode 7 [GenLeaf (inr (inl kv.1)); enc kv.2]) fs)
  end.
Fixpoint dec (t : gen_tree leaf) : Value :=
  match t with
  | GenNode 1 [GenLeaf (inr (inr b))] => JBool b
  | GenNode 2 [GenLeaf (inl n)] => JNum n
  | GenNode 3 [GenLeaf (inr (inl t))] => JReal t
  | GenNode 4 [GenLeaf (inr (inl s))] => JStr s
  | GenNode 5 l => JArr (map dec l)
  | GenNode 6 l => JObj (map (λ kv, match kv with
                                    | GenNode _ [GenLeaf (inr (inl k)); v] => (k, dec v)
                                    | _ => (EmptyString, JNull)
                                    end) l)
  | _ => JNull
  end.
Lemma dec_enc v : dec (enc v) = v.
Proof.
  induction v as [| | | | |l HF|fs HF] using value_ind'; try done; simpl; f_equal.
  - induction HF as [|v l Hv _ IH]; simpl; [done|]. by rewrite Hv, IH.
  - induction HF as [|[k v] fs Hv _ IH]; simpl in *; [done|]. by rewrite Hv, IH.
Qed.

#[export] Instance toy_serde : Serde := {|
  print := λ v, bits (encode (enc v));
  parse := λ s, match unbits s ≫= decode with Some t => Ok (dec t) | None => Err "syntax" end
|}.
#[export] Instance toy_serde_laws : SerdeLaws toy_serde.
Proof.
  split.
  - intros v _. cbn [parse print toy_serde]. rewrite unbits_bits. simpl.
    by rewrite decode_encode, dec_enc.
  - intros v. cbn [print toy_serde]. pose proof (bits_visible (encode (enc v))) as Hv.
    revert Hv. generalize (bits (encode (enc v))). induction s as [|a s IH]; [done|].
    unfold no_char in *. cbn [all_chars]. intros [Ha Hs]%andb_prop. rewrite (IH Hs).
    rewrite bool_decide_true; [done|]. by intros ->.
  - intros v t. apply lossy_ascii_app, bits_ascii.
  - intros v. cbn [print toy_serde]. set (p := encode (enc v)).
    assert (bits p ≠ "") as Hne by (intros E; pose proof (bits_last p); by rewrite E in *).
    destruct (all_visible_first _ (bits_visible p) Hne) as (a & Ha & Hva).
    destruct (all_visible_last _ (bits_visible p) Hne) as (b & Hb & Hvb). by exists a, b.
Qed.

End JsonFacts.
