(* ===== verification/Server.v ===== *)
(** The connection handler, [handle_client] of [server/src/server.rs].

    A session is one running [handle_client]; the state it shares with the
    other tasks is a [World]. The [select!] loop becomes one function per
    event: bytes from the socket, a read error, the read timeout, or a message
    on the session's channel. The clock reads of one event are given by an
    [Env]; the results of socket writes by the oracle of the [Stream]. *)
From S2P Require Import Prelude RustStr Acl Storage StorageFacts State StateInv.
From S2P Require Import RateLimiter Heartbeat Metrics JsonTree.
From stdpp Require Import list options.
From Stdlib Require Import Ascii.

(** [serde_json] at the types the server parses and prints; errors are their
    display text. *)
Class Json := {
  json_message : string → result State.EncryptedInputData string;
  json_batch : string → result (list State.EncryptedInputData) string;
  to_json : State.EncryptedInputData → string
}.

Module Server.
Import RustStr.

(** ** The socket *)

(** What was written, and whether the next operations succeed (those beyond
    the list do). *)
Record Stream := { written : list string; outcomes : list bool }.

Definition next_outcome (st : Stream) : bool * list bool :=
  match outcomes st with [] => (true, []) | o :: os => (o, os) end.
(** [write_all] *)
Definition write_all (text : string) (st : Stream) : bool * Stream :=
  let '(ok, os) := next_outcome st in
  (ok, {| written := if ok then written st ++ [text] else written st; outcomes := os |}).
(** [flush] *)
Definition flush (st : Stream) : bool * Stream :=
  let '(ok, os) := next_outcome st in (ok, {| written := written st; outcomes := os |}).

(** The clock reads of one event. *)
Record Env := { instant : nat → Z; utc : nat → string }.

(** ** Requests *)

Definition space : ascii := ascii_of_N 32.

(** The command and the argument text of a request. *)
Definition parse_request (buffer : string) : string * string :=
  let parts := splitn 2 space (trim (from_utf8_lossy buffer)) in
  (default "" (parts !! 0), default "" (parts !! 1)).

Definition nl : string := Metrics.nl.

(** The derived [Deserialize] of [EncryptedInputData]: members it does not have
    are ignored. *)
Definition dec_input (v : JsonTree.Value) : option State.EncryptedInputData :=
  f ← JsonTree.as_struct 5 v;
  a ← JsonTree.required f 0 "message_id" JsonTree.dec_string;
  b ← JsonTree.required f 1 "receiver_client_id" JsonTree.dec_string;
  c ← JsonTree.required f 2 "enc_session_key" JsonTree.dec_string;
  d ← JsonTree.required f 3 "nonce" JsonTree.dec_string;
  e ← JsonTree.required f 4 "ciphertext" JsonTree.dec_string;
  Some {| State.message_id := a; State.receiver_client_id := b; State.enc_session_key := c;
          State.nonce := d; State.ciphertext := e |}.
(** Its derived [Serialize]: the members of the object it prints. *)
Definition enc_input (m : State.EncryptedInputData) : JsonTree.Value :=
  JsonTree.obj [("message_id", JStr (State.message_id m));
                ("receiver_client_id", JStr (State.receiver_client_id m));
                ("enc_session_key", JStr (State.enc_session_key m));
                ("nonce", JStr (State.nonce m)); ("ciphertext", JStr (State.ciphertext m))].

Section Handler.
Context {S : Type} `{A : StorageApi S} `{J : Json}.

(** The state the connection tasks share. *)
Record World := {
  broker : State.ServerState S;
  runtime : State.Runtime;
  monitor : Heartbeat.HeartbeatMonitor;
  metrics : Metrics.Metrics;
  limiter : RateLimiter.RateLimiter
}.

Definition with_broker f (w : World) : World :=
  {| broker := f (broker w); runtime := runtime w; monitor := monitor w; metrics := metrics w;
     limiter := limiter w |}.
Definition with_runtime f (w : World) : World :=
  {| broker := broker w; runtime := f (runtime w); monitor := monitor w; metrics := metrics w;
     limiter := limiter w |}.
Definition with_monitor f (w : World) : World :=
  {| broker := broker w; runtime := runtime w; monitor := f (monitor w); metrics := metrics w;
     limiter := limiter w |}.
Definition with_metrics f (w : World) : World :=
  {| broker := broker w; runtime := runtime w; monitor := monitor w; metrics := f (metrics w);
     limiter := limiter w |}.
Definition with_limiter f (w : World) : World :=
  {| broker := broker w; runtime := runtime w; monitor := monitor w; metrics := metrics w;
     limiter := f (limiter w) |}.
Definition with_core (c : State.ServerState S * State.Runtime) (w : World) : World :=
  {| broker := c.1; runtime := c.2; monitor := monitor w; metrics := metrics w;
     limiter := limiter w |}.
Definition core (w : World) : State.ServerState S * State.Runtime := (broker w, runtime w).

(** The locals of a running [handle_client]; [chan] is its channel. *)
Record Session := {
  client_id : string;
  ip : string;
  role : Acl.Role;
  chan : nat;
  buffer : string;
  stream : Stream;
  active : bool
}.
Definition with_buffer b (s : Session) : Session :=
  {| client_id := client_id s; ip := ip s; role := role s; chan := chan s; buffer := b;
     stream := stream s; active := active s |}.
Definition with_stream st (s : Session) : Session :=
  {| client_id := client_id s; ip := ip s; role := role s; chan := chan s; buffer := buffer s;
     stream := st; active := active s |}.
Definition stop (s : Session) : Session :=
  {| client_id := client_id s; ip := ip s; role := role s; chan := chan s; buffer := buffer s;
     stream := stream s; active := false |}.

(** ** Commands *)

(** An arm of [match *command] that only writes a response and ignores write
    errors: the new state and the response, if it sends one. *)
Definition Arm : Type := World * option string.

(** ["declare_queue"] *)
Definition cmd_declare_queue (s : Session) (args : string) (w : World) : Arm :=
  if negb (is_empty args) then
    match Acl.check_resource (role s) (client_id s) "queue" args with
    | Acl.Denied reason => (w, Some ("Access denied: " +:+ reason +:+ nl))
    | Acl.Allowed => (with_broker (State.declare_queue args) w, Some ("Queue declared" +:+ nl))
    end
  else (w, Some ("Missing queue name" +:+ nl)).

(** ["declare_exchange"] *)
Definition cmd_declare_exchange (args : string) (w : World) : Arm :=
  if negb (is_empty args)
  then (with_broker (State.declare_exchange args) w, Some ("Exchange declared" +:+ nl))
  else (w, Some ("Missing exchange name" +:+ nl)).

(** ["bind"] *)
Definition cmd_bind (s : Session) (args_str : string) (w : World) : Arm :=
  match splitn 3 space args_str with
  | q :: e :: k :: _ =>
      match Acl.check_resource (role s) (client_id s) "queue" q with
      | Acl.Denied reason => (w, Some ("Access denied: " +:+ reason +:+ nl))
      | Acl.Allowed => (with_broker (State.bind_queue q e k) w, Some ("Queue bound" +:+ nl))
      end
  | _ => (w, Some ("Missing parameters" +:+ nl))
  end.

(** One call of [state.publish] by a client, with the counter of a success. *)
Definition publish_one (s : Session) (env : Env) (i : nat) (e k : string)
    (message : State.EncryptedInputData) (w : World) : result unit string * World :=
  let '(r, c) := State.publish e k message (client_id s) (instant env i) (utc env i)
                   (broker w) (runtime w) in
  let w1 := with_core c w in
  (r, if is_ok r then with_metrics (Metrics.bump Metrics.Published) w1 else w1).

(** ["publish"] *)
Definition cmd_publish (s : Session) (env : Env) (args_str : string) (w : World) : Arm :=
  match splitn 3 space args_str with
  | e :: k :: message_str :: _ =>
      match json_message message_str with
      | Ok message =>
          let '(r, w1) := publish_one s env 5 e k message w in
          (w1, Some (match r with
                     | Ok _ => "ACK " +:+ State.message_id message +:+ nl
                     | Err err => "Error: " +:+ err +:+ nl
                     end))
      | Err err => (w, Some ("Invalid message format: " +:+ err +:+ nl))
      end
  | _ => (w, Some ("Missing parameters" +:+ nl))
  end.

(** The loop of ["publish_batch"]: the lines of its response. *)
Fixpoint publish_loop (s : Session) (env : Env) (i : nat) (e k : string)
    (messages : list State.EncryptedInputData) (w : World) : World * list string :=
  match messages with
  | [] => (w, [])
  | message :: rest =>
      let '(r, w1) := publish_one s env i e k message w in
      let line := match r with
                  | Ok _ => "ACK " +:+ State.message_id message
                  | Err err => "Error: " +:+ err +:+ " for message " +:+ State.message_id message
                  end in
      let '(w2, lines) := publish_loop s env (1 + i) e k rest w1 in
      (w2, line :: lines)
  end.

(** ["publish_batch"] *)
Definition cmd_publish_batch (s : Session) (env : Env) (args_str : string) (w : World) : Arm :=
  match splitn 3 space args_str with
  | e :: k :: message_str :: _ =>
      match json_batch message_str with
      | Ok messages =>
          let '(w1, acks) := publish_loop s env 5 e k messages w in
          (w1, Some (join nl acks +:+ nl))
      | Err err => (w, Some ("Invalid batch format: " +:+ err +:+ nl))
      end
  | _ => (w, Some ("Missing parameters" +:+ nl))
  end.

(** ["consume"] *)
Definition cmd_consume (s : Session) (args : string) (w : World) : Arm :=
  if negb (is_empty args)
  then (with_core (State.register_consumer args (chan s) (broker w) (runtime w)) w, None)
  else (w, Some ("Missing queue name" +:+ nl)).

(** ["resend"] *)
Definition cmd_resend (s : Session) (args : string) (w : World) : Arm :=
  if negb (is_empty args) then
    let '(r, st) := api_get_client_id_for_message args (State.storage (broker w)) in
    (with_broker (State.with_storage (λ _, st)) w,
     Some (match r with
           | Ok (Some target) =>
               if bool_decide (target = client_id s) then "Resend requested" +:+ nl
               else "Unauthorized resend request" +:+ nl
           | Ok None => "Message ID not found" +:+ nl
           | Err _ => "Error retrieving message metadata" +:+ nl
           end))
  else (w, Some ("Missing message ID" +:+ nl)).

(** ["register_public_key"] *)
Definition cmd_register_public_key (s : Session) (args : string) (w : World) : Arm :=
  if negb (is_empty args) then
    let '(r, b) := State.save_public_key (client_id s) args (broker w) in
    (with_broker (λ _, b) w,
     Some (match r with
           | Ok _ => "Public key registered" +:+ nl
           | Err err => "Error: " +:+ err +:+ nl
           end))
  else (w, Some ("Missing public key" +:+ nl)).

(** ["get_public_key"] *)
Definition cmd_get_public_key (args : string) (w : World) : Arm :=
  if negb (is_empty args) then
    let '(r, b) := State.get_public_key args (broker w) in
    (with_broker (λ _, b) w,
     Some (match r with
           | Ok (Some key) => "Public key: " +:+ key +:+ nl
           | Ok None => "Public key not found" +:+ nl
           | Err err => "Error: " +:+ err +:+ nl
           end))
  else (w, Some ("Missing client ID" +:+ nl)).

(** ["heartbeat"] *)
Definition cmd_heartbeat (s : Session) (env : Env) (w : World) : Arm :=
  (with_monitor (Heartbeat.record_heartbeat (client_id s) (instant env 5)) w,
   Some ("Heartbeat received" +:+ nl)).

(** The arms other than ["ack"]. *)
Definition dispatch (s : Session) (env : Env) (command args : string) (w : World) : Arm :=
  if decide (command = "declare_queue") then cmd_declare_queue s args w
  else if decide (command = "declare_exchange") then cmd_declare_exchange args w
  else if decide (command = "bind") then cmd_bind s args w
  else if decide (command = "publish") then cmd_publish s env args w
  else if decide (command = "publish_batch") then cmd_publish_batch s env args w
  else if decide (command = "consume") then cmd_consume s args w
  else if decide (command = "resend") then cmd_resend s args w
  else if decide (command = "register_public_key") then cmd_register_public_key s args w
  else if decide (command = "get_public_key") then cmd_get_public_key args w
  else if decide (command = "heartbeat") then cmd_heartbeat s env w
  else (w, Some ("Unknown command" +:+ nl)).

(** ** The end of a session *)

(** [return]: the receiver of the channel is dropped. *)
Definition return_ (s : Session) (w : World) : Session * World :=
  (stop s, with_runtime (StateInv.close_chan (chan s)) w).
(** [state.decrement_client_count(); return] *)
Definition hang_up (s : Session) (w : World) : Session * World :=
  return_ s (with_broker State.decrement_client_count w).
(** The same with [heartbeat_monitor.remove_client]. *)
Definition disconnect (s : Session) (w : World) : Session * World :=
  return_ s (with_monitor (Heartbeat.remove_client (client_id s))
    (with_broker State.decrement_client_count w)).

(** ["ack"]: a response that cannot be written or flushed ends the session. *)
Definition cmd_ack (s : Session) (env : Env) (args : string) (w : World) : Session * World :=
  if negb (is_empty args) then
    let w1 := with_metrics (Metrics.bump Metrics.Acked)
      (with_broker (State.acknowledge args (instant env 5) (utc env 5)) w) in
    let '(ok, st1) := write_all ("ACK confirmed " +:+ args +:+ nl) (stream s) in
    if negb ok then hang_up (with_stream st1 s) w1
    else
      let '(ok', st2) := flush st1 in
      if negb ok' then hang_up (with_stream st2 s) w1 else (with_stream st2 s, w1)
  else
    let '(ok, st1) := write_all ("Missing message ID" +:+ nl) (stream s) in
    if negb ok then hang_up (with_stream st1 s) w else (with_stream st1 s, w).

Definition reply (text : option string) (s : Session) : Session :=
  match text with Some t => with_stream (write_all t (stream s)).2 s | None => s end.

(** ** Events *)

(** A request was read: the buffer holds it. *)
Definition handle_request (env : Env) (s : Session) (w : World) : Session * World :=
  let w1 := with_monitor (Heartbeat.record_heartbeat (client_id s) (instant env 0)) w in
  let '(command, args) := parse_request (buffer s) in
  match Acl.check_command (role s) command with
  | Acl.Denied reason =>
      (with_buffer "" (reply (Some ("Access denied: " +:+ reason +:+ " (role="
                                    +:+ Acl.as_str (role s) +:+ ")" +:+ nl)) s),
       with_metrics (Metrics.bump Metrics.RateLimited) w1)
  | Acl.Allowed =>
      let is_publish := bool_decide (command = "publish" ∨ command = "publish_batch") in
      let '(verdict, rl) := RateLimiter.check (client_id s) is_publish
                              (λ i, instant env (1 + i)) (limiter w1) in
      let w2 := with_limiter (λ _, rl) w1 in
      if negb (RateLimiter.is_allowed verdict) then
        (with_buffer "" (reply (Some ("Rate limited" +:+ nl)) s),
         with_metrics (Metrics.bump Metrics.RateLimited) w2)
      else if decide (command = "ack") then
        let '(s1, w3) := cmd_ack s env args w2 in (with_buffer "" s1, w3)
      else
        let '(w3, text) := dispatch s env command args w2 in
        (with_buffer "" (reply text s), w3)
  end.

Definition MAX_RETRIES : nat := 3.

(** The [while retry_count < MAX_RETRIES] loop, by the attempts left: the
    broker state, the socket, and whether the session hangs up. *)
Fixpoint deliver_attempts (left : nat) (id text : string) (env : Env)
    (b : State.ServerState S) (st : Stream) : State.ServerState S * Stream * bool :=
  match left with
  | O => (b, st, false)
  | Datatypes.S left' =>
      let '(ok, st1) := write_all text st in
      if ok then
        let '(ok', st2) := flush st1 in
        if ok' then (State.mark_delivered id (instant env left) (utc env left) b, st2, false)
        else deliver_attempts left' id text env b st2
      else if decide (left' = 0) then (b, st1, true)
      else deliver_attempts left' id text env b st1
  end.

(** [rx.recv()] yielded a message. *)
Definition handle_delivery (env : Env) (e : State.Entry) (s : Session) (w : World)
    : Session * World :=
  let '(id, message) := e in
  match State.message_status (broker w) !! id with
  | None => (s, w)
  | Some _ =>
      if negb (State.deliverable (broker w) id) then (s, w)
      else
        let text := "Message: " +:+ id +:+ " " +:+ to_json message +:+ nl in
        let '(b, st, lost) := deliver_attempts MAX_RETRIES id text env (broker w) (stream s) in
        let s1 := with_stream st s in
        let w1 := with_broker (λ _, b) w in
        if lost then hang_up s1 w1
        else (s1, with_broker (State.mark_delivered id (instant env 0) (utc env 0)) w1)
  end.

Inductive Event :=
| Read (chunk : string)     (* [read_buf] appended these bytes *)
| ReadError                 (* [read_buf] failed *)
| Timeout                   (* 600 seconds without input *)
| Recv                      (* the channel has a message *)
| ChannelClosed.            (* the [else] branch *)

(** One turn of the [select!] loop. *)
Definition on_event (env : Env) (ev : Event) (s : Session) (w : World) : Session * World :=
  if negb (active s) then (s, w)
  else match ev with
  | Read chunk =>
      if is_empty chunk then disconnect s w
      else handle_request env (with_buffer (buffer s +:+ chunk) s) w
  | ReadError => disconnect s w
  | Timeout => (s, w)
  | Recv =>
      match State.chans (runtime w) !! chan s with
      | Some {| State.open := _; State.buf := e :: _ |} =>
          handle_delivery env e s (with_runtime (StateInv.recv_chan (chan s)) w)
      | _ => (s, w)
      end
  | ChannelClosed => disconnect s w
  end.

(** The part of [handle_client] before the loop; [ch] is the new channel. *)
Definition start (acl : Acl.AclManager) (cn addr : string) (ch : nat) (st : Stream) (now : Z)
    (w : World) : Session * World :=
  let s := {| client_id := cn; ip := addr; role := Acl.resolve_role acl cn; chan := ch;
              buffer := ""; stream := st; active := true |} in
  if decide (role s = Acl.Unknown) then
    (stop (reply (Some ("Access denied: unrecognized client identity" +:+ nl)) s), w)
  else
    let '(verdict, rl) := RateLimiter.check_connection cn addr (limiter w) in
    let w1 := with_limiter (λ _, rl) w in
    if negb (RateLimiter.is_allowed verdict) then
      (stop s, with_metrics (Metrics.bump Metrics.RejectedConnLimit) w1)
    else
      (s, with_runtime (StateInv.open_chan ch)
            (with_monitor (Heartbeat.record_heartbeat cn now)
              (with_broker State.increment_client_count
                (with_metrics (Metrics.bump Metrics.Connections) w1)))).

End Handler.
Arguments World S : clear implicits.

End Server.
