(* ===== verification/ServerFacts.v ===== *)
(** What a session can do to the shared state: every event of [Server.v] acts
    on the broker through the operations of [StateInv.v] only, and through
    those its role permits. *)
From S2P Require Import Prelude RustStr Acl Storage StorageFacts State StateFacts.
From S2P Require Import StateInv RateLimiter Heartbeat Metrics Server.
From stdpp Require Import list options.

Module ServerFacts.
Import RustStr Server StateInv.

Section Handler.
Context {S : Type} `{A : StorageApi S} `{J : Json}.
Implicit Types (w : World S) (s : Session) (env : Env).

(** The operations the access-control list grants a session. *)
Definition may (s : Session) (command : string) : Prop :=
  Acl.check_command (role s) command = Acl.Allowed.
Definition owns (s : Session) (q : string) : Prop :=
  Acl.check_resource (role s) (client_id s) "queue" q = Acl.Allowed.
Definition permitted (s : Session) (op : Op) : Prop :=
  match op with
  | DeclareQueue q => may s "declare_queue" ∧ owns s q
  | DeclareExchange _ => may s "declare_exchange"
  | Bind q _ _ => may s "bind" ∧ owns s q
  | Publish _ _ _ client _ _ =>
      client = client_id s ∧ (may s "publish" ∨ may s "publish_batch")
  | Register _ ch => ch = chan s ∧ may s "consume"
  | Acknowledge _ _ _ => may s "ack"
  | SaveKey client _ => client = client_id s ∧ may s "register_public_key"
  | GetKey _ => may s "get_public_key"
  | GetOwner _ => may s "resend"
  | RecvChan ch | CloseChan ch => ch = chan s
  | MarkDelivered _ _ _ | Decrement => True
  | _ => False
  end.

(** Operations that are not the start or the end of a connection. *)
Definition keeps_count (op : Op) : Prop := op ≠ Increment ∧ op ≠ Decrement.
Definition harmless (s : Session) (op : Op) : Prop := permitted s op ∧ keeps_count op.

(** The broker state and the channels change by operations of a given kind. *)
Definition by_ops (P : Op → Prop) w w' : Prop :=
  ∃ ops, core w' = run ops (core w) ∧ Forall P ops.

#[export] Instance by_ops_preorder P : PreOrder (by_ops P).
Proof.
  split.
  - intros w. by exists [].
  - intros w1 w2 w3 (l1 & H1 & F1) (l2 & H2 & F2). exists (l1 ++ l2). split.
    + unfold run in *. by rewrite foldl_app, <-H1.
    + by apply Forall_app.
Qed.

Lemma by_ops_same P w w' : core w' = core w → by_ops P w w'.
Proof. intros H. exists []. by rewrite H. Qed.
Lemma by_ops_one (P : Op → Prop) op w w' : P op → core w' = exec op (core w) → by_ops P w w'.
Proof. intros HP H. exists [op]. rewrite H. split; [done|by constructor]. Qed.

Lemma by_ops_impl (P Q : Op → Prop) w w' : (∀ op, P op → Q op) → by_ops P w w' → by_ops Q w w'.
Proof. intros HPQ (ops & H & F). exists ops. split; [done|]. by eapply Forall_impl. Qed.

(** ** Commands *)

Lemma publish_one_ops (P : Op → Prop) s env i e k m w r w' :
  (∀ e k m now u, P (Publish e k m (client_id s) now u)) →
  publish_one s env i e k m w = (r, w') → by_ops P w w'.
Proof.
  intros HP H. unfold publish_one in H.
  eapply by_ops_one; [apply (HP e k m (instant env i) (utc env i))|].
  simpl. destruct (State.publish _ _ _ _ _ _ _ _) as [r0 [b rt]]; simplify_eq. by destruct (is_ok r).
Qed.

Lemma publish_loop_ops (P : Op → Prop) s env i e k ms w w' lines :
  (∀ e k m now u, P (Publish e k m (client_id s) now u)) →
  publish_loop s env i e k ms w = (w', lines) → by_ops P w w'.
Proof.
  intros HP. revert i w lines. induction ms as [|m ms IH]; intros i w lines H; simpl in H.
  { by simplify_eq. }
  destruct (publish_one s env i e k m w) as [r w1] eqn:H1.
  destruct (publish_loop s env _ e k ms w1) as [w2 lines'] eqn:H2. simplify_eq.
  etrans; [by eapply publish_one_ops|by eapply IH].
Qed.

Lemma dispatch_ops s env command args w w' text :
  may s command → dispatch s env command args w = (w', text) → by_ops (harmless s) w w'.
Proof.
  intros Hm. unfold dispatch. repeat case_decide; subst.
  - unfold cmd_declare_queue. intros. destruct (negb _); [|simplify_eq; done].
    destruct (Acl.check_resource _ _ _ _) eqn:Hr; simplify_eq; [|done].
    by apply (by_ops_one _ (DeclareQueue args)).
  - unfold cmd_declare_exchange. intros. destruct (negb _); simplify_eq; [|done].
    by apply (by_ops_one _ (DeclareExchange args)).
  - unfold cmd_bind. intros. destruct (splitn 3 space args) as [|q [|e [|k ?]]]; simplify_eq; try done.
    destruct (Acl.check_resource _ _ _ _) eqn:Hr; simplify_eq; [|done].
    by apply (by_ops_one _ (Bind q e k)).
  - unfold cmd_publish. intros. destruct (splitn 3 space args) as [|e [|k [|m ?]]]; simplify_eq; try done.
    destruct (json_message m) as [msg|]; [|by simplify_eq].
    destruct (publish_one s env 5 e k msg w) as [r w1] eqn:Hp; simplify_eq.
    eapply publish_one_ops; [|done]. by repeat split; auto.
  - unfold cmd_publish_batch. intros.
    destruct (splitn 3 space args) as [|e [|k [|m ?]]]; simplify_eq; try done.
    destruct (json_batch m) as [msgs|]; [|by simplify_eq].
    destruct (publish_loop s env 5 e k msgs w) as [w1 lines] eqn:Hp; simplify_eq.
    eapply publish_loop_ops; [|done]. by repeat split; auto.
  - unfold cmd_consume. intros. destruct (negb _); simplify_eq; [|done].
    eapply (by_ops_one _ (Register args (chan s))); [done|]. simpl. unfold core. simpl.
    by destruct (State.register_consumer _ _ _ _).
  - unfold cmd_resend. intros. destruct (negb _); [|simplify_eq; done].
    apply (by_ops_one _ (GetOwner args)); [done|]. simpl.
    destruct (api_get_client_id_for_message _ _) as [r st] eqn:Hr; simplify_eq.
    unfold core. simpl. f_equal. unfold State.with_storage. by rewrite Hr.
  - unfold cmd_register_public_key. intros. destruct (negb _); [|simplify_eq; done].
    apply (by_ops_one _ (SaveKey (client_id s) args)); [done|]. simpl.
    by destruct (State.save_public_key _ _ _); simplify_eq.
  - unfold cmd_get_public_key. intros. destruct (negb _); [|simplify_eq; done].
    apply (by_ops_one _ (GetKey args)); [done|]. simpl.
    by destruct (State.get_public_key _ _); simplify_eq.
  - unfold cmd_heartbeat. intros. simplify_eq. by apply by_ops_same.
  - intros. by simplify_eq.
Qed.

(** ** The end of a session *)

Lemma core_with_monitor f w : core (with_monitor f w) = core w.
Proof. done. Qed.

Lemma return_ops s w : by_ops (permitted s) w (return_ s w).2.
Proof. by apply (by_ops_one _ (CloseChan (chan s))). Qed.
Lemma hang_up_ops s w : by_ops (permitted s) w (hang_up s w).2.
Proof. etrans; [|apply return_ops]. by apply (by_ops_one _ Decrement). Qed.
Lemma disconnect_ops s w : by_ops (permitted s) w (disconnect s w).2.
Proof. etrans; [|apply return_ops]. by apply (by_ops_one _ Decrement). Qed.

(** The identity of a session does not change. *)
Definition same_session s s' : Prop :=
  client_id s' = client_id s ∧ ip s' = ip s ∧ role s' = role s ∧ chan s' = chan s.

Lemma permitted_same s s' : same_session s s' → permitted s' = permitted s.
Proof.
  intros (H1 & _ & H2 & H3). unfold permitted, may, owns. by rewrite H1, H2, H3.
Qed.

Lemma cmd_ack_ops s env args w s' w' :
  may s "ack" → cmd_ack s env args w = (s', w') → by_ops (permitted s) w w' ∧ same_session s s'.
Proof.
  intros Hm. unfold cmd_ack. intros H.
  assert (∀ st w0, by_ops (permitted s) w0 (hang_up (with_stream st s) w0).2) as Hh.
  { intros st w0. exact (hang_up_ops (with_stream st s) w0). }
  assert (by_ops (permitted s) w (with_metrics (Metrics.bump Metrics.Acked)
    (with_broker (State.acknowledge args (instant env 5) (utc env 5)) w))) as Hack.
  { by apply (by_ops_one _ (Acknowledge args (instant env 5) (utc env 5))). }
  destruct (negb (is_empty args)).
  - destruct (write_all _ (stream s)) as [[] st1]; cbn [negb] in H.
    + destruct (flush st1) as [[] st2]; cbn [negb] in H; [by simplify_eq|].
      injection H as <- <-. split; [|done]. etrans; [exact Hack|apply (Hh st2)].
    + injection H as <- <-. split; [|done]. etrans; [exact Hack|apply (Hh st1)].
  - destruct (write_all _ (stream s)) as [[] st1]; cbn [negb] in H; [by simplify_eq|].
    injection H as <- <-. split; [apply (Hh st1)|done].
Qed.

Lemma same_reply t s : same_session s (reply t s).
Proof. by destruct t. Qed.

Lemma handle_request_ops env s w s' w' :
  handle_request env s w = (s', w') → by_ops (permitted s) w w' ∧ same_session s s'.
Proof.
  unfold handle_request. destruct (parse_request (buffer s)) as [command args]. intros H.
  destruct (Acl.check_command (role s) command) eqn:Hc;
    [|simplify_eq; split; [by apply by_ops_same|done]].
  destruct (RateLimiter.check _ _ _ _) as [v rl].
  destruct (negb (RateLimiter.is_allowed v));
    [simplify_eq; split; [by apply by_ops_same|done]|].
  case_decide; subst.
  - destruct (cmd_ack s env args _) as [s1 w3] eqn:Ha. simplify_eq.
    apply cmd_ack_ops in Ha as [H1 H2]; [|done]. split; [|done].
    etrans; [|exact H1]. by apply by_ops_same.
  - destruct (dispatch s env command args _) as [w3 text] eqn:Hd. simplify_eq.
    apply dispatch_ops in Hd; [|done]. split; [|apply (same_reply text)].
    etrans; [by apply by_ops_same|]. eapply by_ops_impl; [|exact Hd]. by intros op [].
Qed.

(** ** Delivery *)

Lemma deliver_attempts_ops left id text env b st b' st' lost :
  deliver_attempts left id text env b st = (b', st', lost) →
  b' = b ∨ ∃ now u, b' = State.mark_delivered id now u b.
Proof.
  revert st. induction left as [|left IH]; intros st H; simpl in H; [simplify_eq; by left|].
  destruct (write_all text st) as [[] st1].
  - destruct (flush st1) as [[] st2]; [|by eapply IH]. simplify_eq. right. eauto.
  - case_decide; [simplify_eq; by left|by eapply IH].
Qed.

Lemma handle_delivery_ops env e s w s' w' :
  handle_delivery env e s w = (s', w') → by_ops (permitted s) w w' ∧ same_session s s'.
Proof.
  unfold handle_delivery. destruct e as [id m]. intros H.
  destruct (State.message_status (broker w) !! id); [|by simplify_eq].
  destruct (negb (State.deliverable (broker w) id)); [by simplify_eq|].
  destruct (deliver_attempts _ _ _ _ _ _) as [[b st] lost] eqn:Hd.
  assert (by_ops (permitted s) w (with_broker (λ _, b) w)) as Hb.
  { apply deliver_attempts_ops in Hd as [->|(now & u & ->)]; [by apply by_ops_same|].
    by apply (by_ops_one _ (MarkDelivered id now u)). }
  destruct lost.
  - injection H as <- <-. split; [|done]. etrans; [exact Hb|]. exact (hang_up_ops (with_stream st s) _).
  - simplify_eq. split; [|done]. etrans; [exact Hb|].
    by apply (by_ops_one _ (MarkDelivered id (instant env 0) (utc env 0))).
Qed.

(** ** Events *)

Lemma on_event_ops env ev s w s' w' :
  on_event env ev s w = (s', w') → by_ops (permitted s) w w' ∧ same_session s s'.
Proof.
  unfold on_event. intros H. destruct (negb (active s)); [by simplify_eq|].
  assert (by_ops (permitted s) w (disconnect s w).2 ∧ same_session s (disconnect s w).1) as Hd.
  { split; [apply disconnect_ops|done]. }
  destruct ev as [chunk| | | |].
  - destruct (is_empty chunk); [by rewrite H in Hd|].
    exact (handle_request_ops env (with_buffer (buffer s +:+ chunk) s) w s' w' H).
  - by rewrite H in Hd.
  - by simplify_eq.
  - destruct (State.chans (runtime w) !! chan s) as [[o [|e l]]|]; [by simplify_eq| |by simplify_eq].
    apply handle_delivery_ops in H as [H1 H2]. split; [|done]. etrans; [|exact H1].
    by apply (by_ops_one _ (RecvChan (chan s))).
  - by rewrite H in Hd.
Qed.

Lemma start_ops acl cn addr ch st now w :
  by_ops (λ op, op = Increment ∨ op = OpenChan ch) w (start acl cn addr ch st now w).2.
Proof.
  unfold start. case_decide; [done|]. destruct (RateLimiter.check_connection _ _ _) as [v rl].
  destruct (negb _); [by apply by_ops_same|].
  exists [Increment; OpenChan ch]. split; [done|].
  apply Forall_cons. split; [by left|]. apply Forall_singleton. by right.
Qed.

(** ** The client count *)

Lemma exec_count op c :
  wf c.1 → keeps_count op → State.connected_clients (exec op c).1 = State.connected_clients c.1.
Proof.
  destruct c as [b rt]; simpl. intros Hwf [Hi Hd].
  destruct op as [| | |e k msg client now u| |q now u|id now u|id now u| | | | | | | | | | | |];
    simpl; try done.
  - unfold State.bind_queue. by case_decide.
  - pose proof (publish_cases e k msg client now u b rt (targets_NoDup e k b Hwf)) as H.
    destruct (State.publish e k msg client now u b rt) as [r [b' rt']]. simpl in *.
    destruct (State.message_status b !! State.message_id msg); [by destruct H as (_ & -> & _)|].
    destruct H as [_ H]. destruct (_ && _); [|by destruct H as (_ & -> & _)].
    destruct H as [_ H]. apply H.
  - by rewrite register_consumer_state.
  - unfold State.consume. by repeat case_match.
  - unfold State.mark_delivered. by repeat case_match.
  - unfold State.acknowledge. case_match; [|done].
    by destruct (StateFacts.purge_frame id (State.with_storage (api_update_acknowledged_time_async id u)
      (State.with_message_status (alter (State.acknowledged now) id) b))) as (_&_&_&_&_&->&_).
  - unfold State.cleanup_old_messages.
    apply (foldl_preserves (λ b', State.connected_clients b' = State.connected_clients b)); [|done].
    intros b' id H. by destruct (StateFacts.purge_frame id b') as (_&_&_&_&_&->&_).
  - unfold State.cleanup_consumers_for_queue. by case_match.
  - unfold State.save_public_key. by case_match.
  - unfold State.get_public_key. by case_match.
Qed.

Lemma by_ops_count (P : Op → Prop) w w' :
  (∀ op, P op → keeps_count op) → wf (broker w) → by_ops P w w' →
  State.connected_clients (broker w') = State.connected_clients (broker w).
Proof.
  intros HP Hwf (ops & Hrun & Hops).
  change (broker w') with (core w').1. rewrite Hrun. clear Hrun. change (broker w) with (core w).1 in *.
  revert Hwf. generalize (core w). induction ops as [|op ops IH]; intros c Hwf; [done|].
  apply Forall_cons in Hops as [Hop Hops]. unfold run in *. cbn [foldl].
  rewrite IH; [|done|by apply wf_exec]. by apply exec_count; auto.
Qed.

(** The client count moves exactly when a session ends. *)
Definition count_after (s s' : Session) (n : Z) : Z :=
  if active s && negb (active s') then fetch_sub n 1 else n.

Lemma cmd_ack_count s env args w s' w' :
  active s = true → wf (broker w) → cmd_ack s env args w = (s', w') →
  State.connected_clients (broker w') = count_after s s' (State.connected_clients (broker w)).
Proof.
  intros Ha Hwf. unfold cmd_ack, count_after.
  pose proof (exec_count (Acknowledge args (instant env 5) (utc env 5)) (core w) Hwf
    ltac:(done)) as Hc. simpl in Hc.
  destruct (negb (is_empty args)); destruct (write_all _ (stream s)) as [[] st1]; cbn [negb].
  - destruct (flush st1) as [[] st2]; cbn [negb]; intros H.
    + injection H as <- <-. simpl. by rewrite Ha.
    + injection H as <- <-. simpl. by rewrite Ha, Hc.
  - intros H. injection H as <- <-. simpl. by rewrite Ha, Hc.
  - intros H. injection H as <- <-. simpl. by rewrite Ha.
  - intros H. injection H as <- <-. simpl. by rewrite Ha.
Qed.

Lemma handle_request_count env s w s' w' :
  active s = true → wf (broker w) → handle_request env s w = (s', w') →
  State.connected_clients (broker w') = count_after s s' (State.connected_clients (broker w)).
Proof.
  intros Ha Hwf. unfold handle_request. destruct (parse_request (buffer s)) as [command args].
  assert (∀ t, active (reply t s) = active s) as Hrep by (by intros []).
  destruct (Acl.check_command (role s) command) eqn:Hc; intros H.
  2:{ injection H as <- <-. unfold count_after. simpl. by rewrite Ha. }
  destruct (RateLimiter.check _ _ _ _) as [v rl].
  destruct (negb (RateLimiter.is_allowed v)).
  { injection H as <- <-. unfold count_after. simpl. by rewrite Ha. }
  case_decide; subst.
  - destruct (cmd_ack s env args _) as [s1 w3] eqn:He. injection H as <- <-.
    by apply cmd_ack_count in He.
  - destruct (dispatch s env command args _) as [w3 text] eqn:Hd. injection H as <- <-.
    unfold count_after. change (active (with_buffer "" (reply text s))) with (active (reply text s)).
    rewrite Hrep, Ha. simpl.
    apply dispatch_ops in Hd; [|done]. apply by_ops_count in Hd; [|by intros op []|done].
    by rewrite Hd.
Qed.

Lemma mark_delivered_count id now u (b : State.ServerState S) :
  State.connected_clients (State.mark_delivered id now u b) = State.connected_clients b.
Proof. unfold State.mark_delivered. by repeat case_match. Qed.

Lemma handle_delivery_count env e s w s' w' :
  active s = true → handle_delivery env e s w = (s', w') →
  State.connected_clients (broker w') = count_after s s' (State.connected_clients (broker w)).
Proof.
  intros Ha. unfold handle_delivery, count_after. destruct e as [id m].
  destruct (State.message_status (broker w) !! id); intros H.
  2:{ injection H as <- <-. by rewrite Ha. }
  destruct (negb (State.deliverable (broker w) id)).
  { injection H as <- <-. by rewrite Ha. }
  destruct (deliver_attempts _ _ _ _ _ _) as [[b st] lost] eqn:Hd.
  assert (State.connected_clients b = State.connected_clients (broker w)) as Hb.
  { apply deliver_attempts_ops in Hd as [->|(now & u & ->)]; [done|]. apply mark_delivered_count. }
  destruct lost; injection H as <- <-; simpl; rewrite Ha; simpl;
    rewrite ?mark_delivered_count; by rewrite Hb.
Qed.

Lemma on_event_count env ev s w s' w' :
  wf (broker w) → on_event env ev s w = (s', w') →
  State.connected_clients (broker w') = count_after s s' (State.connected_clients (broker w)).
Proof.
  intros Hwf. unfold on_event. destruct (active s) eqn:Ha; simpl; intros H.
  2:{ simplify_eq. unfold count_after. by rewrite Ha. }
  assert (State.connected_clients (broker (disconnect s w).2)
          = count_after s (disconnect s w).1 (State.connected_clients (broker w))) as Hd.
  { unfold count_after. simpl. by rewrite Ha. }
  destruct ev as [chunk| | | |].
  - destruct (is_empty chunk); [by rewrite H in Hd|].
    by apply (handle_request_count env (with_buffer (buffer s +:+ chunk) s)) in H.
  - by rewrite H in Hd.
  - simplify_eq. unfold count_after. by rewrite Ha.
  - destruct (State.chans (runtime w) !! chan s) as [[o [|e l]]|].
    + simplify_eq. unfold count_after. by rewrite Ha.
    + by apply handle_delivery_count in H.
    + simplify_eq. unfold count_after. by rewrite Ha.
  - by rewrite H in Hd.
Qed.

(** ** The limiter *)

Lemma publish_loop_limiter s env i e k ms w :
  limiter (publish_loop s env i e k ms w).1 = limiter w.
Proof.
  revert i w. induction ms as [|m ms IH]; intros i w; cbn [publish_loop]; [done|].
  destruct (publish_one s env i e k m w) as [r w1] eqn:H1. specialize (IH (1 + i) w1).
  destruct (publish_loop s env (1 + i) e k ms w1) as [w2 lines]. simpl in *. rewrite IH.
  unfold publish_one in H1. destruct (State.publish _ _ _ _ _ _ _ _) as [r0 c].
  injection H1 as <- <-. by destruct (is_ok r0).
Qed.

Lemma dispatch_limiter s env command args w :
  limiter (dispatch s env command args w).1 = limiter w.
Proof.
  unfold dispatch. repeat case_decide; try done.
  - unfold cmd_declare_queue. by repeat case_match.
  - unfold cmd_declare_exchange. by case_match.
  - unfold cmd_bind. by repeat case_match.
  - unfold cmd_publish. destruct (splitn 3 space args) as [|e [|k [|m ?]]]; try done.
    destruct (json_message m) as [msg|]; [|done]. unfold publish_one.
    destruct (State.publish _ _ _ _ _ _ _ _) as [r c]. by destruct (is_ok r).
  - unfold cmd_publish_batch. destruct (splitn 3 space args) as [|e [|k [|m ?]]]; try done.
    destruct (json_batch m) as [msgs|]; [|done].
    pose proof (publish_loop_limiter s env 5 e k msgs w) as Hl.
    by destruct (publish_loop s env 5 e k msgs w).
  - unfold cmd_consume. by case_match.
  - unfold cmd_resend. by repeat case_match.
  - unfold cmd_register_public_key. by repeat case_match.
  - unfold cmd_get_public_key. by repeat case_match.
Qed.

Lemma cmd_ack_limiter s env args w : limiter (cmd_ack s env args w).2 = limiter w.
Proof. unfold cmd_ack. by repeat case_match. Qed.

Lemma handle_delivery_limiter env e s w : limiter (handle_delivery env e s w).2 = limiter w.
Proof. unfold handle_delivery. by repeat case_match. Qed.

(** An event asks the limiter at most once. *)
Lemma on_event_limiter env ev s w :
  limiter (on_event env ev s w).2 = limiter w
  ∨ ∃ pub t, limiter (on_event env ev s w).2
             = (RateLimiter.check (client_id s) pub t (limiter w)).2.
Proof.
  unfold on_event. destruct (negb (active s)); [by left|].
  destruct ev as [chunk| | | |]; try (by left).
  - destruct (is_empty chunk); [by left|]. unfold handle_request.
    destruct (parse_request _) as [command args].
    destruct (Acl.check_command _ command); [|by left]. right.
    exists (bool_decide (command = "publish" ∨ command = "publish_batch")),
      (λ i, instant env (1 + i)).
    cbn [limiter with_monitor client_id with_buffer].
    destruct (RateLimiter.check _ _ _ _) as [v rl]. cbn [snd].
    destruct (negb (RateLimiter.is_allowed v)); [done|].
    case_decide.
    + pose proof (cmd_ack_limiter (with_buffer (buffer s +:+ chunk) s) env args
        (with_limiter (λ _, rl) (with_monitor (Heartbeat.record_heartbeat
          (client_id s) (instant env 0)) w))) as H1.
      destruct (cmd_ack _ _ _ _) as [s1 w3]. exact H1.
    + pose proof (dispatch_limiter (with_buffer (buffer s +:+ chunk) s) env command args
        (with_limiter (λ _, rl) (with_monitor (Heartbeat.record_heartbeat
          (client_id s) (instant env 0)) w))) as H1.
      destruct (dispatch _ _ _ _ _) as [w3 text]. exact H1.
  - left. destruct (State.chans (runtime w) !! chan s) as [[o [|e l]]|]; [done| |done].
    by rewrite handle_delivery_limiter.
Qed.

Lemma start_limiter acl cn addr ch st now w :
  limiter (start acl cn addr ch st now w).2 = limiter w
  ∨ limiter (start acl cn addr ch st now w).2 = (RateLimiter.check_connection cn addr (limiter w)).2.
Proof.
  unfold start. case_decide; [by left|]. right.
  destruct (RateLimiter.check_connection _ _ _) as [v rl]. by destruct (negb _).
Qed.

(** A session that has ended stays ended, and only an ended one was closed. *)
Lemma on_event_inactive env ev s w : active s = false → on_event env ev s w = (s, w).
Proof. unfold on_event. by intros ->. Qed.

End Handler.
End ServerFacts.
