(* ===== verification/ServerProps.v ===== *)
(** The properties of the connection handler. *)
From S2P Require Import Prelude RustStr Acl Storage StorageFacts StorageProps State.
From S2P Require Import StateFacts StateInv RateLimiter Heartbeat Metrics Server.
From S2P Require Import ServerFacts JsonTree.
From stdpp Require Import countable list options.
From Stdlib Require Import Ascii.

(** What the handler relies on in [serde_json]: parsing inverts printing, and a
    printed object is well-formed UTF-8 between braces. *)
Class JsonOk (J : Json) : Prop := {
  json_round_trip m : json_message (to_json m) = Ok m;
  json_utf8 m t : RustStr.from_utf8_lossy (to_json m +:+ t) = to_json m +:+ RustStr.from_utf8_lossy t;
  json_braces m : RustStr.last_char (to_json m) = Some (ascii_of_N 125)
}.

(** [serde_json::from_str] at [EncryptedInputData] on the text of a value: the
    derived deserializer reads the value. *)
Class JsonReads (J : Json) (SJ : Serde) : Prop :=
  json_reads v m : JsonTree.fits v = true → Server.dec_input v = Some m →
    json_message (print v) = Ok m.

Module ServerProps.
Import RustStr Server ServerFacts StateInv StateFacts.

Section Handler.
Context {S : Type} `{A : StorageApi S} `{J : Json}.
Implicit Types (w : World S) (s : Session) (env : Env).

(** ** Shared lemmas *)

(** Operations that leave the topology alone. *)
Definition no_topology (op : Op) : Prop :=
  match op with
  | DeclareQueue _ | DeclareExchange _ | Bind _ _ _ | Register _ _ => False
  | _ => True
  end.
Definition same_topology (b b' : State.ServerState S) : Prop :=
  State.bindings b' = State.bindings b ∧ State.exchanges b' = State.exchanges b
  ∧ dom (State.queues b') = dom (State.queues b).

#[local] Instance same_topology_preorder : PreOrder same_topology.
Proof.
  split; [by intros b|]. intros b1 b2 b3 (H1 & H2 & H3) (K1 & K2 & K3). split_and!; congruence.
Qed.

Lemma published_topology e k m now b rt b' rt' :
  published e k m now b rt b' rt' → same_topology b b'.
Proof.
  intros H. destruct (pub_frame _ _ _ _ _ _ _ _ H) as (F1 & F2 & _). split_and!; [done..|].
  apply set_eq. intros q. rewrite !elem_of_dom, (pub_queues _ _ _ _ _ _ _ _ H).
  case_decide; [|done]. by rewrite fmap_is_Some.
Qed.

Lemma purge_topology id b : same_topology b (State.purge id b).
Proof.
  destruct (purge_frame id b) as (_ & _ & P3 & P4 & _). split_and!; [done..|]. apply dom_purge.
Qed.

Lemma exec_topology op c : wf c.1 → no_topology op → same_topology c.1 (exec op c).1.
Proof.
  destruct c as [b rt]; simpl. intros Hwf Hn.
  destruct op as [| | |e k msg client now u| |q now u|id now u|id now u| | | | | | | | | | | |];
    simpl; try done.
  - pose proof (publish_cases e k msg client now u b rt (targets_NoDup e k b Hwf)) as H.
    destruct (State.publish e k msg client now u b rt) as [r [b' rt']]. simpl in *.
    destruct (State.message_status b !! State.message_id msg); [by destruct H as (_ & -> & _)|].
    destruct H as [_ H]. destruct (_ && _); [|by destruct H as (_ & -> & _)].
    destruct H as [_ H]. by eapply published_topology.
  - unfold State.consume. destruct (State.queues b !! q) as [[|[id m] l]|] eqn:Hq; try done.
    split_and!; [done..|]. simpl. rewrite dom_insert_L. apply elem_of_dom_2 in Hq. set_solver.
  - unfold State.mark_delivered. by repeat case_match.
  - unfold State.acknowledge. case_match; [|done].
    refine (purge_topology id (State.with_storage (api_update_acknowledged_time_async id u)
      (State.with_message_status (alter (State.acknowledged now) id) b))).
  - unfold State.cleanup_old_messages.
    apply (foldl_preserves (same_topology b)); [|done]. intros b' id H. etrans; [exact H|].
    apply purge_topology.
  - unfold State.cleanup_consumers_for_queue. by case_match.
  - unfold State.save_public_key. by case_match.
  - unfold State.get_public_key. by case_match.
Qed.

(** An invariant relation of admissible operations along a run. *)
Lemma run_preserves (Q : Op → Prop) (R : State.ServerState S → State.ServerState S → Prop)
    `{!PreOrder R} ops c :
  (∀ op c, wf c.1 → Q op → R c.1 (exec op c).1) →
  wf c.1 → Forall Q ops → R c.1 (run ops c).1.
Proof.
  intros HR. revert c. induction ops as [|op ops IH]; intros c Hwf Hops; [done|].
  apply Forall_cons in Hops as [Hop Hops]. unfold run in *. cbn [foldl].
  transitivity (exec op c).1; [by apply HR|]. apply IH; [by apply wf_exec|done].
Qed.

Lemma on_event_preserves (Q : Op → Prop)
    (R : State.ServerState S → State.ServerState S → Prop) `{!PreOrder R} env ev s w :
  (∀ op c, wf c.1 → Q op → R c.1 (exec op c).1) →
  (∀ op, permitted s op → Q op) →
  wf (broker w) → R (broker w) (broker (on_event env ev s w).2).
Proof.
  intros HR HQ Hwf. destruct (on_event env ev s w) as [s' w'] eqn:He.
  apply on_event_ops in He as [(ops & Hrun & Hops) _]. simpl.
  change (R (core w).1 (core w').1). rewrite Hrun. eapply run_preserves; [done|exact HR|done|].
  eapply Forall_impl; [done|]. intros op. apply HQ.
Qed.

(** Operations that put no message into a queue. *)
Definition no_publish (op : Op) : Prop :=
  match op with Publish _ _ _ _ _ _ => False | _ => True end.
Definition no_new_messages (b b' : State.ServerState S) : Prop :=
  ∀ q l' x, State.queues b' !! q = Some l' → x ∈ l' →
            ∃ l, State.queues b !! q = Some l ∧ x ∈ l.

#[local] Instance no_new_messages_preorder : PreOrder no_new_messages.
Proof.
  split; [intros b q l x; eauto|]. intros b1 b2 b3 H1 H2 q l x Hl Hx.
  destruct (H2 q l x Hl Hx) as (l2 & Hl2 & Hx2). by eapply H1.
Qed.

Lemma no_new_same b b' : State.queues b' = State.queues b → no_new_messages b b'.
Proof. intros H q l x. rewrite H. eauto. Qed.
Lemma no_new_declare q b : no_new_messages b (State.declare_queue q b).
Proof.
  intros q' l x. rewrite lookup_declare_queue. destruct (State.queues b !! q') as [l0|] eqn:Hq.
  - intros [= <-] Hx. eauto.
  - case_decide; [|done]. intros [= <-] Hx. by apply elem_of_nil in Hx.
Qed.
Lemma no_new_purge id b : no_new_messages b (State.purge id b).
Proof.
  intros q l x Hl Hx. apply purge_queue in Hl as (l0 & Hl0 & [->| ->]); [by eauto|].
  apply list_elem_of_filter in Hx as [_ Hx]. eauto.
Qed.

Lemma exec_no_publish op c : no_publish op → no_new_messages c.1 (exec op c).1.
Proof.
  destruct c as [b rt]; cbn [exec fst]. intros Hn.
  destruct op; cbn [exec fst]; try done; try (by apply no_new_same).
  - apply no_new_declare.
  - unfold State.bind_queue. case_decide; by apply no_new_same.
  - rewrite register_consumer_state. etrans; [apply no_new_declare|by apply no_new_same].
  - unfold State.consume. destruct (State.queues b !! q) as [[|[id m] l]|] eqn:Hq; try done.
    intros q' l' x Hl Hx. simpl in Hl. rewrite lookup_insert in Hl. case_decide; [|by eauto].
    simplify_eq. eexists. split; [done|]. by right.
  - unfold State.mark_delivered. repeat case_match; by apply no_new_same.
  - unfold State.acknowledge. case_match; [|done].
    etrans; [|apply no_new_purge]. by apply no_new_same.
  - unfold State.cleanup_old_messages.
    apply (foldl_preserves (no_new_messages b)); [|done]. intros b' id H. etrans; [exact H|].
    apply no_new_purge.
  - unfold State.cleanup_consumers_for_queue. case_match; by apply no_new_same.
  - unfold State.save_public_key. case_match; by apply no_new_same.
  - unfold State.get_public_key. case_match; by apply no_new_same.
Qed.

(** ** Properties *)

(** C1: a session acts on the broker only through its own operations: whatever
    a client sends, the effect of an event on the broker and the channels is a
    sequence of operations its role permits, under its own certificate name. It
    cannot publish or register a key as somebody else, and it declares and binds
    only queues the resource check gives it. The check does not cover the
    routing key of a binding, nor the queue of a [consume]: [permitted] admits
    any exchange and key for an own queue, and any queue to consume. *)
Theorem session_confined env ev s w :
  ∃ ops, core (on_event env ev s w).2 = run ops (core w) ∧ Forall (permitted s) ops.
Proof.
  destruct (on_event env ev s w) as [s' w'] eqn:He. by apply on_event_ops in He as [H _].
Qed.

(** A sender cannot change the topology: no event of its session adds or
    removes a queue, an exchange or a binding. *)
Theorem sender_keeps_topology env ev s w max :
  reachable max (core w) → role s = Acl.Sender →
  same_topology (broker w) (broker (on_event env ev s w).2).
Proof.
  intros Hr Hs. apply (on_event_preserves no_topology same_topology).
  - apply exec_topology.
  - unfold permitted, may. intros op. rewrite Hs. destruct op; try done; vm_compute; naive_solver.
  - by apply (reachable_wf _ _ _ Hr).
Qed.

(** A receiver cannot inject messages: after any event of its session every
    queued message was queued before. *)
Theorem receiver_adds_no_messages env ev s w max :
  reachable max (core w) → role s = Acl.Receiver →
  no_new_messages (broker w) (broker (on_event env ev s w).2).
Proof.
  intros Hr Hs. apply (on_event_preserves no_publish no_new_messages).
  - intros op c _. apply exec_no_publish.
  - unfold permitted, may. intros op. rewrite Hs. destruct op; try done.
    intros [_ [H|H]]; vm_compute in H; done.
  - by apply (reachable_wf _ _ _ Hr).
Qed.

(** C29: a request whose command the role does not grant, or that exceeds the
    request budget, has no effect on the broker or the channels; the session
    goes on with an empty buffer, and the refusal is counted. *)
Theorem refused_request_frame env chunk s w :
  active s = true → chunk ≠ "" →
  let command := (parse_request (buffer s +:+ chunk)).1 in
  Acl.check_command (role s) command ≠ Acl.Allowed
  ∨ RateLimiter.is_allowed (RateLimiter.check (client_id s)
      (bool_decide (command = "publish" ∨ command = "publish_batch"))
      (λ i, instant env (1 + i)) (limiter w)).1 = false →
  let '(s', w') := on_event env (Read chunk) s w in
  core w' = core w ∧ active s' = true ∧ buffer s' = ""
  ∧ Metrics.requests_rate_limited (metrics w')
    = fetch_add (Metrics.requests_rate_limited (metrics w)) 1.
Proof.
  intros Ha Hc command H. unfold on_event. rewrite Ha. cbn [negb].
  destruct chunk as [|a chunk]; [done|]. cbn [is_empty]. unfold handle_request.
  cbn [buffer with_buffer role client_id limiter with_monitor].
  subst command. destruct (parse_request _) as [command args]. cbn [fst] in H.
  destruct (Acl.check_command (role s) command) eqn:Hk; [|done].
  destruct H as [H|H]; [done|]. destruct (RateLimiter.check _ _ _ _) as [v rl]. cbn [fst] in H.
  by rewrite H.
Qed.

(** Only the client recorded as the sender of a message is granted its
    resend. *)
Theorem resend_authorized `{!StorageLaws S} s id w :
  store_wf (State.storage (broker w)) →
  (cmd_resend s id w).2 = Some ("Resend requested" +:+ nl) →
  owner (State.storage (broker w)) id = Some (client_id s).
Proof.
  intros Hwf. unfold cmd_resend. destruct (negb (is_empty id)); [|done].
  destruct (api_get_client_id_for_message id _) as [r st] eqn:Hr.
  destruct (get_client_id_law _ _ _ _ Hwf Hr) as (_ & _ & Ho). simpl.
  destruct r as [[target|]|]; try done. specialize (Ho _ eq_refl). rewrite <-Ho.
  case_bool_decide; [by subst|done].
Qed.

(** The request line a sender writes. *)
Definition publish_line (e k : string) (m : State.EncryptedInputData) : string :=
  "publish " +:+ e +:+ " " +:+ k +:+ " " +:+ to_json m +:+ nl.

Lemma parse_publish_line `{!JsonOk J} e k m :
  all_chars ascii7 e = true → all_chars ascii7 k = true →
  parse_request (publish_line e k m) = ("publish", e +:+ " " +:+ k +:+ " " +:+ to_json m).
Proof.
  intros He Hk. unfold parse_request.
  assert (from_utf8_lossy (publish_line e k m) = publish_line e k m) as ->.
  { unfold publish_line. rewrite !lossy_ascii_app by done. rewrite json_utf8. done. }
  assert (trim (publish_line e k m)
          = "publish" +:+ String space (e +:+ " " +:+ k +:+ " " +:+ to_json m)) as ->.
  { replace (publish_line e k m) with
      (("publish " +:+ e +:+ " " +:+ k +:+ " " +:+ to_json m) +:+ String (ascii_of_N 10) "").
    - rewrite (trim_line "p"%char (ascii_of_N 125)); [done|done| |done|done].
      assert (to_json m ≠ "") as Hne.
      { intros H. pose proof (json_braces m) as Hb. by rewrite H in Hb. }
      rewrite !app_assoc, last_char_app by done. apply json_braces.
    - unfold publish_line. by rewrite <-!app_assoc. }
  cbn [splitn]. rewrite split_once_app by done. done.
Qed.

(** The request line of a publication round-trips: a session that may
    publish and is within its budget publishes exactly the exchange, key and
    message the line was printed from, and answers with its ACK or error. *)
Theorem publish_line_round_trip `{!JsonOk J} env e k m s w rl :
  active s = true → buffer s = "" →
  Acl.check_command (role s) "publish" = Acl.Allowed →
  RateLimiter.check (client_id s) true (λ i, instant env (1 + i)) (limiter w)
    = (RateLimiter.Allowed, rl) →
  all_chars ascii7 e = true → all_chars ascii7 k = true →
  no_char space e = true → no_char space k = true →
  let '(r, c) := State.publish e k m (client_id s) (instant env 5) (utc env 5)
                   (broker w) (runtime w) in
  let '(s', w') := on_event env (Read (publish_line e k m)) s w in
  core w' = c
  ∧ written (stream s') = written (write_all (match r with
       | Ok _ => "ACK " +:+ State.message_id m +:+ nl
       | Err err => "Error: " +:+ err +:+ nl
       end) (stream s)).2.
Proof.
  intros Ha Hb Hc Hl He Hk Hse Hsk. unfold on_event. rewrite Ha. cbn [negb].
  change (is_empty (publish_line e k m)) with false. cbn [negb].
  unfold handle_request. cbn [buffer with_buffer role client_id limiter with_monitor].
  rewrite Hb. change ("" +:+ publish_line e k m) with (publish_line e k m).
  rewrite parse_publish_line by done. rewrite Hc.
  rewrite bool_decide_true by (by left). rewrite Hl. cbn [RateLimiter.is_allowed negb].
  rewrite decide_False by done. unfold dispatch. repeat (rewrite decide_False by done).
  rewrite decide_True by done. unfold cmd_publish.
  change (e +:+ " " +:+ k +:+ " " +:+ to_json m)
    with (e +:+ String space (k +:+ String space (to_json m))).
  cbn [splitn]. rewrite !split_once_app by done. rewrite json_round_trip.
  unfold publish_one. cbn [broker runtime with_limiter with_monitor client_id with_buffer].
  destruct (State.publish _ _ _ _ _ _ _ _) as [r [b rt]]. by destruct r.
Qed.

(** *** Delivery *)

Lemma write_all_written text st :
  written (write_all text st).2 = written st ++ (if (write_all text st).1 then [text] else []).
Proof.
  unfold write_all. destruct (next_outcome st) as [[] os]; simpl; [done|]. by rewrite List.app_nil_r.
Qed.
Lemma flush_written st : written (flush st).2 = written st.
Proof. unfold flush. by destruct (next_outcome st). Qed.

(** A message is written to a client at most three times, and the loop
    gives up (ending the session) only when its third write fails. *)
Theorem delivery_attempts_bounded id text env b st :
  ∃ n, n ≤ 3
  ∧ let '(b', st', lost) := deliver_attempts MAX_RETRIES id text env b st in
    written st' = written st ++ replicate n text ∧ (lost = true → n < 3).
Proof.
  assert (∀ left st, ∃ n, n ≤ left ∧
    let '(b', st', lost) := deliver_attempts left id text env b st in
    written st' = written st ++ replicate n text ∧ (lost = true → n < left)) as H; [|apply H].
  clear st. induction left as [|left IH]; intros st.
  { exists 0. simpl. rewrite List.app_nil_r. split_and!; done. }
  cbn [deliver_attempts]. pose proof (write_all_written text st) as Hw.
  destruct (write_all text st) as [[] st1]; simpl in Hw.
  - pose proof (flush_written st1) as Hf. destruct (flush st1) as [[] st2]; simpl in Hf.
    + exists 1. rewrite Hf, Hw. split_and!; [lia|done|done].
    + destruct (IH st2) as (n & Hn & H). exists (1 + n). split; [lia|].
      destruct (deliver_attempts _ _ _ _ _ _) as [[b' st'] lost]. destruct H as [H1 H2].
      rewrite H1, Hf, Hw, <-List.app_assoc. split; [done|]. intros Hl.
      specialize (H2 Hl). lia.
  - rewrite List.app_nil_r in Hw. case_decide as Hz.
    + exists 0. rewrite Hw. simpl. rewrite List.app_nil_r. split_and!; [lia|done|lia].
    + destruct (IH st1) as (n & Hn & H). exists n. split; [lia|].
      destruct (deliver_attempts _ _ _ _ _ _) as [[b' st'] lost]. destruct H as [H1 H2].
      rewrite H1, Hw. split; [done|]. intros Hl. specialize (H2 Hl). lia.
Qed.

(** The delivery of a live message over a working socket writes it once,
    in the form [Message: <id> <json>], takes it off the channel, leaves it in
    its queues for the acknowledgement, and records the first delivery time. *)
Theorem delivery_writes_once env s w id m rest st :
  active s = true → outcomes (stream s) = [] →
  State.chans (runtime w) !! chan s = Some {| State.open := true; State.buf := (id, m) :: rest |} →
  State.message_status (broker w) !! id = Some st → State.can_deliver st = true →
  let '(s', w') := on_event env Recv s w in
  written (stream s') = written (stream s) ++ ["Message: " +:+ id +:+ " " +:+ to_json m +:+ nl]
  ∧ active s' = true
  ∧ State.queues (broker w') = State.queues (broker w)
  ∧ State.chans (runtime w') !! chan s = Some {| State.open := true; State.buf := rest |}
  ∧ ∃ st', State.message_status (broker w') !! id = Some st'
           ∧ State.delivered_time st' = Some (default (instant env 3) (State.delivered_time st)).
Proof.
  intros Ha Ho Hc Hst Hd. unfold on_event. rewrite Ha, Hc. cbn [negb]. unfold handle_delivery.
  cbn [broker with_runtime]. rewrite Hst. unfold State.deliverable. rewrite Hst, Hd. cbn [negb].
  unfold MAX_RETRIES. cbn [deliver_attempts]. unfold write_all, flush, next_outcome. rewrite Ho.
  cbn [outcomes written]. split_and!; [done|done| | |].
  - simpl. unfold State.mark_delivered. by repeat case_match.
  - simpl. by rewrite lookup_alter_eq, Hc.
  - simpl. unfold State.mark_delivered at 2. rewrite Hst.
    destruct (State.delivered_time st) as [t|] eqn:Ht; simpl.
    + unfold State.mark_delivered. rewrite Hst, Ht. exists st. by rewrite Ht.
    + unfold State.mark_delivered. simpl. rewrite lookup_insert_eq. simpl.
      rewrite lookup_insert_eq. eexists. split; [done|]. done.
Qed.

(** A message that is no longer live (acknowledged, expired or evicted) is
    taken off the channel without being written. *)
Theorem delivery_skips_dead env s w id m rest :
  active s = true →
  State.chans (runtime w) !! chan s = Some {| State.open := true; State.buf := (id, m) :: rest |} →
  State.message_status (broker w) !! id = None →
  on_event env Recv s w = (s, with_runtime (recv_chan (chan s)) w).
Proof.
  intros Ha Hc Hst. unfold on_event. rewrite Ha, Hc. cbn [negb]. unfold handle_delivery.
  cbn [broker with_runtime]. by rewrite Hst.
Qed.

(** When every flush fails, the message is written three times, the session
    goes on, and the message is recorded as delivered all the same. *)
Theorem unflushed_recorded_delivered env s w id m rest st :
  active s = true → outcomes (stream s) = [true; false; true; false; true; false] →
  State.chans (runtime w) !! chan s = Some {| State.open := true; State.buf := (id, m) :: rest |} →
  State.message_status (broker w) !! id = Some st → State.can_deliver st = true →
  let text := "Message: " +:+ id +:+ " " +:+ to_json m +:+ nl in
  let '(s', w') := on_event env Recv s w in
  written (stream s') = written (stream s) ++ [text; text; text]
  ∧ active s' = true
  ∧ ∃ st', State.message_status (broker w') !! id = Some st'
           ∧ is_Some (State.delivered_time st').
Proof.
  intros Ha Ho Hc Hst Hd text. unfold on_event. rewrite Ha, Hc. cbn [negb]. unfold handle_delivery.
  cbn [broker with_runtime]. rewrite Hst. unfold State.deliverable. rewrite Hst, Hd. cbn [negb].
  unfold MAX_RETRIES. cbn [deliver_attempts]. unfold write_all, flush, next_outcome. rewrite Ho.
  cbn [outcomes written]. split_and!; [|done|].
  - simpl. by rewrite <-!List.app_assoc.
  - simpl. unfold State.mark_delivered. rewrite Hst.
    destruct (State.delivered_time st) as [t|] eqn:Ht; simpl.
    + exists st. by rewrite Ht.
    + rewrite lookup_insert_eq. eexists. split; [done|]. by eexists.
Qed.

(** A batch is answered with one line per message, in order, and the
    published counter grows by the number of lines that are an ACK. *)
Theorem batch_one_line_each env s e k ms w :
  let '(w', lines) := publish_loop s env 5 e k ms w in
  length lines = length ms
  ∧ wrap (Metrics.messages_published (metrics w'))
    = wrap (Metrics.messages_published (metrics w)
            + Z.of_nat (length (filter (λ l, starts_with "ACK " l = true) lines))).
Proof.
  generalize 5 as i. revert w. induction ms as [|m ms IH]; intros w i; cbn [publish_loop].
  { split; [done|]. simpl. by rewrite Z.add_0_r. }
  destruct (publish_one s env i e k m w) as [r w1] eqn:H1. specialize (IH w1 (1 + i)).
  destruct (publish_loop s env (1 + i) e k ms w1) as [w2 lines].
  destruct IH as [Hlen Hw]. split; [simpl; by rewrite Hlen|]. rewrite Hw.
  unfold publish_one in H1. destruct (State.publish _ _ _ _ _ _ _ _) as [r0 c].
  injection H1 as <- <-. destruct r0 as [[]|err].
  - rewrite filter_cons_True by apply starts_with_app. simpl. unfold fetch_add, wrap.
    rewrite Zplus_mod_idemp_l. f_equal. lia.
  - by rewrite filter_cons_False.
Qed.

End Handler.

(** ** A concrete server *)

#[local] Existing Instance StorageProps.toy_primitives.

(** A printer of messages: braces around the bits of their code. *)
#[local] Instance message_countable : Countable State.EncryptedInputData.
Proof.
  refine (inj_countable'
    (λ m, (State.message_id m, State.receiver_client_id m, State.enc_session_key m,
           State.nonce m, State.ciphertext m))
    (λ '(a, b, c, d, e), {| State.message_id := a; State.receiver_client_id := b;
       State.enc_session_key := c; State.nonce := d; State.ciphertext := e |}) _).
  by intros [].
Defined.

#[local] Existing Instance JsonFacts.toy_serde.
#[local] Existing Instance JsonFacts.toy_serde_laws.

#[local] Instance toy_json : Json := {|
  json_message := λ s, match parse s with
                       | Ok v => match dec_input v with Some m => Ok m | None => Err "data" end
                       | Err e => Err e
                       end;
  json_batch := λ _, Ok [];
  to_json := λ m, print (enc_input m)
|}.
#[local] Instance toy_json_reads : JsonReads toy_json JsonFacts.toy_serde.
Proof. intros v m Hv Hm. unfold json_message, toy_json. by rewrite parse_print, Hm. Qed.
#[local] Instance toy_json_ok : JsonOk toy_json.
Proof.
  split.
  - intros m. apply json_reads; by destruct m.
  - intros m t. apply lossy_ascii_app, bits_ascii.
  - intros m. apply bits_last.
Qed.

Definition sample_msg : State.EncryptedInputData :=
  {| State.message_id := "m"; State.receiver_client_id := "r"; State.enc_session_key := "k";
     State.nonce := "n"; State.ciphertext := "c" |}.
Definition sample_env : Env := {| instant := λ _, 9%Z; utc := λ _, "t" |}.
Definition sample_session (r : Acl.Role) (os : list bool) : Session :=
  {| client_id := "c"; ip := "10.0.0.1"; role := r; chan := 7; buffer := "";
     stream := {| written := []; outcomes := os |}; active := true |}.
Definition sample_status : State.MessageStatus := State.sent 1.
(** A broker with one live message in queue [q], on channel 7. *)
Definition sample_world (b : State.ServerState Storage.Store) : World Storage.Store :=
  {| broker := b;
     runtime := {| State.chans := {[7 := {| State.open := true; State.buf := [("m", sample_msg)] |}]};
                   State.tasks := [] |};
     monitor := Heartbeat.new 60; metrics := Metrics.new 0;
     limiter := RateLimiter.new RateLimiter.config1 |}.
Definition empty_broker : State.ServerState Storage.Store := State.new StorageProps.empty_store 10.
Definition live_broker : State.ServerState Storage.Store :=
  State.with_message_status (<["m" := sample_status]>) empty_broker.

Lemma sample_reachable b : b = empty_broker → reachable 10 (core (sample_world b)).
Proof. intros ->. constructor. Qed.

Lemma sender_keeps_topology_witness :
  same_topology empty_broker
    (broker (on_event sample_env ReadError (sample_session Acl.Sender []) (sample_world empty_broker)).2).
Proof.
  exact (sender_keeps_topology sample_env ReadError (sample_session Acl.Sender [])
    (sample_world empty_broker) 10 (sample_reachable _ eq_refl) eq_refl).
Defined.

Lemma receiver_adds_no_messages_witness :
  no_new_messages empty_broker
    (broker (on_event sample_env (Read "declare_queue c_q") (sample_session Acl.Receiver [])
      (sample_world empty_broker)).2).
Proof.
  exact (receiver_adds_no_messages sample_env (Read "declare_queue c_q")
    (sample_session Acl.Receiver []) (sample_world empty_broker) 10
    (sample_reachable _ eq_refl) eq_refl).
Defined.

Lemma refused_request_frame_witness :
  core (on_event sample_env (Read "consume q") (sample_session Acl.Sender [])
          (sample_world empty_broker)).2 = core (sample_world empty_broker).
Proof.
  pose proof (refused_request_frame sample_env "consume q" (sample_session Acl.Sender [])
    (sample_world empty_broker) eq_refl ltac:(done) ltac:(left; vm_compute; done)) as H.
  destruct (on_event _ _ _ _) as [s' w']. apply H.
Defined.

(** A store whose table records client [c] as the sender of [m]. *)
Definition owned_broker : State.ServerState Storage.Store :=
  State.new {| Storage.chan := []; Storage.worker := StorageProps.sample_worker;
               Storage.alive := true; Storage.envs := [] |} 10.
Lemma resend_authorized_witness :
  owner (State.storage owned_broker) "m" = Some "c".
Proof.
  refine (resend_authorized (sample_session Acl.Sender []) "m" (sample_world owned_broker) _ _).
  - by repeat constructor.
  - vm_compute. reflexivity.
Defined.

Lemma publish_line_round_trip_witness :
  core (on_event sample_env (Read (publish_line "e" "k" sample_msg)) (sample_session Acl.Sender [])
          (sample_world empty_broker)).2
  = (State.publish "e" "k" sample_msg "c" 9 "t" empty_broker (runtime (sample_world empty_broker))).2.
Proof.
  pose proof (publish_line_round_trip sample_env "e" "k" sample_msg (sample_session Acl.Sender [])
    (sample_world empty_broker) (RateLimiter.check "c" true (λ _, 9%Z)
      (limiter (sample_world empty_broker))).2 eq_refl eq_refl ltac:(vm_compute; reflexivity)
    ltac:(vm_compute; reflexivity) eq_refl eq_refl eq_refl eq_refl) as H.
  cbn [client_id sample_session instant utc sample_env broker sample_world] in H.
  destruct (State.publish _ _ _ _ _ _ _ _) as [r c]. destruct (on_event _ _ _ _) as [s' w'].
  apply H.
Defined.

Lemma delivery_writes_once_witness :
  active (on_event sample_env Recv (sample_session Acl.Receiver []) (sample_world live_broker)).1
  = true.
Proof.
  pose proof (delivery_writes_once sample_env (sample_session Acl.Receiver [])
    (sample_world live_broker) "m" sample_msg [] sample_status eq_refl eq_refl
    ltac:(vm_compute; reflexivity) ltac:(vm_compute; reflexivity) eq_refl) as H.
  destruct (on_event _ _ _ _) as [s' w']. apply H.
Defined.

Lemma delivery_skips_dead_witness :
  on_event sample_env Recv (sample_session Acl.Receiver []) (sample_world empty_broker)
  = (sample_session Acl.Receiver [], with_runtime (recv_chan 7) (sample_world empty_broker)).
Proof.
  exact (delivery_skips_dead sample_env (sample_session Acl.Receiver []) (sample_world empty_broker)
    "m" sample_msg [] eq_refl ltac:(vm_compute; reflexivity) ltac:(vm_compute; reflexivity)).
Defined.

Lemma unflushed_recorded_delivered_witness :
  active (on_event sample_env Recv
    (sample_session Acl.Receiver [true; false; true; false; true; false])
    (sample_world live_broker)).1 = true.
Proof.
  pose proof (unflushed_recorded_delivered sample_env
    (sample_session Acl.Receiver [true; false; true; false; true; false])
    (sample_world live_broker) "m" sample_msg [] sample_status eq_refl eq_refl
    ltac:(vm_compute; reflexivity) ltac:(vm_compute; reflexivity) eq_refl) as H.
  destruct (on_event _ _ _ _) as [s' w']. apply H.
Defined.

(** The routing key of a binding is not checked: client [c] binds its queue with
    the key of another receiver, which the resource check would deny. *)
Lemma foreign_key_bound :
  Acl.check_resource Acl.Receiver "c" "routing_key" "other_key" ≠ Acl.Allowed
  ∧ State.target_queues "e" "other_key"
      (broker (on_event sample_env (Read "bind c_q e other_key") (sample_session Acl.Receiver [])
        (sample_world (State.declare_exchange "e" (State.declare_queue "c_q" empty_broker)))).2)
    = ["c_q"].
Proof. split; [discriminate|]. vm_compute. reflexivity. Qed.

End ServerProps.
