(* ===== verification/Broker.v ===== *)
(** The server process: the accept loop and the background tasks of
    [server/src/main.rs] and of [ServerState::new], around the sessions of
    [Server.v].

    [ServerState] derives [Clone] and its [DashMap]s are held by value, so the
    two states the cleanup tasks of [ServerState::new] run on are deep copies
    of the empty state; only the storage handle and the client counter are
    shared. The copies are the fields [expiry_copy] and [consumer_copy]. *)
From S2P Require Import Prelude RustStr Acl Storage StorageFacts StorageProps State.
From S2P Require Import StateFacts StateInv RateLimiter Heartbeat Metrics Server.
From S2P Require Import ServerFacts ServerProps.
From stdpp Require Import list relations options.

Module Broker.
Import RustStr Server ServerFacts StateInv.

Section Process.
Context {S : Type} `{A : StorageApi S} `{J : Json}.
(** The access-control list and the limits of the configuration. *)
Variables (acl : Acl.AclManager) (limits : RateLimiter.RateLimitConfig).

Record Process := {
  world : World S;
  sessions : gmap nat Session;
  expiry_copy : State.ServerState S;
  consumer_copy : State.ServerState S;
  serving : bool
}.

Definition with_world f (p : Process) : Process :=
  {| world := f (world p); sessions := sessions p; expiry_copy := expiry_copy p;
     consumer_copy := consumer_copy p; serving := serving p |}.
Definition set_session i (s : Session) (w : World S) (p : Process) : Process :=
  {| world := w; sessions := <[i := s]> (sessions p); expiry_copy := expiry_copy p;
     consumer_copy := consumer_copy p; serving := serving p |}.

(** The start of [main]: fresh shared state, and the clones of
    [ServerState::new]. *)
Definition boot (st : S) (max : nat) (timeout now : Z) : Process :=
  let b := State.new st max in
  {| world := {| broker := b; runtime := {| State.chans := ∅; State.tasks := [] |};
                 monitor := Heartbeat.new timeout; metrics := Metrics.new now;
                 limiter := RateLimiter.new limits |};
     sessions := ∅; expiry_copy := b; consumer_copy := b; serving := true |}.

Inductive Step :=
| Accept (i : nat) (cn addr : string) (out : Stream) (now : Z)  (* a TLS client *)
| HandshakeFailed                                               (* authentication failed *)
| AcceptError                                                   (* [accept] failed *)
| SessionEvent (i : nat) (env : Env) (ev : Event)
| MonitorTick (now : Z)
| DeliveryTask (i : nat)            (* a task of [register_consumer] *)
| ExpiryTick (now : Z)              (* [cleanup_old_messages] *)
| ConsumerTick                      (* [cleanup_dead_consumers] *)
| Shutdown.

(** When [handle_client] has returned, its task removes the client from the
    monitor. *)
Definition after_client (s : Session) (w : World S) : World S :=
  if active s then w else with_monitor (Heartbeat.remove_client (client_id s)) w.

Definition step (st : Step) (p : Process) : Process :=
  if negb (serving p) then p
  else match st with
  | Accept i cn addr out now =>
      match sessions p !! i with
      | Some _ => p                    (* the number is taken *)
      | None => let '(s, w) := start acl cn addr i out now (world p) in
                set_session i s (after_client s w) p
      end
  | HandshakeFailed => with_world (with_broker State.decrement_client_count) p
  | AcceptError => p
  | SessionEvent i env ev =>
      match sessions p !! i with
      | Some s => if active s then
                    let '(s', w) := on_event env ev s (world p) in
                    set_session i s' (after_client s' w) p
                  else p
      | None => p
      end
  | MonitorTick now => with_world (with_monitor (Heartbeat.monitor_tick now)) p
  | DeliveryTask i => with_world (with_runtime (State.run_task i)) p
  | ExpiryTick now =>
      {| world := world p; sessions := sessions p;
         expiry_copy := State.cleanup_old_messages now (from_secs 3000) (expiry_copy p);
         consumer_copy := consumer_copy p; serving := serving p |}
  | ConsumerTick =>
      {| world := world p; sessions := sessions p; expiry_copy := expiry_copy p;
         consumer_copy := State.cleanup_dead_consumers (runtime (world p)) (consumer_copy p);
         serving := serving p |}
  | Shutdown =>
      {| world := with_broker State.decrement_client_count (world p); sessions := sessions p;
         expiry_copy := expiry_copy p; consumer_copy := consumer_copy p; serving := false |}
  end.

Definition run_steps (steps : list Step) (p : Process) : Process :=
  foldl (λ p st, step st p) p steps.

(** ** Lemmas *)

Lemma core_after_client s w : core (after_client s w) = core w.
Proof. unfold after_client. by destruct (active s). Qed.

(** A step of the process is a sequence of operations of the broker. *)
Lemma step_ops st p : by_ops (λ _, True) (world p) (world (step st p)).
Proof.
  unfold step. destruct (negb (serving p)); [done|]. destruct st; simpl; try done.
  - destruct (sessions p !! i); [done|].
    pose proof (start_ops acl cn addr i out now (world p)) as H.
    destruct (start acl cn addr i out now (world p)) as [s w]. simpl in *.
    etrans; [eapply by_ops_impl; [|exact H]; done|]. by apply by_ops_same, core_after_client.
  - by apply (by_ops_one _ Decrement).
  - destruct (sessions p !! i) as [s|]; [|done]. destruct (active s); [|done].
    destruct (on_event env ev s (world p)) as [s' w] eqn:He. simpl.
    apply on_event_ops in He as [H _].
    etrans; [eapply by_ops_impl; [|exact H]; done|]. by apply by_ops_same, core_after_client.
  - by apply by_ops_same.
  - by apply (by_ops_one _ (RunTask i)).
  - by apply (by_ops_one _ Decrement).
Qed.

Lemma run_steps_ops steps p : by_ops (λ _, True) (world p) (world (run_steps steps p)).
Proof.
  revert p. induction steps as [|st steps IH]; intros p; [done|].
  etrans; [apply step_ops|apply IH].
Qed.

(** The broker of a running process is a reachable one. *)
Lemma process_reachable st max timeout now steps :
  reachable max (core (world (run_steps steps (boot st max timeout now)))).
Proof.
  destruct (run_steps_ops steps (boot st max timeout now)) as (ops & -> & _).
  apply reachable_run; [|apply admissible_True]. constructor.
Qed.

(** *** The client count *)

Definition live_sessions (p : Process) : nat :=
  size (filter (λ x, active x.2 = true) (sessions p)).
(** The decrements that match no session: failed handshakes and the one of the
    shutdown, after which nothing runs. *)
Fixpoint unmatched (steps : list Step) : nat :=
  match steps with
  | [] => 0
  | HandshakeFailed :: rest => 1 + unmatched rest
  | Shutdown :: _ => 1
  | _ :: rest => unmatched rest
  end.

Definition count (p : Process) : Z := State.connected_clients (broker (world p)).

Lemma live_new i s w p :
  sessions p !! i = None →
  live_sessions (set_session i s w p) = (if active s then 1 else 0) + live_sessions p.
Proof.
  intros Hi. unfold live_sessions. simpl. destruct (active s) eqn:Hs.
  - rewrite map_filter_insert_True by done. rewrite map_size_insert_None; [done|].
    apply map_lookup_filter_None. by left.
  - rewrite map_filter_insert_False by (simpl; congruence). by rewrite delete_id.
Qed.

Lemma live_update i s s' w p :
  sessions p !! i = Some s → active s = true →
  live_sessions p = (if active s' then 0 else 1) + live_sessions (set_session i s' w p).
Proof.
  intros Hi Hs. unfold live_sessions. simpl.
  assert (filter (λ x : nat * Session, active x.2 = true) (sessions p) !! i = Some s) as Hf
    by (by apply map_lookup_filter_Some).
  destruct (active s') eqn:Hs'.
  - rewrite map_filter_insert_True by done. by rewrite map_size_insert, Hf.
  - rewrite map_filter_insert_False by (simpl; congruence).
    rewrite map_filter_delete, map_size_delete, Hf.
    assert (size (filter (λ x : nat * Session, active x.2 = true) (sessions p)) ≠ 0); [|lia].
    intros H0%map_size_empty_inv. by rewrite H0, lookup_empty in Hf.
Qed.

Lemma start_count cn addr i out now (w : World S) s w' :
  start acl cn addr i out now w = (s, w') →
  State.connected_clients (broker w')
  = if active s then fetch_add (State.connected_clients (broker w)) 1
    else State.connected_clients (broker w).
Proof.
  unfold start. case_decide as Hr; intros H; [by simplify_eq|].
  destruct (RateLimiter.check_connection _ _ _) as [v rl]. destruct (negb _); by simplify_eq.
Qed.

Lemma count_after_client s (w : World S) :
  State.connected_clients (broker (after_client s w)) = State.connected_clients (broker w).
Proof. unfold after_client. by destruct (active s). Qed.

Lemma step_count st p k :
  serving p = true → wf (broker (world p)) →
  count p = wrap (Z.of_nat (live_sessions p) - Z.of_nat k) →
  count (step st p)
  = wrap (Z.of_nat (live_sessions (step st p)) - Z.of_nat (k + unmatched [st])).
Proof.
  intros Hs Hwf Hc. unfold step. rewrite Hs. cbn [negb].
  destruct st; cbn [unmatched]; rewrite ?Nat.add_0_r; try exact Hc.
  - destruct (sessions p !! i) eqn:Hi; [exact Hc|].
    destruct (start acl cn addr i out now (world p)) as [s w] eqn:He.
    rewrite live_new by done. unfold count. cbn [world set_session].
    rewrite count_after_client, (start_count _ _ _ _ _ _ _ _ He).
    unfold count in Hc. rewrite Hc. destruct (active s); [rewrite fetch_add_wrap|]; f_equal; lia.
  - unfold count in *. simpl. unfold live_sessions in *. simpl. rewrite Hc, fetch_sub_wrap. f_equal; lia.
  - destruct (sessions p !! i) as [s|] eqn:Hi; [|exact Hc].
    destruct (active s) eqn:Ha; [|exact Hc].
    destruct (on_event env ev s (world p)) as [s' w] eqn:He.
    rewrite (live_update i s s' (after_client s' w) p Hi Ha) in Hc.
    unfold count in *. cbn [world set_session].
    rewrite count_after_client, (on_event_count _ _ _ _ _ _ Hwf He), Hc.
    unfold count_after. rewrite Ha. destruct (active s'); simpl; [|rewrite fetch_sub_wrap]; f_equal; lia.
  - unfold count in *. simpl. unfold live_sessions in *. simpl. rewrite Hc, fetch_sub_wrap. f_equal; lia.
Qed.

Lemma stopped_run steps p : serving p = false → run_steps steps p = p.
Proof.
  intros Hs. induction steps as [|st steps IH]; [done|]. unfold run_steps in *. cbn [foldl].
  unfold step at 2. by rewrite Hs.
Qed.

Lemma serving_step st p : serving p = true → st ≠ Shutdown → serving (step st p) = true.
Proof.
  intros Hs Hn. unfold step. rewrite Hs. cbn [negb]. by destruct st; repeat case_match.
Qed.

Lemma wf_step st p : wf (broker (world p)) → wf (broker (world (step st p))).
Proof.
  destruct (step_ops st p) as (ops & Hr & _). change (broker (world (step st p))) with
    (core (world (step st p))).1. rewrite Hr. unfold run. intros Hwf.
  apply (foldl_preserves (λ c, wf c.1)); [|done]. intros c op. apply wf_exec.
Qed.

Lemma run_count steps p k :
  serving p = true → wf (broker (world p)) →
  count p = wrap (Z.of_nat (live_sessions p) - Z.of_nat k) →
  count (run_steps steps p)
  = wrap (Z.of_nat (live_sessions (run_steps steps p)) - Z.of_nat (k + unmatched steps)).
Proof.
  revert p k. induction steps as [|st steps IH]; intros p k Hs Hwf Hc.
  { cbn [unmatched]. by rewrite Nat.add_0_r. }
  pose proof (step_count st p k Hs Hwf Hc) as H1.
  change (run_steps (st :: steps) p) with (run_steps steps (step st p)).
  destruct (decide (unmatched (st :: steps) = unmatched [st] + unmatched steps
                    ∧ serving (step st p) = true)) as [[Hu Hv]|Hno].
  - rewrite Hu, Nat.add_assoc. apply IH; [done|by apply wf_step|done].
  - assert (st = Shutdown) as ->.
    { destruct st; try done; exfalso; apply Hno; (split; [cbn [unmatched]; lia|by apply serving_step]). }
    rewrite stopped_run by (unfold step; by rewrite Hs). exact H1.
Qed.

(** *** The limiter *)

Lemma limiter_after_client s (w : World S) : limiter (after_client s w) = limiter w.
Proof. unfold after_client. by destruct (active s). Qed.

Lemma step_limiter st p :
  rtc RateLimiter.check_step (limiter (world p)) (limiter (world (step st p))).
Proof.
  unfold step. destruct (negb (serving p)); [done|]. destruct st; simpl; try done.
  - destruct (sessions p !! i); [done|].
    pose proof (start_limiter acl cn addr i out now (world p)) as H.
    destruct (start acl cn addr i out now (world p)) as [s w]. simpl in *.
    rewrite limiter_after_client. destruct H as [->| ->]; [done|]. apply rtc_once. constructor.
  - destruct (sessions p !! i) as [s|]; [|done]. destruct (active s); [|done].
    pose proof (on_event_limiter env ev s (world p)) as H.
    destruct (on_event env ev s (world p)) as [s' w]. simpl in *.
    rewrite limiter_after_client. destruct H as [->|(pub & t & ->)]; [done|].
    apply rtc_once. constructor.
Qed.

Lemma run_limiter steps p :
  rtc RateLimiter.check_step (limiter (world p)) (limiter (world (run_steps steps p))).
Proof.
  revert p. induction steps as [|st steps IH]; intros p; [done|].
  etrans; [apply step_limiter|apply IH].
Qed.

(** *** The cleanup copies *)

Lemma cleanup_old_empty now age (b : State.ServerState S) :
  State.message_status b = ∅ → State.cleanup_old_messages now age b = b.
Proof.
  intros Hb. unfold State.cleanup_old_messages, State.expired_messages. rewrite Hb.
  by rewrite map_to_list_empty.
Qed.

Lemma cleanup_consumers_empty rt (b : State.ServerState S) :
  State.consumers b = ∅ → State.cleanup_dead_consumers rt b = b.
Proof.
  intros Hb. unfold State.cleanup_dead_consumers. rewrite Hb, fmap_empty, map_to_list_empty.
  unfold State.with_consumers. destruct b; simpl in *. by subst.
Qed.

Lemma step_copies st p :
  State.message_status (expiry_copy p) = ∅ → State.consumers (consumer_copy p) = ∅ →
  expiry_copy (step st p) = expiry_copy p ∧ consumer_copy (step st p) = consumer_copy p.
Proof.
  intros H1 H2. unfold step. destruct (negb (serving p)); [done|].
  destruct st; simpl; try done.
  - destruct (sessions p !! i); [done|]. by destruct (start _ _ _ _ _ _ _).
  - destruct (sessions p !! i) as [s|]; [|done]. destruct (active s); [|done].
    by destruct (on_event _ _ _ _).
  - by rewrite cleanup_old_empty.
  - by rewrite cleanup_consumers_empty.
Qed.

(** ** Properties *)

(** C7: in any execution of the server, whatever the clients send and in
    whatever order the events of the connections, the delivery tasks and the
    ticks come (each event handled as a whole), no queue holds more messages
    than the configured size, or more than one where that size is 0, and every
    queued message carries its own identifier. *)
Theorem process_queues_bounded st max timeout now steps q l x :
  let p := run_steps steps (boot st max timeout now) in
  State.queues (broker (world p)) !! q = Some l → x ∈ l →
  length l ≤ Nat.max 1 max ∧ State.message_id x.2 = x.1.
Proof.
  intros p Hl Hx. pose proof (process_reachable st max timeout now steps) as Hr.
  pose proof (reachable_wf _ _ _ Hr) as Hwf. split.
  - rewrite <-(reachable_max _ _ _ Hr). by eapply wf_bound.
  - by eapply wf_ids.
Qed.

(** C27: the client counter is the number of running sessions minus the
    decrements that match none: each failed TLS handshake, and the shutdown,
    takes one off (modulo 2^64). *)
Theorem client_count_exact st max timeout now steps :
  let p := run_steps steps (boot st max timeout now) in
  State.get_client_count (broker (world p))
  = wrap (Z.of_nat (live_sessions p) - Z.of_nat (unmatched steps)).
Proof.
  intros p. apply (run_count steps (boot st max timeout now) 0); [done|apply wf_new|done].
Qed.

(** One failed TLS handshake on an idle server makes the counter report
    2^64 - 1 clients. *)
Theorem failed_handshake_wraps st max timeout now :
  State.get_client_count (broker (world (run_steps [HandshakeFailed] (boot st max timeout now))))
  = (2 ^ 64 - 1)%Z.
Proof. done. Qed.

(** The two background cleanups never see a message or a consumer: their
    copies of the state stay as [ServerState::new] made them, so expired
    messages and dead consumers of the live state are never collected. *)
Theorem cleanup_tasks_see_nothing st max timeout now steps :
  let p := run_steps steps (boot st max timeout now) in
  expiry_copy p = State.new st max ∧ consumer_copy p = State.new st max.
Proof.
  unfold run_steps. apply foldl_preserves; [|done]. intros p s [H1 H2].
  destruct (step_copies s p) as [-> ->]; [by rewrite H1|by rewrite H2|done].
Qed.

(** C37: a client that has used up its connections is refused by every later
    accept, although its earlier sessions may all have ended. *)
Theorem client_locked_out p steps i cn addr out now :
  0 < RateLimiter.max_connections_per_cn (RateLimiter.config (limiter (world p)))
    ≤ RateLimiter.count (RateLimiter.by_cn (RateLimiter.connections (limiter (world p)))) cn →
  let p' := run_steps steps p in
  active (start acl cn addr i out now (world p')).1 = false.
Proof.
  intros Hl p'. subst p'. unfold start. case_decide; [done|].
  by rewrite (RateLimiter.locked_out _ _ cn addr Hl (run_limiter steps p)).
Qed.

(** A client whose certificate name is in no list of the configuration has
    no effect: its connection ends at once with a refusal, and the broker, the
    channels, the limiter and the counters are as before. *)
Theorem unknown_client_no_effect cn addr i out now (w : World S) :
  Acl.resolve_role acl cn = Acl.Unknown →
  let '(s, w') := start acl cn addr i out now w in
  w' = w ∧ active s = false
  ∧ written (stream s) = written (write_all
      ("Access denied: unrecognized client identity" +:+ nl) out).2.
Proof. intros Hr. unfold start. cbn [role]. by rewrite Hr. Qed.

End Process.

(** ** Witnesses *)

#[local] Existing Instance StorageProps.toy_primitives.
#[local] Existing Instance ServerProps.toy_json.

Definition acl1 : Acl.AclManager := Acl.new ["s"] ["r"] [].
Definition out1 : Stream := {| written := []; outcomes := [] |}.
(** A receiver sets up a queue, a sender publishes to it. *)
Definition script : list Step :=
  [Accept 0 "r" "10.0.0.1" out1 1;
   SessionEvent 0 ServerProps.sample_env (Read "declare_queue r_q");
   SessionEvent 0 ServerProps.sample_env (Read "declare_exchange e");
   SessionEvent 0 ServerProps.sample_env (Read "bind r_q e k");
   Accept 1 "s" "10.0.0.2" out1 2;
   SessionEvent 1 ServerProps.sample_env
     (Read (ServerProps.publish_line "e" "k" ServerProps.sample_msg))].
Definition booted : Process (S := Storage.Store) :=
  boot RateLimiter.config1 StorageProps.empty_store 10 60 0.
Definition scripted : Process := run_steps acl1 script booted.

Lemma process_queues_bounded_witness :
  length [("m", ServerProps.sample_msg)] ≤ Nat.max 1 10
  ∧ State.message_id ServerProps.sample_msg = "m".
Proof.
  refine (process_queues_bounded acl1 RateLimiter.config1 StorageProps.empty_store 10 60 0 script
    "r_q" [("m", ServerProps.sample_msg)] ("m", ServerProps.sample_msg) _ _).
  - vm_compute. reflexivity.
  - apply list_elem_of_here.
Defined.

Lemma client_locked_out_witness :
  active (start acl1 "r" "10.0.0.9" 5 out1 9
    (world (run_steps acl1 [SessionEvent 0 ServerProps.sample_env ReadError] scripted))).1 = false.
Proof.
  refine (client_locked_out acl1 scripted [SessionEvent 0 ServerProps.sample_env ReadError]
    5 "r" "10.0.0.9" out1 9 _).
  vm_compute. lia.
Defined.

Lemma unknown_client_no_effect_witness :
  (start acl1 "x" "10.0.0.3" 5 out1 9 (world scripted)).2 = world scripted.
Proof.
  pose proof (unknown_client_no_effect acl1 "x" "10.0.0.3" 5 out1 9 (world scripted)
    ltac:(vm_compute; reflexivity)) as H.
  destruct (start _ _ _ _ _ _ _) as [s w]. apply H.
Defined.

End Broker.
