(* ===== verification/TlsProps.v ===== *)
(** Theorems about mutual TLS ([Tls.v]): who gets a session and under which
    name, and which configurations the programs agree on. *)
From S2P Require Import Prelude RustStr Acl Storage StorageFacts StorageProps State StateInv.
From S2P Require Import RateLimiter Heartbeat Metrics Tls Server ServerFacts ServerProps Broker.
From stdpp Require Import list relations options.

Module TlsProps.
Import RustStr Tls.

(** ** Loading *)

Section Loading.
Context `{L : TlsLib} (files : string → result string string).

(** Reading and adding alternately gives what reading first gives, when either
    succeeds. *)
Lemma read_roots_ok items store r :
  read_roots items store = Ok r ↔ ∃ cs, collect items = Ok cs ∧ add_roots cs store = Ok r.
Proof.
  revert store. induction items as [|[c|e] items IH]; intros store; simpl.
  - split; [intros H; by exists []|]. by intros (cs & [= <-] & ?).
  - destruct (root_add c) as [[]|e] eqn:Hc.
    + rewrite IH. split.
      * intros (cs & -> & Hr). exists (c :: cs). simpl. by rewrite Hc.
      * intros (cs & Hcs & Hr). destruct (collect items) as [cs'|]; simplify_eq/=.
        rewrite Hc in Hr. by exists cs'.
    + split; [done|]. intros (cs & Hcs & Hr). destruct (collect items); simplify_eq/=.
      by rewrite Hc in Hr.
  - split; [done|]. by intros (cs & ? & _).
Qed.

Lemma head_fmap {A B} (f : A → B) l : head (f <$> l) = f <$> head l.
Proof. by destruct l. Qed.

(** The two key searches find the same key. *)
Lemma sender_key_load_key cfg k :
  sender_key files cfg = Ok k ↔ load_key files (client_key_path cfg) = Ok k.
Proof.
  unfold sender_key, load_key, open_context.
  destruct (files (client_key_path cfg)) as [c|e] eqn:Hf; simpl; [|done].
  destruct (collect (pkcs8_private_keys c)) as [keys|]; [|done].
  destruct (pop keys); [done|]. destruct (collect (rsa_private_keys c)) as [rsa|]; [|done].
  destruct (pop rsa); [done|]. destruct (collect (ec_private_keys c)) as [ec|]; [|done].
  by destruct (pop ec).
Qed.

(** With one PKCS8 key in the file, the first is the last. *)
Lemma sender_key_single cfg content key :
  files (client_key_path cfg) = Ok content →
  collect (pkcs8_private_keys content) = Ok [key] →
  sender_key files cfg = Ok (Pkcs8 key).
Proof. intros Hf Hk. unfold sender_key, open_context. by rewrite Hf; simpl; rewrite Hk. Qed.

(** Opening a file succeeds whatever the context of its error. *)
Lemma load_roots_ok c1 c2 path r : load_roots files c1 path = Ok r → load_roots files c2 path = Ok r.
Proof. unfold load_roots, open_context. by destruct (files path). Qed.
Lemma load_chain_ok c1 c2 path r : load_chain files c1 path = Ok r → load_chain files c2 path = Ok r.
Proof. unfold load_chain, open_context. by destruct (files path). Qed.

Lemma client_config_ok store chain key v cc :
  client_config store chain key v = Ok cc →
  client_auth_cert chain key = Ok ()
  ∧ cc = {| roots := store; client_chain := chain; client_key := key; verifier := v |}.
Proof. unfold client_config. destruct (client_auth_cert chain key) as [[]|]; [|done]. by intros [= <-]. Qed.

(** What a connector of the sender or the receiver is made of. *)
Lemma sender_connector_ok cfg cc :
  sender_connector files cfg = Ok cc ↔
  load_roots files "" (certificate_path cfg) = Ok (roots cc)
  ∧ load_chain files "" (client_cert_path cfg) = Ok (client_chain cc)
  ∧ sender_key files cfg = Ok (client_key cc)
  ∧ client_auth_cert (client_chain cc) (client_key cc) = Ok ()
  ∧ verifier cc = choose_verifier (check_hostname cfg).
Proof.
  unfold sender_connector. split.
  - destruct (load_roots files _ _) as [store|] eqn:H1; [|done].
    destruct (load_chain files _ _) as [chain|] eqn:H2; [|done].
    destruct (sender_key files cfg) as [key|] eqn:H3; [|done].
    intros [? ->]%client_config_ok. simpl. repeat split; eauto using load_roots_ok, load_chain_ok.
  - intros (H1 & H2 & H3 & H4 & H5).
    erewrite load_roots_ok by exact H1. erewrite load_chain_ok by exact H2. rewrite H3.
    unfold client_config. rewrite H4, <-H5. by destruct cc.
Qed.

Lemma admin_config_ok tls cc :
  load_tls_config files tls = Ok cc ↔
  load_roots files "" (ca_cert_path tls) = Ok (roots cc)
  ∧ load_chain files "" (admin_cert_path tls) = Ok (client_chain cc)
  ∧ load_key files (admin_key_path tls) = Ok (client_key cc)
  ∧ client_auth_cert (client_chain cc) (client_key cc) = Ok ()
  ∧ verifier cc = WebPkiServerVerifier.
Proof.
  unfold load_tls_config. split.
  - destruct (load_roots files _ _) as [store|] eqn:H1; [|done].
    destruct (load_chain files _ _) as [chain|] eqn:H2; [|done].
    destruct (load_key files _) as [key|] eqn:H3; [|done].
    destruct (client_config _ _ _ _) as [cc'|] eqn:H4; [|done]. intros [= <-].
    apply client_config_ok in H4 as [? ->]. simpl.
    repeat split; eauto using load_roots_ok, load_chain_ok.
  - intros (H1 & H2 & H3 & H4 & H5).
    erewrite load_roots_ok by exact H1. erewrite load_chain_ok by exact H2. rewrite H3.
    unfold client_config. rewrite H4, <-H5. by destruct cc.
Qed.

Lemma receiver_connector_ok cfg cc :
  receiver_connector files cfg = Ok cc →
  load_roots files "" (certificate_path cfg) = Ok (roots cc)
  ∧ load_chain files "" (client_cert_path cfg) = Ok (client_chain cc)
  ∧ client_auth_cert (client_chain cc) (client_key cc) = Ok ()
  ∧ verifier cc = choose_verifier (check_hostname cfg)
  ∧ ∃ content key keys, files (client_key_path cfg) = Ok content
      ∧ collect (pkcs8_private_keys content) = Ok (key :: keys) ∧ client_key cc = Pkcs8 key.
Proof.
  unfold receiver_connector.
  destruct (load_roots files _ _) as [store|] eqn:H1; [|done].
  destruct (load_chain files _ _) as [chain|] eqn:H2; [|done].
  unfold open_context. destruct (files (client_key_path cfg)) as [content|] eqn:H3; simpl; [|done].
  destruct (collect (pkcs8_private_keys content)) as [[|key keys]|] eqn:H4; [done| |done].
  intros [? ->]%client_config_ok. simpl. repeat split; eauto using load_roots_ok, load_chain_ok.
  eauto 10.
Qed.

(** The broker port and the admin port load the same configuration from the
    same files, although one reads all CA certificates before it adds them and
    the other alternates. *)
Lemma acceptors_same cert key ca cfg :
  configure_mtls files cert key ca = Ok cfg ↔ build_acceptor files cert key ca = Ok cfg.
Proof.
  unfold configure_mtls, build_acceptor.
  destruct (files cert) as [c1|]; [|done]. destruct (collect (pem_certs c1)) as [certs|]; [|done].
  destruct (files key) as [c2|]; [|done].
  destruct (collect (pkcs8_private_keys c2)) as [keys|]; [|done]. rewrite head_fmap.
  destruct (head keys) as [k|]; [|done]. simpl. destruct (files ca) as [c3|]; [|done].
  destruct (read_roots (pem_certs c3) []) as [r|] eqn:Hr.
  - apply read_roots_ok in Hr as (cs & -> & ->). done.
  - destruct (collect (pem_certs c3)) as [cs|] eqn:Hcs; [|done].
    destruct (add_roots cs []) as [r|] eqn:Ha; [|done]. exfalso.
    enough (read_roots (pem_certs c3) [] = Ok r) by congruence. apply read_roots_ok. eauto.
Qed.

(** C25: the TLS set-ups of the three clients agree: the admin client has the
    configuration of a sender that checks host names, and a receiver whose key
    file holds one PKCS8 key has that of a sender with the same settings. *)
Theorem connectors_agree tls cfg cc :
  (certificate_path cfg = ca_cert_path tls → client_cert_path cfg = admin_cert_path tls →
   client_key_path cfg = admin_key_path tls → check_hostname cfg = true →
   load_tls_config files tls = Ok cc ↔ sender_connector files cfg = Ok cc)
  ∧ (receiver_connector files cfg = Ok cc →
     (∀ content keys, files (client_key_path cfg) = Ok content →
        collect (pkcs8_private_keys content) = Ok keys → length keys ≤ 1) →
     sender_connector files cfg = Ok cc).
Proof.
  split.
  - intros H1 H2 H3 H4. rewrite admin_config_ok, sender_connector_ok, sender_key_load_key.
    by rewrite H1, H2, H3, H4.
  - intros (H1 & H2 & H4 & H5 & content & key & keys & Hf & Hk & Hc)%receiver_connector_ok Hone.
    apply sender_connector_ok. repeat split; try done.
    specialize (Hone _ _ Hf Hk). destruct keys; simpl in Hone; [|lia].
    by rewrite Hc, (sender_key_single cfg content key).
Qed.

(** C26: without the host-name check the connector of a sender or receiver
    accepts any server certificate for any name, whether or not the CA issued
    it; with the check it accepts exactly what path validation against the CA
    file accepts. The admin client always validates. *)
Theorem server_verification cfg cc tls cc' :
  sender_connector files cfg = Ok cc ∨ receiver_connector files cfg = Ok cc →
  load_tls_config files tls = Ok cc' →
  (∀ ee inter name, verify_server_cert cc ee inter name
     = if check_hostname cfg then webpki_server (roots cc) ee inter name else true)
  ∧ (∀ ee inter name, verify_server_cert cc' ee inter name = webpki_server (roots cc') ee inter name).
Proof.
  intros Hc (_ & _ & _ & _ & Hv')%admin_config_ok.
  assert (verifier cc = choose_verifier (check_hostname cfg)) as Hv.
  { destruct Hc as [Hc|Hc]; [apply sender_connector_ok in Hc|apply receiver_connector_ok in Hc];
      naive_solver. }
  unfold verify_server_cert. rewrite Hv, Hv'. by destruct (check_hostname cfg).
Qed.

(** ** Names *)

(** The admin server uses the name the broker would use, or [unknown]. *)
Lemma extract_admin_cn_spec s :
  extract_admin_cn s = match extract_client_id s with Ok cn => cn | Err _ => "unknown" end.
Proof.
  unfold extract_admin_cn, extract_client_id. destruct (peer_certificates s) as [chain|]; [|done].
  destruct (head chain) as [c|]; [|done]. destruct (parse_x509 c) as [subject|]; [|done].
  by destruct (subject_cn subject).
Qed.

(** A name the sender finds in its certificate is the one the server finds. *)
Lemma own_attributes_cn_ok rdn r :
  Forall (λ a, ∀ s, value_as_str a = Ok s → as_str a = Ok s) rdn →
  own_attributes_cn rdn = Some r →
  match r with Ok cn => attributes_cn rdn = Some cn | Err _ => True end.
Proof.
  intros HF. induction HF as [|a rdn Ha _ IH]; simpl; [done|].
  case_bool_decide; [|exact IH]. intros [= <-].
  destruct (value_as_str a) as [s|] eqn:Hv; simpl; [|done]. by rewrite (Ha s eq_refl).
Qed.
Lemma own_attributes_cn_none rdn : own_attributes_cn rdn = None → attributes_cn rdn = None.
Proof. induction rdn as [|a rdn IH]; simpl; [done|]. by case_bool_decide. Qed.
Lemma own_subject_cn_ok subject cn :
  Forall (Forall (λ a, ∀ s, value_as_str a = Ok s → as_str a = Ok s)) subject →
  own_subject_cn subject = Ok cn → subject_cn subject = Some cn.
Proof.
  intros HF. induction HF as [|rdn subject Hr _ IH]; simpl; [done|].
  destruct (own_attributes_cn rdn) as [r|] eqn:Ho.
  - intros ->. by rewrite (own_attributes_cn_ok _ _ Hr Ho).
  - by rewrite (own_attributes_cn_none _ Ho).
Qed.

End Loading.

(** ** Sessions *)

Section Sessions.
Context {L : TlsLib} {Tcp : Type} {H : Handshakes Tcp} {HL : HandshakeLaws Tcp}.
Context {S : Type} {A : StorageApi S} {J : Json}.

(** A certificate that a configuration's roots vouch for, with its name. *)
Definition vouched (cfg : ServerConfig) (tcp : Tcp) (cn : string) : Prop :=
  ∃ cert rest subject, presented tcp = cert :: rest
    ∧ webpki_client (client_roots cfg) cert rest = true
    ∧ parse_x509 cert = Ok subject ∧ subject_cn subject = Some cn.

Lemma extract_vouched `{!HandshakeLaws Tcp} cfg (tcp : Tcp) s cn :
  accept cfg tcp = Ok s → extract_client_id s = Ok cn → vouched cfg tcp cn.
Proof.
  intros (c & rest & Hp & Hs & Hv)%accept_verified. unfold extract_client_id. rewrite Hs. simpl.
  destruct (parse_x509 c) as [subject|] eqn:Hx; [|done].
  destruct (subject_cn subject) as [cn'|] eqn:Hcn; simpl; [|done]. intros [= ->].
  by exists c, rest, subject.
Qed.

Lemma authenticate_vouched `{!HandshakeLaws Tcp} a (tcp : Tcp) conn :
  authenticate a tcp = Ok conn → vouched (acceptor a) tcp (client_id conn).
Proof.
  unfold authenticate, new_connection. destruct (accept _ tcp) as [s|] eqn:Ha; [|done].
  destruct (extract_client_id s) as [cn|] eqn:He; [|done]. intros [= <-]. by eapply extract_vouched.
Qed.

(** The task [main] spawns for an accepted connection: it authenticates the
    client and runs its session under the certificate's name. *)
Definition connection_task (a : MTlsAuth) (i : nat) (tcp : Tcp) (ip : string)
    (out : Server.Stream) (now : Z) : Broker.Step :=
  match authenticate a tcp with
  | Ok tls_stream => Broker.Accept i (client_id tls_stream) ip out now
  | Err _ => Broker.HandshakeFailed
  end.

(** The inputs of the process: a connection, or a step of another task. *)
Inductive Input :=
| Incoming (i : nat) (tcp : Tcp) (ip : string) (out : Server.Stream) (now : Z)
| Internal (st : Broker.Step) (ok : ∀ i cn ip out now, st ≠ Broker.Accept i cn ip out now).

Definition input_step (a : MTlsAuth) (inp : Input) : Broker.Step :=
  match inp with
  | Incoming i tcp ip out now => connection_task a i tcp ip out now
  | Internal st _ => st
  end.

(** The sessions of a process carry vouched names and the roles of these. *)
Definition certified (a : MTlsAuth) (acl : Acl.AclManager) (p : Broker.Process (S := S)) : Prop :=
  ∀ i s, Broker.sessions p !! i = Some s →
    Server.role s = Acl.resolve_role acl (Server.client_id s)
    ∧ ∃ tcp, vouched (acceptor a) tcp (Server.client_id s).

Lemma certified_set a acl i s w (p : Broker.Process (S := S)) :
  certified a acl p →
  Server.role s = Acl.resolve_role acl (Server.client_id s)
    ∧ (∃ tcp, vouched (acceptor a) tcp (Server.client_id s)) →
  certified a acl (Broker.set_session i s w p).
Proof.
  intros Hp Hs j t. simpl. rewrite lookup_insert_Some. intros [[_ <-]|[_ Ht]]; [done|by apply (Hp j)].
Qed.

Lemma start_identity acl cn ip i out now (w : Server.World S) :
  let s := (Server.start acl cn ip i out now w).1 in
  Server.client_id s = cn ∧ Server.role s = Acl.resolve_role acl cn.
Proof.
  simpl. unfold Server.start. case_decide; [done|].
  destruct (RateLimiter.check_connection _ _ _) as [v rl]. by destruct (negb _).
Qed.

Lemma certified_step `{!HandshakeLaws Tcp} a acl inp (p : Broker.Process (S := S)) :
  certified a acl p → certified a acl (Broker.step acl (input_step a inp) p).
Proof.
  intros Hp. unfold Broker.step. destruct (negb (Broker.serving p)); [done|].
  destruct (input_step a inp) as [i cn ip out now| | |i env ev| | | | |] eqn:Hi; try exact Hp.
  - destruct (Broker.sessions p !! i); [done|].
    pose proof (start_identity acl cn ip i out now (Broker.world p)) as [Hid Hr].
    destruct (Server.start acl cn ip i out now (Broker.world p)) as [s w]. simpl in *.
    apply certified_set; [done|]. rewrite Hid. split; [done|].
    destruct inp as [j tcp ip' out' now'|st Hst]; simpl in Hi; [|by destruct (Hst i cn ip out now)].
    unfold connection_task in Hi. destruct (authenticate a tcp) as [conn|] eqn:Ha; [|done].
    injection Hi as -> <- -> -> ->. exists tcp. by apply authenticate_vouched.
  - destruct (Broker.sessions p !! i) as [s|] eqn:Hs; [|done].
    destruct (Server.active s); [|done].
    destruct (Server.on_event env ev s (Broker.world p)) as [s' w] eqn:He.
    apply ServerFacts.on_event_ops in He as [_ (Hid & _ & Hr & _)].
    apply certified_set; [done|]. rewrite Hid, Hr. by apply (Hp i).
Qed.

(** C6: in any execution of the server every session, running or ended, carries
    the common name of a certificate that path validation against the CA file
    accepted, and has the role the access-control list gives that name. *)
Theorem sessions_authenticated a acl limits st max timeout now inputs i s :
  let p := Broker.run_steps acl (input_step a <$> inputs) (Broker.boot (S := S) limits st max timeout now) in
  Broker.sessions p !! i = Some s →
  Server.role s = Acl.resolve_role acl (Server.client_id s)
  ∧ ∃ (tcp : Tcp) cert rest subject, presented tcp = cert :: rest
      ∧ webpki_client (client_roots (acceptor a)) cert rest = true
      ∧ parse_x509 cert = Ok subject ∧ subject_cn subject = Some (Server.client_id s).
Proof using HL.
  intros p. enough (certified a acl p) as Hc by apply Hc. unfold p, Broker.run_steps.
  assert (certified a acl (Broker.boot (S := S) limits st max timeout now)) as H0
    by (intros j t; simpl; by rewrite lookup_empty).
  revert H0. generalize (Broker.boot (S := S) limits st max timeout now).
  induction inputs as [|inp inputs IH]; intros q Hq; [done|]. simpl.
  apply IH. by apply certified_step.
Qed.

(** The name a sender reads from its own certificate file is the name the
    server gives its session: if the connector loads, the file begins with the
    certificate and the handshake succeeds, authentication yields that name. *)
Theorem sender_identity files a cfg cc content cert rest subject cn (tcp : Tcp) s :
  (** the string types of [x509_parser] agree *)
  Forall (Forall (λ at_, ∀ v, value_as_str at_ = Ok v → as_str at_ = Ok v)) subject →
  (** the file starts with the certificate *)
  files (client_cert_path cfg) = Ok content →
  parse_x509_pem content = Ok cert → collect (pem_certs content) = Ok (cert :: rest) →
  parse_x509 cert = Ok subject →
  (** the sender *)
  sender_client_id files cfg = Ok cn → sender_connector files cfg = Ok cc →
  (** its connection, accepted by the server *)
  presented tcp = client_chain cc → accept (acceptor a) tcp = Ok s →
  authenticate a tcp = Ok {| stream := s; client_id := cn |}.
Proof using HL.
  intros Hstr Hf Hpem Hcerts Hx Hid Hcc Htcp Hacc.
  apply sender_connector_ok in Hcc as (_ & Hchain & _).
  unfold load_chain, open_context in Hchain. rewrite Hf in Hchain. simpl in Hchain.
  rewrite Hcerts in Hchain. injection Hchain as Hchain.
  unfold sender_client_id, open_context in Hid. rewrite Hf in Hid. simpl in Hid.
  rewrite Hpem in Hid. simpl in Hid. rewrite Hx in Hid. simpl in Hid.
  apply own_subject_cn_ok in Hid; [|done].
  destruct (accept_verified _ _ _ Hacc) as (c & r & Hp & Hs & _).
  rewrite Hp, <-Hchain in Htcp. injection Htcp as -> ->.
  unfold authenticate, new_connection, extract_client_id. rewrite Hacc, Hs. simpl.
  by rewrite Hx, Hid.
Qed.

End Sessions.
(** ** Witnesses *)

(** A toy PKI: a file is one certificate or one key, and the certificate of [n]
    is the text [cert:n]; the roots vouch for such texts. *)
Definition toy_name (c : string) : result Subject string :=
  match strip_prefix "cert:" c with
  | Some n => Ok [[{| attr_type := OID_X509_COMMON_NAME; as_str := Ok n; value_as_str := Ok n |}]]
  | None => Err "no certificate"
  end.
#[export] Instance toy_tls : TlsLib := {|
  pem_certs := λ content, [Ok content];
  pkcs8_private_keys := λ content, [Ok content];
  rsa_private_keys := λ _, [];
  ec_private_keys := λ _, [];
  root_add := λ _, Ok ();
  verifier_build := λ r, if bool_decide (r = []) then Err "no roots" else Ok ();
  single_cert := λ _ _, Ok ();
  client_auth_cert := λ _ _, Ok ();
  webpki_client := λ r c _, bool_decide (r = ["ca"]) && starts_with "cert:" c;
  webpki_server := λ r c _ name, bool_decide (r = ["ca"] ∧ c = "cert:" +:+ name);
  parse_x509 := toy_name;
  parse_x509_pem := λ content, Ok content
|}.
#[export] Instance toy_handshakes : Handshakes (list string) := {|
  presented := λ tcp, tcp;
  accept := λ cfg tcp, match tcp with
                       | c :: rest => if webpki_client (client_roots cfg) c rest
                                      then Ok {| peer_certificates := Some tcp |}
                                      else Err "unknown issuer"
                       | [] => Err "no certificate presented"
                       end
|}.
#[export] Instance toy_handshake_laws : HandshakeLaws (list string).
Proof.
  intros cfg tcp s. simpl. destruct tcp as [|c rest]; [done|].
  destruct (bool_decide _ && _) eqn:Hv; [|done]. intros [= <-]. by exists c, rest.
Qed.

Definition toy_files (path : string) : result string string :=
  if decide (path = "ca.crt") then Ok "ca"
  else if decide (path = "client.crt") then Ok "cert:s"
  else if decide (path = "client.key") then Ok "key" else Err "not found".
Definition toy_cfg (check : bool) : TlsConfig :=
  {| certificate_path := "ca.crt"; client_cert_path := "client.crt"; client_key_path := "client.key";
     check_hostname := check |}.
Definition toy_admin_cfg : TlsCfg :=
  {| ca_cert_path := "ca.crt"; admin_cert_path := "client.crt"; admin_key_path := "client.key" |}.
Definition toy_client (v : ServerCertVerifier) : ClientConfig :=
  {| roots := ["ca"]; client_chain := ["cert:s"]; client_key := Pkcs8 "key"; verifier := v |}.
Definition toy_auth : MTlsAuth :=
  {| acceptor := {| client_roots := ["ca"]; server_chain := ["cert:s"]; server_key := Pkcs8 "key" |} |}.

Lemma connectors_agree_witness :
  sender_connector toy_files (toy_cfg true) = Ok (toy_client WebPkiServerVerifier)
  ∧ sender_connector toy_files (toy_cfg true) = Ok (toy_client WebPkiServerVerifier).
Proof.
  split.
  - apply (proj1 (connectors_agree toy_files toy_admin_cfg (toy_cfg true)
      (toy_client WebPkiServerVerifier))); reflexivity.
  - apply (proj2 (connectors_agree toy_files toy_admin_cfg (toy_cfg true)
      (toy_client WebPkiServerVerifier))); [reflexivity|].
    intros content keys [= <-] [= <-]. simpl. lia.
Defined.

Lemma server_verification_witness :
  verify_server_cert (toy_client NoHostnameVerifier) "self-signed" [] "localhost" = true
  ∧ verify_server_cert (toy_client WebPkiServerVerifier) "self-signed" [] "localhost" = false.
Proof.
  destruct (server_verification toy_files (toy_cfg false) (toy_client NoHostnameVerifier)
    toy_admin_cfg (toy_client WebPkiServerVerifier) ltac:(left; reflexivity) ltac:(reflexivity))
    as [H1 H2].
  split; [exact (H1 "self-signed" [] "localhost")|rewrite H2; vm_compute; reflexivity].
Defined.

#[local] Existing Instance StorageProps.toy_primitives.
#[local] Existing Instance ServerProps.toy_json.

Lemma sessions_authenticated_witness :
  ∃ s, Broker.sessions (Broker.run_steps Broker.acl1
         (input_step toy_auth <$> [Incoming 0 ["cert:s"] "10.0.0.1" Broker.out1 1])
         Broker.booted) !! 0 = Some s
    ∧ Server.role s = Acl.Sender
    ∧ ∃ (tcp : list string) cert rest subject, presented tcp = cert :: rest
        ∧ webpki_client ["ca"] cert rest = true
        ∧ parse_x509 cert = Ok subject ∧ subject_cn subject = Some "s".
Proof.
  eexists. split; [vm_compute; reflexivity|].
  apply (sessions_authenticated toy_auth Broker.acl1 RateLimiter.config1 StorageProps.empty_store
    10 60 0 [Incoming 0 ["cert:s"] "10.0.0.1" Broker.out1 1] 0). vm_compute. reflexivity.
Defined.

Lemma sender_identity_witness :
  authenticate toy_auth ["cert:s"]
  = Ok {| stream := {| peer_certificates := Some ["cert:s"] |}; client_id := "s" |}.
Proof.
  refine (sender_identity toy_files toy_auth (toy_cfg false) (toy_client NoHostnameVerifier)
    "cert:s" "cert:s" [] [[{| attr_type := OID_X509_COMMON_NAME; as_str := Ok "s";
                              value_as_str := Ok "s" |}]]
    "s" ["cert:s"] {| peer_certificates := Some ["cert:s"] |} _ _ _ _ _ _ _ _ _); try reflexivity.
  repeat constructor. by intros v.
Defined.

End TlsProps.
