(* ===== verification/AdminServer.v ===== *)
(** The admin server, [server/src/admin_server.rs]: the TLS port on which
    administrators query the state of the broker. Its certificates are in
    [Tls.v]. *)
From S2P Require Import Prelude RustStr Acl Storage StorageFacts State RateLimiter Metrics.
From S2P Require Import Tls Server JsonTree.
From stdpp Require Import list pretty options.
From Stdlib Require Import Ascii.

Module AdminServer.
Import RustStr Server JsonTree.

(** ** Debug output of the connection counts *)

Definition quote : string := String (ascii_of_N 34) "".
Definition backslash : string := String (ascii_of_N 92) "".
Definition hex_digit (n : N) : string :=
  if decide (n < 10)%N then pretty n else String (ascii_of_N (87 + n)) "".
(** [{:?}] of a character of a string; characters beyond ASCII are taken to be
    printable. *)
Definition debug_char (a : ascii) : string :=
  let n := N_of_ascii a in
  if decide (n = 0)%N then backslash +:+ "0"
  else if decide (n = 9)%N then backslash +:+ "t"
  else if decide (n = 10)%N then backslash +:+ "n"
  else if decide (n = 13)%N then backslash +:+ "r"
  else if decide (n = 34)%N then backslash +:+ quote
  else if decide (n = 92)%N then backslash +:+ backslash
  else if decide (n < 16)%N then backslash +:+ "u{" +:+ hex_digit n +:+ "}"
  else if decide (n < 32 ∨ n = 127)%N
  then backslash +:+ "u{" +:+ hex_digit (n / 16) +:+ hex_digit (n mod 16) +:+ "}"
  else String a "".
Fixpoint debug_chars (s : string) : string :=
  match s with EmptyString => "" | String a s => debug_char a +:+ debug_chars s end.
Definition debug_str (s : string) : string := quote +:+ debug_chars s +:+ quote.
(** [{:?}] of a [HashMap<String, usize>] *)
Definition debug_map (m : gmap string nat) : string :=
  "{" +:+ join ", " ((λ kv : string * nat, debug_str kv.1 +:+ ": " +:+ pretty (N.of_nat kv.2))
                      <$> map_to_list m) +:+ "}".

Section Admin.
Context {S : Type} `{A : StorageApi S}.

(** ** The JSON status *)

(** [.map(|q| q.value().len()).sum::<usize>()] *)
Definition total_len {V} (m : gmap string (list V)) : nat :=
  sum_list (length ∘ snd <$> map_to_list m).
(** [m.values().sum::<usize>()] *)
Definition total_count (m : gmap string nat) : nat := sum_list (snd <$> map_to_list m).

Definition queue_json (s : State.ServerState S) (q : string * list State.Entry) : Value :=
  let consumers := default 0 (length <$> State.consumers s !! q.1) in
  obj [("name", JStr q.1);
       ("message_count", num_of_nat (length q.2));
       ("consumer_count", num_of_nat consumers)].
Definition binding_json (exchange : string) (pair : string * string) : Value :=
  obj [("exchange", JStr exchange); ("queue", JStr pair.1); ("routing_key", JStr pair.2)].

(** The value [json_status] prints. *)
Definition status_value (now : Z) (m : Metrics.Metrics) (l : RateLimiter.RateLimiter)
    (s : State.ServerState S) : Value :=
  let snapshot := Metrics.snapshot m in
  let '(ip, cn) := RateLimiter.connection_stats l in
  let queues := queue_json s <$> map_to_list (State.queues s) in
  let bindings := concat ((λ entry : string * list (string * string),
                             binding_json entry.1 <$> entry.2) <$> map_to_list (State.bindings s)) in
  let exchanges := (map_to_list (State.exchanges s)).*1 in
  let total_messages := total_len (State.queues s) in
  let total_consumers := total_len (State.consumers s) in
  obj [("server",
        obj [("name", JStr "CipherMQ Standalone");
             ("uptime_secs", JNum (Metrics.uptime now m));
             ("health", JStr "healthy");
             ("max_queue_size", num_of_nat (State.max_queue_size s))]);
       ("counters",
        obj [("messages_published", JNum (Metrics.messages_published m));
             ("messages_acked", JNum (Metrics.messages_acked m));
             ("messages_delivered", JNum (Metrics.messages_delivered m));
             ("errors_total", JNum (Metrics.errors_total m));
             ("connections_total", JNum (Metrics.connections_total m));
             ("connections_rejected_rate_limit", JNum (Metrics.connections_rejected_rate_limit m));
             ("connections_rejected_conn_limit", JNum (Metrics.connections_rejected_conn_limit m));
             ("requests_rate_limited", JNum (Metrics.requests_rate_limited m))]);
       ("snapshot",
        obj [("connected_clients", JNum (Metrics.connected_clients snapshot));
             ("queue_count", JNum (Metrics.queue_count snapshot));
             ("total_messages", JNum (Metrics.total_messages snapshot));
             ("consumer_count", JNum (Metrics.consumer_count snapshot))]);
       ("live",
        obj [("connected_clients", JNum (State.connected_clients s));
             ("queues", num_of_nat (length queues));
             ("total_messages", num_of_nat total_messages);
             ("total_consumers", num_of_nat total_consumers);
             ("exchanges", num_of_nat (length exchanges))]);
       ("connection_stats",
        obj [("active_by_ip", num_of_nat (total_count ip));
             ("active_by_cn", num_of_nat (total_count cn));
             ("by_ip", of_counts ip);
             ("by_cn", of_counts cn)]);
       ("queues", JArr queues);
       ("bindings", JArr bindings);
       ("exchanges", JArr (JStr <$> exchanges))].

(** ** Commands *)

Context `{J : Serde}.

(** [json_status] *)
Definition json_status (now : Z) (w : World S) : string :=
  print (status_value now (metrics w) (limiter w) (broker w)).

(** The response to a command. *)
Definition respond (now : Z) (cmd : string) (w : World S) : string :=
  if decide (cmd = "json") then json_status now w
  else if decide (cmd = "metrics") then Metrics.render_prometheus now (metrics w)
  else if decide (cmd = "status") then Metrics.render_status now (metrics w)
  else if decide (cmd = "connections") then
    let '(ip, cn) := RateLimiter.connection_stats (limiter w) in
    "By IP: " +:+ debug_map ip +:+ nl +:+ "By CN: " +:+ debug_map cn +:+ nl
  else if decide (cmd = "queues") then
    "Queues: " +:+ pretty (N.of_nat (size (State.queues (broker w)))) +:+ nl
    +:+ "Messages: " +:+ pretty (N.of_nat (total_len (State.queues (broker w)))) +:+ nl
    +:+ "Consumers: " +:+ pretty (N.of_nat (total_len (State.consumers (broker w)))) +:+ nl
  else "Unknown command" +:+ nl.

(** An admin connection: its socket, and whether its task still runs. *)
Record AdminConn := { out : Stream; active : bool }.

(** Writing a text and flushing it; the task ends when either fails. *)
Definition send_text (text : string) (c : AdminConn) : AdminConn :=
  let '(ok, o1) := write_all text (out c) in
  if negb ok then {| out := o1; active := false |}
  else let '(ok', o2) := flush o1 in {| out := o2; active := ok' |}.

Definition banner : string := "CipherMQ Admin" +:+ nl.

(** What [read_line] yields in the command loop. *)
Inductive AdminEvent :=
| Line (line : string)
| Eof
| ReadFailed.

(** One turn of the command loop. *)
Definition on_command (now : Z) (ev : AdminEvent) (w : World S) (c : AdminConn) : AdminConn :=
  if negb (active c) then c
  else match ev with
  | Eof | ReadFailed => {| out := out c; active := false |}
  | Line line =>
      let cmd := trim line in
      if decide (cmd = "quit" ∨ cmd = "exit") then {| out := out c; active := false |}
      else send_text (respond now cmd w +:+ nl) c
  end.

(** ** Connections *)

Context `{L : TlsLib} {Tcp : Type} {H : Tls.Handshakes Tcp}.

(** [serve] up to its loop: the port is bound first. *)
Definition serve_start (files : string → result string string) (bind : string → result () string)
    (address cert key ca : string) : result Tls.ServerConfig string :=
  try _u ← bind address;
  Tls.build_acceptor files cert key ca.

(** The task of a connection up to its command loop. *)
Definition admin_connect (cfg : Tls.ServerConfig) (acl : Acl.AclManager) (tcp : Tcp) (o : Stream)
    : AdminConn :=
  match Tls.accept cfg tcp with
  | Err _ => {| out := o; active := false |}
  | Ok stream =>
      let client_cn := Tls.extract_admin_cn stream in
      if decide (Acl.resolve_role acl client_cn = Acl.Admin)
      then send_text banner {| out := o; active := true |}
      else {| out := o; active := false |}
  end.

End Admin.
End AdminServer.
