(* ===== verification/AdminClient.v ===== *)
(** The admin console, [clients/admin/src/main.rs] and
    [clients/admin/src/poll.rs]: it polls the admin server over one persistent
    TLS session and serves what it got last as a web page.

    [serde]'s derived deserializers become functions on JSON values; the two
    blocking loops of the polling thread become a step function. *)
From S2P Require Import Prelude RustStr Tls Server JsonTree.
From stdpp Require Import list options.
From Stdlib Require Import Ascii.

Module AdminClient.
Import RustStr Server JsonTree.

(** ** Data *)

Record ServerInfo := { name : string; uptime_secs : Z; health : string; max_queue_size : Z }.
Record CounterData := {
  messages_published : Z; messages_acked : Z; messages_delivered : Z; errors_total : Z;
  connections_total : Z; connections_rejected_rate_limit : Z;
  connections_rejected_conn_limit : Z; requests_rate_limited : Z
}.
Record SnapshotData := {
  snap_connected_clients : Z; queue_count : Z; snap_total_messages : Z; snap_consumer_count : Z
}.
Record LiveData := {
  connected_clients : Z; live_queues : Z; total_messages : Z; total_consumers : Z;
  live_exchanges : Z
}.
Record ConnStats := {
  active_by_ip : Z; active_by_cn : Z; by_cn : gmap string Z; by_ip : gmap string Z
}.
Record QueueData := { queue_name : string; message_count : Z; consumer_count : Z }.
Record BindingData := { binding_exchange : string; binding_queue : string; routing_key : string }.
(** [struct NodeData] *)
Record NodeData := {
  server : ServerInfo; counters : CounterData; snapshot : SnapshotData; live : LiveData;
  connection_stats : ConnStats; queues : list QueueData; bindings : list BindingData;
  exchanges : list string; reachable : bool; last_update : string
}.

(** The derived [Default]s. *)
Definition default_node : NodeData :=
  {| server := {| name := ""; uptime_secs := 0; health := ""; max_queue_size := 0 |};
     counters := {| messages_published := 0; messages_acked := 0; messages_delivered := 0;
                    errors_total := 0; connections_total := 0;
                    connections_rejected_rate_limit := 0; connections_rejected_conn_limit := 0;
                    requests_rate_limited := 0 |};
     snapshot := {| snap_connected_clients := 0; queue_count := 0; snap_total_messages := 0;
                    snap_consumer_count := 0 |};
     live := {| connected_clients := 0; live_queues := 0; total_messages := 0;
                total_consumers := 0; live_exchanges := 0 |};
     connection_stats := {| active_by_ip := 0; active_by_cn := 0; by_cn := ∅; by_ip := ∅ |};
     queues := []; bindings := []; exchanges := []; reachable := false; last_update := "" |}.

(** ** The derived deserializers *)

Definition dec_server (v : Value) : option ServerInfo :=
  f ← as_struct 4 v;
  a ← required f 0 "name" dec_string; b ← required f 1 "uptime_secs" dec_u64;
  c ← required f 2 "health" dec_string; d ← required f 3 "max_queue_size" dec_u64;
  Some {| name := a; uptime_secs := b; health := c; max_queue_size := d |}.
Definition dec_counters (v : Value) : option CounterData :=
  f ← as_struct 8 v;
  a ← required f 0 "messages_published" dec_u64; b ← required f 1 "messages_acked" dec_u64;
  c ← required f 2 "messages_delivered" dec_u64; d ← required f 3 "errors_total" dec_u64;
  e ← required f 4 "connections_total" dec_u64;
  g ← required f 5 "connections_rejected_rate_limit" dec_u64;
  h ← required f 6 "connections_rejected_conn_limit" dec_u64;
  i ← required f 7 "requests_rate_limited" dec_u64;
  Some {| messages_published := a; messages_acked := b; messages_delivered := c;
          errors_total := d; connections_total := e; connections_rejected_rate_limit := g;
          connections_rejected_conn_limit := h; requests_rate_limited := i |}.
Definition dec_snapshot (v : Value) : option SnapshotData :=
  f ← as_struct 4 v;
  a ← required f 0 "connected_clients" dec_u64; b ← required f 1 "queue_count" dec_u64;
  c ← required f 2 "total_messages" dec_u64; d ← required f 3 "consumer_count" dec_u64;
  Some {| snap_connected_clients := a; queue_count := b; snap_total_messages := c;
          snap_consumer_count := d |}.
Definition dec_live (v : Value) : option LiveData :=
  f ← as_struct 5 v;
  a ← required f 0 "connected_clients" dec_u64; b ← required f 1 "queues" dec_u64;
  c ← required f 2 "total_messages" dec_u64; d ← required f 3 "total_consumers" dec_u64;
  e ← required f 4 "exchanges" dec_u64;
  Some {| connected_clients := a; live_queues := b; total_messages := c; total_consumers := d;
          live_exchanges := e |}.
Definition dec_conn_stats (v : Value) : option ConnStats :=
  f ← as_struct 4 v;
  a ← required f 0 "active_by_ip" dec_u64; b ← required f 1 "active_by_cn" dec_u64;
  c ← required f 2 "by_cn" dec_counts; d ← required f 3 "by_ip" dec_counts;
  Some {| active_by_ip := a; active_by_cn := b; by_cn := c; by_ip := d |}.
Definition dec_queue (v : Value) : option QueueData :=
  f ← as_struct 3 v;
  a ← required f 0 "name" dec_string; b ← required f 1 "message_count" dec_u64;
  c ← required f 2 "consumer_count" dec_u64;
  Some {| queue_name := a; message_count := b; consumer_count := c |}.
Definition dec_binding (v : Value) : option BindingData :=
  f ← as_struct 3 v;
  a ← required f 0 "exchange" dec_string; b ← required f 1 "queue" dec_string;
  c ← required f 2 "routing_key" dec_string;
  Some {| binding_exchange := a; binding_queue := b; routing_key := c |}.
Definition dec_node (v : Value) : option NodeData :=
  let d := default_node in
  f ← as_struct 10 v;
  s ← defaulted (server d) f 0 "server" dec_server;
  c ← defaulted (counters d) f 1 "counters" dec_counters;
  sn ← defaulted (snapshot d) f 2 "snapshot" dec_snapshot;
  l ← defaulted (live d) f 3 "live" dec_live;
  cs ← defaulted (connection_stats d) f 4 "connection_stats" dec_conn_stats;
  qs ← defaulted [] f 5 "queues" (dec_vec dec_queue);
  bs ← defaulted [] f 6 "bindings" (dec_vec dec_binding);
  es ← defaulted [] f 7 "exchanges" (dec_vec dec_string);
  r ← defaulted false f 8 "reachable" dec_bool;
  u ← defaulted "" f 9 "last_update" dec_string;
  Some {| server := s; counters := c; snapshot := sn; live := l; connection_stats := cs;
          queues := qs; bindings := bs; exchanges := es; reachable := r; last_update := u |}.

(** ** The configuration *)

Record Config := {
  server_name : string; poll_interval_secs : Z; web_address : string; tls : Tls.TlsCfg;
  admin_address : string
}.
Definition dec_tls (v : Value) : option Tls.TlsCfg :=
  f ← as_struct 3 v;
  a ← required f 0 "ca_cert_path" dec_string; b ← required f 1 "client_cert_path" dec_string;
  c ← required f 2 "client_key_path" dec_string;
  Some {| Tls.ca_cert_path := a; Tls.admin_cert_path := b; Tls.admin_key_path := c |}.
Definition dec_config (v : Value) : option Config :=
  f ← as_struct 5 v;
  n ← required f 0 "server_name" dec_string; p ← required f 1 "poll_interval_secs" dec_u64;
  w ← required f 2 "web_address" dec_string; t ← required f 3 "tls" dec_tls;
  a ← required f 4 "server" (λ s, g ← as_struct 1 s; required g 0 "admin_address" dec_string);
  Some {| server_name := n; poll_interval_secs := p; web_address := w; tls := t;
          admin_address := a |}.

Section Console.
Context `{J : Serde}.

(** [serde_json::from_str] at a derived type; error texts are not kept. *)
Definition from_str {A} (dec : Value → option A) (text : string) : option A :=
  match parse text with Ok v => dec v | Err _ => None end.

(** ** The session *)

(** A TLS stream of the console: its writing side, and what its reads yield,
    byte by byte; [None] is a read error (or the read timeout), the end of the
    list is the end of the stream. *)
Record AdminSession := { socket : Stream; input : list (option ascii) }.

Definition newline : ascii := ascii_of_N 10.

(** The banner loop of [connect]. *)
Fixpoint read_banner (inp : list (option ascii)) : result (list (option ascii)) string :=
  match inp with
  | [] => Err "server closed during banner"
  | None :: _ => Err "banner read error"
  | Some byte :: rest => if decide (byte = newline) then Ok rest else read_banner rest
  end.

(** [AdminSession::connect]; [None] when TCP or TLS fails. *)
Definition connect (conn : option AdminSession) : result AdminSession string :=
  match conn with
  | None => Err "TCP connect failed"
  | Some c => try rest ← read_banner (input c); Ok {| socket := socket c; input := rest |}
  end.

(** [BufRead::read_line] into an empty string: the line with its line feed, or
    the rest of the stream; a text that is not UTF-8 is an error. *)
Fixpoint read_until (inp : list (option ascii)) : option string * list (option ascii) :=
  match inp with
  | [] => (Some "", [])
  | None :: rest => (None, rest)
  | Some byte :: rest =>
      if decide (byte = newline) then (Some (String byte ""), rest)
      else let '(line, rest') := read_until rest in (String byte <$> line, rest')
  end.
Definition read_line (c : AdminSession) : result string string * AdminSession :=
  let '(line, rest) := read_until (input c) in
  (match line with
   | Some l => if decide (from_utf8_lossy l = l) then Ok l else Err "read error"
   | None => Err "read error"
   end, {| socket := socket c; input := rest |}).

(** [AdminSession::query] *)
Definition query (command : string) (c : AdminSession) : result string string * AdminSession :=
  let '(ok, s1) := write_all (command +:+ nl) (socket c) in
  if negb ok then (Err "write error", {| socket := s1; input := input c |})
  else
    let '(ok', s2) := flush s1 in
    if negb ok' then (Err "flush error", {| socket := s2; input := input c |})
    else
      let '(r, c1) := read_line {| socket := s2; input := input c |} in
      (match r with
       | Ok response => if is_empty response then Err "server closed connection"
                        else Ok (trim response)
       | Err e => Err e
       end, c1).

(** [s.is_char_boundary(i)] for [i < s.len()] *)
Definition is_char_boundary (i : nat) (s : string) : bool :=
  match String.get i s with Some a => negb (cont a) | None => true end.
(** [if response.len() > 120 { &response[..120] } else { &response }]: slicing
    off a character boundary panics. *)
Definition preview (response : string) : option string :=
  if decide (120 < String.length response) then
    if is_char_boundary 120 response then Some (String.substring 0 120 response) else None
  else Some response.

(** ** The polling thread *)

Inductive Phase :=
| Connecting                  (* before [AdminSession::connect] *)
| Polling (c : AdminSession)  (* in the loop of [run_session] *)
| Panicked.

(** The node the thread shares with the web server, and where the thread is. *)
Record Poller := { node : NodeData; phase : Phase }.

Definition mark_reachable (now : string) (n : NodeData) : NodeData :=
  {| server := server n; counters := counters n; snapshot := snapshot n; live := live n;
     connection_stats := connection_stats n; queues := queues n; bindings := bindings n;
     exchanges := exchanges n; reachable := true; last_update := now |}.
(** [poll_loop] after a session ended *)
Definition mark_unreachable (now : string) (n : NodeData) : NodeData :=
  {| server := {| name := name (server n); uptime_secs := uptime_secs (server n);
                  health := "unreachable"; max_queue_size := max_queue_size (server n) |};
     counters := counters n; snapshot := snapshot n; live := live n;
     connection_stats := connection_stats n; queues := queues n; bindings := bindings n;
     exchanges := exchanges n; reachable := false; last_update := now |}.

(** What happens next: a connection attempt, or a poll for which the given
    input arrives; [now] is the local time, [%H:%M:%S]. *)
Inductive Event :=
| Connect (conn : option AdminSession) (now : string)
| Poll (arrives : list (option ascii)) (now : string).

(** [run_session] up to its loop, and [poll_loop] when it fails. *)
Definition do_connect (conn : option AdminSession) (now : string) (p : Poller) : Poller :=
  match connect conn with
  | Ok c => {| node := node p; phase := Polling c |}
  | Err _ => {| node := mark_unreachable now (node p); phase := Connecting |}
  end.

(** One turn of the loop of [run_session], and [poll_loop] when it ends. *)
Definition do_poll (c : AdminSession) (arrives : list (option ascii)) (now : string) (p : Poller)
    : Poller :=
  match query "json" {| socket := socket c; input := input c ++ arrives |} with
  | (Ok response, c') =>
      match from_str dec_node response with
      | Some data => {| node := mark_reachable now data; phase := Polling c' |}
      | None =>
          match preview response with
          | Some _ => {| node := node p; phase := Polling c' |}
          | None => {| node := node p; phase := Panicked |}
          end
      end
  | (Err _, _) => {| node := mark_unreachable now (node p); phase := Connecting |}
  end.

Definition step (ev : Event) (p : Poller) : Poller :=
  match phase p, ev with
  | Connecting, Connect conn now => do_connect conn now p
  | Polling c, Poll arrives now => do_poll c arrives now p
  | _, _ => p
  end.
(** [poll_loop] *)
Definition poll_loop (evs : list Event) (p : Poller) : Poller := foldl (λ p ev, step ev p) p evs.

(** [api_status]: the web page shows the shared node. *)
Definition api_status (p : Poller) : NodeData := node p.

(** [main] up to the web server: the configuration and the state of the thread
    it starts. *)
Definition main `{L : TlsLib} (files : string → result string string) (arg : option string)
    (bind : string → result () string) : result (Config * Tls.ClientConfig * Poller) string :=
  try content ← files (default "config.json" arg);
  match from_str dec_config content with
  | None => Err "configuration"
  | Some config =>
      try tls_config ← Tls.load_tls_config files (tls config);
      try _u ← bind (web_address config);
      Ok (config, tls_config, {| node := default_node; phase := Connecting |})
  end.

End Console.
End AdminClient.
