(* ===== verification/AdminProps.v ===== *)
(** Theorems about the admin server and the admin console: who is served, what
    the console shows, and when it stops showing it. *)
From S2P Require Import Prelude RustStr Acl Storage StorageFacts StorageProps State StateInv.
From S2P Require Import RateLimiter Heartbeat Metrics Tls Server ServerFacts ServerProps Broker.
From S2P Require Import TlsProps JsonTree AdminServer AdminClient.
From stdpp Require Import list options.
From Stdlib Require Import Ascii.

Module AdminProps.
Import RustStr JsonTree JsonFacts AdminServer AdminClient.

(** ** Decoding *)

(** A struct read from an object literal reads the fields by their names. *)
Lemma dec_server_obj a b c d :
  dec_server (obj [("name", a); ("uptime_secs", b); ("health", c); ("max_queue_size", d)])
  = (a ← dec_string a; b ← dec_u64 b; c ← dec_string c; d ← dec_u64 d;
     Some {| name := a; uptime_secs := b; health := c; max_queue_size := d |}).
Proof. reflexivity. Qed.
Lemma dec_counters_obj a b c d e g h i :
  dec_counters (obj [("messages_published", a); ("messages_acked", b); ("messages_delivered", c);
    ("errors_total", d); ("connections_total", e); ("connections_rejected_rate_limit", g);
    ("connections_rejected_conn_limit", h); ("requests_rate_limited", i)])
  = (a ← dec_u64 a; b ← dec_u64 b; c ← dec_u64 c; d ← dec_u64 d; e ← dec_u64 e; g ← dec_u64 g;
     h ← dec_u64 h; i ← dec_u64 i;
     Some {| messages_published := a; messages_acked := b; messages_delivered := c;
             errors_total := d; connections_total := e; connections_rejected_rate_limit := g;
             connections_rejected_conn_limit := h; requests_rate_limited := i |}).
Proof. reflexivity. Qed.
Lemma dec_snapshot_obj a b c d :
  dec_snapshot (obj [("connected_clients", a); ("queue_count", b); ("total_messages", c);
    ("consumer_count", d)])
  = (a ← dec_u64 a; b ← dec_u64 b; c ← dec_u64 c; d ← dec_u64 d;
     Some {| snap_connected_clients := a; queue_count := b; snap_total_messages := c;
             snap_consumer_count := d |}).
Proof. reflexivity. Qed.
Lemma dec_live_obj a b c d e :
  dec_live (obj [("connected_clients", a); ("queues", b); ("total_messages", c);
    ("total_consumers", d); ("exchanges", e)])
  = (a ← dec_u64 a; b ← dec_u64 b; c ← dec_u64 c; d ← dec_u64 d; e ← dec_u64 e;
     Some {| connected_clients := a; live_queues := b; total_messages := c; total_consumers := d;
             live_exchanges := e |}).
Proof. reflexivity. Qed.
Lemma dec_conn_stats_obj a b c d :
  dec_conn_stats (obj [("active_by_ip", a); ("active_by_cn", b); ("by_ip", c); ("by_cn", d)])
  = (a ← dec_u64 a; b ← dec_u64 b; d ← dec_counts d; c ← dec_counts c;
     Some {| active_by_ip := a; active_by_cn := b; by_cn := d; by_ip := c |}).
Proof. reflexivity. Qed.
Lemma dec_queue_obj a b c :
  dec_queue (obj [("name", a); ("message_count", b); ("consumer_count", c)])
  = (a ← dec_string a; b ← dec_u64 b; c ← dec_u64 c;
     Some {| queue_name := a; message_count := b; consumer_count := c |}).
Proof. reflexivity. Qed.
Lemma dec_node_obj a b c d e f g h :
  dec_node (obj [("server", a); ("counters", b); ("snapshot", c); ("live", d);
    ("connection_stats", e); ("queues", f); ("bindings", g); ("exchanges", h)])
  = (a ← dec_server a; b ← dec_counters b; c ← dec_snapshot c; d ← dec_live d;
     e ← dec_conn_stats e; f ← dec_vec dec_queue f; g ← dec_vec dec_binding g;
     h ← dec_vec dec_string h;
     Some {| server := a; counters := b; snapshot := c; live := d; connection_stats := e;
             queues := f; bindings := g; exchanges := h; reachable := false; last_update := "" |}).
Proof. reflexivity. Qed.

Lemma dec_u64_num n : is_u64 n = true → dec_u64 (JNum n) = Some n.
Proof. simpl. by intros ->. Qed.
Lemma u64_of_nat n : (Z.of_nat n < word_modulus)%Z → is_u64 (Z.of_nat n) = true.
Proof. intros H. unfold is_u64. apply andb_true_intro. split; [apply Z.leb_le|apply Z.ltb_lt]; lia. Qed.
Lemma u64_le n m : n ≤ m → (Z.of_nat m < word_modulus)%Z → is_u64 (Z.of_nat n) = true.
Proof. intros ??. apply u64_of_nat. lia. Qed.

(** *** Sums *)

Lemma sum_list_in n l : n ∈ l → n ≤ sum_list l.
Proof. induction 1; simpl; lia. Qed.
Lemma total_len_le {V} (m : gmap string (list V)) k l : m !! k = Some l → length l ≤ total_len m.
Proof.
  intros H. apply sum_list_in, list_elem_of_fmap. exists (k, l). split; [done|].
  by apply elem_of_map_to_list.
Qed.
Lemma total_count_le (m : gmap string nat) k n : m !! k = Some n → n ≤ total_count m.
Proof.
  intros H. apply sum_list_in, list_elem_of_fmap. exists (k, n). split; [done|].
  by apply elem_of_map_to_list.
Qed.

(** *** Maps of counts *)

Definition small (m : gmap string nat) : Prop := (Z.of_nat (total_count m) < word_modulus)%Z.

Lemma of_counts_values m fs :
  small m → of_counts m = JObj fs →
  Forall (λ kv : string * Value, ∃ n, kv.2 = num_of_nat n ∧ is_u64 (Z.of_nat n) = true) fs.
Proof.
  intros Hm [= <-]. apply obj_Forall, Forall_fmap, Forall_forall. intros [k n] Hk. exists n.
  split; [done|]. eapply u64_le; [|exact Hm]. eapply total_count_le. by apply elem_of_map_to_list.
Qed.

Lemma fits_of_counts n m : small m → fits_in (S n) (of_counts m) = true.
Proof.
  intros Hm. apply fits_obj, Forall_fmap, Forall_forall. intros [k c] Hk.
  change (is_u64 (Z.of_nat c) = true). eapply u64_le; [|exact Hm].
  eapply total_count_le. by apply elem_of_map_to_list.
Qed.

Definition num_value (v : Value) : Z := match v with JNum n => n | _ => 0 end.

Lemma dec_counts_of_counts m : small m → dec_counts (of_counts m) = Some (Z.of_nat <$> m).
Proof.
  intros Hm. destruct (of_counts_fields m) as (fs & Hfs & Hmap).
  pose proof (of_counts_values m fs Hm Hfs) as HF. rewrite Hfs. cbn [dec_counts].
  rewrite (mapM_Some_2 _ _ (prod_map id num_value <$> fs)).
  - cbn [mbind option_bind]. rewrite list_to_map_fmap, Hmap, <-map_fmap_compose. done.
  - apply Forall2_fmap_r, Forall_Forall2_diag. eapply Forall_impl; [exact HF|].
    intros [k v] (n & Hv & Hn). simpl in Hv. subst. cbn [snd]. unfold num_of_nat.
    by rewrite dec_u64_num.
Qed.

Section Console.
Context {S : Type} {A : StorageApi S}.
Implicit Types s : State.ServerState S.

(** ** What the console shows *)

(** The numbers of the status are those of the machine types they come from. *)
Record in_range (now : Z) (m : Metrics.Metrics) (l : RateLimiter.RateLimiter)
    (s : State.ServerState S) : Prop := {
  r_numbers : Forall (λ n, is_u64 n = true)
    [Metrics.uptime now m; Metrics.messages_published m; Metrics.messages_acked m;
     Metrics.messages_delivered m; Metrics.errors_total m; Metrics.connections_total m;
     Metrics.connections_rejected_rate_limit m; Metrics.connections_rejected_conn_limit m;
     Metrics.requests_rate_limited m; Metrics.connected_clients (Metrics.snapshot m);
     Metrics.queue_count (Metrics.snapshot m); Metrics.total_messages (Metrics.snapshot m);
     Metrics.consumer_count (Metrics.snapshot m); State.connected_clients s;
     Z.of_nat (State.max_queue_size s); Z.of_nat (size (State.queues s));
     Z.of_nat (size (State.exchanges s))];
  r_messages : (Z.of_nat (total_len (State.queues s)) < word_modulus)%Z;
  r_consumers : (Z.of_nat (total_len (State.consumers s)) < word_modulus)%Z;
  r_ip : small (RateLimiter.connection_stats l).1;
  r_cn : small (RateLimiter.connection_stats l).2
}.

(** The node data of a state of the server. *)
Definition queue_data (s : State.ServerState S) (q : string * list State.Entry) : QueueData :=
  {| queue_name := q.1; message_count := Z.of_nat (length q.2);
     consumer_count := Z.of_nat (default 0 (length <$> State.consumers s !! q.1)) |}.
Definition binding_data (e : string) (b : string * string) : BindingData :=
  {| binding_exchange := e; binding_queue := b.1; routing_key := b.2 |}.
Definition mirror (now : Z) (m : Metrics.Metrics) (l : RateLimiter.RateLimiter)
    (s : State.ServerState S) : NodeData :=
  {| server := {| name := "CipherMQ Standalone"; uptime_secs := Metrics.uptime now m;
                  health := "healthy"; max_queue_size := Z.of_nat (State.max_queue_size s) |};
     counters :=
       {| messages_published := Metrics.messages_published m;
          messages_acked := Metrics.messages_acked m;
          messages_delivered := Metrics.messages_delivered m;
          errors_total := Metrics.errors_total m;
          connections_total := Metrics.connections_total m;
          connections_rejected_rate_limit := Metrics.connections_rejected_rate_limit m;
          connections_rejected_conn_limit := Metrics.connections_rejected_conn_limit m;
          requests_rate_limited := Metrics.requests_rate_limited m |};
     snapshot :=
       {| snap_connected_clients := Metrics.connected_clients (Metrics.snapshot m);
          queue_count := Metrics.queue_count (Metrics.snapshot m);
          snap_total_messages := Metrics.total_messages (Metrics.snapshot m);
          snap_consumer_count := Metrics.consumer_count (Metrics.snapshot m) |};
     live :=
       {| connected_clients := State.connected_clients s;
          live_queues := Z.of_nat (size (State.queues s));
          total_messages := Z.of_nat (total_len (State.queues s));
          total_consumers := Z.of_nat (total_len (State.consumers s));
          live_exchanges := Z.of_nat (size (State.exchanges s)) |};
     connection_stats :=
       {| active_by_ip := Z.of_nat (total_count (RateLimiter.connection_stats l).1);
          active_by_cn := Z.of_nat (total_count (RateLimiter.connection_stats l).2);
          by_cn := Z.of_nat <$> (RateLimiter.connection_stats l).2;
          by_ip := Z.of_nat <$> (RateLimiter.connection_stats l).1 |};
     queues := queue_data s <$> map_to_list (State.queues s);
     bindings := concat ((λ e : string * list (string * string), binding_data e.1 <$> e.2)
                          <$> map_to_list (State.bindings s));
     exchanges := (map_to_list (State.exchanges s)).*1;
     reachable := false; last_update := "" |}.

Lemma queue_numbers s q l :
  (Z.of_nat (total_len (State.queues s)) < word_modulus)%Z →
  (Z.of_nat (total_len (State.consumers s)) < word_modulus)%Z →
  State.queues s !! q = Some l →
  is_u64 (Z.of_nat (length l)) = true
  ∧ is_u64 (Z.of_nat (default 0 (length <$> State.consumers s !! q))) = true.
Proof.
  intros Hm Hc Hq. split.
  - eapply u64_le; [|exact Hm]. by eapply total_len_le.
  - eapply u64_le; [|exact Hc]. destruct (State.consumers s !! q) eqn:E; simpl; [|lia].
    by eapply total_len_le.
Qed.

Lemma dec_queues_status s :
  (Z.of_nat (total_len (State.queues s)) < word_modulus)%Z →
  (Z.of_nat (total_len (State.consumers s)) < word_modulus)%Z →
  mapM dec_queue (queue_json s <$> map_to_list (State.queues s))
  = Some (queue_data s <$> map_to_list (State.queues s)).
Proof.
  intros Hm Hc. apply mapM_Some_2, Forall2_fmap_l, Forall2_fmap_r, Forall_Forall2_diag, Forall_forall.
  intros [q l] Hq%elem_of_map_to_list. destruct (queue_numbers s q l Hm Hc Hq) as [H1 H2].
  change (dec_queue (queue_json s (q, l)) = Some (queue_data s (q, l))).
  unfold queue_json, num_of_nat. rewrite dec_queue_obj. cbn [fst snd dec_string mbind option_bind].
  by rewrite !dec_u64_num.
Qed.

Lemma dec_bindings_status s :
  mapM dec_binding (concat ((λ e : string * list (string * string), binding_json e.1 <$> e.2)
                             <$> map_to_list (State.bindings s)))
  = Some (concat ((λ e : string * list (string * string), binding_data e.1 <$> e.2)
                   <$> map_to_list (State.bindings (S := S) s))).
Proof.
  apply mapM_Some_2. induction (map_to_list (State.bindings s)) as [|[e bs] l IH]; [constructor|].
  cbn [fmap list_fmap concat fst snd]. apply Forall2_app; [|exact IH].
  apply Forall2_fmap_l, Forall2_fmap_r, Forall_Forall2_diag, Forall_forall. by intros [q k] _.
Qed.

Lemma dec_strings l : mapM dec_string (JStr <$> l) = Some l.
Proof. induction l as [|s l IH]; [done|]. cbn. by rewrite IH. Qed.

(** The console decodes the status of the server, field by field. *)
Lemma dec_status now m l s :
  in_range now m l s → dec_node (status_value now m l s) = Some (mirror now m l s).
Proof.
  intros [HF Hm Hc Hip Hcn]. unfold status_value.
  destruct (RateLimiter.connection_stats l) as [ip cn] eqn:Hl. simpl in Hip, Hcn.
  repeat (apply Forall_cons in HF as [? HF]). clear HF.
  rewrite dec_node_obj, dec_server_obj, dec_counters_obj, dec_snapshot_obj, dec_live_obj,
    dec_conn_stats_obj. unfold num_of_nat. rewrite !length_fmap, !length_map_to_list, !dec_counts_of_counts by done.
  rewrite !dec_u64_num by (done || by apply u64_of_nat).
  cbn [dec_string dec_vec mbind option_bind].
  rewrite dec_queues_status by done. rewrite dec_bindings_status, dec_strings.
  cbn [mbind option_bind]. unfold mirror. by rewrite Hl.
Qed.

Lemma fits_status now m l s : in_range now m l s → fits (status_value now m l s) = true.
Proof.
  intros [HF Hm Hc Hip Hcn]. unfold status_value.
  destruct (RateLimiter.connection_stats l) as [ip cn] eqn:Hl. simpl in Hip, Hcn.
  repeat (apply Forall_cons in HF as [? HF]). clear HF.
  assert (∀ d n, (Z.of_nat n < word_modulus)%Z → fits_in d (num_of_nat n) = true) as Hn
    by (intros [] ?; by apply u64_of_nat).
  apply (fits_mono 3); [lia|]. apply fits_obj. rewrite !length_fmap, !length_map_to_list.
  repeat (apply Forall_cons; split; [cbn [snd];
      lazymatch goal with |- fits_in _ (obj _) = true => apply fits_obj | _ => idtac end|]);
    try first [done|by apply Hn|by apply fits_of_counts].
  - cbn [fits_in]. apply forallb_Forall', Forall_fmap, Forall_forall.
    intros [q es] Hq%elem_of_map_to_list. destruct (queue_numbers s q es Hm Hc Hq) as [? ?].
    apply fits_obj. by repeat (apply Forall_cons; split; [done|]).
  - cbn [fits_in]. apply forallb_Forall'. induction (map_to_list (State.bindings s)) as [|[e bs] bl IH];
      [constructor|]. cbn [fmap list_fmap concat fst snd]. apply Forall_app; split; [|exact IH].
    apply Forall_fmap, Forall_forall. intros [q k] _. apply fits_obj. by repeat (apply Forall_cons; split; [done|]).
  - cbn [fits_in]. apply forallb_Forall', Forall_fmap, Forall_forall. done.
Qed.

(** ** A session *)

Context {J : Serde} {JL : SerdeLaws J}.

(** The bytes of a text, as they arrive. *)
Fixpoint bytes (text : string) : list (option ascii) :=
  match text with EmptyString => [] | String a text => Some a :: bytes text end.

Lemma read_until_line text rest :
  no_char (ascii_of_N 10) text = true →
  read_until (bytes (text +:+ Server.nl) ++ rest) = (Some (text +:+ Server.nl), rest).
Proof.
  induction text as [|a text IH]; intros Hn; [done|]. rewrite app_cons.
  unfold no_char in Hn. cbn [all_chars] in Hn. apply andb_prop in Hn as [Ha Hn].
  apply bool_decide_eq_true in Ha. cbn [bytes app read_until].
  rewrite decide_False by exact Ha. by rewrite (IH Hn).
Qed.

Lemma read_banner_bytes rest : read_banner (bytes banner ++ rest) = Ok rest.
Proof. reflexivity. Qed.

(** The text of a status, read as a line by the console. *)
Lemma print_line `{!SerdeLaws J} v : trim (print v +:+ Server.nl) = print v.
Proof. destruct (print_visible v) as (a & b & Ha & Hb & Va & Vb). by apply (trim_line a b). Qed.

(** A query on a working connection returns the line that arrives. *)
Lemma query_print `{!SerdeLaws J} cmd w v :
  query cmd {| socket := {| Server.written := w; Server.outcomes := [] |};
               input := bytes (print v +:+ Server.nl) |}
  = (Ok (print v), {| socket := {| Server.written := w ++ [cmd +:+ Server.nl];
                                   Server.outcomes := [] |}; input := [] |}).
Proof.
  unfold query. cbn [Server.write_all Server.next_outcome Server.outcomes Server.written socket input
    negb Server.flush].
  unfold read_line. cbn [input socket].
  rewrite <-(List.app_nil_r (bytes _)), read_until_line by apply print_one_line.
  rewrite decide_True by apply print_utf8. cbn [negb].
  destruct (print_visible v) as (a & b & Ha & Hb & Va & Vb).
  assert (is_empty (print v +:+ Server.nl) = false) as -> by (by destruct (print v)).
  by rewrite print_line.
Qed.

(** The two ends of an admin session between polls: both sockets work, nothing
    is under way, and the console has written what the server has read. *)
Record Link := { console : Poller; conn : AdminConn }.
Definition connected (k : Link) : Prop :=
  active (conn k) = true ∧ Server.outcomes (out (conn k)) = []
  ∧ ∃ w, phase (console k)
         = Polling {| socket := {| Server.written := w; Server.outcomes := [] |}; input := [] |}.

(** One poll: the console writes its command, the server answers it in its
    state [w] at time [now], the answer arrives and the console shows it. *)
Definition poll_turn (k : Link) (turn : Z * Server.World S * string) : Link :=
  let '(now, w, hms) := turn in
  let c := on_command now (Line ("json" +:+ Server.nl)) w (conn k) in
  {| console := step (Poll (bytes (default "" (last (Server.written (out c))))) hms) (console k);
     conn := c |}.

(** A session from the handshake on. *)
Definition open_link `{TlsLib} {Tcp} `{!Tls.Handshakes Tcp} (cfg : Tls.ServerConfig)
    (acl : Acl.AclManager) (tcp : Tcp) (now : string) (p : Poller) : Link :=
  let idle_socket := {| Server.written := []; Server.outcomes := [] |} in
  let c := admin_connect cfg acl tcp idle_socket in
  {| console := step (Connect (Some {| socket := idle_socket;
                        input := bytes (default "" (last (Server.written (out c)))) |}) now) p;
     conn := c |}.

Lemma poll_turn_connected `{!SerdeLaws J} k now w hms :
  connected k → in_range now (Server.metrics w) (Server.limiter w) (Server.broker w) →
  connected (poll_turn k (now, w, hms))
  ∧ api_status (console (poll_turn k (now, w, hms)))
    = mark_reachable hms (mirror now (Server.metrics w) (Server.limiter w) (Server.broker w)).
Proof.
  intros (Ha & Ho & ws & Hp) Hr. destruct k as [p [[ow oo] act]]. simpl in Ha, Ho, Hp. subst.
  unfold poll_turn, on_command. cbn [active conn console negb].
  change (trim ("json" +:+ Server.nl)) with "json". rewrite decide_False by (by intros [|]).
  unfold send_text, respond. rewrite decide_True by done.
  cbn [Server.write_all Server.next_outcome Server.outcomes Server.written out negb Server.flush].
  rewrite last_snoc. cbn [default from_option id]. unfold step. rewrite Hp. unfold do_poll.
  unfold json_status. cbn [socket input app].
  rewrite query_print. unfold from_str.
  rewrite parse_print by (by apply fits_status). rewrite dec_status by done.
  split; [|done]. split; [done|]. split; [done|]. by eexists.
Qed.

(** C14: the console shows the server: after an accepted connection of an
    administrator, each poll leaves exactly the data of the server's state at
    that poll on the status page, marked reachable with the time of the poll. *)
Theorem console_tracks_server {L : TlsLib} {Tcp : Type} {H : Tls.Handshakes Tcp}
    (cfg : Tls.ServerConfig) acl (tcp : Tcp) stream t0 p0 turns now w hms :
  Tls.accept cfg tcp = Ok stream → Acl.resolve_role acl (Tls.extract_admin_cn stream) = Acl.Admin →
  phase p0 = Connecting →
  Forall (λ '(now, w, _), in_range now (Server.metrics w) (Server.limiter w) (Server.broker w))
    (turns ++ [(now, w, hms)]) →
  let k := foldl poll_turn (open_link cfg acl tcp t0 p0) (turns ++ [(now, w, hms)]) in
  api_status (console k)
  = mark_reachable hms (mirror now (Server.metrics w) (Server.limiter w) (Server.broker w)).
Proof using JL.
  intros Hacc Hrole Hp HF. cbv zeta.
  assert (connected (open_link cfg acl tcp t0 p0)) as Hk.
  { unfold open_link, admin_connect. rewrite Hacc. rewrite decide_True by done.
    unfold connected. cbn [conn console]. unfold step. rewrite Hp. simpl.
    split; [done|]. split; [done|]. by eexists. }
  revert Hk HF. generalize (open_link cfg acl tcp t0 p0).
  induction turns as [|[[now1 w1] hms1] turns IH]; intros k Hk HF.
  - apply Forall_cons in HF as [Hr _]. by apply poll_turn_connected.
  - simpl in HF. apply Forall_cons in HF as [Hr HF]. simpl. apply IH; [|done].
    by apply poll_turn_connected.
Qed.

(** ** The gate *)

(** C23: only administrators reach the admin port: the server writes its banner
    and serves commands only after a handshake with a verified certificate
    whose name is in the list of administrators (or has no usable name, if the
    list contains [unknown]); everybody else gets no byte. *)
Theorem admin_gate {L : TlsLib} {Tcp : Type} {H : Tls.Handshakes Tcp} {HL : Tls.HandshakeLaws Tcp}
    (cfg : Tls.ServerConfig) acl (tcp : Tcp) o evs :
  let serve := foldl (λ c '(now, ev, w), on_command (S := S) now ev w c)
                 (admin_connect cfg acl tcp o) evs in
  Server.written (out serve) ≠ Server.written o →
  (∃ cn, TlsProps.vouched cfg tcp cn ∧ cn ∈ Acl.admin_cns acl) ∨ "unknown" ∈ Acl.admin_cns acl.
Proof.
  intros serve Hw.
  assert (∀ c, active c = false →
    foldl (λ c '(now, ev, w), on_command (S := S) now ev w c) c evs = c) as Hoff.
  { intros c Hc. clear -Hc. induction evs as [|[[now ev] w] evs IH]; simpl; [done|].
    unfold on_command at 2. by rewrite Hc. }
  unfold serve, admin_connect in Hw. clear serve.
  destruct (Tls.accept cfg tcp) as [s|] eqn:Ha; [|by rewrite Hoff in Hw].
  case_decide as Hr; [|by rewrite Hoff in Hw].
  rewrite TlsProps.extract_admin_cn_spec in Hr. unfold Acl.resolve_role in Hr.
  case_decide as Hin; [|by repeat case_decide].
  destruct (Tls.extract_client_id s) as [cn|] eqn:He; [|by right]. left. exists cn. split; [|done].
  by eapply TlsProps.extract_vouched.
Qed.

(** ** The polling thread *)

(** C38: the status page never calls a server reachable without a session: in any
    execution of the polling thread the node is unreachable whenever the thread
    is about to connect. *)
Theorem disconnected_not_reachable evs :
  phase (poll_loop evs {| node := default_node; phase := Connecting |}) = Connecting →
  reachable (api_status (poll_loop evs {| node := default_node; phase := Connecting |})) = false.
Proof.
  set (I p := phase p = Connecting → reachable (node p) = false). revert evs.
  enough (∀ evs p, I p → I (poll_loop evs p)) as HI by (intros evs; by apply HI).
  intros evs. unfold poll_loop. apply foldl_preserves. intros p ev Hp. unfold step.
  destruct (phase p) as [|c|] eqn:Hph, ev as [cn now|arrives now]; try exact Hp;
    unfold I, do_connect, do_poll; repeat case_match; done.
Qed.

(** C40: a response longer than 120 bytes that is no status and has no character
    boundary at byte 120 stops the polling thread for good: whatever happens
    later, the status page keeps showing the last node, reachable or not. *)
Theorem preview_panic_freezes p c arrives now response c' evs :
  phase p = Polling c →
  query "json" {| socket := socket c; input := input c ++ arrives |} = (Ok response, c') →
  from_str dec_node response = None →
  120 < String.length response → is_char_boundary 120 response = false →
  api_status (poll_loop evs (step (Poll arrives now) p)) = api_status p.
Proof.
  intros Hp Hq Hd Hlen Hb. unfold step. rewrite Hp. unfold do_poll. rewrite Hq, Hd.
  unfold preview. rewrite decide_True by done. rewrite Hb. unfold api_status.
  change (node p) with (node {| node := node p; phase := Panicked |}) at 2. f_equal.
  induction evs as [|ev evs IH]; [done|]. by destruct ev.
Qed.

End Console.
(** ** The counters in an execution *)

(** A property of the metrics that the five counters keep is kept by every
    event and every step of the process: nothing else writes to the metrics. *)
Section Counters.
Context {S : Type} {A : StorageApi S} {J : Json}.
Context (I : Metrics.Metrics → Prop) (HI : ∀ c m, I m → I (Metrics.bump c m)).
Implicit Types w : Server.World S.

Lemma publish_one_metrics s env i e k msg w :
  I (Server.metrics w) → I (Server.metrics (Server.publish_one s env i e k msg w).2).
Proof using HI.
  unfold Server.publish_one. destruct (State.publish _ _ _ _ _ _ _ _) as [[] c]; simpl; auto.
Qed.
Lemma publish_loop_metrics s env e k msgs i w :
  I (Server.metrics w) → I (Server.metrics (Server.publish_loop s env i e k msgs w).1).
Proof using HI.
  revert i w. induction msgs as [|msg msgs IH]; intros i w Hw; [done|]. cbn [Server.publish_loop].
  pose proof (publish_one_metrics s env i e k msg w Hw) as H1.
  destruct (Server.publish_one s env i e k msg w) as [r w1]. pose proof (IH (1 + i) w1 H1) as H2.
  by destruct (Server.publish_loop s env (1 + i) e k msgs w1).
Qed.
Lemma cmd_publish_metrics s env args w :
  I (Server.metrics w) → I (Server.metrics (Server.cmd_publish s env args w).1).
Proof using HI.
  intros Hw. unfold Server.cmd_publish. destruct (splitn 3 Server.space args) as [|e [|k [|m l]]]; try done.
  destruct (json_message m) as [msg|]; [|done].
  pose proof (publish_one_metrics s env 5 e k msg w Hw) as H1.
  by destruct (Server.publish_one s env 5 e k msg w).
Qed.
Lemma cmd_publish_batch_metrics s env args w :
  I (Server.metrics w) → I (Server.metrics (Server.cmd_publish_batch s env args w).1).
Proof using HI.
  intros Hw. unfold Server.cmd_publish_batch.
  destruct (splitn 3 Server.space args) as [|e [|k [|m l]]]; try done.
  destruct (json_batch m) as [msgs|]; [|done].
  pose proof (publish_loop_metrics s env e k msgs 5 w Hw) as H1.
  by destruct (Server.publish_loop s env 5 e k msgs w).
Qed.
Lemma dispatch_metrics s env command args w :
  I (Server.metrics w) → I (Server.metrics (Server.dispatch s env command args w).1).
Proof using HI.
  intros Hw. unfold Server.dispatch.
  repeat (case_decide; [try by auto using cmd_publish_metrics, cmd_publish_batch_metrics|]); [..|done];
    unfold Server.cmd_declare_queue, Server.cmd_declare_exchange, Server.cmd_bind, Server.cmd_consume,
      Server.cmd_resend, Server.cmd_register_public_key, Server.cmd_get_public_key;
    repeat case_match; done.
Qed.
Lemma cmd_ack_metrics s env args w :
  I (Server.metrics w) → I (Server.metrics (Server.cmd_ack s env args w).2).
Proof using HI.
  intros Hw. unfold Server.cmd_ack. destruct (negb (is_empty args)).
  - destruct (Server.write_all _ _) as [[] st1]; simpl; [|by apply HI].
    destruct (Server.flush st1) as [[] st2]; simpl; by apply HI.
  - by destruct (Server.write_all _ _) as [[] st1].
Qed.
Lemma handle_request_metrics env s w :
  I (Server.metrics w) → I (Server.metrics (Server.handle_request env s w).2).
Proof using HI.
  intros Hw. unfold Server.handle_request. destruct (Server.parse_request _) as [command args].
  destruct (Acl.check_command _ command); [|by apply HI].
  destruct (RateLimiter.check _ _ _ _) as [verdict rl].
  destruct (negb _); [by apply HI|]. case_decide.
  - pose proof (cmd_ack_metrics s env args (Server.with_limiter (λ _, rl) (Server.with_monitor
      (Heartbeat.record_heartbeat (Server.client_id s) (Server.instant env 0)) w)) Hw) as H1.
    by destruct (Server.cmd_ack _ _ _ _).
  - pose proof (dispatch_metrics s env command args (Server.with_limiter (λ _, rl)
      (Server.with_monitor (Heartbeat.record_heartbeat (Server.client_id s) (Server.instant env 0)) w))
      Hw) as H1.
    by destruct (Server.dispatch _ _ _ _ _).
Qed.
Lemma on_event_metrics env ev s w :
  I (Server.metrics w) → I (Server.metrics (Server.on_event env ev s w).2).
Proof using HI.
  intros Hw. unfold Server.on_event. destruct (negb _); [done|]. destruct ev as [chunk| | | |]; try done.
  - destruct (is_empty chunk); [done|]. by apply handle_request_metrics.
  - destruct (State.chans _ !! _) as [[op [|[id msg] b]]|]; try done.
    unfold Server.handle_delivery. case_match; [|done]. destruct (negb _); [done|].
    by destruct (Server.deliver_attempts _ _ _ _ _ _) as [[b' st] []].
Qed.
Lemma start_metrics acl cn ip i out now w :
  I (Server.metrics w) → I (Server.metrics (Server.start acl cn ip i out now w).2).
Proof using HI.
  intros Hw. unfold Server.start. case_decide; [done|].
  destruct (RateLimiter.check_connection _ _ _) as [v rl]. destruct (negb _); by apply HI.
Qed.
Lemma process_metrics acl steps (p : Broker.Process (S := S)) :
  I (Server.metrics (Broker.world p)) →
  I (Server.metrics (Broker.world (Broker.run_steps acl steps p))).
Proof using HI.
  assert (∀ s w, Server.metrics (Broker.after_client s w) = Server.metrics (S := S) w) as Hac
    by (intros s w; unfold Broker.after_client; by destruct (Server.active s)).
  unfold Broker.run_steps. apply (foldl_preserves (λ p, I (Server.metrics (Broker.world p)))).
  intros q st Hq. unfold Broker.step. destruct (negb _); [done|].
  destruct st as [i cn ip out now| | |i env ev| | | | |]; try done.
  - destruct (Broker.sessions q !! i); [done|].
    pose proof (start_metrics acl cn ip i out now _ Hq) as H1.
    destruct (Server.start _ _ _ _ _ _ _) as [s w]. simpl in *. by rewrite Hac.
  - destruct (Broker.sessions q !! i) as [s|]; [|done]. destruct (Server.active s); [|done].
    pose proof (on_event_metrics env ev s _ Hq) as H1.
    destruct (Server.on_event _ _ _ _) as [s' w]. simpl in *. by rewrite Hac.
Qed.

End Counters.

(** Four things the pages report never move: in any execution of the server
    the counters of deliveries, errors and rate-limited connections and the
    snapshot keep their initial zeros, and the console shows them as zero. *)
Theorem idle_metrics_stay_zero {S : Type} {A : StorageApi S} {J : Json} acl limits (st : S) max
    timeout t0 steps now :
  let w := Broker.world (Broker.run_steps acl steps (Broker.boot limits st max timeout t0)) in
  let m := Server.metrics w in
  let n := mirror now m (Server.limiter w) (Server.broker w) in
  Metrics.messages_delivered m = 0%Z ∧ Metrics.errors_total m = 0%Z
  ∧ Metrics.connections_rejected_rate_limit m = 0%Z ∧ Metrics.snapshot m = Metrics.snapshot (Metrics.new t0)
  ∧ messages_delivered (counters n) = 0%Z ∧ snapshot n = snapshot default_node.
Proof.
  intros w m n.
  assert (Metrics.messages_delivered m = 0%Z ∧ Metrics.errors_total m = 0%Z
    ∧ Metrics.connections_rejected_rate_limit m = 0%Z
    ∧ Metrics.snapshot m = Metrics.snapshot (Metrics.new t0)) as (H1 & H2 & H3 & H4).
  { by apply (process_metrics (λ m, Metrics.messages_delivered m = 0%Z ∧ Metrics.errors_total m = 0%Z
      ∧ Metrics.connections_rejected_rate_limit m = 0%Z
      ∧ Metrics.snapshot m = Metrics.snapshot (Metrics.new t0))). }
  repeat (split; [done|]). unfold n, mirror. cbn [snapshot]. by rewrite H4.
Qed.

(** ** Witnesses *)

#[local] Existing Instance StorageProps.toy_primitives.
#[local] Existing Instance ServerProps.toy_json.
Import TlsProps.

Definition admin_acl : Acl.AclManager := Acl.new [] [] ["s"].
Definition fresh_world : Server.World Storage.Store := Broker.world Broker.scripted.

Lemma fresh_in_range :
  in_range 0 (Server.metrics fresh_world) (Server.limiter fresh_world) (Server.broker fresh_world).
Proof.
  split; [repeat (apply Forall_cons; split; [vm_compute; reflexivity|]); by apply Forall_nil|..];
    vm_compute; reflexivity.
Qed.

Lemma console_tracks_server_witness :
  api_status (console (poll_turn (open_link (Tls.acceptor toy_auth) admin_acl ["cert:s"] "10:00:00"
     {| node := default_node; phase := Connecting |}) (0%Z, fresh_world, "10:00:05")))
  = mark_reachable "10:00:05" (mirror 0 (Server.metrics fresh_world) (Server.limiter fresh_world)
      (Server.broker fresh_world)).
Proof.
  refine (console_tracks_server (Tls.acceptor toy_auth) admin_acl ["cert:s"]
    {| Tls.peer_certificates := Some ["cert:s"] |} "10:00:00"
    {| node := default_node; phase := Connecting |} [] 0 fresh_world "10:00:05" _ _ _ _).
  - vm_compute. reflexivity.
  - vm_compute. reflexivity.
  - reflexivity.
  - apply Forall_singleton. exact fresh_in_range.
Defined.

Lemma admin_gate_witness :
  (∃ cn, TlsProps.vouched (Tls.acceptor toy_auth) ["cert:s"] cn ∧ cn ∈ Acl.admin_cns admin_acl)
  ∨ "unknown" ∈ Acl.admin_cns admin_acl.
Proof.
  apply (admin_gate (S := Storage.Store) (Tls.acceptor toy_auth) admin_acl ["cert:s"] Broker.out1 []).
  vm_compute. discriminate.
Defined.

Lemma disconnected_not_reachable_witness :
  reachable (api_status (poll_loop [Connect None "10:00:00"]
    {| node := default_node; phase := Connecting |})) = false.
Proof. apply disconnected_not_reachable. reflexivity. Defined.

(** A response of 121 bytes whose bytes 119 and 120 encode one character. *)
Definition e_acute : string := String (ascii_of_N 195) (String (ascii_of_N 169) "").
Definition accented : string := String.concat "" (replicate 119 "x") +:+ e_acute.
Definition showing : Poller :=
  {| node := mark_reachable "10:00:00" default_node;
     phase := Polling {| socket := Broker.out1; input := [] |} |}.

Lemma preview_panic_freezes_witness :
  reachable (api_status (poll_loop [Connect None "11:00:00"; Poll [] "12:00:00"]
    (step (Poll (bytes (accented +:+ Server.nl)) "10:00:05") showing))) = true.
Proof.
  rewrite (preview_panic_freezes showing {| socket := Broker.out1; input := [] |}
    (bytes (accented +:+ Server.nl)) "10:00:05" accented
    {| socket := {| Server.written := ["json" +:+ Server.nl]; Server.outcomes := [] |};
       input := [] |} _ eq_refl); [reflexivity|vm_compute; reflexivity|vm_compute; reflexivity
    |vm_compute; lia|vm_compute; reflexivity].
Defined.

End AdminProps.
