(* ===== verification/Startup.v ===== *)
(** The start and the stop of the server, [server/src/main.rs]: the sequence of
    [main] up to its accept loop, the log files, and the shutdown signal.

    [Broker.v] takes over when the start has succeeded, and its step [Shutdown]
    is the end of the loop modelled here. *)
From S2P Require Import Prelude RustStr Acl Storage StorageFacts StorageProps State RateLimiter.
From S2P Require Import Heartbeat Metrics Config Tls Server ServerProps Broker TlsProps AdminServer.
From stdpp Require Import list relations options.

Module Startup.
Import RustStr.

(** ** Logging *)

Inductive Level := TRACE | DEBUG | INFO | WARN | ERROR.
#[global] Instance Level_eq_dec : EqDecision Level.
Proof. solve_decision. Defined.

Inductive Rotation := Hourly | Daily | Never.
(** A rolling file appender in the working directory. *)
Record Appender := { rotate : Rotation; file : string }.

(** [match config.logging.rotation.as_str()] *)
Definition appender (rotation path : string) : Appender :=
  {| rotate := if decide (rotation = "hourly") then Hourly
               else if decide (rotation = "daily") then Daily else Never;
     file := path |}.

(** The file layers of the subscriber, each with the level it lets pass. *)
Definition file_layers (l : Config.LoggingConfig) : list (Level * Appender) :=
  [(INFO, appender (Config.rotation l) (Config.info_file_path l));
   (DEBUG, appender (Config.rotation l) (Config.debug_file_path l));
   (ERROR, appender (Config.rotation l) (Config.error_file_path l))].
(** The files an event of a level is written to. *)
Definition log_files (l : Config.LoggingConfig) (level : Level) : list string :=
  file ∘ snd <$> filter (λ layer, layer.1 = level) (file_layers l).

(** ** Starting *)

(** The end of [main], or its progress: [?] fails, [unwrap] panics. *)
Inductive Outcome (A E : Type) :=
| Running (a : A)
| Failed (e : E)
| Panic.
Arguments Running {A E} _.
Arguments Failed {A E} _.
Arguments Panic {A E}.
Definition bind {A B E} (m : Outcome A E) (f : A → Outcome B E) : Outcome B E :=
  match m with Running a => f a | Failed e => Failed e | Panic => Panic end.
Notation "'let?' x ← m ; k" := (bind m (λ x, k))
  (at level 20, x name, m at level 100, k at level 200, right associativity).
(** [r?] with the error converted *)
Definition question {A E F} (r : result A E) (f : E → F) : Outcome A F :=
  match r with Ok a => Running a | Err e => Failed (f e) end.
(** [o.unwrap()] *)
Definition unwrap {A E} (o : option A) : Outcome A E :=
  match o with Some a => Running a | None => Panic end.
Definition guard_panic {E} (ok : bool) : Outcome () E := if ok then Running () else Panic.

Inductive MainError :=
| ConfigFailed (e : Config.ConfigError)
| StorageFailed (e : Storage.StorageError)
| Message (text : string).

Section Main.
Context `{P : Primitives} `{L : TlsLib}.

(** What the process finds when it starts: the configuration file, as [main] and
    as the storage actor read it, and its parser, whether the build checks overflows, whether log files can be
    created, the database, the network and the certificate files. *)
Record Io := {
  read_to_string : string → result string string;
  reread_to_string : string → result string string;
  toml_from_str : string → result Config.Config string;
  overflow_checks : bool;
  create_log : Appender → bool;
  connects : list (option string);
  create_metadata : option string;
  create_keys : option string;
  tables : Storage.Db;
  envs : list Storage.Env;
  bind_address : string → result () string;
  files : string → result string string;
  clock : Z
}.

(** The arguments [main] gives the admin server. *)
Record AdminTask := {
  admin_address : string; admin_cert : string; admin_key : string; admin_ca : string
}.

(** The server at the start of its accept loop. *)
Record Started := {
  config : Config.Config;
  acl : Acl.AclManager;
  process : Broker.Process (S := Storage.Store);
  admin : option AdminTask;
  resend : list Storage.MessageMetadata;
  auth : Tls.MTlsAuth
}.

(** [max_size_mb * 1_000_000] on [u64] *)
Definition file_size (io : Io) (c : Config.Config) : Outcome () MainError :=
  guard_panic (negb (overflow_checks io)
               || bool_decide (Config.max_size_mb (Config.logging c) * 1000000 < word_modulus)%Z).

(** The appenders are created one by one; a file that cannot be created makes
    [tracing_appender] panic. *)
Fixpoint create_logs (io : Io) (layers : list (Level * Appender)) : Outcome () MainError :=
  match layers with
  | [] => Running ()
  | (_, a) :: rest => let? _u ← guard_panic (create_log io a); create_logs io rest
  end.

Definition acl_manager (c : Config.Config) : Acl.AclManager :=
  Acl.new (Config.sender_cns (Config.acl c)) (Config.receiver_cns (Config.acl c))
          (Config.admin_cns (Config.acl c)).

(** [if config.admin.enabled { .. }] *)
Definition admin_task (c : Config.Config) : Outcome (option AdminTask) MainError :=
  if Config.admin_enabled (Config.admin c) then
    let? cert ← unwrap (Config.cert_path (Config.tls c));
    let? key ← unwrap (Config.key_path (Config.tls c));
    let? ca ← unwrap (Config.ca_cert_path (Config.tls c));
    Running (Some {| admin_address := Config.admin_address (Config.admin c); admin_cert := cert;
                     admin_key := key; admin_ca := ca |})
  else Running None.

(** The ["tls"] arm up to its loop, and the other arm. *)
Definition listen (io : Io) (c : Config.Config) : Outcome Tls.MTlsAuth MainError :=
  if decide (Config.connection_type (Config.server c) = "tls") then
    let? cert ← question (Tls.ok_or (Config.cert_path (Config.tls c)) "Missing cert_path for TLS") Message;
    let? key ← question (Tls.ok_or (Config.key_path (Config.tls c)) "Missing key_path for TLS") Message;
    let? ca ← question (Tls.ok_or (Config.ca_cert_path (Config.tls c)) "Missing ca_cert_path for TLS")
                Message;
    question (Tls.new_auth (files io) cert key ca) Message
  else Failed (Message "Invalid connection_type in config").

(** [main] up to its accept loop *)
Definition main (io : Io) : Outcome Started MainError :=
  let? c ← question (Config.load (read_to_string io) (toml_from_str io) "config.toml") ConfigFailed;
  let? _size ← file_size io c;
  let? _logs ← create_logs io (file_layers (Config.logging c));
  let? store ← question (Storage.open_storage (connects io) (create_metadata io) (create_keys io)
                           (Config.actor_key (reread_to_string io) (toml_from_str io)) (tables io) (envs io)) StorageFailed;
  let? adm ← admin_task c;
  let? _l ← question (bind_address io (Config.address (Config.server c))) Message;
  let '(rows, store') := Storage.load_unacknowledged_metadata store in
  let? metadata ← question rows StorageFailed;
  let? a ← listen io c;
  Running {| config := c; acl := acl_manager c;
             process := Broker.boot (Config.limiter_config c) store'
                          (Config.max_queue_size (Config.performance c))
                          (Config.heartbeat_timeout (Config.performance c)) (clock io);
             admin := adm; resend := metadata; auth := a |}.

End Main.

(** ** Stopping *)

(** The accept loop as the shutdown sees it: before or between its [select!]s,
    in one with its waiter registered, left by its [break], or ended with the
    process by a signal nobody handles. A waiter that [notify_waiters] has
    reached is [notified]; the branch still has to be chosen. *)
Inductive Loop :=
| Busy
| Selecting (notified : bool)
| Left
| Killed.
Inductive Kind := Sigterm | Sigint.
(** The handlers are installed one after the other by the task that
    [wait_for_signal] spawns, when that task first runs; it then waits for one
    signal ([arrived]), triggers the shutdown and ends. The handlers stay. *)
Record Shutdown := {
  term_handler : bool; int_handler : bool; arrived : bool; ended : bool; accept_loop : Loop
}.

Inductive Step :=
| Select            (* the branches of [select!] are polled and pend *)
| Accepted          (* the branch of [accept] completes *)
| Install (k : Kind) (* the task installs a handler *)
| Arrive (k : Kind)  (* a signal arrives at the process *)
| Trigger           (* the task wakes up and calls [trigger] *)
| Wake.             (* the branch of [shutdown_receiver.wait()] completes *)

(** [trigger]: [Notify::notify_waiters] reaches the registered waiters only. *)
Definition trigger (l : Loop) : Loop :=
  match l with Selecting _ => Selecting true | _ => l end.

Definition set_loop (l : Loop) (s : Shutdown) : Shutdown :=
  {| term_handler := term_handler s; int_handler := int_handler s; arrived := arrived s;
     ended := ended s; accept_loop := l |}.
Definition handled (k : Kind) (s : Shutdown) : bool :=
  match k with Sigterm => term_handler s | Sigint => int_handler s end.

(** A signal without a handler ends the process; one that is handled is kept
    for the task, which may run later. *)
Definition arrive (k : Kind) (s : Shutdown) : Shutdown :=
  if handled k s then
    {| term_handler := term_handler s; int_handler := int_handler s; arrived := true;
       ended := ended s; accept_loop := accept_loop s |}
  else set_loop Killed s.
(** The second handler is installed after the first. *)
Definition install (k : Kind) (s : Shutdown) : Shutdown :=
  {| term_handler := match k with Sigterm => true | Sigint => term_handler s end;
     int_handler := match k with Sigterm => int_handler s | Sigint => int_handler s || term_handler s end;
     arrived := arrived s; ended := ended s; accept_loop := accept_loop s |}.

Definition step (st : Step) (s : Shutdown) : Shutdown :=
  match st, accept_loop s with
  | _, (Left | Killed) => s
  | Select, Busy => set_loop (Selecting false) s
  | Accepted, _ => set_loop Busy s
  | Install k, _ => install k s
  | Arrive k, _ => arrive k s
  | Trigger, l =>
      if int_handler s && arrived s && negb (ended s) then
        {| term_handler := term_handler s; int_handler := int_handler s; arrived := arrived s;
           ended := true; accept_loop := trigger l |}
      else s
  | Wake, Selecting true => set_loop Left s
  | _, _ => s
  end.
Definition run (sts : list Step) (s : Shutdown) : Shutdown := foldl (λ s st, step st s) s sts.

(** After [wait_for_signal], before the loop and before its task runs. *)
Definition spawned : Shutdown :=
  {| term_handler := false; int_handler := false; arrived := false; ended := false;
     accept_loop := Busy |}.

(** ** Lemmas *)

Lemma bind_running {A B E} (m : Outcome A E) (f : A → Outcome B E) b :
  bind m f = Running b ↔ ∃ a, m = Running a ∧ f a = Running b.
Proof. destruct m as [a| |]; simpl; [|naive_solver..]. split; [eauto|]. by intros (a' & [= ->] & ?). Qed.
Lemma question_running {A E F} (r : result A E) (f : E → F) a : question r f = Running a ↔ r = Ok a.
Proof. destruct r; simpl; naive_solver. Qed.
Lemma unwrap_running {A E} (o : option A) a : unwrap (E := E) o = Running a ↔ o = Some a.
Proof. destruct o; simpl; naive_solver. Qed.

(** A configuration that loads is valid. *)
Lemma load_valid_config `{P : Primitives} rd toml path c :
  Config.load rd toml path = Ok c → Config.valid c.
Proof.
  unfold Config.load. destruct (rd path) as [content|]; simpl; [|done].
  destruct (toml content) as [c0|]; simpl; [|done]. intros [Hv ->]%Config.validate_ok.
  by destruct Hv.
Qed.

(** Only the levels of the three files are filed: a warning is written to none. *)
Lemma warnings_not_filed l : log_files l WARN = [] ∧ log_files l TRACE = [].
Proof. done. Qed.

(** A process that no signal stops any more. *)
Definition deaf (s : Shutdown) : Prop :=
  term_handler s = true ∧ int_handler s = true ∧ ended s = true
  ∧ (accept_loop s = Busy ∨ accept_loop s = Selecting false).
Lemma deaf_run sts s : deaf s → deaf (run sts s).
Proof.
  apply foldl_preserves. intros [th ih ar en l] st (H1 & H2 & H3 & H4). simpl in *. subst.
  destruct H4 as [-> | ->], st as [| |[]|[]| |]; repeat split; cbn; auto;
    destruct ar; cbn; auto.
Qed.
Lemma deaf_runs sts s : deaf s → accept_loop (run sts s) ≠ Left ∧ accept_loop (run sts s) ≠ Killed.
Proof. intros (_ & _ & _ & H)%(deaf_run sts). by destruct H as [-> | ->]. Qed.
Lemma signals_run_app sts1 sts2 s : run (sts1 ++ sts2) s = run sts2 (run sts1 s).
Proof. apply foldl_app. Qed.

Section Start.
Context `{P : Primitives} `{L : TlsLib}.

Lemma listen_running io c a :
  listen io c = Running a →
  Config.connection_type (Config.server c) = "tls"
  ∧ ∃ cert key ca, Config.cert_path (Config.tls c) = Some cert
      ∧ Config.key_path (Config.tls c) = Some key ∧ Config.ca_cert_path (Config.tls c) = Some ca
      ∧ Tls.configure_mtls (files io) cert key ca = Ok (Tls.acceptor a).
Proof.
  unfold listen. case_decide as Ht; [|done].
  destruct (Config.cert_path _) as [cert|]; simpl; [|done].
  destruct (Config.key_path _) as [key|]; simpl; [|done].
  destruct (Config.ca_cert_path _) as [ca|]; simpl; [|done].
  rewrite question_running. unfold Tls.new_auth.
  destruct (Tls.configure_mtls _ _ _ _) as [cfg|] eqn:Hc; [|done]. intros [= <-].
  split; [done|]. by exists cert, key, ca.
Qed.

Lemma admin_task_running c adm :
  admin_task c = Running adm →
  adm = None ∧ Config.admin_enabled (Config.admin c) = false
  ∨ ∃ t, adm = Some t ∧ Config.admin_enabled (Config.admin c) = true
      ∧ Config.cert_path (Config.tls c) = Some (admin_cert t)
      ∧ Config.key_path (Config.tls c) = Some (admin_key t)
      ∧ Config.ca_cert_path (Config.tls c) = Some (admin_ca t).
Proof.
  unfold admin_task. destruct (Config.admin_enabled _); [|intros [= <-]; by left].
  destruct (Config.cert_path _) as [cert|]; simpl; [|done].
  destruct (Config.key_path _) as [key|]; simpl; [|done].
  destruct (Config.ca_cert_path _) as [ca|]; simpl; [|done].
  intros [= <-]. right. by eexists.
Qed.

Definition boot_of (io : Io) (c : Config.Config) (store : Storage.Store) :=
  Broker.boot (Config.limiter_config c) store (Config.max_queue_size (Config.performance c))
    (Config.heartbeat_timeout (Config.performance c)) (clock io).

(** C15: a server that starts has a valid configuration for TLS, admits clients
    by the CA of its configuration, runs on the limits, roles and queue size of
    its configuration with an empty broker, and its admin server, started
    exactly when enabled, verifies clients with the same roots, chain and key
    as soon as its port is bound. *)
Theorem start_sound io st :
  main io = Running st →
  let c := config st in
  Config.valid c ∧ Config.connection_type (Config.server c) = "tls"
  ∧ (∃ cert key ca, Config.cert_path (Config.tls c) = Some cert
       ∧ Config.key_path (Config.tls c) = Some key ∧ Config.ca_cert_path (Config.tls c) = Some ca
       ∧ Tls.configure_mtls (files io) cert key ca = Ok (Tls.acceptor (auth st)))
  ∧ acl st = acl_manager c ∧ (∃ store, process st = boot_of io c store)
  ∧ (Config.admin_enabled (Config.admin c) = true ↔ is_Some (admin st))
  ∧ ∀ t, admin st = Some t → ∀ b, b (admin_address t) = Ok () →
      AdminServer.serve_start (files io) b (admin_address t) (admin_cert t) (admin_key t) (admin_ca t)
      = Ok (Tls.acceptor (auth st)).
Proof.
  unfold main. intros H.
  apply bind_running in H as (c & Hc & H). apply question_running in Hc.
  apply bind_running in H as ([] & _ & H). apply bind_running in H as ([] & _ & H).
  apply bind_running in H as (store & _ & H). apply bind_running in H as (adm & Hadm & H).
  apply bind_running in H as ([] & _ & H).
  destruct (Storage.load_unacknowledged_metadata store) as [rows store'].
  apply bind_running in H as (md & _ & H). apply bind_running in H as (a & Ha & H).
  injection H as <-. cbn [config acl process admin auth].
  apply load_valid_config in Hc. apply listen_running in Ha as (Ht & cert & key & ca & H1 & H2 & H3 & Hcfg).
  split; [done|]. split; [done|]. split; [by exists cert, key, ca|]. split; [done|].
  split; [by exists store'|].
  apply admin_task_running in Hadm as [[-> He]|(t & -> & He & E1 & E2 & E3)]; rewrite He.
  - split; [|done]. split; [done|by intros []].
  - split; [split; [by eexists|done]|]. intros t' [= <-] b Hb. unfold AdminServer.serve_start.
    rewrite Hb. apply TlsProps.acceptors_same. congruence.
Qed.

(** A server configured for another connection type never serves: with the
    admin server enabled and a certificate path missing it panics before it
    binds its port; otherwise it connects to the database, binds the port and
    fails only then. *)
Theorem non_tls_start io c store :
  Config.load (read_to_string io) (toml_from_str io) "config.toml" = Ok c →
  Config.connection_type (Config.server c) ≠ "tls" →
  file_size io c = Running () → create_logs io (file_layers (Config.logging c)) = Running () →
  Storage.open_storage (connects io) (create_metadata io) (create_keys io)
    (Config.actor_key (reread_to_string io) (toml_from_str io)) (tables io) (envs io) = Ok store →
  (∀ st, main io ≠ Running st)
  ∧ (Config.admin_enabled (Config.admin c) = true →
     Config.cert_path (Config.tls c) = None ∨ Config.key_path (Config.tls c) = None
       ∨ Config.ca_cert_path (Config.tls c) = None → main io = Panic)
  ∧ (Config.admin_enabled (Config.admin c) = false →
     bind_address io (Config.address (Config.server c)) = Ok () →
     is_ok (Storage.load_unacknowledged_metadata store).1 = true →
     main io = Failed (Message "Invalid connection_type in config")).
Proof.
  intros Hc Ht Hsize Hlogs Hst. unfold main. rewrite Hc. cbn [question bind].
  rewrite Hsize. cbn [bind]. rewrite Hlogs. cbn [bind]. rewrite Hst. cbn [question bind].
  assert (listen io c = Failed (Message "Invalid connection_type in config")) as Hl
    by (unfold listen; by rewrite decide_False).
  destruct (Storage.load_unacknowledged_metadata store) as [rows store'] eqn:Hrows. rewrite Hl.
  split; [|split].
  - intros st. destruct (admin_task c) as [adm| |]; simpl; [|done..].
    destruct (bind_address io _); simpl; [|done]. by destruct rows.
  - intros He Hm. unfold admin_task. rewrite He.
    destruct (Config.cert_path _); simpl; [|done]. destruct (Config.key_path _); simpl; [|done].
    destruct (Config.ca_cert_path _); simpl; [|done]. naive_solver.
  - intros He Hb Hr. unfold admin_task. rewrite He. simpl. rewrite Hb. simpl in Hr |- *.
    by destruct rows.
Qed.

End Start.

(** Before its handler is installed a signal ends the process at once. *)
Lemma early_signal_kills pre k :
  let s := run pre spawned in
  handled k s = false → accept_loop s ≠ Left → accept_loop (run (pre ++ [Arrive k]) spawned) = Killed.
Proof.
  simpl. intros Hh Hl. rewrite signals_run_app. simpl. unfold arrive. rewrite Hh.
  by destruct (accept_loop (run pre spawned)) eqn:E.
Qed.

(** C39: a shutdown signal can be lost for good: once both handlers are
    installed, a signal is only kept for the task that triggers the shutdown.
    When that task runs while the accept loop waits, the loop ends if its branch
    is chosen next, also for a signal that arrived while the loop was busy; but
    when the task runs while the loop is busy, or a connection is accepted before
    the branch is chosen, the shutdown is lost, and as the task has ended no
    later signal of either kind stops the server. *)
Theorem shutdown_signal_lost pre post k :
  let s := run pre spawned in
  handled Sigterm s = true → handled Sigint s = true → ended s = false →
  (∀ b, accept_loop s = Selecting b →
     accept_loop (run (pre ++ [Arrive k; Trigger; Wake]) spawned) = Left
     ∧ let s' := run (pre ++ [Arrive k; Trigger; Accepted] ++ post) spawned in
       accept_loop s' ≠ Left ∧ accept_loop s' ≠ Killed)
  ∧ (accept_loop s = Busy →
     accept_loop (run (pre ++ [Arrive k; Select; Trigger; Wake]) spawned) = Left
     ∧ let s' := run (pre ++ [Arrive k; Trigger] ++ post) spawned in
       accept_loop s' ≠ Left ∧ accept_loop s' ≠ Killed).
Proof.
  cbv zeta. intros H1 H2 H3.
  split; [intros b Hb|intros Hb]; rewrite !signals_run_app;
    destruct (run pre spawned) as [th ih ar en lp]; simpl in *; subst;
    (split; [by destruct k|apply deaf_runs; destruct k; repeat split; simpl; auto]).
Qed.

(** ** Witnesses *)

#[local] Existing Instance StorageProps.toy_primitives.
#[local] Existing Instance TlsProps.toy_tls.

(** A configuration file with the given connection type, TLS paths and admin
    switch, on a machine where everything works. *)
Definition config_with (kind : string) (tls : Config.TlsConfig) (adm : bool) : Config.Config :=
  {| Config.server := {| Config.address := "127.0.0.1:5672"; Config.connection_type := kind |};
     Config.tls := tls;
     Config.logging := Config.logging Config.raw_config;
     Config.database := Config.database Config.raw_config;
     Config.encryption := Config.encryption Config.raw_config;
     Config.performance :=
       {| Config.max_queue_size := 100; Config.heartbeat_timeout := 60;
          Config.cleanup_interval := 3000; Config.consumer_cleanup_interval := 60;
          Config.idle_timeout_sec := 60 |};
     Config.admin := {| Config.admin_enabled := adm; Config.admin_address := "127.0.0.1:9091";
                        Config.allowed_cns := [] |};
     Config.rate_limit := Config.default_rate_limit;
     Config.acl := {| Config.sender_cns := ["s"]; Config.receiver_cns := ["r"];
                      Config.admin_cns := ["a"] |} |}.
Definition machine (c : Config.Config) : Io :=
  {| read_to_string := Ok; reread_to_string := Ok; toml_from_str := λ _, Ok c; overflow_checks := true;
     create_log := λ _, true; connects := []; create_metadata := None; create_keys := None;
     tables := Storage.db StorageProps.sample_worker; envs := []; bind_address := λ _, Ok ();
     files := TlsProps.toy_files; clock := 0 |}.
Definition tls_paths : Config.TlsConfig :=
  {| Config.cert_path := Some "client.crt"; Config.key_path := Some "client.key";
     Config.ca_cert_path := Some "ca.crt" |}.
Definition started : Outcome Started MainError := main (machine (config_with "tls" tls_paths true)).

Lemma start_sound_witness :
  match started with
  | Running st =>
      AdminServer.serve_start TlsProps.toy_files (λ _, Ok ()) "127.0.0.1:9091" "client.crt" "client.key"
        "ca.crt" = Ok (Tls.acceptor (auth st))
  | _ => False
  end.
Proof.
  destruct started as [st| |] eqn:Hs; [|vm_compute in Hs; discriminate|vm_compute in Hs; discriminate].
  pose proof (start_sound (machine (config_with "tls" tls_paths true)) st Hs) as H.
  assert (admin st = Some {| admin_address := "127.0.0.1:9091"; admin_cert := "client.crt";
    admin_key := "client.key"; admin_ca := "ca.crt" |}) as Ha
    by (vm_compute in Hs; injection Hs as <-; reflexivity).
  exact (proj2 (proj2 (proj2 (proj2 (proj2 (proj2 H))))) _ Ha (λ _, Ok ()) eq_refl).
Defined.

Definition no_paths : Config.TlsConfig :=
  {| Config.cert_path := None; Config.key_path := None; Config.ca_cert_path := None |}.
Definition tcp_config (adm : bool) : Config.Config :=
  match Config.validate (config_with "tcp" no_paths adm) with
  | Ok c => c | Err _ => config_with "tcp" no_paths adm
  end.
Definition opened : Storage.Store :=
  match Storage.open_storage [] None None (Config.actor_key Ok (λ _, Ok (tcp_config true)))
          (Storage.db StorageProps.sample_worker) [] with
  | Ok s => s | Err _ => StorageProps.empty_store
  end.

Lemma non_tls_start_witness : main (machine (config_with "tcp" no_paths true)) = Panic.
Proof.
  refine (proj1 (proj2 (non_tls_start (machine (config_with "tcp" no_paths true)) (tcp_config true)
    opened _ _ _ _ _)) _ _).
  - vm_compute. reflexivity.
  - vm_compute. discriminate.
  - vm_compute. reflexivity.
  - vm_compute. reflexivity.
  - vm_compute. reflexivity.
  - vm_compute. reflexivity.
  - left. vm_compute. reflexivity.
Defined.

Definition installed : list Step := [Install Sigterm; Install Sigint; Select; Accepted].
Lemma shutdown_signal_lost_witness :
  accept_loop (run (installed ++ [Arrive Sigint; Select; Trigger; Wake]) spawned) = Left
  ∧ accept_loop (run (installed ++ [Arrive Sigint; Trigger]
      ++ [Select; Arrive Sigterm; Trigger; Wake; Accepted; Select; Wake]) spawned) ≠ Left.
Proof.
  destruct (proj2 (shutdown_signal_lost installed
    [Select; Arrive Sigterm; Trigger; Wake; Accepted; Select; Wake] Sigint eq_refl eq_refl eq_refl)
    eq_refl) as [H1 [H2 _]].
  split; [exact H1|exact H2].
Defined.

End Startup.
