(* ===== verification/Crypto.v ===== *)
(** End-to-end encryption between the clients: [sealed_box_encrypt] and
    [encrypt_message] of [clients/sender_1/src/main.rs], [decrypt_message] of
    [clients/receiver_1/src/main.rs].

    Curve25519, BLAKE2b, XSalsa20-Poly1305 and ChaCha20-Poly1305 are the
    operations of [Ciphers]; keys, nonces and hashes are byte strings, and the
    random bytes of a call are arguments. *)
From S2P Require Import Prelude RustStr Storage.
From stdpp Require Import countable list options.
From Stdlib Require Import Ascii SpecFloat.

(** The crates [x25519_dalek], [blake2], [xsalsa20poly1305] and
    [chacha20poly1305]; errors are their display text. *)
Class Ciphers := {
  x25519_public : string → string;
  x25519_dh : string → string → string;
  blake2b_512 : string → string;
  xsalsa_encrypt : string → string → string → result string string;
  xsalsa_decrypt : string → string → string → result string string;
  chacha_encrypt : string → string → string → result string string;
  chacha_decrypt : string → string → string → result string string
}.

(** Documented behaviour: Diffie-Hellman agrees on both sides, a public key has
    32 bytes, decryption under the same key and nonce inverts encryption, and
    Base64 text is of visible characters. *)
Class CiphersOk (P : Primitives) (K : Ciphers) : Prop := {
  dh_agrees : ∀ a b, x25519_dh a (x25519_public b) = x25519_dh b (x25519_public a);
  public_length : ∀ a, String.length (x25519_public a) = 32;
  xsalsa_round_trip : ∀ k n p c, xsalsa_encrypt k n p = Ok c → xsalsa_decrypt k n c = Ok p;
  chacha_round_trip : ∀ k n p c, chacha_encrypt k n p = Ok c → chacha_decrypt k n c = Ok p;
  base64_round_trip : ∀ x, b64_decode (b64_encode x) = Ok x;
  base64_visible : ∀ x, RustStr.all_chars RustStr.visible (b64_encode x) = true
}.

Module Crypto.
Import RustStr.

Section Crypto.
Context `{P : Primitives} `{K : Ciphers}.

(** The first bytes of a slice, [&s[..n]]. *)
Definition prefix (n : nat) (s : string) : string := String.substring 0 n s.

(** The box nonce, [blake2b(epk || rpk)[..24]]. *)
Definition box_nonce (epk rpk : string) : string := prefix 24 (blake2b_512 (epk +:+ rpk)).

(** ** The sender's side *)

(** [struct PlainMessage] *)
Record PlainMessage := {
  correlation_id : string;
  sender_id : string;
  sent_timestamp : spec_float;
  content : string
}.

(** [struct EncryptedMessage] *)
Record EncryptedMessage := {
  message_id : string;
  receiver_client_id : string;
  enc_session_key : string;
  nonce : string;
  ciphertext : string;
  sent_time : string;
  routing_key : string
}.

(** The random bytes of one encryption: session key, nonce, ephemeral secret. *)
Record Randomness := { session_key : string; nonce_bytes : string; ephemeral : string }.

(** [sealed_box_encrypt] *)
Definition sealed_box_encrypt (plaintext recipient_pub ephemeral_secret : string)
    : result string string :=
  let epk := x25519_public ephemeral_secret in
  let shared := x25519_dh ephemeral_secret recipient_pub in
  try box_ct ← map_err (λ e, "SealedBox encrypt failed: " +:+ e)
                 (xsalsa_encrypt shared (box_nonce epk recipient_pub) plaintext);
  Ok (epk +:+ box_ct).

(** [encrypt_message]; [now] is the current time in RFC 3339 form. *)
Definition encrypt_message (msg : PlainMessage) (public_key_b64 receiver key : string)
    (r : Randomness) (now : string) : result EncryptedMessage string :=
  try pub ← map_err (λ _, "Bad Base64 in receiver public key") (b64_decode (trim public_key_b64));
  if decide (String.length pub = 32) then
    try sealed ← sealed_box_encrypt (session_key r) pub (ephemeral r);
    try ct ← map_err (λ e, "ChaCha20 encrypt failed: " +:+ e)
               (chacha_encrypt (session_key r) (nonce_bytes r) (content msg));
    Ok {| message_id := sender_id msg +:+ "-" +:+ correlation_id msg +:+ "-" +:+ receiver;
          receiver_client_id := receiver;
          enc_session_key := b64_encode sealed;
          nonce := b64_encode (nonce_bytes r);
          ciphertext := b64_encode ct;
          sent_time := now;
          routing_key := key |}
  else Err "Receiver public key must be 32 bytes".

(** [encrypt_for_all_receivers]: a copy for each receiver whose key file can be
    read and used. [key_file] reads [keys/<id>_public.key], [routes] is
    [routing_map], [rs] and [now] give the random bytes and the time of each
    copy. *)
Definition route_for (routes : gmap string string) (receiver : string) : string :=
  default (receiver +:+ "_key") (routes !! (receiver +:+ "_queue")).
Definition encrypt_for (msg : PlainMessage) (key_file : string → option string)
    (routes : gmap string string) (rs : string → Randomness) (now : string → string)
    (receiver : string) : option EncryptedMessage :=
  match key_file receiver with
  | None => None
  | Some text =>
      match encrypt_message msg (trim text) receiver (route_for routes receiver)
              (rs receiver) (now receiver) with
      | Ok em => Some em
      | Err _ => None
      end
  end.
Definition encrypt_for_all_receivers (msg : PlainMessage) (receivers : list string)
    (key_file : string → option string) (routes : gmap string string)
    (rs : string → Randomness) (now : string → string) : list EncryptedMessage :=
  omap (encrypt_for msg key_file routes rs now) receivers.

(** ** The receiver's side *)

(** [struct EncryptedEnvelope] *)
Record EncryptedEnvelope := { env_session_key : string; env_nonce : string; env_ciphertext : string }.

(** [String::from_utf8]: lossy decoding changes exactly the invalid texts. *)
Definition from_utf8 (s : string) : result string string :=
  if decide (from_utf8_lossy s = s) then Ok s else Err "Decrypted payload is not valid UTF-8".

(** [decrypt_message]; [None] is the panic of [from_slice] on a session key or
    a nonce of the wrong length. *)
Definition decrypt_message (e : EncryptedEnvelope) (private_key : string)
    : option (result string string) :=
  match b64_decode (env_session_key e), b64_decode (env_nonce e), b64_decode (env_ciphertext e) with
  | Err _, _, _ => Some (Err "Bad Base64 in enc_session_key")
  | _, Err _, _ => Some (Err "Bad Base64 in nonce")
  | _, _, Err _ => Some (Err "Bad Base64 in ciphertext")
  | Ok sealed, Ok n, Ok ct =>
      if decide (String.length sealed < 32) then Some (Err "SealedBox ciphertext too short")
      else
        let '(epk, box_ct) := Storage.split_at 32 sealed in
        let rpk := x25519_public private_key in
        let shared := x25519_dh private_key epk in
        match xsalsa_decrypt shared (box_nonce epk rpk) box_ct with
        | Err e => Some (Err ("SealedBox inner-box decryption failed: " +:+ e))
        | Ok key =>
            if decide (String.length key = 32 ∧ String.length n = 12) then
              match chacha_decrypt key n ct with
              | Err e => Some (Err ("ChaCha20-Poly1305 decryption failed: " +:+ e))
              | Ok plaintext => Some (from_utf8 plaintext)
              end
            else None
        end
  end.

(** The envelope the receiver reads out of a message. *)
Definition envelope (m : EncryptedMessage) : EncryptedEnvelope :=
  {| env_session_key := enc_session_key m; env_nonce := nonce m; env_ciphertext := ciphertext m |}.

(** ** Lemmas *)

Lemma length_app s t : String.length (s +:+ t) = String.length s + String.length t.
Proof. induction s as [|a s IH]; [done|]. rewrite app_cons. simpl. by rewrite IH. Qed.

Lemma substring_full s : String.substring 0 (String.length s) s = s.
Proof. induction s as [|a s IH]; [done|]. simpl. by rewrite IH. Qed.
Lemma substring_prefix s t : String.substring 0 (String.length s) (s +:+ t) = s.
Proof. induction s as [|a s IH]; [by destruct t|]. rewrite app_cons. simpl. by rewrite IH. Qed.
Lemma substring_suffix s t :
  String.substring (String.length s) (String.length t) (s +:+ t) = t.
Proof. induction s as [|a s IH]; [apply substring_full|]. rewrite app_cons. exact IH. Qed.

Lemma split_at_prefix s t : Storage.split_at (String.length s) (s +:+ t) = (s, t).
Proof.
  unfold Storage.split_at. rewrite length_app, Nat.add_comm, Nat.add_sub.
  by rewrite substring_prefix, substring_suffix.
Qed.

Lemma encrypt_decrypt `{!CiphersOk P K} msg rsk receiver key r now em :
  String.length (session_key r) = 32 → String.length (nonce_bytes r) = 12 →
  from_utf8_lossy (content msg) = content msg →
  encrypt_message msg (b64_encode (x25519_public rsk)) receiver key r now = Ok em →
  decrypt_message (envelope em) rsk = Some (Ok (content msg)).
Proof.
  intros Hk Hn Hu H. unfold encrypt_message in H.
  rewrite trim_all_visible in H by apply base64_visible. rewrite base64_round_trip in H. simpl in H.
  rewrite decide_True in H by apply public_length.
  destruct (sealed_box_encrypt _ _ _) as [sealed|] eqn:Hs; [|done].
  destruct (chacha_encrypt _ _ _) as [ct|] eqn:Hc; [|done]. simpl in H. injection H as <-.
  unfold sealed_box_encrypt in Hs.
  destruct (xsalsa_encrypt _ _ _) as [box_ct|] eqn:Hx; [|done]. simpl in Hs. injection Hs as <-.
  unfold decrypt_message, envelope. cbn [env_session_key env_nonce env_ciphertext enc_session_key
    nonce ciphertext]. rewrite !base64_round_trip.
  rewrite decide_False by (rewrite length_app, public_length; lia).
  rewrite <-(public_length (ephemeral r)) at 1. rewrite split_at_prefix.
  rewrite (dh_agrees rsk), (xsalsa_round_trip _ _ _ _ Hx).
  rewrite decide_True by done. rewrite (chacha_round_trip _ _ _ _ Hc).
  unfold from_utf8. by rewrite decide_True.
Qed.

(** ** Properties *)

(** End-to-end encryption round-trips: what a sender encrypts for the
    public key of a receiver, the receiver's private key decrypts to the same
    text, whatever the random session key, nonce and ephemeral key. *)
Theorem encryption_round_trip `{!CiphersOk P K} msg rsk receiver key r now em :
  String.length (session_key r) = 32 → String.length (nonce_bytes r) = 12 →
  from_utf8_lossy (content msg) = content msg →
  encrypt_message msg (b64_encode (x25519_public rsk)) receiver key r now = Ok em →
  decrypt_message (envelope em) rsk = Some (Ok (content msg))
  ∧ message_id em = sender_id msg +:+ "-" +:+ correlation_id msg +:+ "-" +:+ receiver
  ∧ routing_key em = key.
Proof.
  intros Hk Hn Hu H. split; [by eapply encrypt_decrypt|].
  unfold encrypt_message in H. destruct (map_err _ (b64_decode _)); [|done].
  case_decide; [|done]. destruct (sealed_box_encrypt _ _ _); [|done].
  destruct (map_err _ _); [|done]. by injection H as <-.
Qed.

(** An envelope whose nonce is not 12 bytes long makes the receiver panic
    once its session key opens: any sender can stop a receiver. *)
Theorem bad_nonce_panics `{!CiphersOk P K} rsk eph key n ct sealed :
  sealed_box_encrypt key (x25519_public rsk) eph = Ok sealed → String.length n ≠ 12 →
  decrypt_message {| env_session_key := b64_encode sealed; env_nonce := b64_encode n;
                     env_ciphertext := b64_encode ct |} rsk = None.
Proof.
  intros Hs Hn. unfold sealed_box_encrypt in Hs.
  destruct (xsalsa_encrypt _ _ _) as [box_ct|] eqn:Hx; [|done]. simpl in Hs. injection Hs as <-.
  unfold decrypt_message. cbn [env_session_key env_nonce env_ciphertext].
  rewrite !base64_round_trip. rewrite decide_False by (rewrite length_app, public_length; lia).
  rewrite <-(public_length eph) at 1. rewrite split_at_prefix.
  rewrite (dh_agrees rsk), (xsalsa_round_trip _ _ _ _ Hx). rewrite decide_False; [done|].
  by intros [].
Qed.

End Crypto.

(** ** Witnesses *)

(** A printable code for byte strings, and ciphers that leave the text alone;
    keys are padded to 32 bytes. *)
Definition plain_base64 : Primitives := {|
  b64_encode := λ x, bits (encode x);
  b64_decode := λ s, match unbits s ≫= decode with Some x => Ok x | None => Err "bad" end;
  gcm_encrypt := λ _ _ p, Ok p;
  gcm_decrypt := λ _ _ c, Ok c
|}.
Definition key32 : string := "0123456789abcdef0123456789abcdef".
Definition plain_ciphers : Ciphers := {|
  x25519_public := λ _, key32;
  x25519_dh := λ _ _, key32;
  blake2b_512 := λ x, x;
  xsalsa_encrypt := λ _ _ p, Ok p;
  xsalsa_decrypt := λ _ _ c, Ok c;
  chacha_encrypt := λ _ _ p, Ok p;
  chacha_decrypt := λ _ _ c, Ok c
|}.

Lemma plain_ciphers_ok : CiphersOk plain_base64 plain_ciphers.
Proof.
  split; try done.
  - intros x. cbn [b64_decode b64_encode plain_base64]. rewrite unbits_bits.
    change (Some (encode x) ≫= decode) with (decode (A := string) (encode x)).
    by rewrite decode_encode.
  - intros x. apply bits_visible.
Qed.

Definition hello : PlainMessage :=
  {| correlation_id := "1234"; sender_id := "s"; sent_timestamp := S754_zero false; content := "hello" |}.
Definition dice : Randomness :=
  {| session_key := key32; nonce_bytes := "abcdefghijkl"; ephemeral := "e" |}.
Definition hello_encrypted : EncryptedMessage :=
  match encrypt_message (P := plain_base64) (K := plain_ciphers) hello
          (@b64_encode plain_base64 key32) "r" "r_key" dice "now" with
  | Ok em => em
  | Err _ => {| message_id := ""; receiver_client_id := ""; enc_session_key := ""; nonce := "";
                ciphertext := ""; sent_time := ""; routing_key := "" |}
  end.

Lemma encryption_round_trip_witness :
  decrypt_message (P := plain_base64) (K := plain_ciphers) (envelope hello_encrypted) "secret"
  = Some (Ok "hello").
Proof.
  refine (proj1 (encryption_round_trip (P := plain_base64) (K := plain_ciphers)
    (CiphersOk0 := plain_ciphers_ok) hello "secret" "r" "r_key" dice "now" hello_encrypted
    eq_refl eq_refl _ _)); vm_compute; reflexivity.
Defined.

Lemma bad_nonce_panics_witness :
  decrypt_message (P := plain_base64) (K := plain_ciphers)
    {| env_session_key := @b64_encode plain_base64 (key32 +:+ key32);
       env_nonce := @b64_encode plain_base64 "short";
       env_ciphertext := @b64_encode plain_base64 "x" |} "secret" = None.
Proof.
  refine (bad_nonce_panics (P := plain_base64) (K := plain_ciphers)
    (CiphersOk0 := plain_ciphers_ok) "secret" "e" key32 "short" "x" (key32 +:+ key32) _ _).
  - vm_compute. reflexivity.
  - discriminate.
Defined.

End Crypto.
