(* ===== verification/Client.v ===== *)
(** What the two client programs share: a connection as they use it during
    their set-up ([send_recv]), as a monad of its own, and the clock. *)
From S2P Require Import Prelude RustStr RateLimiter Server.
From stdpp Require Import list options.
From Stdlib Require Import SpecFloat.

Module Client.
Import RustStr Server.

(** A connection: the writing half, and the outcomes of the next [read_line]
    calls ([None] is a read error; after the last one the peer has closed). *)
Record Conn := { socket : Stream; replies : list (option string) }.

(** Computations over a connection that may fail: the text of an I/O error is
    not kept. *)
Definition M (A : Type) : Type := Conn → result A string * Conn.
#[export] Instance M_ret : MRet M := λ A x c, (Ok x, c).
#[export] Instance M_bind : MBind M := λ A B f m c,
  let '(r, c1) := m c in
  match r with Ok x => f x c1 | Err e => (Err e, c1) end.
Definition fail {A} (e : string) : M A := λ c, (Err e, c).

Definition write_text (text : string) : M () := λ c,
  let '(ok, st) := write_all text (socket c) in
  (if ok then Ok () else Err "write error", {| socket := st; replies := replies c |}).
Definition flush_socket : M () := λ c,
  let '(ok, st) := flush (socket c) in
  (if ok then Ok () else Err "flush error", {| socket := st; replies := replies c |}).
(** [read_line] into an empty string; nothing is read at the end. *)
Definition read_line : M string := λ c,
  match replies c with
  | [] => (Ok "", c)
  | Some line :: rest => (Ok line, {| socket := socket c; replies := rest |})
  | None :: rest => (Err "read error", {| socket := socket c; replies := rest |})
  end.

(** [send_recv], the same in both programs. *)
Definition send_recv (cmd : string) : M string :=
  _ ← write_text cmd; _ ← flush_socket; line ← read_line; mret (trim line).

(** [Utc::now().timestamp_millis() as f64 / 1000.0] *)
Definition timestamp_secs (millis : Z) : spec_float :=
  RateLimiter.f64_div (RateLimiter.f64_of_Z millis) (RateLimiter.f64_of_Z 1000).

(** ** Lemmas *)

(** On a working connection a request is written and the reply read. *)
Lemma send_recv_ok cmd w line rest :
  send_recv cmd {| socket := {| written := w; outcomes := [] |}; replies := Some line :: rest |}
  = (Ok (trim line), {| socket := {| written := w ++ [cmd]; outcomes := [] |}; replies := rest |}).
Proof. done. Qed.

End Client.
