(* ===== verification/Receiver.v ===== *)
(** The receiver program, [clients/receiver_1/src/main.rs]: the handshake, the
    loop that reads, decrypts and acknowledges messages, the tasks that run
    beside it (acknowledgements, heartbeats, storing in batches), and the
    connection loop of [main].

    The tasks share the running flag, the socket and two channels; a [System]
    is their joint state and [step] lets one of them make a turn, from one point
    where it waits to the next. *)
From S2P Require Import Prelude RustStr Storage State JsonTree Server Crypto Client.
From stdpp Require Import list options.
From Stdlib Require Import Ascii SpecFloat.

(** [struct StoredRecord]; [message] is the text of its ["content"] member. *)
Record StoredRecord := { message_id : string; message : string; timestamp : spec_float }.

(** The derived [Deserialize] of [EncryptedEnvelope]. *)
Definition dec_envelope (v : JsonTree.Value) : option Crypto.EncryptedEnvelope :=
  f ← JsonTree.as_struct 3 v;
  a ← JsonTree.required f 0 "enc_session_key" JsonTree.dec_string;
  b ← JsonTree.required f 1 "nonce" JsonTree.dec_string;
  c ← JsonTree.required f 2 "ciphertext" JsonTree.dec_string;
  Some {| Crypto.env_session_key := a; Crypto.env_nonce := b; Crypto.env_ciphertext := c |}.

(** [serde_json] at [EncryptedEnvelope] and at [StoredRecord]. *)
Class ReceiverJson := {
  json_envelope : string → result Crypto.EncryptedEnvelope string;
  record_json : StoredRecord → result string string
}.

Module Receiver.
Import RustStr Server Client.

(** [struct Config], without the address and the settings of TLS and logging *)
Record Config := { queue_name : string; exchange_name : string; routing_key : string }.

Section Receiver.
Context `{P : Primitives} `{K : Ciphers} `{RJ : ReceiverJson}.

(** ** Key files *)

(** [load_private_key] on the text of the file, if it can be read. *)
Definition load_private_key (file : option string) : result string string :=
  match file with
  | None => Err "Cannot open keys/receiver_private.key"
  | Some raw =>
      match b64_decode (trim raw) with
      | Err _ => Err "Invalid Base64 in private key file"
      | Ok key => if decide (String.length key = 32) then Ok key
                  else Err "Private key must be exactly 32 bytes"
      end
  end.
(** [load_public_key_bytes] *)
Definition load_public_key_bytes (file : option string) : result string string :=
  match file with
  | None => Err "Cannot open keys/receiver_public.key"
  | Some raw => map_err (λ _, "Invalid Base64 in public key file") (b64_decode (trim raw))
  end.

(** ** The handshake *)

Definition register_line (key : string) : string :=
  "register_public_key " +:+ b64_encode key +:+ nl.
Definition declare_queue_line (q : string) : string := "declare_queue " +:+ q +:+ nl.
Definition declare_exchange_line (e : string) : string := "declare_exchange " +:+ e +:+ nl.
Definition bind_line (q e k : string) : string :=
  "bind " +:+ q +:+ " " +:+ e +:+ " " +:+ k +:+ nl.
Definition consume_line (q : string) : string := "consume " +:+ q +:+ nl.

(** [register_public_key] *)
Definition register_public_key (pub : option string) : M bool :=
  match load_public_key_bytes pub with
  | Err e => fail e
  | Ok key => response ← send_recv (register_line key);
              mret (bool_decide (response = "Public key registered"))
  end.
(** [configure_server]: the responses are only logged. *)
Definition configure_server (q e k : string) : M () :=
  _ ← send_recv (declare_queue_line q);
  _ ← send_recv (declare_exchange_line e);
  _ ← send_recv (bind_line q e k);
  mret ().
(** The handshake of [receive_loop]: whether the queue was subscribed to. *)
Definition handshake (cfg : Config) (pub : option string) : M bool :=
  registered ← register_public_key pub;
  if (registered : bool) then
    _ ← configure_server (queue_name cfg) (exchange_name cfg) (routing_key cfg);
    _ ← write_text (consume_line (queue_name cfg));
    _ ← flush_socket;
    mret true
  else mret false.

(** ** The storing task *)

Definition BATCH : nat := 100.
(** Where [process_messages_task] is: waiting for a message, past its timeout
    with the flag still to be looked at, or ended. *)
Inductive WriterStage := Receiving | Deciding | Done.
#[global] Instance WriterStage_eq_dec : EqDecision WriterStage.
Proof. solve_decision. Defined.
Record Writer := { file : Stream; batch : list StoredRecord; wstage : WriterStage }.

(** The start of [process_messages_task]: [None] when the directory or the file
    cannot be opened, and the task returns. *)
Definition start_writer (dir_ok open_ok : bool) (f : Stream) : option Writer :=
  if dir_ok && open_ok then Some {| file := f; batch := []; wstage := Receiving |} else None.

(** [flush_batch]: the records that serialize are written, one per line; the
    results of the writes are ignored. *)
Definition write_record (out : Stream) (rec : StoredRecord) : Stream :=
  match record_json rec with
  | Ok line => (write_all nl (write_all line out).2).2
  | Err _ => out
  end.
Definition flush_batch (w : Writer) : Writer :=
  {| file := (flush (foldl write_record (file w) (batch w))).2; batch := []; wstage := wstage w |}.
Definition flush_pending (w : Writer) : Writer :=
  if decide (batch w = []) then w else flush_batch w.
Definition at_stage (st : WriterStage) (w : Writer) : Writer :=
  {| file := file w; batch := batch w; wstage := st |}.

(** The arms of the loop of [process_messages_task]: a message at a time given
    in milliseconds; the timeout of five seconds, after which the batch is
    written; and the look at the flag after it, which ends the loop or not.
    The arm for a closed channel is never taken: [main] keeps a sender until
    the task has ended. *)
Definition on_message (msg : string * string) (now : Z) (w : Writer) : Writer :=
  let rec := {| message_id := msg.1; message := msg.2; timestamp := timestamp_secs now |} in
  let w1 := {| file := file w; batch := batch w ++ [rec]; wstage := wstage w |} in
  if decide (BATCH ≤ length (batch w1)) then flush_batch w1 else w1.
Definition on_timeout (w : Writer) : Writer := at_stage Deciding (flush_pending w).
Definition finish (w : Writer) : Writer :=
  {| file := (flush (file w)).2; batch := batch w; wstage := Done |}.
Definition on_decide (running : bool) (w : Writer) : Writer :=
  if running then at_stage Receiving w else finish w.

(** ** The tasks together *)

(** Where the tasks of a connection are. Each looks at the flag and then waits
    (for a line, for an identifier to acknowledge, for thirty seconds) while
    the others go on; the flag may be cleared meanwhile. *)
Inductive LoopStage := LoopTesting | LoopReading | LoopEnded.
Inductive AckStage := AckTesting | AckWaiting | AckSending (id : string) | AckEnded.
Inductive BeatStage := BeatTesting | BeatSleeping | BeatWriting | BeatEnded.

(** The joint state: the locals of [receive_loop], the channel and state of the
    storing task ([None]: it returned), the channel of the acknowledging task,
    the socket and the running flag. [accepted] is history: the messages
    decrypted on this connection. *)
Record System := {
  processed : gset string;
  consecutive_empty : nat;
  accepted : list (string * string);
  loop : LoopStage;
  msg_channel : list (string * string);
  writer : option Writer;
  acker : AckStage;
  ack_channel : list string;
  beater : BeatStage;
  stream : Stream;
  running : bool
}.
Definition with_loop p n acc l msgs acks (s : System) : System :=
  {| processed := p; consecutive_empty := n; accepted := acc; loop := l;
     msg_channel := msgs; writer := writer s; acker := acker s; ack_channel := acks;
     beater := beater s; stream := stream s; running := running s |}.
Definition at_loop n l (s : System) : System :=
  with_loop (processed s) n (accepted s) l (msg_channel s) (ack_channel s) s.
Definition with_writer msgs w (s : System) : System :=
  {| processed := processed s; consecutive_empty := consecutive_empty s; accepted := accepted s;
     loop := loop s; msg_channel := msgs; writer := w; acker := acker s;
     ack_channel := ack_channel s; beater := beater s; stream := stream s; running := running s |}.
Definition with_acker a acks st (s : System) : System :=
  {| processed := processed s; consecutive_empty := consecutive_empty s; accepted := accepted s;
     loop := loop s; msg_channel := msg_channel s; writer := writer s; acker := a;
     ack_channel := acks; beater := beater s; stream := st; running := running s |}.
Definition with_beater b st (s : System) : System :=
  {| processed := processed s; consecutive_empty := consecutive_empty s; accepted := accepted s;
     loop := loop s; msg_channel := msg_channel s; writer := writer s; acker := acker s;
     ack_channel := ack_channel s; beater := b; stream := st; running := running s |}.
Definition with_running b (s : System) : System :=
  {| processed := processed s; consecutive_empty := consecutive_empty s; accepted := accepted s;
     loop := loop s; msg_channel := msg_channel s; writer := writer s; acker := acker s;
     ack_channel := ack_channel s; beater := beater s; stream := stream s; running := b |}.

(** *** The receive loop *)

(** ["Message: <id> <json>"]; [None] for a line the loop skips. *)
Definition parse_delivery (line : string) : option (string * string) :=
  match strip_prefix "Message:" (trim line) with
  | None => None
  | Some rest =>
      match splitn 2 space (trim rest) with
      | id :: payload :: _ => if is_empty id then None else Some (id, payload)
      | _ => None
      end
  end.

(** Whether the storing task holds its end of the channel. *)
Definition storing (s : System) : bool :=
  match writer s with Some w => bool_decide (wstage w ≠ Done) | None => false end.
Definition acking (s : System) : bool := match acker s with AckEnded => false | _ => true end.

(** A message was decrypted: it is handed to both tasks; a send to a task that
    has ended only logs an error. *)
Definition accept (id plaintext : string) (s : System) : System :=
  with_loop ({[id]} ∪ processed s) (consecutive_empty s) (accepted s ++ [(id, plaintext)]) (loop s)
    (if storing s then msg_channel s ++ [(id, plaintext)] else msg_channel s)
    (if acking s then ack_channel s ++ [id] else ack_channel s) s.

(** A line was read; [None] is a panic of [decrypt_message]. *)
Definition on_line (private_key line : string) (s : System) : option System :=
  let s := at_loop 0 LoopTesting s in
  match parse_delivery line with
  | None => Some s
  | Some (id, payload) =>
      if decide (id ∈ processed s) then Some s
      else match json_envelope payload with
      | Err _ => Some s
      | Ok e =>
          match Crypto.decrypt_message e private_key with
          | None => None
          | Some (Ok plaintext) => Some (accept id plaintext s)
          | Some (Err _) => Some s
          end
      end
  end.

(** The end of [receive_loop]: both helper tasks are aborted. *)
Definition cleanup (s : System) : System :=
  {| processed := processed s; consecutive_empty := consecutive_empty s; accepted := accepted s;
     loop := LoopEnded; msg_channel := msg_channel s; writer := writer s; acker := AckEnded;
     ack_channel := ack_channel s; beater := BeatEnded; stream := stream s; running := false |}.

Inductive Event := LineTimeout | LineError | LineEof | Line (text : string).

(** A round of the main receive loop: the look at the flag, and what the read
    that follows yields within half a second. *)
Definition on_test (s : System) : System :=
  match loop s with
  | LoopTesting => if running s then at_loop (consecutive_empty s) LoopReading s else cleanup s
  | _ => s
  end.
Definition on_event (private_key : string) (ev : Event) (s : System) : option System :=
  match loop s with
  | LoopReading =>
      match ev with
      | LineTimeout =>
          let n := 1 + consecutive_empty s in
          Some (at_loop (if decide (120 ≤ n) then 0 else n) LoopTesting s)
      | LineError | LineEof => Some (cleanup s)
      | Line text => on_line private_key text s
      end
  | _ => Some s
  end.

(** *** The other tasks *)

Definition ack_line (id : string) : string := "ack " +:+ id +:+ nl.
Definition heartbeat_line : string := "heartbeat" +:+ nl.

(** [write_all] and [flush] of one text. *)
Definition send_text (text : string) (st : Stream) : bool * Stream :=
  let '(ok, st1) := write_all text st in if negb ok then (false, st1) else flush st1.

(** The round of [ack_sender_worker]: the look at the flag; an identifier from
    the channel, or half a second without one; the write, once the socket is
    free. *)
Definition ack_test (s : System) : System :=
  match acker s with
  | AckTesting =>
      with_acker (if running s then AckWaiting else AckEnded) (ack_channel s) (stream s) s
  | _ => s
  end.
Definition ack_recv (s : System) : System :=
  match acker s with
  | AckWaiting =>
      match ack_channel s with
      | [] => with_acker AckTesting [] (stream s) s
      | id :: rest => with_acker (AckSending id) rest (stream s) s
      end
  | _ => s
  end.
Definition ack_write (s : System) : System :=
  match acker s with
  | AckSending id =>
      let '(ok, st) := send_text (ack_line id) (stream s) in
      with_acker (if ok then AckTesting else AckEnded) (ack_channel s) st s
  | _ => s
  end.

(** The round of [heartbeat_task]: it looks at the flag before and after its
    sleep, and then writes. *)
Definition beat_test (s : System) : System :=
  match beater s with
  | BeatTesting => with_beater (if running s then BeatSleeping else BeatEnded) (stream s) s
  | _ => s
  end.
Definition beat_wake (s : System) : System :=
  match beater s with
  | BeatSleeping => with_beater (if running s then BeatWriting else BeatEnded) (stream s) s
  | _ => s
  end.
Definition beat_write (s : System) : System :=
  match beater s with
  | BeatWriting =>
      let '(ok, st) := send_text heartbeat_line (stream s) in
      with_beater (if ok then BeatTesting else BeatEnded) st s
  | _ => s
  end.

(** The round of the storing task: a message, or five seconds without one; then
    the look at the flag. When the task ends, its channel is dropped with what
    is left in it. *)
Definition store_turn (now : Z) (s : System) : System :=
  match writer s with
  | Some w =>
      match wstage w, msg_channel s with
      | Receiving, msg :: rest => with_writer rest (Some (on_message msg now w)) s
      | Receiving, [] => with_writer [] (Some (on_timeout w)) s
      | _, _ => s
      end
  | None => s
  end.
Definition store_decide (s : System) : System :=
  match writer s with
  | Some w =>
      match wstage w with
      | Deciding =>
          with_writer (if running s then msg_channel s else []) (Some (on_decide (running s) w)) s
      | _ => s
      end
  | None => s
  end.

Inductive Turn :=
| LoopTest | LoopRead (ev : Event)
| AckTest | AckRecv | AckWrite
| BeatTest | BeatWake | BeatWrite
| Store (now : Z) | StoreDecide
| Sigint.

(** One turn of one task, nothing when the task is elsewhere; [None] is a panic
    of the program. *)
Definition step (private_key : string) (t : Turn) (s : System) : option System :=
  match t with
  | LoopTest => Some (on_test s)
  | LoopRead ev => on_event private_key ev s
  | AckTest => Some (ack_test s)
  | AckRecv => Some (ack_recv s)
  | AckWrite => Some (ack_write s)
  | BeatTest => Some (beat_test s)
  | BeatWake => Some (beat_wake s)
  | BeatWrite => Some (beat_write s)
  | Store now => Some (store_turn now s)
  | StoreDecide => Some (store_decide s)
  | Sigint => Some (with_running false s)
  end.
Definition run (private_key : string) (ts : list Turn) (s : System) : option System :=
  foldl (λ o t, s ← o; step private_key t s) (Some s) ts.

(** ** [main] *)

(** [main] before the first connection. *)
Definition boot (w : option Writer) : System :=
  {| processed := ∅; consecutive_empty := 0; accepted := []; loop := LoopEnded;
     msg_channel := []; writer := w; acker := AckEnded; ack_channel := []; beater := BeatEnded;
     stream := {| written := []; outcomes := [] |}; running := true |}.
(** [receive_loop] after its handshake on a connection. *)
Definition subscribe (st : Stream) (s : System) : System :=
  {| processed := ∅; consecutive_empty := 0; accepted := []; loop := LoopTesting;
     msg_channel := msg_channel s; writer := writer s; acker := AckTesting; ack_channel := [];
     beater := BeatTesting; stream := st; running := running s |}.

(** An attempt of the connection loop: what the network does, and the turns the
    tasks take until the peer closes the connection. *)
Inductive Attempt :=
| TcpFailed
| TlsFailed
| Connected (c : Conn) (ts : list Turn).

(** [receive_loop] *)
Definition receive_loop (cfg : Config) (pub : option string) (private_key : string) (c : Conn)
    (ts : list Turn) (s : System) : option System :=
  match handshake cfg pub c with
  | (Err _, _) => Some s
  | (Ok false, _) => Some (with_running false s)
  | (Ok true, c') => run private_key (ts ++ [LoopTest; LoopRead LineEof]) (subscribe (socket c') s)
  end.

(** The [while] loop of [main]: the attempts made out of those offered, and the
    final state. *)
Fixpoint connection_loop (cfg : Config) (pub : option string) (private_key : string)
    (offered : list Attempt) (s : System) : nat * option System :=
  match offered with
  | [] => (0, Some s)
  | a :: rest =>
      if negb (running s) then (0, Some s)
      else
        let o := match a with
                 | TcpFailed | TlsFailed => Some s
                 | Connected c ts => receive_loop cfg pub private_key c ts s
                 end in
        match o with
        | None => (1, None)
        | Some s' =>
            let '(n, final) := connection_loop cfg pub private_key rest s' in (1 + n, final)
        end
  end.

End Receiver.
End Receiver.
