(* ===== verification/ReceiverProps.v ===== *)
(** The properties of the receiver program and of the whole path of a message
    from the sender's encryption to the receiver's acknowledgement. *)
From S2P Require Import Prelude RustStr Storage StorageFacts State JsonTree Server ServerProps.
From S2P Require Import Crypto Client Receiver.
From stdpp Require Import countable list options.
From Stdlib Require Import Ascii SpecFloat.

(** [serde_json::from_str] at [EncryptedEnvelope] on the text of a message: the
    derived reader of the receiver gets the members the derived writer of the
    server prints. *)
Class ReceiverJsonOk (J : Json) (RJ : ReceiverJson) : Prop :=
  envelope_reads m e : dec_envelope (Server.enc_input m) = Some e → json_envelope (to_json m) = Ok e.
(** These are the three members the receiver needs. *)
Definition state_envelope (m : State.EncryptedInputData) : Crypto.EncryptedEnvelope :=
  {| Crypto.env_session_key := State.enc_session_key m; Crypto.env_nonce := State.nonce m;
     Crypto.env_ciphertext := State.ciphertext m |}.
Lemma json_envelope_reads `{!ReceiverJsonOk J RJ} m :
  json_envelope (to_json m) = Ok (state_envelope m).
Proof. by apply envelope_reads. Qed.

Module ReceiverProps.
Import RustStr Server Client Receiver.

Section Receiver.
Context `{P : Primitives} `{K : Ciphers} `{RJ : ReceiverJson}.

(** ** The storing task *)

(** The lines records become on a working disk, and what identifies them. *)
Definition lines_of (recs : list StoredRecord) : list string :=
  mjoin ((λ rec, match record_json rec with Ok l => [l; nl] | Err _ => [] end) <$> recs).
Definition pair_of (rec : StoredRecord) : string * string := (message_id rec, message rec).

Lemma lines_of_app a b : lines_of (a ++ b) = lines_of a ++ lines_of b.
Proof. unfold lines_of. by rewrite fmap_app, join_app. Qed.
Lemma lines_of_cons rec recs : lines_of (rec :: recs) = lines_of [rec] ++ lines_of recs.
Proof. apply (lines_of_app [rec]). Qed.

Lemma write_records_written out recs :
  outcomes out = [] →
  outcomes (foldl write_record out recs) = []
  ∧ written (foldl write_record out recs) = written out ++ lines_of recs.
Proof.
  revert out. induction recs as [|rec recs IH]; intros out Ho; cbn [foldl].
  { unfold lines_of. simpl. by rewrite List.app_nil_r. }
  assert (outcomes (write_record out rec) = []
    ∧ written (write_record out rec) = written out ++ lines_of [rec]) as [H1 H2].
  { unfold write_record, lines_of. simpl. destruct (record_json rec); simpl.
    - unfold write_all, next_outcome. rewrite Ho. simpl. by rewrite <-List.app_assoc.
    - by rewrite List.app_nil_r. }
  destruct (IH _ H1) as [H3 H4]. split; [done|].
  by rewrite H4, H2, (lines_of_cons rec recs), List.app_assoc.
Qed.

(** The storing task on a working disk: [recs] are in the file. *)
Record keeps (f : list string) (recs : list StoredRecord) (w : Writer) : Prop := {
  k_disk : outcomes (file w) = [];
  k_written : written (file w) = f ++ lines_of recs;
  k_done : wstage w ≠ Receiving → batch w = []
}.

Lemma flush_keeps f recs w :
  outcomes (file w) = [] → written (file w) = f ++ lines_of recs →
  keeps f (recs ++ batch w) (flush_batch w).
Proof.
  intros Ho Hw. destruct (write_records_written (file w) (batch w) Ho) as [H1 H2].
  unfold flush_batch, flush, next_outcome. rewrite H1.
  split; cbn [file batch wstage written outcomes]; [done| |done].
  by rewrite H2, Hw, lines_of_app, List.app_assoc.
Qed.

Lemma on_message_keeps f recs msg now w :
  keeps f recs w → wstage w = Receiving →
  ∃ recs', keeps f recs' (on_message msg now w) ∧ wstage (on_message msg now w) = Receiving
    ∧ pair_of <$> recs' ++ batch (on_message msg now w)
      = (pair_of <$> recs ++ batch w) ++ [msg].
Proof.
  intros [H1 H2 H3] Hf. unfold on_message. cbn [batch].
  set (rec := {| message_id := msg.1; message := msg.2; timestamp := timestamp_secs now |}).
  assert (pair_of rec = msg) as Hp by (by destruct msg).
  case_decide as Hd.
  - eexists. split; [by apply (flush_keeps f recs)|].
    cbn [batch flush_batch wstage]. split; [done|].
    by rewrite List.app_nil_r, !fmap_app, List.app_assoc, <-Hp.
  - exists recs. cbn [batch wstage]. split_and!; [|done|].
    + by split; cbn [batch file wstage]; [done..|].
    + by rewrite !fmap_app, List.app_assoc, <-Hp.
Qed.

Lemma on_timeout_keeps f recs w :
  keeps f recs w → keeps f (recs ++ batch w) (on_timeout w) ∧ batch (on_timeout w) = []
  ∧ wstage (on_timeout w) = Deciding.
Proof.
  intros [H1 H2 H3]. unfold on_timeout, flush_pending. case_decide as Hd.
  - rewrite Hd, List.app_nil_r. by split_and!.
  - destruct (flush_keeps f recs w H1 H2) as [K1 K2 K3]. by split_and!.
Qed.

Lemma on_decide_keeps f recs b w :
  keeps f recs w → wstage w = Deciding →
  keeps f recs (on_decide b w) ∧ batch (on_decide b w) = []
  ∧ wstage (on_decide b w) = if b then Receiving else Done.
Proof.
  intros [H1 H2 H3] Hs. assert (batch w = []) as Hb by (apply H3; by rewrite Hs).
  unfold on_decide. destruct b; [by split_and!|]. split_and!; [|done|done].
  split; unfold finish, flush, next_outcome; rewrite H1; cbn [file batch written outcomes]; done.
Qed.

(** ** The tasks together *)

Lemma turns_snoc key ts t s : run key (ts ++ [t]) s = (run key ts s ≫= step key t).
Proof. unfold run. by rewrite foldl_app. Qed.
Lemma turns_cons key t ts s : run key (t :: ts) s = (step key t s ≫= run key ts).
Proof.
  unfold run. cbn [foldl]. cbn [mbind option_bind]. destruct (step key t s) as [s'|]; [done|].
  induction ts as [|u ts IH]; [done|]. exact IH.
Qed.
Lemma turns_preserve (Q : System → Prop) key ts s s' :
  (∀ t s s', step key t s = Some s' → Q s → Q s') → run key ts s = Some s' → Q s → Q s'.
Proof.
  intros HP. revert s. induction ts as [|t ts IH]; intros s; [by intros [= <-]|].
  rewrite turns_cons. destruct (step key t s) as [s1|] eqn:Hs; [|done]. simpl. eauto.
Qed.

Definition is_request (l : string) : Prop := l ≠ heartbeat_line.
#[local] Instance is_request_dec l : Decision (is_request l).
Proof. unfold is_request. apply _. Defined.

(** What was written on the socket besides heartbeats: [sent] acknowledgements
    after [st]. *)
Definition acks_sent (st sent : list string) (s : System) : Prop :=
  filter is_request (written (stream s)) = st ++ (ack_line <$> sent)
  ∧ match acker s with
    | AckEnded => sent `prefix_of` (accepted s).*1
    | AckSending id => sent ++ id :: ack_channel s = (accepted s).*1
    | _ => sent ++ ack_channel s = (accepted s).*1
    end.

(** Every accepted message is in the file, in the batch or in the channel, in
    order, or was left over when the storing task ended; [recs] are in the
    file. *)
Definition stores (f : list string) (recs : list StoredRecord) (lost : list (string * string))
    (s : System) : Prop :=
  ∃ w, writer s = Some w ∧ keeps f recs w
    ∧ (pair_of <$> recs ++ batch w) ++ msg_channel s ++ lost = accepted s
    ∧ (wstage w ≠ Done → lost = [])
    ∧ (wstage w = Done → running s = false ∧ msg_channel s = []).

Record consistent (f st : list string) (s : System) : Prop := {
  c_stored : ∃ recs lost, stores f recs lost s;
  c_acks : ∃ sent, acks_sent st sent s;
  c_once : NoDup (accepted s).*1;
  c_processed id : id ∈ processed s ↔ id ∈ (accepted s).*1
}.

(** Turns that change neither what was accepted nor either task. *)
Lemma consistent_same f st s s' :
  processed s' = processed s → accepted s' = accepted s → writer s' = writer s →
  msg_channel s' = msg_channel s → acker s' = acker s → ack_channel s' = ack_channel s →
  stream s' = stream s → (running s = false → running s' = false) →
  consistent f st s → consistent f st s'.
Proof.
  intros H1 H2 H3 H4 H5 H6 H7 H8 [(recs & lost & w & Hw & Hk & Ha & Hl & Hf) [sent [Hs Hc]] Ho Hp].
  split; [exists recs, lost, w|exists sent|..]; unfold acks_sent;
    rewrite ?H1, ?H2, ?H3, ?H4, ?H5, ?H6, ?H7; naive_solver.
Qed.
(** Turns of the acknowledging and heartbeat tasks. *)
Lemma consistent_socket f st s s' :
  processed s' = processed s → accepted s' = accepted s → writer s' = writer s →
  msg_channel s' = msg_channel s → running s' = running s →
  (∀ sent, acks_sent st sent s → ∃ sent', acks_sent st sent' s') →
  consistent f st s → consistent f st s'.
Proof.
  intros H1 H2 H3 H4 H5 H6 [(recs & lost & w & Hw & Hk & Ha & Hl & Hf) [sent Hs] Ho Hp].
  split; [exists recs, lost, w|by eapply H6|..]; rewrite ?H1, ?H2, ?H3, ?H4, ?H5; done.
Qed.

Lemma acks_prefix st sent s : acks_sent st sent s → sent `prefix_of` (accepted s).*1.
Proof. intros [_ H]. destruct (acker s); [rewrite <-H; by eexists..|done]. Qed.
Lemma acks_stop st sent s s' :
  acks_sent st sent s → acker s' = AckEnded → accepted s' = accepted s → stream s' = stream s →
  acks_sent st sent s'.
Proof.
  intros Hs Ha Hacc Hst. unfold acks_sent. rewrite Ha, Hacc, Hst.
  split; [apply Hs|exact (acks_prefix st sent s Hs)].
Qed.

(** The tasks may be aborted at any time. *)
Lemma consistent_cleanup f st s : consistent f st s → consistent f st (cleanup s).
Proof.
  intros [(recs & lost & w & Hw & Hk & Ha & Hl & Hf) [sent Hs] Ho Hp].
  split; [exists recs, lost, w| |done..].
  - split_and!; [done..|]. intros H. split; [done|]. by apply Hf.
  - exists sent. by apply (acks_stop st sent s).
Qed.

Lemma accept_consistent f st id text s :
  id ∉ processed s → consistent f st s → consistent f st (accept id text s).
Proof.
  intros Hn [(recs & lost & w & Hw & Hk & Ha & Hl & Hf) [sent [Hs Hc]] Ho Hp].
  split.
  - unfold accept, storing. rewrite Hw. case_bool_decide as Hd.
    + exists recs, [], w. cbn. rewrite (Hl Hd) in Ha. split_and!; [done..| |done|done].
      by rewrite <-Ha, !List.app_nil_r, <-!List.app_assoc.
    + destruct (Hf Hd) as [Hr Hm].
      exists recs, (lost ++ [(id, text)]), w. cbn. split_and!; [done..| |done|done].
      by rewrite <-Ha, <-!List.app_assoc.
  - exists sent. split; [done|]. unfold accept, acking. cbn. rewrite fmap_app. simpl.
    destruct (acker s); rewrite <-?Hc; rewrite <-?List.app_assoc; simpl; try done.
    by apply prefix_app_r.
  - cbn. rewrite fmap_app. apply NoDup_app. split_and!; [done| |apply NoDup_singleton].
    intros x Hx. simpl. rewrite list_elem_of_singleton. intros ->. apply Hn. by apply Hp.
  - intros x. cbn. rewrite fmap_app, elem_of_union, elem_of_singleton, elem_of_app. simpl.
    rewrite list_elem_of_singleton, Hp. tauto.
Qed.

Lemma on_test_consistent f st s : consistent f st s → consistent f st (on_test s).
Proof.
  unfold on_test. destruct (loop s); [|done..].
  destruct (running s); [by apply consistent_same|apply consistent_cleanup].
Qed.

Lemma on_event_consistent f st key ev s s' :
  on_event key ev s = Some s' → consistent f st s → consistent f st s'.
Proof.
  unfold on_event. destruct (loop s); [by intros [= <-]| |by intros [= <-]].
  destruct ev as [| | |text];
    [intros [= <-]; by apply consistent_same|intros [= <-]; apply consistent_cleanup..|].
  unfold on_line. destruct (parse_delivery text) as [[id payload]|];
    [|intros [= <-]; by apply consistent_same].
  case_decide as Hp; [intros [= <-]; by apply consistent_same|].
  destruct (json_envelope payload) as [e|]; [|intros [= <-]; by apply consistent_same].
  destruct (Crypto.decrypt_message e key) as [[text'|]|]; [| |done].
  - intros [= <-] Hc. apply accept_consistent; [done|]. by apply (consistent_same f st s).
  - intros [= <-]. by apply consistent_same.
Qed.

Lemma ack_line_request id : is_request (ack_line id).
Proof. discriminate. Qed.

(** What [send_text] leaves on the stream: the text, or nothing. *)
Lemma send_text_written text st :
  let '(ok, st') := send_text text st in
  written st' = written st ++ [text] ∨ ok = false ∧ written st' = written st.
Proof.
  unfold send_text, write_all, flush. destruct (next_outcome st) as [[] os]; cbn [negb]; [|by right].
  destruct (next_outcome _) as [b os']. by left.
Qed.

Lemma ack_test_consistent f st s : consistent f st s → consistent f st (ack_test s).
Proof.
  unfold ack_test. destruct (acker s) eqn:Ha; try done.
  apply consistent_socket; try done. intros sent Hs. exists sent. destruct (running s).
  - destruct Hs as [H1 H2]. rewrite Ha in H2. by split.
  - by apply (acks_stop st sent s).
Qed.
Lemma ack_recv_consistent f st s : consistent f st s → consistent f st (ack_recv s).
Proof.
  unfold ack_recv. destruct (acker s) eqn:Ha; try done. destruct (ack_channel s) as [|id rest] eqn:Hq;
    apply consistent_socket; try done; intros sent [H1 H2]; exists sent; rewrite Ha, Hq in H2; by split.
Qed.
Lemma ack_write_consistent f st s : consistent f st s → consistent f st (ack_write s).
Proof.
  unfold ack_write. destruct (acker s) as [| |id|] eqn:Ha; try done.
  pose proof (send_text_written (ack_line id) (stream s)) as Hw.
  destruct (send_text _ _) as [ok st']. apply consistent_socket; try done.
  intros sent [H1 H2]. rewrite Ha in H2. destruct Hw as [Hw|[-> Hw]].
  - exists (sent ++ [id]). split.
    + cbn [stream with_acker]. rewrite Hw, filter_app, H1, fmap_app, List.app_assoc.
      by rewrite filter_cons_True by apply ack_line_request.
    + cbn [acker with_acker ack_channel accepted]. rewrite <-H2.
      destruct ok; [by rewrite <-List.app_assoc|]. exists (ack_channel s). by rewrite <-List.app_assoc.
  - exists sent. split; [cbn [stream with_acker]; by rewrite Hw|].
    cbn [acker with_acker accepted]. rewrite <-H2. by eexists.
Qed.

Lemma beat_consistent f st b st' s :
  filter is_request (written st') = filter is_request (written (stream s)) →
  consistent f st s → consistent f st (with_beater b st' s).
Proof.
  intros Hst. apply consistent_socket; try done. intros sent [H1 H2]. exists sent.
  split; [cbn [stream with_beater]; by rewrite Hst|exact H2].
Qed.
Lemma beat_write_consistent f st s : consistent f st s → consistent f st (beat_write s).
Proof.
  unfold beat_write. destruct (beater s); try done.
  pose proof (send_text_written heartbeat_line (stream s)) as Hw.
  destruct (send_text _ _) as [ok st']. apply beat_consistent.
  destruct Hw as [->|[_ ->]]; [|done]. rewrite filter_app, filter_cons_False by (intros H; by apply H).
  by rewrite List.app_nil_r.
Qed.

Lemma store_turn_consistent f st now s : consistent f st s → consistent f st (store_turn now s).
Proof.
  intros Hc. pose proof Hc as [(recs & lost & w & Hw & Hk & Ha & Hl & Hf) Hs Ho Hp].
  unfold store_turn. rewrite Hw. destruct (wstage w) eqn:Hst; [|exact Hc..].
  rewrite (Hl ltac:(done)), List.app_nil_r in Ha.
  destruct (msg_channel s) as [|msg rest].
  - destruct (on_timeout_keeps f recs w Hk) as (H1 & H2 & H3).
    split; [|done..]. exists (recs ++ batch w), [], (on_timeout w).
    cbn [writer msg_channel accepted running with_writer].
    rewrite H2, H3, !List.app_nil_r in *. by split_and!.
  - destruct (on_message_keeps f recs msg now w Hk Hst) as (recs' & H1 & H2 & H3).
    split; [|done..]. exists recs', [], (on_message msg now w).
    cbn [writer msg_channel accepted running with_writer]. rewrite H2, List.app_nil_r.
    split_and!; try done. by rewrite H3, <-List.app_assoc.
Qed.
Lemma store_decide_consistent f st s : consistent f st s → consistent f st (store_decide s).
Proof.
  intros Hc. pose proof Hc as [(recs & lost & w & Hw & Hk & Ha & Hl & Hf) Hs Ho Hp].
  unfold store_decide. rewrite Hw. destruct (wstage w) eqn:Hst; [exact Hc| |exact Hc].
  rewrite (Hl ltac:(done)), List.app_nil_r in Ha.
  assert (batch w = []) as Hb by (apply (k_done _ _ _ Hk); by rewrite Hst).
  destruct (on_decide_keeps f recs (running s) w Hk Hst) as (H1 & H2 & H3).
  split; [|done..]. exists recs, (if running s then [] else msg_channel s), (on_decide (running s) w).
  cbn [writer msg_channel accepted running with_writer]. rewrite H2, H3, Hb in *.
  destruct (running s); rewrite ?List.app_nil_r in *; by split_and!.
Qed.

Lemma step_consistent f st key t s s' :
  step key t s = Some s' → consistent f st s → consistent f st s'.
Proof.
  destruct t as [|ev| | | | | | |now| |]; simpl; [|apply on_event_consistent|..]; intros [= <-];
    [apply on_test_consistent|apply ack_test_consistent|apply ack_recv_consistent
    |apply ack_write_consistent| | |apply beat_write_consistent|apply store_turn_consistent
    |apply store_decide_consistent|by apply consistent_same].
  - unfold beat_test. destruct (beater s); try done. by apply beat_consistent.
  - unfold beat_wake. destruct (beater s); try done. by apply beat_consistent.
Qed.

(** A connection right after its handshake, with the storing task on a working
    disk. *)
Definition session (f : list string) (st : Stream) : System :=
  subscribe st (boot (start_writer true true {| written := f; outcomes := [] |})).

Lemma session_consistent f st :
  consistent f (filter is_request (written st)) (session f st).
Proof.
  split.
  - exists [], [], {| file := {| written := f; outcomes := [] |}; batch := []; wstage := Receiving |}.
    split_and!; [done| |done|done|done]. split; simpl; [done| |done].
    by rewrite List.app_nil_r.
  - exists []. split; [|done]. simpl. by rewrite List.app_nil_r.
  - constructor.
  - intros id. simpl. set_solver.
Qed.

Lemma run_consistent f st key ts s :
  run key ts (session f st) = Some s → consistent f (filter is_request (written st)) s.
Proof.
  intros Hr. eapply turns_preserve; [|exact Hr|apply session_consistent].
  intros t s1 s2. apply step_consistent.
Qed.

(** ** Properties *)

(** C11: in every interleaving of the receiver's tasks, when every write to the
    output file succeeds, each decrypted message is exactly once, in order, in
    the file, the batch or the channel of the storing task, or among those left
    over when that task ended, which it does only after the running flag was
    cleared; the acknowledgements on the socket are, in order and once each,
    those of decrypted messages. *)
Theorem stored_once_and_acked f st key ts s :
  run key ts (session f st) = Some s →
  ∃ w recs lost sent,
    writer s = Some w
    ∧ written (file w) = f ++ lines_of recs
    ∧ (pair_of <$> recs ++ batch w) ++ msg_channel s ++ lost = accepted s
    ∧ (lost ≠ [] → wstage w = Done ∧ running s = false)
    ∧ filter is_request (written (stream s))
      = filter is_request (written st) ++ (ack_line <$> sent)
    ∧ sent `prefix_of` (accepted s).*1
    ∧ NoDup (accepted s).*1.
Proof.
  intros [(recs & lost & w & Hw & Hk & Ha & Hl & Hf) [sent Hs] Ho _]%run_consistent.
  exists w, recs, lost, sent. split_and!; [done|apply Hk|done| |apply Hs| |done].
  - intros Hne. destruct (decide (wstage w = Done)) as [Hd|Hd]; [|by destruct (Hne (Hl Hd))].
    split; [done|]. by apply Hf.
  - by apply (acks_prefix (filter is_request (written st))).
Qed.

(** *** Shutting down *)

Lemma on_line_flags key text s s' :
  on_line key text s = Some s' → loop s' = LoopTesting ∧ running s' = running s.
Proof.
  unfold on_line. destruct (parse_delivery text) as [[id payload]|]; [|by intros [= <-]].
  case_decide; [by intros [= <-]|]. destruct (json_envelope payload); [|by intros [= <-]].
  destruct (Crypto.decrypt_message _ _) as [[]|]; by intros [= <-].
Qed.

(** A receive loop that ended has cleared the running flag. *)
Definition stops (s : System) : Prop := loop s = LoopEnded → running s = false.
Lemma step_stops key t s s' : step key t s = Some s' → stops s → stops s'.
Proof.
  unfold stops. destruct t as [|ev| | | | | | |now| |]; simpl.
  - unfold on_test. intros [= <-]. destruct (loop s) eqn:Hl; [|by rewrite Hl..].
    by destruct (running s).
  - unfold on_event. destruct (loop s) eqn:Hl; [intros [= <-]; by rewrite Hl| |intros [= <-]; by rewrite Hl].
    destruct ev as [| | |text]; [by intros [= <-]..|]. intros [H1 H2]%on_line_flags. by rewrite H1.
  - unfold ack_test. intros [= <-]. by destruct (acker s).
  - unfold ack_recv. intros [= <-]. destruct (acker s); try done. by destruct (ack_channel s).
  - unfold ack_write. intros [= <-]. destruct (acker s); try done. by destruct (send_text _ _).
  - unfold beat_test. intros [= <-]. by destruct (beater s).
  - unfold beat_wake. intros [= <-]. by destruct (beater s).
  - unfold beat_write. intros [= <-]. destruct (beater s); try done. by destruct (send_text _ _).
  - unfold store_turn. intros [= <-]. destruct (writer s) as [w|]; [|done].
    destruct (wstage w), (msg_channel s); done.
  - unfold store_decide. intros [= <-]. destruct (writer s) as [w|]; [|done]. by destruct (wstage w).
  - by intros [= <-].
Qed.

(** The receive loop has ended and nothing was left over: either the storing
    task still receives, or it has taken everything. *)
Definition settled (f : list string) (acc : list (string * string)) (s : System) : Prop :=
  loop s = LoopEnded ∧ running s = false ∧ accepted s = acc
  ∧ ∃ recs w, writer s = Some w ∧ keeps f recs w
      ∧ (pair_of <$> recs ++ batch w) ++ msg_channel s = acc
      ∧ (wstage w ≠ Receiving → msg_channel s = []).

Lemma settled_store f acc now s : settled f acc s → settled f acc (store_turn now s).
Proof.
  intros Hs. pose proof Hs as (Hl & Hr & Hacc & recs & w & Hw & Hk & Ha & Hm).
  unfold store_turn. rewrite Hw. destruct (wstage w) eqn:Hst; [|exact Hs..].
  destruct (msg_channel s) as [|msg rest]; split_and!; try done.
  - destruct (on_timeout_keeps f recs w Hk) as (H1 & H2 & H3).
    exists (recs ++ batch w), (on_timeout w). cbn [writer msg_channel with_writer].
    rewrite H2, !List.app_nil_r in *. by split_and!.
  - destruct (on_message_keeps f recs msg now w Hk Hst) as (recs' & H1 & H2 & H3).
    exists recs', (on_message msg now w). cbn [writer msg_channel with_writer]. rewrite H2.
    split_and!; try done. by rewrite H3, <-List.app_assoc.
Qed.
Lemma settled_decide f acc s : settled f acc s → settled f acc (store_decide s).
Proof.
  intros Hs. pose proof Hs as (Hl & Hr & Hacc & recs & w & Hw & Hk & Ha & Hm).
  unfold store_decide. rewrite Hw. destruct (wstage w) eqn:Hst; [exact Hs| |exact Hs].
  destruct (on_decide_keeps f recs (running s) w Hk Hst) as (H1 & H2 & H3).
  split_and!; try done. exists recs, (on_decide (running s) w).
  cbn [writer msg_channel with_writer]. rewrite H2, Hr in *. rewrite (Hm ltac:(done)) in Ha.
  rewrite (k_done _ _ _ Hk) in Ha by (by rewrite Hst). by split_and!.
Qed.

Lemma settled_step f acc key t s s' : step key t s = Some s' → settled f acc s → settled f acc s'.
Proof.
  intros Hstep Hs. pose proof Hs as (Hl & Hr & _). destruct t as [|ev| | | | | | |now| |]; simpl in Hstep.
  2: { unfold on_event in Hstep. rewrite Hl in Hstep. by injection Hstep as <-. }
  all: injection Hstep as <-.
  - unfold on_test. by rewrite Hl.
  - unfold ack_test. by destruct (acker s).
  - unfold ack_recv. destruct (acker s); try exact Hs. by destruct (ack_channel s).
  - unfold ack_write. destruct (acker s); try exact Hs. by destruct (send_text _ _).
  - unfold beat_test. by destruct (beater s).
  - unfold beat_wake. by destruct (beater s).
  - unfold beat_write. destruct (beater s); try exact Hs. by destruct (send_text _ _).
  - by apply settled_store.
  - by apply settled_decide.
  - split; [done|]. split; [done|]. apply Hs.
Qed.

(** The storing task left to itself takes every waiting message and, at its
    timeout, has written them all; further turns wait for its look at the flag. *)
Lemma deciding_waits key times s w :
  writer s = Some w → wstage w = Deciding → run key (Store <$> times) s = Some s.
Proof.
  intros Hw Hd. induction times as [|t times IH]; [done|]. cbn [fmap list_fmap]. rewrite turns_cons.
  cbn [step mbind option_bind]. unfold store_turn. by rewrite Hw, Hd.
Qed.
Lemma store_turns_write f recs key times s w :
  writer s = Some w → keeps f recs w → wstage w = Receiving →
  length (msg_channel s) < length times →
  ∃ s' w' recs', run key (Store <$> times) s = Some s' ∧ writer s' = Some w'
    ∧ wstage w' = Deciding ∧ running s' = running s ∧ stream s' = stream s
    ∧ written (file w') = f ++ lines_of recs'
    ∧ pair_of <$> recs' = (pair_of <$> recs ++ batch w) ++ msg_channel s.
Proof.
  revert recs s w. induction times as [|now times IH]; intros recs s w Hw Hk Hst Hl; [simpl in Hl; lia|].
  cbn [fmap list_fmap]. rewrite turns_cons. cbn [step mbind option_bind].
  destruct (msg_channel s) as [|msg rest] eqn:Hm.
  - replace (store_turn now s) with (with_writer [] (Some (on_timeout w)) s)
      by (unfold store_turn; by rewrite Hw, Hst, Hm).
    destruct (on_timeout_keeps f recs w Hk) as (H1 & H2 & H3).
    rewrite (deciding_waits key times _ (on_timeout w)) by done.
    eexists _, (on_timeout w), (recs ++ batch w). rewrite List.app_nil_r.
    split_and!; try done. apply H1.
  - replace (store_turn now s) with (with_writer rest (Some (on_message msg now w)) s)
      by (unfold store_turn; by rewrite Hw, Hst, Hm).
    destruct (on_message_keeps f recs msg now w Hk Hst) as (recs1 & H1 & H2 & H3).
    destruct (IH recs1 (with_writer rest (Some (on_message msg now w)) s) (on_message msg now w))
      as (s' & w' & recs' & R1 & R2 & R3 & R4 & R5 & R6 & R7); [done..|simpl in *; lia|].
    exists s', w', recs'. split_and!; try done. rewrite R7, H3. cbn [msg_channel with_writer].
    by rewrite <-List.app_assoc.
Qed.

(** C32: a shutdown saves everything the storing task still takes: when every
    write to the output file succeeds and the receive loop has ended while the
    storing task waits for messages, then whatever the tasks do next, when the
    storing task has ended every decrypted message is in the file, in order;
    and it does end, after a turn per waiting message, its timeout and its look
    at the flag. *)
Theorem shutdown_saves_everything f st key ts s w :
  run key ts (session f st) = Some s → loop s = LoopEnded →
  writer s = Some w → wstage w = Receiving →
  (∀ ts' s' w', run key ts' s = Some s' → writer s' = Some w' → wstage w' = Done →
     ∃ recs, written (file w') = f ++ lines_of recs ∧ pair_of <$> recs = accepted s)
  ∧ ∀ times, length (msg_channel s) < length times →
      ∃ s' w', run key ((Store <$> times) ++ [StoreDecide]) s = Some s'
        ∧ writer s' = Some w' ∧ wstage w' = Done.
Proof.
  intros Hr Hl Hw Hst.
  assert (running s = false) as Hrun.
  { revert Hl. eapply (turns_preserve (λ s, loop s = LoopEnded → running s = false));
      [|exact Hr|done]. intros t s1 s2. apply step_stops. }
  assert (settled f (accepted s) s) as Hs.
  { apply run_consistent in Hr as [(recs & lost & w0 & Hw0 & Hk & Ha & Hlost & Hf) _ _ _].
    rewrite Hw in Hw0. injection Hw0 as <-. rewrite (Hlost ltac:(by rewrite Hst)) in Ha.
    rewrite List.app_nil_r in Ha. split_and!; try done. exists recs, w. by split_and!. }
  split.
  - intros ts' s' w' Hrun' Hw' Hd.
    assert (settled f (accepted s) s') as (_ & _ & _ & recs & w1 & Hw1 & Hk & Ha & Hm).
    { eapply turns_preserve; [|exact Hrun'|exact Hs]. intros t s1 s2. apply settled_step. }
    rewrite Hw' in Hw1. injection Hw1 as <-. exists recs. split; [apply Hk|].
    rewrite <-Ha, (Hm ltac:(by rewrite Hd)), (k_done _ _ _ Hk) by (by rewrite Hd).
    by rewrite !List.app_nil_r.
  - intros times Hlen. destruct Hs as (_ & _ & _ & recs & w0 & Hw0 & Hk & _).
    rewrite Hw in Hw0. injection Hw0 as <-.
    destruct (store_turns_write f recs key times s w Hw Hk Hst Hlen)
      as (s1 & w1 & recs1 & R1 & R2 & R3 & R4 & _).
    exists (store_decide s1), (on_decide (running s1) w1). rewrite turns_snoc, R1.
    split; [done|]. unfold store_decide. by rewrite R2, R3, R4, Hrun.
Qed.

(** The loop reads a message that decrypts, and one it has seen. *)
Lemma loop_accepts key id payload e text s line :
  loop s = LoopReading →
  parse_delivery line = Some (id, payload) → id ∉ processed s →
  json_envelope payload = Ok e → Crypto.decrypt_message e key = Some (Ok text) →
  on_event key (Line line) s = Some (accept id text (at_loop 0 LoopTesting s)).
Proof.
  intros Hl Hp Hn Hj Hd. unfold on_event, on_line. rewrite Hl, Hp.
  rewrite decide_False by done. by rewrite Hj, Hd.
Qed.
Lemma loop_duplicate key id payload s line :
  loop s = LoopReading →
  parse_delivery line = Some (id, payload) → id ∈ processed s →
  on_event key (Line line) s = Some (at_loop 0 LoopTesting s).
Proof.
  intros Hl Hp Hn. unfold on_event, on_line. rewrite Hl, Hp. by rewrite decide_True.
Qed.
(** A round of the loop and one of the acknowledging task, from a state where
    neither holds anything. *)
Definition delivery_turns (line : string) : list Turn :=
  [LoopTest; LoopRead (Line line); AckTest; AckRecv; AckWrite].
Definition attentive (s : System) : Prop :=
  loop s ≠ LoopEnded ∧ running s = true ∧ (acker s = AckTesting ∨ acker s = AckWaiting)
  ∧ ack_channel s = [] ∧ outcomes (stream s) = [].

Lemma send_text_ok text st :
  outcomes st = [] → send_text text st = (true, {| written := written st ++ [text]; outcomes := [] |}).
Proof. intros H. unfold send_text, write_all, flush, next_outcome. by rewrite H. Qed.

(** The acknowledging task over a working socket, with one identifier to send. *)
Lemma ack_round id s :
  (acker s = AckTesting ∧ running s = true ∨ acker s = AckWaiting) → ack_channel s = [id] →
  outcomes (stream s) = [] →
  ack_write (ack_recv (ack_test s)) = with_acker AckTesting []
    {| written := written (stream s) ++ [ack_line id]; outcomes := [] |} s.
Proof.
  intros Ha Hq Ho. assert (ack_recv (ack_test s) = with_acker (AckSending id) [] (stream s) s) as ->.
  { unfold ack_test. destruct Ha as [[Ha Hr]|Ha]; rewrite Ha; unfold ack_recv;
      rewrite ?Hr; cbn [acker with_acker ack_channel]; rewrite ?Ha, Hq; done. }
  unfold ack_write. cbn [acker with_acker stream]. by rewrite send_text_ok.
Qed.

Lemma delivery_accepted key id payload e text s line :
  attentive s → parse_delivery line = Some (id, payload) → id ∉ processed s →
  json_envelope payload = Ok e → Crypto.decrypt_message e key = Some (Ok text) →
  ∃ s', run key (delivery_turns line) s = Some s'
    ∧ accepted s' = accepted s ++ [(id, text)]
    ∧ msg_channel s' = (if storing s then msg_channel s ++ [(id, text)] else msg_channel s)
    ∧ writer s' = writer s ∧ running s' = true
    ∧ written (stream s') = written (stream s) ++ [ack_line id].
Proof.
  intros (Hl & Hr & Ha & Hq & Ho) Hp Hn Hj Hd. unfold delivery_turns.
  set (s1 := at_loop (consecutive_empty s) LoopReading s).
  assert (on_test s = s1) as Ht.
  { unfold on_test, s1. destruct (loop s) eqn:E; [by rewrite Hr|by destruct s; simpl in *; subst|done]. }
  rewrite turns_cons. cbn [step mbind option_bind]. rewrite Ht, turns_cons. cbn [step].
  rewrite (loop_accepts key id payload e text s1) by done. cbn [mbind option_bind].
  set (s2 := accept id text (at_loop 0 LoopTesting s1)).
  assert (ack_channel s2 = [id]) as Hq2.
  { unfold s2, accept, acking. cbn. rewrite Hq. by destruct Ha as [-> | ->]. }
  do 3 (rewrite turns_cons; cbn [step mbind option_bind]). rewrite (ack_round id s2);
    [|cbn; destruct Ha as [-> | ->]; [by left|by right]|done|done].
  eexists. split; [reflexivity|]. by split_and!.
Qed.

(** When the storing task could not open its file, a decrypted message is
    acknowledged although it is stored nowhere. *)
Theorem acked_without_storing key id payload e text s line :
  writer s = None → attentive s →
  parse_delivery line = Some (id, payload) → id ∉ processed s →
  json_envelope payload = Ok e → Crypto.decrypt_message e key = Some (Ok text) →
  ∃ s', run key (delivery_turns line) s = Some s'
        ∧ written (stream s') = written (stream s) ++ [ack_line id]
        ∧ msg_channel s' = msg_channel s ∧ writer s' = None.
Proof.
  intros Hw Hat Hp Hn Hj Hd.
  destruct (delivery_accepted key id payload e text s line) as (s' & Hr & _ & Hm & Hw' & _ & Hs);
    [done..|]. exists s'. unfold storing in Hm. rewrite Hw in Hm, Hw'. done.
Qed.

(** C33: a shutdown can lose a message that the receiver has acknowledged: the
    loop and the acknowledging task look at the running flag and then wait; when
    the flag is cleared and the storing task ends in the meantime, the line they
    wait for is still decrypted and acknowledged, and is stored nowhere, although
    every write to the output file succeeds. *)
Theorem late_message_lost f st key id payload e text line now :
  outcomes st = [] → parse_delivery line = Some (id, payload) →
  json_envelope payload = Ok e → Crypto.decrypt_message e key = Some (Ok text) →
  ∃ s w, run key [LoopTest; AckTest; Sigint; Store now; StoreDecide;
                  LoopRead (Line line); AckRecv; AckWrite] (session f st) = Some s
    ∧ accepted s = [(id, text)]
    ∧ written (stream s) = written st ++ [ack_line id]
    ∧ writer s = Some w ∧ wstage w = Done ∧ batch w = [] ∧ msg_channel s = []
    ∧ written (file w) = f.
Proof.
  intros Ho Hp Hj Hd. do 5 (rewrite turns_cons; cbn [step mbind option_bind]). rewrite turns_cons. cbn [step].
  rewrite (loop_accepts key id payload e text); [|done|done|apply not_elem_of_empty|done|done].
  cbn [mbind option_bind]. do 2 (rewrite turns_cons; cbn [step mbind option_bind]).
  unfold ack_write. cbn -[send_text]. rewrite send_text_ok by done.
  eexists _, _. split; [reflexivity|]. by split_and!.
Qed.

(** *** The whole path of a message *)

(** The text the server writes for a message. *)
Definition delivery_text `{J : Json} (id : string) (m : State.EncryptedInputData) : string :=
  "Message: " +:+ id +:+ " " +:+ to_json m +:+ nl.

Lemma parse_delivery_text `{!JsonOk J} id m a :
  first_char id = Some a → visible a = true → no_char space id = true →
  parse_delivery (delivery_text id m) = Some (id, to_json m).
Proof.
  intros Hf Hv Hs. unfold parse_delivery.
  assert (to_json m ≠ "") as Hne.
  { intros H. pose proof (json_braces m) as Hb. by rewrite H in Hb. }
  assert (trim (delivery_text id m) = "Message:" +:+ String space (id +:+ " " +:+ to_json m)) as ->.
  { replace (delivery_text id m) with
      (("Message: " +:+ id +:+ " " +:+ to_json m) +:+ String (ascii_of_N 10) "").
    - rewrite (trim_line "M"%char (ascii_of_N 125)); [done|done| |done|done].
      rewrite !app_assoc, last_char_app by done. apply json_braces.
    - unfold delivery_text. by rewrite <-!app_assoc. }
  rewrite strip_prefix_app, trim_space.
  rewrite (trim_visible a (ascii_of_N 125)); [| | |done|done].
  - change (id +:+ " " +:+ to_json m) with (id +:+ String space (to_json m)).
    cbn [splitn]. rewrite split_once_app by done. by destruct id.
  - by destruct id.
  - rewrite !app_assoc, last_char_app by done. apply json_braces.
Qed.

(** The message the server holds for an encrypted one. *)
Definition published (em : Crypto.EncryptedMessage) : State.EncryptedInputData :=
  {| State.message_id := Crypto.message_id em;
     State.receiver_client_id := Crypto.receiver_client_id em;
     State.enc_session_key := Crypto.enc_session_key em; State.nonce := Crypto.nonce em;
     State.ciphertext := Crypto.ciphertext em |}.

Lemma envelope_published `{J : Json} `{!ReceiverJsonOk J RJ} em :
  json_envelope (to_json (published em)) = Ok (Crypto.envelope em).
Proof. apply json_envelope_reads. Qed.

(** C10: end to end: the text the server writes when it delivers a message a
    sender encrypted for this receiver makes the receiver hand the original
    content to the storing task and write the acknowledgement of the message
    on its socket. *)
Theorem end_to_end_delivery `{J : Json} `{!JsonOk J} `{!ReceiverJsonOk J RJ} `{!CiphersOk P K}
    msg rsk receiver key rand now em s a :
  String.length (Crypto.session_key rand) = 32 →
  String.length (Crypto.nonce_bytes rand) = 12 →
  from_utf8_lossy (Crypto.content msg) = Crypto.content msg →
  Crypto.encrypt_message msg (b64_encode (x25519_public rsk)) receiver key rand now = Ok em →
  first_char (Crypto.message_id em) = Some a → visible a = true →
  no_char space (Crypto.message_id em) = true →
  attentive s → storing s = true → Crypto.message_id em ∉ processed s →
  ∃ s', run rsk (delivery_turns (delivery_text (Crypto.message_id em) (published em))) s = Some s'
    ∧ msg_channel s' = msg_channel s ++ [(Crypto.message_id em, Crypto.content msg)]
    ∧ written (stream s') = written (stream s) ++ [ack_line (Crypto.message_id em)].
Proof.
  intros Hk Hn Hu He Hf Hv Hs Ha Hst Hp.
  destruct (delivery_accepted rsk (Crypto.message_id em) (to_json (published em))
    (Crypto.envelope em) (Crypto.content msg) s
    (delivery_text (Crypto.message_id em) (published em))) as (s' & Hr & _ & Hm & _ & _ & Hw);
    [done|by eapply parse_delivery_text|done|apply envelope_published
    |by eapply Crypto.encrypt_decrypt|].
  exists s'. rewrite Hst in Hm. done.
Qed.

(** *** The connection loop *)

Lemma run_stops key ts s s' : run key ts s = Some s' → stops s → stops s'.
Proof. apply turns_preserve. intros t s1 s2. apply step_stops. Qed.

(** A connection that got past its handshake leaves the flag cleared. *)
Lemma receive_loop_stops cfg pub key c ts s b c' s' :
  handshake cfg pub c = (Ok b, c') → receive_loop cfg pub key c ts s = Some s' →
  running s' = false.
Proof.
  intros Hh. unfold receive_loop. rewrite Hh. destruct b; [|by intros [= <-]].
  change [LoopTest; LoopRead LineEof] with ([LoopTest] ++ [LoopRead LineEof]).
  rewrite List.app_assoc, !turns_snoc.
  destruct (run key ts _) as [s1|] eqn:Hr; [|done]. apply run_stops in Hr; [|done].
  cbn [mbind option_bind step]. unfold on_test. destruct (loop s1) eqn:Hl.
  - destruct (running s1) eqn:Hb; by intros [= <-].
  - unfold on_event. rewrite Hl. by intros [= <-].
  - unfold on_event. rewrite Hl. intros [= <-]. by apply Hr.
Qed.

(** The receiver never reconnects once a connection got past its handshake
    (or its key was refused): after it [main] makes no further attempt,
    whatever the network offers. *)
Theorem no_reconnect_after_session cfg pub key before c ts rest s :
  is_ok (handshake cfg pub c).1 = true →
  connection_loop cfg pub key (before ++ Connected c ts :: rest) s
  = connection_loop cfg pub key (before ++ [Connected c ts]) s.
Proof.
  destruct (handshake cfg pub c) as [[b|] c'] eqn:Hh; [intros _|done].
  revert s. induction before as [|a before IH]; intros s; cbn [connection_loop app].
  - destruct (negb (running s)); [done|].
    destruct (receive_loop cfg pub key c ts s) as [s'|] eqn:Hr; [|done].
    pose proof (receive_loop_stops _ _ _ _ _ _ _ _ _ Hh Hr) as Hs.
    destruct rest; simpl; [done|]. by rewrite Hs.
  - destruct (negb (running s)); [done|]. by destruct a; [rewrite IH..|case_match; [rewrite IH|]].
Qed.

End Receiver.

(** ** Witnesses *)

#[local] Existing Instance Crypto.plain_base64.
#[local] Existing Instance Crypto.plain_ciphers.
#[local] Existing Instance Crypto.plain_ciphers_ok.
#[local] Existing Instance JsonFacts.toy_serde.
#[local] Existing Instance JsonFacts.toy_serde_laws.
#[local] Existing Instance ServerProps.toy_json.
#[local] Existing Instance ServerProps.toy_json_ok.

#[local] Instance toy_receiver_json : ReceiverJson := {|
  json_envelope := λ s, match parse s with
                        | Ok v => match dec_envelope v with Some e => Ok e | None => Err "data" end
                        | Err e => Err e
                        end;
  record_json := λ rec, Ok (message_id rec +:+ " " +:+ message rec)
|}.
#[local] Instance toy_receiver_json_ok : ReceiverJsonOk ServerProps.toy_json toy_receiver_json.
Proof.
  intros m e He. unfold json_envelope, toy_receiver_json, to_json, ServerProps.toy_json.
  by rewrite parse_print, He.
Qed.

Definition hello_line : string :=
  delivery_text (Crypto.message_id Crypto.hello_encrypted) (published Crypto.hello_encrypted).
Definition idle_socket : Stream := {| written := []; outcomes := [] |}.

Lemma hello_id : Crypto.message_id Crypto.hello_encrypted = "s-1234-r".
Proof. vm_compute. reflexivity. Qed.
Lemma hello_sent :
  Crypto.encrypt_message Crypto.hello (b64_encode (x25519_public "secret")) "r" "r_key"
    Crypto.dice "now" = Ok Crypto.hello_encrypted.
Proof. reflexivity. Qed.
#[local] Opaque Crypto.hello_encrypted.
Lemma hello_parsed :
  parse_delivery hello_line = Some ("s-1234-r", to_json (published Crypto.hello_encrypted)).
Proof. unfold hello_line. rewrite hello_id. by apply (parse_delivery_text _ _ "s"%char). Qed.
Lemma hello_decrypted :
  Crypto.decrypt_message (Crypto.envelope Crypto.hello_encrypted) "secret" = Some (Ok "hello").
Proof. by apply (Crypto.encrypt_decrypt Crypto.hello _ "r" "r_key" Crypto.dice "now"). Qed.
Lemma unseen id s : processed s = ∅ → id ∉ processed s.
Proof. intros ->. set_solver. Qed.

(** A message, its acknowledgement, its duplicate and the end of the stream. *)
Definition hello_turns : list Turn :=
  delivery_turns hello_line ++ [LoopTest; LoopRead (Line hello_line); LoopTest; LoopRead LineEof].
Definition hello_accepted : System :=
  ack_write (ack_recv (ack_test
    (accept "s-1234-r" "hello" (at_loop 0 LoopTesting (on_test (session [] idle_socket)))))).
Definition after_hello : System := cleanup (at_loop 0 LoopReading hello_accepted).
Lemma hello_first :
  on_event "secret" (Line hello_line) (on_test (session [] idle_socket))
  = Some (accept "s-1234-r" "hello" (at_loop 0 LoopTesting (on_test (session [] idle_socket)))).
Proof.
  eapply loop_accepts; [reflexivity|exact hello_parsed|by apply unseen
    |apply envelope_published|exact hello_decrypted].
Qed.
Lemma hello_again :
  on_event "secret" (Line hello_line) (on_test hello_accepted)
  = Some (at_loop 0 LoopTesting (on_test hello_accepted)).
Proof. eapply loop_duplicate; [reflexivity|exact hello_parsed|set_solver]. Qed.
Lemma hello_run : run "secret" hello_turns (session [] idle_socket) = Some after_hello.
Proof.
  unfold run, hello_turns, delivery_turns, foldl. cbn [mbind option_bind step app].
  rewrite hello_first. cbn [mbind option_bind step]. fold hello_accepted. rewrite hello_again.
  reflexivity.
Qed.

Lemma stored_once_and_acked_witness : NoDup (accepted after_hello).*1.
Proof.
  destruct (stored_once_and_acked [] idle_socket "secret" hello_turns after_hello hello_run)
    as (w & recs & lost & sent & _ & _ & _ & _ & _ & _ & H).
  exact H.
Defined.

Lemma shutdown_saves_everything_witness :
  ∃ s' w recs, run "secret" ((Store <$> [1000%Z; 2000%Z]) ++ [StoreDecide]) after_hello = Some s'
    ∧ writer s' = Some w ∧ wstage w = Done
    ∧ written (file w) = [] ++ lines_of recs ∧ pair_of <$> recs = [("s-1234-r", "hello")].
Proof.
  destruct (shutdown_saves_everything [] idle_socket "secret" hello_turns after_hello _
    hello_run eq_refl eq_refl eq_refl) as [Hsaved Hends].
  destruct (Hends [1000%Z; 2000%Z]) as (s' & w & Hr & Hw & Hd); [simpl; lia|].
  destruct (Hsaved _ s' w Hr Hw Hd) as (recs & Hf & Hp).
  by exists s', w, recs.
Defined.

Lemma hello_attentive f o : attentive (subscribe idle_socket (boot (start_writer o o f))).
Proof. split_and!; [done|done|by left|done|done]. Qed.

Lemma acked_without_storing_witness :
  ∃ s', run "secret" (delivery_turns hello_line) (subscribe idle_socket (boot None)) = Some s'
        ∧ written (stream s') = [ack_line "s-1234-r"] ∧ msg_channel s' = [] ∧ writer s' = None.
Proof.
  apply (acked_without_storing "secret" "s-1234-r" (to_json (published Crypto.hello_encrypted))
    (Crypto.envelope Crypto.hello_encrypted) "hello" (subscribe idle_socket (boot None)) hello_line
    eq_refl).
  - apply (hello_attentive idle_socket false).
  - exact hello_parsed.
  - apply unseen. reflexivity.
  - apply envelope_published.
  - exact hello_decrypted.
Defined.

Lemma late_message_lost_witness :
  ∃ s w, run "secret" [LoopTest; AckTest; Sigint; Store 0; StoreDecide;
                       LoopRead (Line hello_line); AckRecv; AckWrite] (session ["old"] idle_socket)
         = Some s
    ∧ accepted s = [("s-1234-r", "hello")]
    ∧ written (stream s) = [] ++ [ack_line "s-1234-r"]
    ∧ writer s = Some w ∧ wstage w = Done ∧ batch w = [] ∧ msg_channel s = []
    ∧ written (file w) = ["old"].
Proof.
  apply (late_message_lost ["old"] idle_socket "secret" "s-1234-r"
    (to_json (published Crypto.hello_encrypted)) (Crypto.envelope Crypto.hello_encrypted) "hello"
    hello_line 0 eq_refl hello_parsed).
  - apply envelope_published.
  - exact hello_decrypted.
Defined.

Lemma end_to_end_delivery_witness :
  ∃ s', run "secret" (delivery_turns hello_line) (session [] idle_socket) = Some s'
    ∧ msg_channel s' = [] ++ [(Crypto.message_id Crypto.hello_encrypted, "hello")]
    ∧ written (stream s') = [] ++ [ack_line (Crypto.message_id Crypto.hello_encrypted)].
Proof.
  apply (end_to_end_delivery Crypto.hello "secret" "r" "r_key" Crypto.dice "now"
    Crypto.hello_encrypted (session [] idle_socket) "s"%char eq_refl eq_refl eq_refl hello_sent);
    [by rewrite hello_id|reflexivity|by rewrite hello_id| |reflexivity|].
  - apply (hello_attentive _ true).
  - by apply unseen.
Defined.

Definition config0 : Config :=
  {| queue_name := "r_queue"; exchange_name := "e"; routing_key := "r_key" |}.
Definition refusing : Conn := {| socket := idle_socket; replies := [Some "Error: full"] |}.
Lemma no_reconnect_after_session_witness :
  connection_loop config0 (Some (b64_encode Crypto.key32)) "secret"
    ([TcpFailed] ++ Connected refusing [] :: [Connected refusing []; TlsFailed]) (boot None)
  = connection_loop config0 (Some (b64_encode Crypto.key32)) "secret"
    ([TcpFailed] ++ [Connected refusing []]) (boot None).
Proof.
  apply (no_reconnect_after_session config0 (Some (b64_encode Crypto.key32)) "secret" [TcpFailed]
    refusing [] [Connected refusing []; TlsFailed] (boot None)).
  vm_compute. reflexivity.
Defined.

End ReceiverProps.
