(* ===== verification/Sender.v ===== *)
(** The sender program, [clients/sender_1/src/main.rs], up to its pipeline: the
    configuration, the text of a message, the request lines, and the retrieval
    of the receivers' public keys. *)
From S2P Require Import Prelude RustStr Storage State RateLimiter Server Crypto Client.
From stdpp Require Import list pretty options.
From Stdlib Require Import Ascii SpecFloat.

Module Sender.
Import RustStr Server Client.

(** ** Configuration *)

(** [struct Binding] *)
Record Binding := { queue_name : string; exchange_name : string; routing_key : string }.

(** [struct MessageConfig]; the extra fields in the order the map yields them *)
Record MessageConfig := { content_template : string; extra_fields : list (string * string) }.
(** [struct SenderConfig] *)
Record SenderConfig := {
  num_messages : nat;
  max_inflight : nat;
  max_retries : nat;
  ack_timeout_secs : Z;
  tcp_connect_timeout_secs : Z;
  batch_size : nat;
  batch_delay_ms : Z;
  message : MessageConfig
}.
(** [struct Config], without the address and the settings of TLS and logging *)
Record Config := {
  exchange : string;
  bindings : list Binding;
  receiver_client_ids : list string;
  sender : SenderConfig
}.

Definition default_template : string :=
  "{sender_id}-CipherMQ Sample message with ID: {correlation_id}".
(** [MessageConfig::default] and [SenderConfig::default] *)
Definition default_message : MessageConfig :=
  {| content_template := default_template; extra_fields := [] |}.
Definition default_sender : SenderConfig :=
  {| num_messages := 100; max_inflight := 20; max_retries := 3; ack_timeout_secs := 30;
     tcp_connect_timeout_secs := 120; batch_size := 10; batch_delay_ms := 10;
     message := default_message |}.

(** A JSON value as far as [ReceiverIds::deserialize] looks at it: [as_str] of
    the elements of an array. *)
Inductive Value := JString (s : string) | JArray (l : list (option string)) | JOther.
(** [ReceiverIds::deserialize] *)
Fixpoint string_ids (l : list (option string)) : result (list string) string :=
  match l with
  | [] => Ok []
  | Some s :: rest => try ids ← string_ids rest; Ok (s :: ids)
  | None :: _ => Err "receiver_client_ids: expected string"
  end.
Definition receiver_ids (v : Value) : result (list string) string :=
  match v with
  | JString s => Ok [s]
  | JArray arr => string_ids arr
  | JOther => Err "receiver_client_ids must be string or array of strings"
  end.

(** ** The text of a message *)

(** [str::replace] for a non-empty pattern: matches from the left, without
    overlap; [skip] characters belong to the last match. *)
Fixpoint replace_from (skip : nat) (pat to s : string) : string :=
  match s with
  | EmptyString => ""
  | String a s' =>
      match skip with
      | S skip' => replace_from skip' pat to s'
      | O => if starts_with pat s then to +:+ replace_from (String.length pat - 1) pat to s'
             else String a (replace_from 0 pat to s')
      end
  end.
Definition replace (pat to s : string) : string := replace_from 0 pat to s.

(** [format!("{:.3}", x)]: the nearest multiple of a thousandth. *)
Definition thousandths (m : positive) (e : Z) : Z :=
  let n := (Zpos m * 1000)%Z in
  if (0 <=? e)%Z then (n * 2 ^ e)%Z
  else let d := (2 ^ (- e))%Z in
       let q := (n / d)%Z in let r := (n `mod` d)%Z in
       if (2 * r <? d)%Z then q
       else if (d <? 2 * r)%Z then (q + 1)%Z
       else if Z.even q then q else (q + 1)%Z.
Definition digits3 (n : Z) : string :=
  String.substring 1 3 (pretty (1000 + n)%Z).
Definition format_3 (x : spec_float) : string :=
  match x with
  | S754_zero sign => (if sign then "-" else "") +:+ "0.000"
  | S754_infinity sign => (if sign then "-" else "") +:+ "inf"
  | S754_nan => "NaN"
  | S754_finite sign m e =>
      let n := thousandths m e in
      (if sign then "-" else "") +:+ pretty (n / 1000)%Z +:+ "." +:+ digits3 (n `mod` 1000)%Z
  end.

Definition placeholder (k : string) : string := "{" +:+ k +:+ "}".

(** [MessageConfig::render] *)
Definition render (cfg : MessageConfig) (sender_id correlation_id : string)
    (timestamp : spec_float) (seq : nat) : string :=
  let out := content_template cfg in
  let out := replace "{sender_id}" sender_id out in
  let out := replace "{correlation_id}" correlation_id out in
  let out := replace "{timestamp}" (format_3 timestamp) out in
  let out := replace "{seq}" (pretty seq) out in
  foldl (λ out kv, replace (placeholder kv.1) kv.2 out) out (extra_fields cfg).

(** [generate_message], with the text of the fresh UUID and the time in
    milliseconds. *)
Definition generate_message (client_id : string) (cfg : MessageConfig) (seq : nat)
    (uuid : string) (now : Z) : Crypto.PlainMessage :=
  let correlation_id := String.substring 0 8 uuid in
  let sent_timestamp := timestamp_secs now in
  {| Crypto.correlation_id := correlation_id; Crypto.sender_id := client_id;
     Crypto.sent_timestamp := sent_timestamp;
     Crypto.content := render cfg client_id correlation_id sent_timestamp seq |}.

(** ** Requests *)

(** [configure_server]: the responses are only logged. *)
Fixpoint configure_server (bs : list Binding) : M () :=
  match bs with
  | [] => mret ()
  | b :: rest =>
      _ ← send_recv ("declare_queue " +:+ queue_name b +:+ nl);
      _ ← send_recv ("declare_exchange " +:+ exchange_name b +:+ nl);
      _ ← send_recv ("bind " +:+ queue_name b +:+ " " +:+ exchange_name b +:+ " "
                     +:+ routing_key b +:+ nl);
      configure_server rest
  end.

(** [get_public_key] *)
Definition get_public_key (client_id : string) : M (option string) :=
  response ← send_recv ("get_public_key " +:+ client_id +:+ nl);
  mret (strip_prefix "Public key: " response).

(** ** Public keys *)

(** The files under [keys/], and whether a file can be written. *)
Record Disk := { files : gmap string string; writable : string → bool }.
Definition key_path (receiver : string) : string := "keys/" +:+ receiver +:+ "_public.key".
Definition write_file (path text : string) (d : Disk) : Disk :=
  if writable d path then {| files := <[path := text]> (files d); writable := writable d |} else d.

(** The loop of [fetch_all_public_keys_once] over the receivers. *)
Fixpoint fetch_keys (ids : list string) (keys : gmap string string) (d : Disk) (c : Conn)
    : result (gmap string string) string * Disk :=
  match ids with
  | [] => (Ok keys, d)
  | id :: rest =>
      match get_public_key id c with
      | (Err e, _) => (Err e, d)
      | (Ok (Some key), c1) => fetch_keys rest (<[id := key]> keys) (write_file (key_path id) key d) c1
      | (Ok None, c1) => fetch_keys rest keys d c1
      end
  end.
(** [fetch_all_public_keys_once] over the connection [connect_tls] made. *)
Definition fetch_all_public_keys_once (cfg : Config) (conn : option Conn) (d : Disk)
    : result (gmap string string) string * Disk :=
  match conn with
  | None => (Err "connect", d)
  | Some c =>
      match configure_server (bindings cfg) c with
      | (Err e, _) => (Err e, d)
      | (Ok _, c1) => fetch_keys (receiver_client_ids cfg) ∅ d c1
      end
  end.
(** [fetch_all_public_keys] over the connections of its attempts; those beyond
    the list fail. *)
Fixpoint fetch_attempts (n : nat) (cfg : Config) (conns : list (option Conn)) (d : Disk)
    : gmap string string * Disk :=
  match n with
  | O => (∅, d)
  | S n' =>
      let '(r, d1) := fetch_all_public_keys_once cfg (default None (head conns)) d in
      match r with
      | Ok keys => if decide (keys = ∅) then fetch_attempts n' cfg (tail conns) d1 else (keys, d1)
      | Err _ => fetch_attempts n' cfg (tail conns) d1
      end
  end.
Definition fetch_all_public_keys (cfg : Config) (conns : list (option Conn)) (d : Disk)
    : gmap string string * Disk :=
  fetch_attempts (max_retries (sender cfg)) cfg conns d.

(** The start of [send_messages_async_pipeline]: keys of the server, or else
    those of local files; [None] when there are none. *)
Definition local_keys (cfg : Config) (d : Disk) : gmap string string :=
  foldl (λ keys id, match files d !! key_path id with
                    | Some text => <[id := trim text]> keys
                    | None => keys
                    end) ∅ (receiver_client_ids cfg).
Definition public_keys (cfg : Config) (conns : list (option Conn)) (d : Disk)
    : option (gmap string string) * Disk :=
  let '(keys, d1) := fetch_all_public_keys cfg conns d in
  let keys := if decide (keys = ∅) then local_keys cfg d1 else keys in
  (if decide (keys = ∅) then None else Some keys, d1).
Definition routing_map (cfg : Config) : gmap string string :=
  foldl (λ m b, <[queue_name b := routing_key b]> m) ∅ (bindings cfg).

End Sender.
