(* ===== verification/Pipeline.v ===== *)
(** The pipeline of the sender, [send_messages_async_pipeline] of
    [clients/sender_1/src/main.rs], from the start of its ACK reader.

    The main task and the reader task share the semaphore, the map of pending
    messages and the result channel. [step] lets one of them make a step and is
    [None] where that task waits: a state in which no step of the main task can
    ever be taken again is a sender that hangs. *)
From S2P Require Import Prelude RustStr Storage State JsonTree Server Crypto Client Sender.
From stdpp Require Import list options.

Module Pipeline.
Import RustStr Server Crypto Sender.

(** [enum AckResult] *)
Inductive AckResult :=
| AckOk (id : string)
| ServerError (response : string)
| Unknown (response : string)
| IoError (e : string).
#[export] Instance AckResult_eq_dec : EqDecision AckResult.
Proof. solve_decision. Defined.

(** The reader task: waiting for a line, waiting for room in the channel (and
    whether it stops then), or ended. *)
Inductive Reader := Reading | Pushing (r : AckResult) (stop : bool) | Stopped.

(** The main task: sending ([i] messages were generated, up to [batch_end] in
    this batch; [queue] holds the copies of the current one), draining,
    retrying, or waiting for the reader at the end. *)
Inductive Main :=
| Sending (i batch_end : nat) (queue : list EncryptedMessage)
| Draining
| Retrying (unacked : list EncryptedMessage) (attempt : nat) (waiting : bool)
| Closing
| Finished.

(** [sent] and [acks] are history: the messages written in the sending loop and
    the identifiers of the ACK replies read so far. *)
Record Pipe := {
  main : Main;
  reader : Reader;
  permits : nat;
  pending : gmap string EncryptedMessage;
  channel : list AckResult;
  writer : Stream;
  sent_count : nat;
  failed_ids : list string;
  final_failed : nat;
  sent : list EncryptedMessage;
  acks : list string
}.
Definition set_main m (p : Pipe) : Pipe :=
  {| main := m; reader := reader p; permits := permits p; pending := pending p;
     channel := channel p; writer := writer p; sent_count := sent_count p;
     failed_ids := failed_ids p; final_failed := final_failed p; sent := sent p; acks := acks p |}.
Definition set_reader r (p : Pipe) : Pipe :=
  {| main := main p; reader := r; permits := permits p; pending := pending p;
     channel := channel p; writer := writer p; sent_count := sent_count p;
     failed_ids := failed_ids p; final_failed := final_failed p; sent := sent p; acks := acks p |}.
Definition set_channel c (p : Pipe) : Pipe :=
  {| main := main p; reader := reader p; permits := permits p; pending := pending p;
     channel := c; writer := writer p; sent_count := sent_count p;
     failed_ids := failed_ids p; final_failed := final_failed p; sent := sent p; acks := acks p |}.
Definition set_writer w (p : Pipe) : Pipe :=
  {| main := main p; reader := reader p; permits := permits p; pending := pending p;
     channel := channel p; writer := w; sent_count := sent_count p;
     failed_ids := failed_ids p; final_failed := final_failed p; sent := sent p; acks := acks p |}.

(** ** Before the pipeline runs *)

(** [connect_tls] and [configure_server], which the function does three times;
    only the last connection carries messages. *)
Definition connect_configured (cfg : Config) (conn : option Client.Conn) : result Client.Conn string :=
  match conn with
  | None => Err "connect"
  | Some c =>
      match configure_server (bindings cfg) c with
      | (Err e, _) => Err e
      | (Ok _, c1) => Ok c1
      end
  end.
Definition open_connections (cfg : Config) (first second third : option Client.Conn)
    : result Client.Conn string :=
  try _ ← connect_configured cfg first;
  try _ ← connect_configured cfg second;
  connect_configured cfg third.

(** The copies of the message with number [seq]: [uuid], [millis], [rand] and
    [now] are the random and clock values of the run. *)
Definition encrypted_messages `{P : Primitives} `{K : Ciphers} (cfg : Config) (client_id : string)
    (receivers : list string) (d : Disk) (uuid : nat → string) (millis : nat → Z)
    (rand : nat → string → Randomness) (now : nat → string → string) (seq : nat)
    : list EncryptedMessage :=
  encrypt_for_all_receivers
    (generate_message client_id (message (sender cfg)) seq (uuid seq) (millis seq)) receivers
    (λ id, files d !! key_path id) (routing_map cfg) (rand seq) (now seq).

Section Pipeline.
Context `{SJ : Serde} (cfg : Config).
(** The message of a number, generated and encrypted for all receivers. *)
Variable encrypted : nat → list EncryptedMessage.

Definition capacity : nat := 2 * max_inflight (sender cfg).

(** The [json!] object of a publication and its text. *)
Definition payload (em : EncryptedMessage) : JsonTree.Value :=
  JsonTree.obj [("message_id", JStr (message_id em)); ("ciphertext", JStr (ciphertext em));
                ("receiver_client_id", JStr (receiver_client_id em));
                ("enc_session_key", JStr (enc_session_key em)); ("nonce", JStr (nonce em));
                ("sent_time", JStr (sent_time em))].
Definition payload_str (em : EncryptedMessage) : string := print (payload em).

(** The request line of a publication. *)
Definition publish_command (em : EncryptedMessage) : string :=
  "publish " +:+ exchange cfg +:+ " " +:+ Crypto.routing_key em +:+ " " +:+ payload_str em +:+ nl.

(** ** The reader task *)

(** A line was read: an ACK takes its message out of the map and returns a
    permit. *)
Definition on_reply (line : string) (p : Pipe) : Pipe :=
  let response := trim line in
  match strip_prefix "ACK " response with
  | Some id =>
      {| main := main p; reader := Pushing (AckOk id) false; permits := 1 + permits p;
         pending := delete id (pending p); channel := channel p; writer := writer p;
         sent_count := sent_count p; failed_ids := failed_ids p; final_failed := final_failed p;
         sent := sent p; acks := acks p ++ [id] |}
  | None =>
      set_reader (Pushing (if starts_with "Error:" response then ServerError response
                           else Unknown response) false) p
  end.

(** ** The main task *)

(** The body of [for em in encrypted], with a permit at hand. The permit is
    forgotten when the message was written; when it was not, it is dropped,
    after [add_permits(1)]. *)
Definition send (em : EncryptedMessage) (i batch_end : nat) (queue : list EncryptedMessage)
    (p : Pipe) : Pipe :=
  let failed st :=
    {| main := Sending i batch_end queue; reader := reader p; permits := 1 + permits p;
       pending := delete (message_id em) (<[message_id em := em]> (pending p));
       channel := channel p; writer := st; sent_count := sent_count p;
       failed_ids := failed_ids p ++ [message_id em]; final_failed := final_failed p;
       sent := sent p; acks := acks p |} in
  let '(ok, st1) := write_all (publish_command em) (writer p) in
  if negb ok then failed st1
  else
    let '(ok', st2) := flush st1 in
    if negb ok' then failed st2
    else
      {| main := Sending i batch_end queue; reader := reader p; permits := permits p - 1;
         pending := <[message_id em := em]> (pending p); channel := channel p; writer := st2;
         sent_count := 1 + sent_count p; failed_ids := failed_ids p;
         final_failed := final_failed p; sent := sent p ++ [em]; acks := acks p |}.

(** The outer loop: the next batch, or the wait for the remaining ACKs. *)
Definition next_batch (i : nat) (p : Pipe) : Pipe :=
  if decide (i < num_messages (sender cfg))
  then set_main (Sending i (min (i + batch_size (sender cfg)) (num_messages (sender cfg))) []) p
  else set_main Draining p.

(** A step of the sending loop: a message, the next number, or the end of a
    batch, where the results received so far are taken off the channel. *)
Definition sending_step (i batch_end : nat) (queue : list EncryptedMessage) (p : Pipe)
    : option Pipe :=
  match queue with
  | em :: rest => if decide (permits p = 0) then None else Some (send em i batch_end rest p)
  | [] =>
      if decide (i < batch_end) then Some (set_main (Sending (1 + i) batch_end (encrypted (1 + i))) p)
      else Some (next_batch i (set_channel [] p))
  end.

(** The end of the draining loop: what is pending will be retried. *)
Definition collect (p : Pipe) : Pipe :=
  let unacked := (map_to_list (pending p)).*2 in
  {| main := Retrying unacked 0 false; reader := reader p; permits := permits p;
     pending := pending p; channel := channel p; writer := writer p; sent_count := sent_count p;
     failed_ids := failed_ids p ++ (message_id <$> unacked); final_failed := 0;
     sent := sent p; acks := acks p |}.

(** One turn of the draining loop; [late] is whether the drain timeout is over. *)
Definition draining_step (late : bool) (p : Pipe) : Pipe :=
  if decide (pending p = ∅) then collect p
  else if late then collect p
  else match channel p with
  | IoError _ :: rest => collect (set_channel rest p)
  | _ :: rest => set_channel rest p
  | [] => p
  end.

(** The next attempt at a message, or the next message. *)
Definition fail_message (rest : list EncryptedMessage) (p : Pipe) : Pipe :=
  {| main := Retrying rest 0 false; reader := reader p; permits := permits p;
     pending := pending p; channel := channel p; writer := writer p; sent_count := sent_count p;
     failed_ids := failed_ids p; final_failed := 1 + final_failed p; sent := sent p; acks := acks p |}.

(** A step of the retry loop; [late] is whether the wait for an ACK timed out. *)
Definition retrying_step (late : bool) (unacked : list EncryptedMessage) (attempt : nat)
    (waiting : bool) (p : Pipe) : option Pipe :=
  match unacked with
  | [] => Some (set_main Closing p)
  | em :: rest =>
      if decide (max_retries (sender cfg) ≤ attempt) then Some (fail_message rest p)
      else if waiting then
        if late then Some (set_main (Retrying unacked (1 + attempt) false) p)
        else match channel p with
        | [] => None
        | r :: results =>
            let p1 := set_channel results p in
            if decide (r = AckOk (message_id em)) then Some (set_main (Retrying rest 0 false) p1)
            else Some (set_main (Retrying unacked (1 + attempt) false) p1)
        end
      else
        let '(ok, st1) := write_all (publish_command em) (writer p) in
        if negb ok then Some (set_main (Retrying unacked (1 + attempt) false) (set_writer st1 p))
        else
          let '(ok', st2) := flush st1 in
          if negb ok' then Some (set_main (Retrying unacked (1 + attempt) false) (set_writer st2 p))
          else Some (set_main (Retrying unacked attempt true) (set_writer st2 p))
  end.

(** ** Steps *)

Inductive Label :=
| MainStep (late : bool)
| Reply (line : string)
| ReadTimeout
| ReadError (e : string)
| ReadEof
| Push.

Definition step (l : Label) (p : Pipe) : option Pipe :=
  match l with
  | MainStep late =>
      match main p with
      | Sending i batch_end queue => sending_step i batch_end queue p
      | Draining => Some (draining_step late p)
      | Retrying unacked attempt waiting => retrying_step late unacked attempt waiting p
      | Closing => match reader p with Stopped => Some (set_main Finished p) | _ => None end
      | Finished => None
      end
  | Push =>
      match reader p with
      | Pushing r stop =>
          if decide (length (channel p) < capacity)
          then Some (set_reader (if stop then Stopped else Reading) (set_channel (channel p ++ [r]) p))
          else None
      | _ => None
      end
  | _ =>
      match reader p with
      | Reading =>
          Some (match l with
                | Reply line => on_reply line p
                | ReadError e => set_reader (Pushing (IoError e) true) p
                | _ => set_reader Stopped p
                end)
      | _ => None
      end
  end.

(** Steps that are not possible are skipped. *)
Definition run (ls : list Label) (p : Pipe) : Pipe :=
  foldl (λ p l, default p (step l p)) p ls.

(** The state when the reader starts; a channel of capacity 0 is a panic. *)
Definition start (w : Stream) : option Pipe :=
  if decide (capacity = 0) then None
  else Some (next_batch 0 {| main := Draining; reader := Reading;
    permits := max_inflight (sender cfg); pending := ∅; channel := []; writer := w;
    sent_count := 0; failed_ids := []; final_failed := 0; sent := []; acks := [] |}).

End Pipeline.
End Pipeline.
