(* ===== verification/PipelineProps.v ===== *)
(** The properties of the sender's pipeline: the accounting of permits and of
    messages, the end of its loops, and the states in which it hangs. *)
From S2P Require Import Prelude RustStr Storage State JsonTree Server Crypto Client Sender Pipeline.
From stdpp Require Import list options.
From Stdlib Require Import Ascii.

Module PipelineProps.
Import RustStr Server Crypto Sender Pipeline.

Section Pipeline.
Context `{SJ : Serde} (cfg : Config) (encrypted : nat → list EncryptedMessage).

(** The states of a run. *)
Inductive reachable (st : Stream) : Pipe → Prop :=
| reach_start p : start cfg st = Some p → reachable st p
| reach_next l p p' : reachable st p → step cfg encrypted l p = Some p' → reachable st p'.

(** ** Accounting *)

(** The copies of the first [i] messages. *)
Definition copies_of (i : nat) : list EncryptedMessage := mjoin (encrypted <$> seq 1 i).
Definition sending (m : Main) : Prop :=
  match m with Sending _ _ _ | Draining => True | _ => False end.
(** The copies encrypted so far, and those of them the sending loop has still
    to take. *)
Definition generated (m : Main) : list EncryptedMessage :=
  match m with Sending i _ _ => copies_of i | _ => copies_of (num_messages (sender cfg)) end.
Definition left_over (m : Main) : list EncryptedMessage :=
  match m with Sending _ _ queue => queue | _ => [] end.

Lemma copies_of_S i : copies_of (S i) = copies_of i ++ encrypted (S i).
Proof. unfold copies_of. rewrite seq_S, fmap_app, join_app. simpl. by rewrite List.app_nil_r. Qed.

(** What is true in the sending loop: [failed] are the copies whose write
    failed. *)
Record accounts (p : Pipe) : Prop := {
  a_permits : permits p + sent_count p
    = max_inflight (sender cfg) + length (acks p) + length (failed_ids p);
  a_sent : sent_count p = length (sent p);
  a_taken : ∃ failed, message_id <$> failed = failed_ids p
    ∧ sent p ++ failed ++ left_over (main p) ≡ₚ generated (main p);
  a_numbers : match main p with
              | Sending i batch_end _ => i ≤ batch_end ≤ num_messages (sender cfg)
              | _ => True
              end
}.

Lemma next_batch_main i p :
  main (next_batch cfg i p) =
    if decide (i < num_messages (sender cfg))
    then Sending i (min (i + batch_size (sender cfg)) (num_messages (sender cfg))) [] else Draining.
Proof. unfold next_batch. by case_decide. Qed.
Lemma next_batch_frame i p :
  permits (next_batch cfg i p) = permits p ∧ sent_count (next_batch cfg i p) = sent_count p
  ∧ acks (next_batch cfg i p) = acks p ∧ failed_ids (next_batch cfg i p) = failed_ids p
  ∧ sent (next_batch cfg i p) = sent p ∧ pending (next_batch cfg i p) = pending p
  ∧ writer (next_batch cfg i p) = writer p ∧ channel (next_batch cfg i p) = channel p
  ∧ reader (next_batch cfg i p) = reader p.
Proof. unfold next_batch. by case_decide. Qed.

Lemma next_batch_accounts i p :
  permits p + sent_count p = max_inflight (sender cfg) + length (acks p) + length (failed_ids p) →
  sent_count p = length (sent p) →
  (∃ failed, message_id <$> failed = failed_ids p ∧ sent p ++ failed ≡ₚ copies_of i) →
  i ≤ num_messages (sender cfg) →
  accounts (next_batch cfg i p).
Proof.
  intros H1 H2 (failed & H3 & H4) H5. destruct (next_batch_frame i p) as (E1&E2&E3&E4&E5&_).
  split; rewrite ?E1, ?E2, ?E3, ?E4, ?E5, ?next_batch_main; try done.
  - exists failed. split; [done|]. case_decide; simpl; rewrite List.app_nil_r; [done|].
    by replace (num_messages (sender cfg)) with i by lia.
  - case_decide; simpl; [|done]. lia.
Qed.

Lemma send_accounts em i batch_end queue p :
  main p = Sending i batch_end (em :: queue) → permits p ≠ 0 →
  accounts p → accounts (send cfg em i batch_end queue p).
Proof.
  intros Hm Hp [H1 H2 (failed & H3 & H4) H5]. rewrite Hm in H4, H5. simpl in H4, H5.
  assert (sent p ++ (failed ++ [em]) ++ queue ≡ₚ copies_of i) as Hfail by (by rewrite <-List.app_assoc).
  assert (message_id <$> failed ++ [em] = failed_ids p ++ [message_id em]) as Hids
    by (by rewrite fmap_app, H3).
  unfold send. destruct (write_all _ (writer p)) as [[] st1]; cbn [negb].
  - destruct (flush st1) as [[] st2]; cbn [negb];
      split; simpl; rewrite ?List.length_app; simpl; try lia; [|by exists (failed ++ [em])].
    exists failed. split; [done|]. rewrite <-H4, <-List.app_assoc.
    apply Permutation_app_head. simpl. apply Permutation_middle.
  - split; simpl; rewrite ?List.length_app; simpl; try lia. by exists (failed ++ [em]).
Qed.

Lemma sending_accounts i batch_end queue p p' :
  main p = Sending i batch_end queue → sending_step cfg encrypted i batch_end queue p = Some p' →
  accounts p → accounts p'.
Proof.
  intros Hm. unfold sending_step. destruct queue as [|em queue].
  - intros Hs [H1 H2 (failed & H3 & H4) H5]. rewrite Hm in H4, H5. simpl in H4, H5.
    rewrite List.app_nil_r in H4. case_decide; injection Hs as <-.
    + split; simpl; [done|done| |lia]. exists failed. split; [done|].
      by rewrite copies_of_S, List.app_assoc, H4.
    + apply next_batch_accounts; [done|done|by exists failed|lia].
  - case_decide; [done|]. intros [= <-]. by apply send_accounts.
Qed.

(** The reader touches neither the main task nor the count of messages. *)
Lemma on_reply_accounts line p : accounts p → accounts (on_reply line p).
Proof.
  intros [H1 H2 H3 H4]. unfold on_reply. destruct (strip_prefix "ACK " (trim line)); [|done].
  split; simpl; [|done..]. rewrite List.length_app. simpl. lia.
Qed.

(** The retry loop changes no count and does not go back. *)
Lemma retrying_frame late unacked attempt waiting p p' :
  retrying_step cfg late unacked attempt waiting p = Some p' →
  permits p' = permits p ∧ sent_count p' = sent_count p ∧ sent p' = sent p ∧ acks p' = acks p
  ∧ failed_ids p' = failed_ids p ∧ pending p' = pending p
  ∧ match main p' with
    | Retrying unacked' _ _ => unacked' = unacked ∨ ∃ em, unacked = em :: unacked'
    | Closing => unacked = []
    | _ => False
    end.
Proof.
  unfold retrying_step. destruct unacked as [|em rest]; [by intros [= <-]|].
  case_decide; [intros [= <-]; simpl; eauto 10|]. destruct waiting.
  - destruct late; [intros [= <-]; simpl; auto 10|]. destruct (channel p) as [|r results]; [done|].
    case_decide; intros [= <-]; simpl; eauto 10.
  - destruct (write_all _ (writer p)) as [[] st1]; cbn [negb]; [|intros [= <-]; simpl; auto 10].
    destruct (flush st1) as [[] st2]; cbn [negb]; intros [= <-]; simpl; auto 10.
Qed.

Lemma draining_main late p :
  main p = Draining →
  main (draining_step late p) = Draining
    ∧ (∃ c, draining_step late p = set_channel c p) ∧ pending p ≠ ∅
  ∨ ∃ c, draining_step late p = collect (set_channel c p).
Proof.
  intros Hm. unfold draining_step. case_decide; [right; exists (channel p); by destruct p|].
  destruct late; [right; exists (channel p); by destruct p|]. destruct (channel p) as [|[] rest] eqn:Hc;
    [left; split; [done|]; split; [|done]; exists (channel p); by destruct p
    |left; eauto 10|left; eauto 10|left; eauto 10|right; eauto].
Qed.

Lemma step_accounts l p p' :
  step cfg encrypted l p = Some p' → (sending (main p) → accounts p) → sending (main p') → accounts p'.
Proof.
  intros Hs Ha Hp'. destruct l; simpl in Hs.
  - destruct (main p) as [i batch_end queue| |unacked attempt waiting| |] eqn:Hm.
    + eapply sending_accounts; [done..|]. by apply Ha.
    + injection Hs as <-. destruct (draining_main late p Hm) as [(_ & [c ->] & _)|[c Hc]].
      * destruct Ha as [H1 H2 H3 H4]; [done|]. by split.
      * by rewrite Hc in Hp'.
    + apply retrying_frame in Hs as (_&_&_&_&_&_&Hs). by destruct (main p').
    + destruct (reader p); try done. by injection Hs as <-.
    + done.
  - destruct (reader p); try done. injection Hs as <-. apply on_reply_accounts, Ha.
    unfold on_reply in Hp'. by destruct (strip_prefix _ _).
  - destruct (reader p); try done. injection Hs as <-. destruct (Ha Hp'). by split.
  - destruct (reader p); try done. injection Hs as <-. destruct (Ha Hp'). by split.
  - destruct (reader p); try done. injection Hs as <-. destruct (Ha Hp'). by split.
  - destruct (reader p); try done. case_decide; [|done]. injection Hs as <-.
    destruct (Ha Hp'). by split.
Qed.

Lemma reachable_accounts st p : reachable st p → sending (main p) → accounts p.
Proof.
  induction 1 as [p Hp|l p p' Hr IH Hs]; intros Hm; [|by eapply step_accounts].
  unfold start in Hp. case_decide; [done|]. injection Hp as <-.
  apply next_batch_accounts; simpl; [lia|done|by exists []|lia].
Qed.

(** C22: the semaphore of the pipeline: in every reachable state of the sending
    and draining loops the free permits are the window, minus the messages
    written, plus the ACK replies read, plus the failed writes (an error reply
    returns no permit); and the copies written, those whose write failed, which
    are the ones reported as failed, and those still to be taken are together,
    each as often, the copies of the messages generated so far. *)
Theorem permit_accounting st p :
  reachable st p → sending (main p) →
  permits p + length (sent p)
    = max_inflight (sender cfg) + length (acks p) + length (failed_ids p)
  ∧ sent_count p = length (sent p)
  ∧ ∃ failed, message_id <$> failed = failed_ids p
      ∧ sent p ++ failed ++ left_over (main p) ≡ₚ generated (main p).
Proof. intros Hr Hm. destruct (reachable_accounts _ _ Hr Hm) as [H1 H2 H3 _]. by rewrite <-H2. Qed.

(** ** No message is forgotten *)

Definition answered (p : Pipe) (em : EncryptedMessage) : Prop :=
  message_id em ∈ acks p ∨ message_id em ∈ failed_ids p.

Record remembers (p : Pipe) : Prop := {
  r_keys id em : pending p !! id = Some em → message_id em = id;
  r_sent em : em ∈ sent p → answered p em ∨ is_Some (pending p !! message_id em);
  r_collected em : ¬ sending (main p) → em ∈ sent p → answered p em;
  r_total : ¬ sending (main p) → ∃ failed, (message_id <$> failed) `prefix_of` failed_ids p
    ∧ sent p ++ failed ≡ₚ copies_of (num_messages (sender cfg))
}.

Lemma remembers_same p p' :
  pending p' = pending p → sent p' = sent p → acks p' = acks p → failed_ids p' = failed_ids p →
  (¬ sending (main p') → ¬ sending (main p)) → remembers p → remembers p'.
Proof.
  intros H1 H2 H3 H4 H5 [R1 R2 R3 R4]. split; unfold answered in *; rewrite ?H1, ?H2, ?H3, ?H4; auto.
Qed.

Lemma send_remembers em i batch_end queue p :
  sending (main p) → remembers p → remembers (send cfg em i batch_end queue p).
Proof.
  intros Hm [R1 R2 R3 R4]. unfold send.
  assert (∀ id em', delete (message_id em) (<[message_id em:=em]> (pending p)) !! id = Some em' →
    message_id em' = id) as Hdel.
  { intros id em'. rewrite lookup_delete_Some, lookup_insert. case_decide; naive_solver. }
  assert (∀ em', em' ∈ sent p →
    (message_id em' ∈ acks p ∨ message_id em' ∈ failed_ids p ++ [message_id em])
    ∨ is_Some (delete (message_id em) (<[message_id em:=em]> (pending p)) !! message_id em')) as Hf.
  { intros em' Hin. destruct (decide (message_id em' = message_id em)) as [->|Hne]; [set_solver|].
    rewrite lookup_delete_ne, lookup_insert_ne by done. destruct (R2 em' Hin) as [[]|]; set_solver. }
  destruct (write_all _ (writer p)) as [[] st1]; cbn [negb];
    [|split; [exact Hdel|exact Hf|simpl; tauto..]].
  destruct (flush st1) as [[] st2]; cbn [negb]; [|split; [exact Hdel|exact Hf|simpl; tauto..]].
  split; cbn [pending sent failed_ids acks main]; [| |simpl; tauto..].
  - intros id em'. rewrite lookup_insert. case_decide; naive_solver.
  - intros em'. rewrite elem_of_app, list_elem_of_singleton. unfold answered in *. cbn [acks failed_ids].
    destruct (decide (message_id em' = message_id em)) as [->|Hne];
      [rewrite lookup_insert_eq; eauto|]. rewrite lookup_insert_ne by done. naive_solver.
Qed.

Lemma on_reply_remembers line p : remembers p → remembers (on_reply line p).
Proof.
  intros HR. unfold on_reply. destruct (strip_prefix "ACK " (trim line)) as [id|];
    [|by apply (remembers_same p)].
  destruct HR as [R1 R2 R3 R4]. split; unfold answered in *; cbn [pending sent failed_ids acks main].
  - intros id' em. rewrite lookup_delete_Some. naive_solver.
  - intros em Hin. rewrite elem_of_app, list_elem_of_singleton.
    destruct (decide (message_id em = id)) as [->|Hne]; [auto|].
    rewrite lookup_delete_ne by done. destruct (R2 em Hin) as [[]|]; auto.
  - intros em Hm Hin. rewrite elem_of_app. destruct (R3 em Hm Hin); auto.
  - done.
Qed.

Lemma collect_remembers p : accounts p → main p = Draining → remembers p → remembers (collect p).
Proof.
  intros Ha Hm [R1 R2 R3 R4]. unfold collect.
  assert (∀ em, em ∈ sent p → message_id em ∈ acks p
    ∨ message_id em ∈ failed_ids p ++ (message_id <$> (map_to_list (pending p)).*2)) as Hall.
  { intros em Hin. rewrite elem_of_app. destruct (R2 em Hin) as [[]|[em' Hp]]; [auto..|].
    right. right. rewrite <-(R1 _ _ Hp). apply list_elem_of_fmap. exists em'. split; [done|].
    apply list_elem_of_fmap. exists (message_id em, em'). split; [done|]. by apply elem_of_map_to_list. }
  split; unfold answered; cbn [pending sent failed_ids acks main]; [done|by auto|by auto|].
  intros _. destruct Ha as [_ _ (failed & A1 & A2) _]. exists failed. rewrite A1.
  split; [by eexists|]. rewrite Hm in A2. simpl in A2. by rewrite List.app_nil_r in A2.
Qed.

Lemma step_remembers l p p' :
  step cfg encrypted l p = Some p' → (sending (main p) → accounts p) → remembers p → remembers p'.
Proof.
  intros Hs Ha HR. destruct l; simpl in Hs.
  - destruct (main p) as [i batch_end queue| |unacked attempt waiting| |] eqn:Hm.
    + unfold sending_step in Hs. destruct queue as [|em queue].
      * assert (sending (main p)) as Hsend by (by rewrite Hm).
        case_decide; injection Hs as <-; [by apply (remembers_same p)|].
        destruct (next_batch_frame i (set_channel [] p)) as (_&_&E3&E4&E5&E6&_).
        apply (remembers_same p); [done..| |done]. rewrite next_batch_main. case_decide; simpl; tauto.
      * case_decide; [done|]. injection Hs as <-. apply send_remembers; [by rewrite Hm|done].
    + injection Hs as <-. destruct (draining_main late p Hm) as [(_ & [c ->] & _)|[c ->]].
      * by apply (remembers_same p).
      * apply collect_remembers; [|done|by apply (remembers_same p)].
        destruct Ha as [H1 H2 H3 H4]; [done|]. by split.
    + apply retrying_frame in Hs as (_&_&E1&E2&E3&E4&_).
      apply (remembers_same p); [done..| |done]. rewrite Hm. simpl. tauto.
    + destruct (reader p); try done. injection Hs as <-. apply (remembers_same p); [done..| |done].
      rewrite Hm. simpl. tauto.
    + done.
  - destruct (reader p); try done. injection Hs as <-. by apply on_reply_remembers.
  - destruct (reader p); try done. injection Hs as <-. by apply (remembers_same p).
  - destruct (reader p); try done. injection Hs as <-. by apply (remembers_same p).
  - destruct (reader p); try done. injection Hs as <-. by apply (remembers_same p).
  - destruct (reader p); try done. case_decide; [|done]. injection Hs as <-.
    by apply (remembers_same p).
Qed.

Lemma reachable_remembers st p : reachable st p → remembers p.
Proof.
  induction 1 as [p Hp|l p p' Hr IH Hs].
  - unfold start in Hp. case_decide; [done|]. injection Hp as <-.
    set (p0 := {| main := Draining; reader := _ |}).
    destruct (next_batch_frame 0 p0) as (_&_&E3&E4&E5&E6&_).
    split; rewrite ?E4, ?E5, ?E6, ?next_batch_main.
    + intros id em. subst p0. cbn [pending]. by rewrite lookup_empty.
    + intros em ?%elem_of_nil. done.
    + intros em _ ?%elem_of_nil. done.
    + case_decide; simpl; tauto.
  - eapply step_remembers; [done| |done]. by apply (reachable_accounts st).
Qed.

(** C13: the pipeline forgets no message: in every reachable state each message
    that was written is acknowledged, reported as failed, or still pending for
    the retry; once the retry loop has begun, the copies written in the sending
    loop and those whose write failed, which are reported as failed, are
    together exactly the copies of all messages, each as often, and each written
    one is acknowledged or reported. *)
Theorem no_message_forgotten st p :
  reachable st p →
  (∀ em, em ∈ sent p → answered p em ∨ is_Some (pending p !! message_id em))
  ∧ (¬ sending (main p) →
     (∀ em, em ∈ sent p → answered p em)
     ∧ ∃ failed, (message_id <$> failed) `prefix_of` failed_ids p
       ∧ sent p ++ failed ≡ₚ copies_of (num_messages (sender cfg))).
Proof. intros [R1 R2 R3 R4]%reachable_remembers. split; [done|]. intros Hn. split; auto. Qed.

(** ** Hanging *)

(** The main task waits for a permit, and the reader has ended or waits for
    room in the full channel. *)
Definition blocked (p : Pipe) : Prop :=
  (∃ i batch_end em queue, main p = Sending i batch_end (em :: queue)) ∧ permits p = 0
  ∧ (reader p = Stopped ∨ ∃ r stop, reader p = Pushing r stop ∧ capacity cfg ≤ length (channel p)).

Lemma run_cons l ls p :
  run cfg encrypted (l :: ls) p = run cfg encrypted ls (default p (step cfg encrypted l p)).
Proof. done. Qed.
Lemma run_app ls ls' p : run cfg encrypted (ls ++ ls') p = run cfg encrypted ls' (run cfg encrypted ls p).
Proof. unfold run. by rewrite foldl_app. Qed.

Lemma run_reachable st p ls : reachable st p → reachable st (run cfg encrypted ls p).
Proof.
  revert p. induction ls as [|l ls IH]; intros p Hp; [done|].
  rewrite run_cons. apply IH.
  destruct (step cfg encrypted l p) as [p'|] eqn:Hs; [|done]. by eapply reach_next.
Qed.

(** Then no step of either task is possible any more, whatever the network does. *)
Definition hangs (p : Pipe) : Prop := ∀ ls, run cfg encrypted ls p = p.
Lemma blocked_hangs p : blocked p → hangs p.
Proof.
  intros ((i & batch_end & em & queue & Hm) & Hp & Hr) ls.
  induction ls as [|l ls IH]; [done|]. rewrite run_cons.
  assert (step cfg encrypted l p = None) as ->; [|done].
  destruct l; simpl; rewrite ?Hm; [by simpl; rewrite decide_True|..];
    (destruct Hr as [->|(r & stop & -> & Hc)]; [done|]); try done.
  by rewrite decide_False by lia.
Qed.

(** The reply of the server to a publication it accepted. *)
Definition ack_reply (em : EncryptedMessage) : string := "ACK " +:+ message_id em +:+ nl.

Lemma ack_reply_parsed em :
  all_chars visible (message_id em) = true → message_id em ≠ "" →
  strip_prefix "ACK " (trim (ack_reply em)) = Some (message_id em).
Proof.
  intros Hv Hne. destruct (all_visible_last _ Hv Hne) as (b & Hb & Vb).
  replace (ack_reply em) with (("ACK " +:+ message_id em) +:+ String (Ascii.ascii_of_N 10) "")
    by (unfold ack_reply; by rewrite <-app_assoc).
  rewrite (trim_line "A"%char b); [apply strip_prefix_app|done| |done|done].
  by rewrite last_char_app.
Qed.

(** The main task can send, and the socket works. *)
Record ready (i batch_end : nat) (queue : list EncryptedMessage) (k c : nat) (r : Reader) (p : Pipe)
    : Prop := {
  rd_main : main p = Sending i batch_end queue;
  rd_permits : permits p = k;
  rd_channel : length (channel p) = c;
  rd_reader : reader p = r;
  rd_writer : outcomes (writer p) = []
}.

Lemma ready_send i batch_end em queue k c r p :
  ready i batch_end (em :: queue) (S k) c r p →
  ready i batch_end queue k c r (run cfg encrypted [MainStep false] p)
  ∧ sent (run cfg encrypted [MainStep false] p) = sent p ++ [em].
Proof.
  intros [H1 H2 H3 H4 H5]. unfold run. cbn [foldl]. unfold step. rewrite H1. unfold sending_step.
  rewrite decide_False by lia. cbn [default]. unfold send, write_all, flush, next_outcome. rewrite H5.
  simpl. split; [|done]. split; simpl; try done. lia.
Qed.

Lemma ready_sends i batch_end now queue c r p :
  ready i batch_end (now ++ queue) (length now) c r p →
  let p' := run cfg encrypted (replicate (length now) (MainStep false)) p in
  ready i batch_end queue 0 c r p' ∧ sent p' = sent p ++ now.
Proof.
  revert p. induction now as [|em now IH]; intros p Hp; cbn zeta.
  { split; [done|]. simpl. by rewrite List.app_nil_r. }
  destruct (ready_send _ _ _ _ _ _ _ _ Hp) as [H1 H2]. destruct (IH _ H1) as [H3 H4].
  cbn [length replicate]. change (MainStep false :: ?l) with ([MainStep false] ++ l).
  rewrite run_app. split; [done|]. by rewrite H4, H2, <-List.app_assoc.
Qed.

Lemma ready_ack i batch_end queue k c p em :
  all_chars visible (message_id em) = true → message_id em ≠ "" →
  ready i batch_end queue k c Reading p →
  ready i batch_end queue (S k) c (Pushing (AckOk (message_id em)) false)
    (run cfg encrypted [Reply (ack_reply em)] p)
  ∧ sent (run cfg encrypted [Reply (ack_reply em)] p) = sent p.
Proof.
  intros Hv Hne [H1 H2 H3 H4 H5]. unfold run. cbn [foldl]. unfold step. rewrite H4.
  cbn [default]. unfold on_reply. rewrite ack_reply_parsed by done. split; [|done].
  split; simpl; auto.
Qed.

Lemma ready_push i batch_end queue k c r p :
  c < capacity cfg → ready i batch_end queue k c (Pushing r false) p →
  ready i batch_end queue k (S c) Reading (run cfg encrypted [Push] p) ∧ sent (run cfg encrypted [Push] p) = sent p.
Proof.
  intros Hc [H1 H2 H3 H4 H5]. unfold run. cbn [foldl]. unfold step. rewrite H4, decide_True by lia.
  split; [|done]. split; simpl; try done. rewrite List.length_app. simpl. lia.
Qed.

(** A message sent, acknowledged and reported. *)
Definition round (em : EncryptedMessage) : list Label :=
  [MainStep false] ++ [Reply (ack_reply em)] ++ [Push].
Definition sound_id (em : EncryptedMessage) : Prop :=
  all_chars visible (message_id em) = true ∧ message_id em ≠ "".

Lemma ready_rounds i batch_end now queue k c p :
  Forall sound_id now → c + length now ≤ capacity cfg →
  ready i batch_end (now ++ queue) (S k) c Reading p →
  let p' := run cfg encrypted (mjoin (round <$> now)) p in
  ready i batch_end queue (S k) (c + length now) Reading p' ∧ sent p' = sent p ++ now.
Proof.
  revert c p. induction now as [|em now IH]; intros c p Hs Hc Hp; cbn zeta.
  { split; simpl; [by rewrite Nat.add_0_r|by rewrite List.app_nil_r]. }
  apply Forall_cons in Hs as [[Hv Hne] Hs]. simpl in Hc.
  destruct (ready_send _ _ _ _ _ _ _ _ Hp) as [H1 S1].
  destruct (ready_ack _ _ _ _ _ _ em Hv Hne H1) as [H2 S2].
  destruct (ready_push _ _ _ _ c _ _ ltac:(lia) H2) as [H3 S3].
  destruct (IH (S c) _ Hs ltac:(lia) H3) as [H4 S4].
  change (mjoin (round <$> em :: now)) with (round em ++ mjoin (round <$> now)).
  unfold round at 1 3. rewrite !run_app. simpl length.
  replace (c + S (length now)) with (S c + length now) by lia.
  split; [exact H4|]. by rewrite S4, S3, S2, S1, <-List.app_assoc.
Qed.


(** A message sent, refused and reported: its permit does not come back. *)
Definition refusal (err : string) : list Label :=
  [MainStep false] ++ [Reply ("Error: " +:+ err +:+ nl)] ++ [Push].

Lemma error_reply_not_ack err :
  strip_prefix "ACK " (trim ("Error: " +:+ err +:+ nl)) = None.
Proof.
  change ("Error: " +:+ err +:+ nl) with (String "E" ("rror: " +:+ err +:+ nl)).
  destruct (trim_first "E"%char ("rror: " +:+ err +:+ nl) eq_refl) as [->|Hf]; [done|].
  destruct (trim _) as [|a t]; [done|]. by injection Hf as ->.
Qed.

Lemma ready_refused i batch_end queue k c p err :
  ready i batch_end queue k c Reading p →
  ∃ r, ready i batch_end queue k c (Pushing r false) (run cfg encrypted [Reply ("Error: " +:+ err +:+ nl)] p).
Proof.
  intros [H1 H2 H3 H4 H5]. unfold run. cbn [foldl]. unfold step. rewrite H4. cbn [default].
  unfold on_reply. rewrite error_reply_not_ack. eexists. by split.
Qed.

Lemma ready_refusals i batch_end now queue c p errs :
  length errs = length now → c + length now ≤ capacity cfg →
  ready i batch_end (now ++ queue) (length now) c Reading p →
  ready i batch_end queue 0 (c + length now) Reading (run cfg encrypted (mjoin (refusal <$> errs)) p).
Proof.
  revert c p errs. induction now as [|em now IH]; intros c p errs Hl Hc Hp.
  { destruct errs; [|done]. simpl. by rewrite Nat.add_0_r. }
  destruct errs as [|err errs]; [done|]. simpl in Hl, Hc.
  destruct (ready_send _ _ _ _ _ _ _ _ Hp) as [H1 _].
  destruct (ready_refused _ _ _ _ _ _ err H1) as [r H2].
  destruct (ready_push _ _ _ _ c _ _ ltac:(lia) H2) as [H3 _].
  specialize (IH (S c) _ errs ltac:(lia) ltac:(lia) H3).
  change (mjoin (refusal <$> err :: errs)) with (refusal err ++ mjoin (refusal <$> errs)).
  unfold refusal at 1. rewrite !run_app. simpl length.
  by replace (c + S (length now)) with (S c + length now) by lia.
Qed.

(** Refused publications hang the sender: an error reply returns no permit,
    so once the server has refused as many messages as the window allows (here
    one after the other, whatever the errors) and the reader has timed out, the
    sender never sends another message and never gets to its retries. *)
Theorem refusals_hang_sender i batch_end queue p errs :
  length errs = max_inflight (sender cfg) → max_inflight (sender cfg) < length queue →
  ready i batch_end queue (max_inflight (sender cfg)) 0 Reading p →
  hangs (run cfg encrypted (mjoin (refusal <$> errs) ++ [ReadTimeout]) p).
Proof.
  intros He Hq Hp. set (mi := max_inflight (sender cfg)) in *.
  assert (length (take mi queue) = mi) as Hl by (rewrite length_take; lia).
  rewrite <-(take_drop mi queue) in Hp. rewrite <-Hl in Hp at 3.
  pose proof (ready_refusals i batch_end (take mi queue) (drop mi queue) 0 p errs ltac:(lia)
    ltac:(unfold capacity; lia) Hp) as [H1 H2 H3 H4 H5].
  rewrite run_app. apply blocked_hangs. unfold run at 1. cbn [foldl]. unfold step. rewrite H4.
  cbn [default]. destruct (drop mi queue) as [|em rest] eqn:Hd.
  { apply (f_equal length) in Hd. rewrite length_drop in Hd. simpl in Hd. lia. }
  split; [|split; [done|by left]]. simpl. rewrite H1. eauto.
Qed.

(** ** Termination *)

(** The steps a retry loop may still take when every wait times out. *)
Definition retry_cost (unacked : list EncryptedMessage) (attempt : nat) (waiting : bool) : nat :=
  let m := max_retries (sender cfg) in
  match unacked with
  | [] => 1
  | _ :: rest => 2 * (m - attempt) - (if waiting then 1 else 0) + 2 + length rest * (2 * m + 1)
  end.

Lemma retry_cost_fresh unacked :
  retry_cost unacked 0 false = 1 + length unacked * (2 * max_retries (sender cfg) + 1).
Proof. unfold retry_cost. destruct unacked; simpl; lia. Qed.

Lemma retry_step_cost unacked attempt waiting p :
  main p = Retrying unacked attempt waiting → reader p = Stopped →
  ∃ p', step cfg encrypted (MainStep true) p = Some p' ∧ reader p' = Stopped
    ∧ match main p' with
      | Retrying u a w => retry_cost u a w < retry_cost unacked attempt waiting
      | Closing => True
      | _ => False
      end.
Proof.
  intros Hm Hr. unfold step. rewrite Hm. unfold retrying_step.
  destruct unacked as [|em rest]; [by eexists|].
  assert (∀ w, w = waiting → attempt < max_retries (sender cfg) →
    retry_cost (em :: rest) (1 + attempt) false < retry_cost (em :: rest) attempt w) as Hnext.
  { intros w _ Ha. unfold retry_cost. destruct w; lia. }
  case_decide as Ha.
  { eexists. split; [done|]. split; [done|]. cbn [fail_message main]. rewrite retry_cost_fresh.
    unfold retry_cost. lia. }
  destruct waiting; [eexists; split; [done|]; split; [done|];
    cbn [set_main main]; apply Hnext; [done|lia]|].
  destruct (write_all _ (writer p)) as [[] st1]; cbn [negb];
    [|eexists; split; [done|]; split; [done|]; cbn [set_main main]; apply Hnext; [done|lia]].
  destruct (flush st1) as [[] st2]; cbn [negb]; (eexists; split; [done|]; split; [done|]);
    cbn [set_main main]; [unfold retry_cost; lia|apply Hnext; [done|lia]].
Qed.

Lemma finished_stays n p :
  main p = Finished → main (run cfg encrypted (replicate n (MainStep true)) p) = Finished.
Proof.
  intros Hm. induction n as [|n IH]; [done|]. cbn [replicate]. rewrite run_cons. unfold step.
  by rewrite Hm.
Qed.

Lemma closing_finishes n p :
  main p = Closing → reader p = Stopped → 1 ≤ n →
  main (run cfg encrypted (replicate n (MainStep true)) p) = Finished.
Proof.
  intros Hm Hr Hn. destruct n as [|n]; [lia|]. cbn [replicate].
  rewrite run_cons.
  unfold step. rewrite Hm, Hr. by apply finished_stays.
Qed.

Lemma retry_finishes n unacked attempt waiting p :
  main p = Retrying unacked attempt waiting → reader p = Stopped →
  retry_cost unacked attempt waiting + 1 ≤ n →
  main (run cfg encrypted (replicate n (MainStep true)) p) = Finished.
Proof.
  revert unacked attempt waiting p. induction n as [|n IH]; intros unacked attempt waiting p Hm Hr Hn;
    [lia|]. destruct (retry_step_cost _ _ _ _ Hm Hr) as (p' & Hs & Hr' & Hc). cbn [replicate].
  rewrite run_cons.
  rewrite Hs. cbn [default]. destruct (main p') as [| |u a w| |] eqn:Hm'; try done.
  - eapply IH; [done|done|lia].
  - apply closing_finishes; [done|done|]. unfold retry_cost in Hn. destruct unacked; lia.
Qed.

(** C30: the wait for ACKs and the retries end: once the drain timeout is over
    and the reader has ended, the main task finishes after at most two steps
    per permitted retry of each pending message, even if every write fails or
    is never answered. *)
Theorem retries_terminate p n :
  main p = Draining → reader p = Stopped →
  size (pending p) * (2 * max_retries (sender cfg) + 1) + 3 ≤ n →
  main (run cfg encrypted (replicate n (MainStep true)) p) = Finished.
Proof.
  intros Hm Hr Hn. destruct n as [|n]; [lia|]. cbn [replicate].
  rewrite run_cons.
  unfold step. rewrite Hm. cbn [default].
  assert (draining_step true p = collect p) as -> by (unfold draining_step; by case_decide).
  eapply retry_finishes; [done|done|]. rewrite retry_cost_fresh, length_fmap.
  rewrite length_map_to_list. lia.
Qed.

(** With a batch size of zero the sender spins for good: it never sends a
    message and never gets past its sending loop. *)
Theorem zero_batch_spins st p ls :
  batch_size (sender cfg) = 0 → 0 < num_messages (sender cfg) → start cfg st = Some p →
  main (run cfg encrypted ls p) = Sending 0 0 [] ∧ sent_count (run cfg encrypted ls p) = 0.
Proof.
  intros Hb Hn Hp. assert (main p = Sending 0 0 [] ∧ sent_count p = 0) as H.
  { unfold start in Hp. case_decide; [done|]. injection Hp as <-. unfold next_batch.
    rewrite decide_True by done. simpl. rewrite Hb. done. }
  clear Hp. revert p H. induction ls as [|l ls IH]; intros p [Hm Hs]; [done|].
  rewrite run_cons. apply IH.
  destruct l; simpl; rewrite ?Hm.
  - simpl. unfold next_batch. rewrite decide_True by done. simpl. by rewrite Hb.
  - destruct (reader p); try done. simpl. unfold on_reply. by destruct (strip_prefix _ _).
  - by destruct (reader p).
  - by destruct (reader p).
  - by destruct (reader p).
  - destruct (reader p); try done. by case_decide.
Qed.

End Pipeline.
(** ** Witnesses *)

#[local] Existing Instance JsonFacts.toy_serde.
Definition copy (id : string) : EncryptedMessage :=
  {| message_id := id; receiver_client_id := "r"; enc_session_key := "k"; nonce := "n";
     ciphertext := "c"; sent_time := "t"; Crypto.routing_key := "r_key" |}.
Definition tiny (batch : nat) : Config :=
  {| exchange := "e"; bindings := []; receiver_client_ids := ["r"];
     sender := {| num_messages := 1; max_inflight := 1; max_retries := 2; ack_timeout_secs := 3;
                  tcp_connect_timeout_secs := 3; batch_size := batch; batch_delay_ms := 0;
                  message := default_message |} |}.
Definition five (seq : nat) : list EncryptedMessage := copy <$> ["a"; "b"; "c"; "d"; "e"].
Definition open_socket : Stream := {| written := []; outcomes := [] |}.
Definition begin (batch : nat) : Pipe :=
  next_batch (tiny batch) 0 {| main := Draining; reader := Reading; permits := 1; pending := ∅;
    channel := []; writer := open_socket; sent_count := 0; failed_ids := []; final_failed := 0;
    sent := []; acks := [] |}.
Lemma begin_start batch : start (tiny batch) open_socket = Some (begin batch).
Proof. reflexivity. Qed.

(** One message was sent and refused; the reader then timed out. *)
Definition refused : list Label :=
  [MainStep false; MainStep false; Reply "Error: No queues bound"; Push; ReadTimeout].
Definition after_refusal : Pipe := run (tiny 10) five refused (begin 10).
Lemma after_refusal_reachable : reachable (tiny 10) five open_socket after_refusal.
Proof. apply run_reachable. apply reach_start, begin_start. Qed.

Lemma permit_accounting_witness :
  permits after_refusal + length (sent after_refusal) = 1 + 0 + 0
  ∧ ∃ failed, message_id <$> failed = []
      ∧ sent after_refusal ++ failed ++ (copy <$> ["b"; "c"; "d"; "e"]) ≡ₚ five 1 ++ [].
Proof.
  destruct (permit_accounting (tiny 10) five open_socket after_refusal
    after_refusal_reachable I) as (H1 & _ & H2).
  split; [exact H1|exact H2].
Defined.

(** One copy was written and acknowledged, the writes of the others failed. *)
Definition flaky : Stream :=
  {| written := []; outcomes := [true; true; false; false; false; false] |}.
Definition flaky_start : Pipe :=
  next_batch (tiny 10) 0 {| main := Draining; reader := Reading; permits := 1; pending := ∅;
    channel := []; writer := flaky; sent_count := 0; failed_ids := []; final_failed := 0;
    sent := []; acks := [] |}.
Definition after_sending : Pipe :=
  run (tiny 10) five ([MainStep false; MainStep false; Reply (ack_reply (copy "a")); Push]
    ++ replicate 6 (MainStep false)) flaky_start.
Lemma after_sending_reachable : reachable (tiny 10) five flaky after_sending.
Proof. apply run_reachable. by apply reach_start. Qed.

Lemma no_message_forgotten_witness :
  answered after_sending (copy "a")
  ∧ ∃ failed, (message_id <$> failed) `prefix_of` ["b"; "c"; "d"; "e"]
    ∧ [copy "a"] ++ failed ≡ₚ five 1 ++ [].
Proof.
  destruct (proj2 (no_message_forgotten (tiny 10) five flaky after_sending
    after_sending_reachable) (λ H, H)) as [H1 H2].
  split; [|exact H2]. apply H1. vm_compute. left.
Defined.

Definition first_message : Pipe := run (tiny 10) five [MainStep false] (begin 10).
Lemma refusals_hang_sender_witness :
  hangs (tiny 10) five (run (tiny 10) five (mjoin (refusal <$> ["No queues bound"]) ++ [ReadTimeout])
    first_message).
Proof.
  apply (refusals_hang_sender (tiny 10) five 1 1 (five 1)).
  - reflexivity.
  - simpl. lia.
  - split; reflexivity.
Defined.


Lemma retries_terminate_witness :
  main (run (tiny 10) five (replicate 8 (MainStep true))
    (set_main Draining after_refusal)) = Finished.
Proof.
  apply (retries_terminate (tiny 10) five (set_main Draining after_refusal) 8).
  - reflexivity.
  - reflexivity.
  - vm_compute. lia.
Defined.

Lemma zero_batch_spins_witness :
  main (run (tiny 0) five refused (begin 0)) = Sending 0 0 [].
Proof.
  apply (zero_batch_spins (tiny 0) five open_socket (begin 0) refused).
  - reflexivity.
  - simpl. lia.
  - apply begin_start.
Defined.

End PipelineProps.
