(* ===== verification/Protocol.v ===== *)
(** The conversations of the clients with the server: the request lines the
    client programs print are parsed by the server to what they mean, and the
    server's replies to what the clients expect. *)
From S2P Require Import Prelude RustStr Acl Storage StorageFacts State StateFacts.
From S2P Require Import StateInv RateLimiter Heartbeat Metrics Server ServerFacts.
From S2P Require Import StorageProps ServerProps Crypto Client Receiver.
From stdpp Require Import countable list options.
From Stdlib Require Import Ascii.

Module Protocol.
Import RustStr Server ServerFacts StateInv.

(** Reduces the dispatch of a literal command in a state with the same identity
    and the same broker. *)
Ltac serve_dispatch :=
  intros s1 w1 (Hcid & _ & Hrole & Hchan) Hcore; unfold dispatch;
  repeat (rewrite decide_False by done); rewrite decide_True by done;
  destruct w1 as [b1 rt1 ? ? ?]; unfold core in Hcore |- *; cbn [broker runtime] in Hcore;
  injection Hcore as -> ->.

Section Protocol.
Context {S : Type} `{A : StorageApi S} `{J : Json}.
Implicit Types (w : World S) (s : Session) (env : Env).

(** ** Request lines *)

Definition command_line (cmd args : string) : string := cmd +:+ " " +:+ args +:+ nl.

(** A text in UTF-8: lossy decoding keeps it, whatever follows. *)
Definition utf8 (x : string) : Prop := ∀ t, from_utf8_lossy (x +:+ t) = x +:+ from_utf8_lossy t.
Lemma ascii_utf8 x : all_chars ascii7 x = true → utf8 x.
Proof. intros H t. by apply lossy_ascii_app. Qed.
Lemma visible_utf8 x : all_chars visible x = true → utf8 x.
Proof. intros H. by apply ascii_utf8, all_visible_ascii7. Qed.
Lemma utf8_app a b : utf8 a → utf8 b → utf8 (a +:+ b).
Proof. intros Ha Hb t. by rewrite <-!app_assoc, Ha, Hb. Qed.

(** An argument text the server reads back as it was written. *)
Record sendable (args : string) : Prop := {
  sendable_utf8 : utf8 args;
  sendable_last : ∃ b, last_char args = Some b ∧ visible b = true
}.

Lemma sendable_visible args : all_chars visible args = true → args ≠ "" → sendable args.
Proof. intros H1 H2. split; [by apply visible_utf8|by apply all_visible_last]. Qed.
Lemma sendable_app a b : utf8 a → sendable b → sendable (a +:+ b).
Proof.
  intros Ha [Hb (c & Hc & Hv)]. split; [by apply utf8_app|].
  exists c. rewrite last_char_app; [done|]. by intros ->.
Qed.
Lemma sendable_space b : sendable b → sendable (" " +:+ b).
Proof. by apply sendable_app, ascii_utf8. Qed.

Lemma parse_command_line cmd args :
  all_chars visible cmd = true → cmd ≠ "" → sendable args →
  parse_request (command_line cmd args) = (cmd, args).
Proof.
  intros Hc Hne [Ha (b & Hb & Vb)]. unfold parse_request.
  assert (no_char space cmd = true) as Hs by (by apply visible_no_space).
  assert (args ≠ "") as Hane by (by intros ->).
  destruct (all_visible_first cmd Hc Hne) as (a & Hf & Va).
  assert (from_utf8_lossy (command_line cmd args) = command_line cmd args) as ->.
  { unfold command_line. rewrite (visible_utf8 cmd Hc), (ascii_utf8 " " eq_refl), Ha. done. }
  assert (trim (command_line cmd args) = cmd +:+ String space args) as ->.
  { replace (command_line cmd args) with ((cmd +:+ String space args) +:+ String (ascii_of_N 10) "").
    - apply (trim_line a b); [by destruct cmd| |done|done].
      rewrite last_char_app by done. by destruct args.
    - unfold command_line. by rewrite <-app_assoc. }
  cbn [splitn]. rewrite split_once_app by done. done.
Qed.

(** ** Serving a request *)

(** The limiter grants the request. *)
Definition grants env s (command : string) w : bool :=
  RateLimiter.is_allowed (RateLimiter.check (client_id s)
    (bool_decide (command = "publish" ∨ command = "publish_batch"))
    (λ i, instant env (1 + i)) (limiter w)).1.

(** A session between two requests. *)
Definition idle s : Prop := active s = true ∧ buffer s = "".

(** The server served a line by operations on the broker and a reply. *)
Definition served env (line : string) s w (ops : list Op) (text : option string) : Prop :=
  let '(s', w') := on_event env (Read line) s w in
  core w' = run ops (core w) ∧ same_session s s' ∧ idle s' ∧ stream s' = stream (reply text s).

Lemma serve_line env cmd args s w ops text :
  idle s → may s cmd → grants env s cmd w = true →
  all_chars visible cmd = true → cmd ≠ "" → sendable args → cmd ≠ "ack" →
  (∀ s1 w1, same_session s s1 → core w1 = core w →
     core (dispatch s1 env cmd args w1).1 = run ops (core w)
     ∧ (dispatch s1 env cmd args w1).2 = text) →
  served env (command_line cmd args) s w ops text.
Proof.
  intros [Ha Hb] Hm Hg Hv Hne Hs Hack Hd. unfold served, on_event. rewrite Ha. cbn [negb].
  assert (is_empty (command_line cmd args) = false) as -> by (by destruct cmd).
  unfold handle_request. cbn [buffer with_buffer role client_id limiter with_monitor].
  rewrite Hb. change ("" +:+ ?x) with x. rewrite parse_command_line by done. rewrite Hm.
  unfold grants in Hg. destruct (RateLimiter.check _ _ _ _) as [v rl]. cbn [fst] in Hg.
  rewrite Hg. cbn [negb]. rewrite decide_False by done.
  destruct (dispatch _ env cmd args _) as [w3 text'] eqn:He.
  match type of He with dispatch ?s1 _ _ _ ?w1 = _ => destruct (Hd s1 w1) as [H1 H2] end;
    [done|done|]. rewrite He in H1, H2. simpl in H1, H2. subst text'.
  split_and!; [done|by destruct text| |]; destruct text; done.
Qed.

(** *** The commands of the receiver's handshake *)

Lemma not_is_empty (x : string) : x ≠ "" → negb (is_empty x) = true.
Proof. by destruct x. Qed.
Lemma sendable_ne args : sendable args → args ≠ "".
Proof. intros [_ (b & Hb & _)] ->. done. Qed.

Lemma serve_register env s w key :
  idle s → may s "register_public_key" → grants env s "register_public_key" w = true →
  sendable key →
  served env (command_line "register_public_key" key) s w [SaveKey (client_id s) key]
    (Some (match (State.save_public_key (client_id s) key (broker w)).1 with
           | Ok _ => "Public key registered" +:+ nl
           | Err err => "Error: " +:+ err +:+ nl
           end)).
Proof.
  intros. apply serve_line; [done..|]. serve_dispatch. unfold cmd_register_public_key.
  rewrite not_is_empty by (by apply sendable_ne). rewrite Hcid. cbn [broker]. simpl.
  by destruct (State.save_public_key _ _ _) as [[] b'].
Qed.

Lemma serve_declare_queue env s w q :
  idle s → may s "declare_queue" → owns s q → grants env s "declare_queue" w = true →
  sendable q →
  served env (command_line "declare_queue" q) s w [DeclareQueue q] (Some ("Queue declared" +:+ nl)).
Proof.
  intros Hi Hm Ho Hg Hs. apply serve_line; [done..|]. serve_dispatch. unfold cmd_declare_queue.
  rewrite not_is_empty by (by apply sendable_ne). unfold owns in Ho. by rewrite Hcid, Hrole, Ho.
Qed.

Lemma serve_declare_exchange env s w e :
  idle s → may s "declare_exchange" → grants env s "declare_exchange" w = true → sendable e →
  served env (command_line "declare_exchange" e) s w [DeclareExchange e]
    (Some ("Exchange declared" +:+ nl)).
Proof.
  intros Hi Hm Hg Hs. apply serve_line; [done..|]. serve_dispatch. unfold cmd_declare_exchange.
  by rewrite not_is_empty by (by apply sendable_ne).
Qed.

Lemma serve_bind env s w q e k :
  idle s → may s "bind" → owns s q → grants env s "bind" w = true →
  all_chars visible q = true → all_chars visible e = true → sendable k →
  served env (command_line "bind" (q +:+ " " +:+ e +:+ " " +:+ k)) s w [Bind q e k]
    (Some ("Queue bound" +:+ nl)).
Proof.
  intros Hi Hm Ho Hg Hq He Hk. apply serve_line; [done..| |done|].
  { apply sendable_app; [by apply visible_utf8|]. apply sendable_space.
    apply sendable_app; [by apply visible_utf8|]. by apply sendable_space. }
  serve_dispatch. unfold cmd_bind.
  change (q +:+ " " +:+ e +:+ " " +:+ k) with (q +:+ String space (e +:+ String space k)).
  cbn [splitn]. rewrite !split_once_app by (by apply visible_no_space).
  unfold owns in Ho. by rewrite Hcid, Hrole, Ho.
Qed.

Lemma serve_consume env s w q :
  idle s → may s "consume" → grants env s "consume" w = true → sendable q →
  served env (command_line "consume" q) s w [Register q (chan s)] None.
Proof.
  intros Hi Hm Hg Hs. apply serve_line; [done..|]. serve_dispatch. unfold cmd_consume.
  rewrite not_is_empty by (by apply sendable_ne). rewrite Hchan. cbn [broker runtime]. simpl.
  by destruct (State.register_consumer _ _ _ _).
Qed.

(** ** Conversations *)

(** The server reads lines one at a time; whether the limiter grants each. *)
Fixpoint serve (inputs : list (Env * string)) (c : Session * World S) : Session * World S :=
  match inputs with
  | [] => c
  | (env, line) :: rest => serve rest (on_event env (Read line) c.1 c.2)
  end.
Fixpoint all_granted (inputs : list (Env * string)) (c : Session * World S) : bool :=
  match inputs with
  | [] => true
  | (env, line) :: rest =>
      grants env c.1 (parse_request line).1 c.2
      && all_granted rest (on_event env (Read line) c.1 c.2)
  end.

(** From one state of a session to a later one on a working socket: the
    operations on the broker and the texts written. *)
Record talked (c c' : Session * World S) (ops : list Op) (texts : list string) : Prop := {
  t_core : core c'.2 = run ops (core c.2);
  t_same : same_session c.1 c'.1;
  t_idle : idle c'.1;
  t_socket : outcomes (stream c'.1) = [];
  t_written : written (stream c'.1) = written (stream c.1) ++ texts
}.

Lemma same_session_trans s s1 s2 :
  same_session s s1 → same_session s1 s2 → same_session s s2.
Proof. intros (?&?&?&?) (?&?&?&?). unfold same_session. intuition congruence. Qed.

Lemma talked_start s w : idle s → outcomes (stream s) = [] → talked (s, w) (s, w) [] [].
Proof. intros. split; try done. simpl. by rewrite List.app_nil_r. Qed.

Lemma talked_line c c1 ops texts env line ops' text :
  talked c c1 ops texts → served env line c1.1 c1.2 ops' text →
  talked c (on_event env (Read line) c1.1 c1.2) (ops ++ ops') (texts ++ option_list text).
Proof.
  intros [H1 H2 H3 H4 H5] Hs. unfold served in Hs.
  destruct (on_event env (Read line) c1.1 c1.2) as [s' w']. destruct Hs as (S1 & S2 & S3 & S4).
  split; simpl.
  - rewrite S1, H1. unfold run. by rewrite foldl_app.
  - by eapply same_session_trans.
  - done.
  - rewrite S4. destruct text; simpl; [|done]. unfold write_all, next_outcome. by rewrite H4.
  - rewrite S4. destruct text; simpl; [|by rewrite List.app_nil_r].
    unfold write_all, next_outcome. rewrite H4. simpl. by rewrite H5, List.app_assoc.
Qed.

(** An exchange of a conversation: a request, what it does and its reply. *)
Record Exchange := { x_cmd : string; x_args : string; x_ops : list Op; x_reply : option string }.
Definition x_line (x : Exchange) : string := command_line (x_cmd x) (x_args x).
(** The exchange takes place in every state of a session with the identity of
    [s0]. *)
Record exchanges (s0 : Session) (x : Exchange) : Prop := {
  x_visible : all_chars visible (x_cmd x) = true;
  x_nonempty : x_cmd x ≠ "";
  x_sendable : sendable (x_args x);
  x_served env s w : same_session s0 s → idle s → grants env s (x_cmd x) w = true →
    served env (x_line x) s w (x_ops x) (x_reply x)
}.

Definition inputs (envs : nat → Env) (lines : list string) : list (Env * string) :=
  imap (λ i line, (envs i, line)) lines.

Lemma talked_exchanges envs s0 c xs c1 ops texts :
  same_session s0 c.1 → Forall (exchanges s0) xs → talked c c1 ops texts →
  all_granted (inputs envs (x_line <$> xs)) c1 = true →
  talked c (serve (inputs envs (x_line <$> xs)) c1) (ops ++ mjoin (x_ops <$> xs))
    (texts ++ omap x_reply xs).
Proof.
  intros Hs0. revert envs c1 ops texts.
  induction xs as [|x xs IH]; intros envs c1 ops texts Hxs Ht Hg.
  { simpl. by rewrite !List.app_nil_r. }
  apply Forall_cons in Hxs as [[X1 X2 X3 X4] Hxs].
  apply andb_prop in Hg as [Hg1 Hg]. unfold x_line in Hg1 at 1.
  rewrite parse_command_line in Hg1 by done.
  assert (same_session s0 c1.1) as Hs1 by (eapply same_session_trans; [done|apply Ht]).
  specialize (X4 (envs 0) c1.1 c1.2 Hs1 (t_idle _ _ _ _ Ht) Hg1).
  specialize (IH (envs ∘ Datatypes.S) _ _ _ Hxs (talked_line _ _ _ _ _ _ _ _ Ht X4) Hg).
  cbn [fmap list_fmap mjoin list_join omap list_omap].
  rewrite <-!List.app_assoc in IH. simpl in IH. destruct (x_reply x); exact IH.
Qed.

Lemma may_same s s' cmd : same_session s s' → may s cmd → may s' cmd.
Proof. intros (_ & _ & H & _). unfold may. by rewrite H. Qed.
Lemma owns_same s s' q : same_session s s' → owns s q → owns s' q.
Proof. intros (H1 & _ & H2 & _). unfold owns. by rewrite H1, H2. Qed.

(** ** The receiver's handshake *)

Section Handshake.
Context `{P : Primitives}.

(** The lines of the handshake. *)
Definition handshake_lines (cfg : Receiver.Config) (key : string) : list string :=
  let q := Receiver.queue_name cfg in let e := Receiver.exchange_name cfg in
  let k := Receiver.routing_key cfg in
  [Receiver.register_line key; Receiver.declare_queue_line q; Receiver.declare_exchange_line e;
   Receiver.bind_line q e k; Receiver.consume_line q].
Definition named (x : string) : Prop := all_chars visible x = true ∧ x ≠ "".

Lemma named_sendable x : named x → sendable x.
Proof. intros []. by apply sendable_visible. Qed.

Lemma receiver_may s cmd :
  role s = Acl.Receiver → Acl.check_command Acl.Receiver cmd = Acl.Allowed → may s cmd.
Proof. unfold may. by intros ->. Qed.

(** The exchanges after the registration. *)
Definition setup_exchanges (s : Session) (q e k : string) : list Exchange :=
  [{| x_cmd := "declare_queue"; x_args := q; x_ops := [DeclareQueue q];
      x_reply := Some ("Queue declared" +:+ nl) |};
   {| x_cmd := "declare_exchange"; x_args := e; x_ops := [DeclareExchange e];
      x_reply := Some ("Exchange declared" +:+ nl) |};
   {| x_cmd := "bind"; x_args := q +:+ " " +:+ e +:+ " " +:+ k; x_ops := [Bind q e k];
      x_reply := Some ("Queue bound" +:+ nl) |};
   {| x_cmd := "consume"; x_args := q; x_ops := [Register q (chan s)]; x_reply := None |}].

Lemma setup_exchanges_served s q e k :
  role s = Acl.Receiver → owns s q → named q → named e → named k →
  Forall (exchanges s) (setup_exchanges s q e k).
Proof.
  intros Hr Ho Hq He Hk.
  assert (sendable q ∧ sendable e ∧ sendable k) as (Sq & Se & Sk) by (split_and!; by apply named_sendable).
  assert (∀ s' cmd, same_session s s' → Acl.check_command Acl.Receiver cmd = Acl.Allowed → may s' cmd)
    as Hmay by (intros s' cmd Hs Hc; eapply may_same; [done|by apply receiver_may]).
  repeat apply Forall_cons_2; [..|apply Forall_nil_2]; split; try done;
    try intros env s' w Hs Hi Hg.
  - apply serve_declare_queue; try done; [by apply Hmay|by eapply owns_same].
  - apply serve_declare_exchange; try done. by apply Hmay.
  - apply sendable_app; [apply visible_utf8, Hq|]. apply sendable_space.
    apply sendable_app; [apply visible_utf8, He|]. by apply sendable_space.
  - apply serve_bind; try done; [by apply Hmay|by eapply owns_same|apply Hq|apply He].
  - cbn [x_ops x_reply]. replace (chan s) with (chan s') by apply Hs.
    apply serve_consume; try done. by apply Hmay.
Qed.

Lemma handshake_lines_eq s q e k key :
  handshake_lines {| Receiver.queue_name := q; Receiver.exchange_name := e;
                     Receiver.routing_key := k |} key
  = command_line "register_public_key" (b64_encode key) :: (x_line <$> setup_exchanges s q e k).
Proof.
  unfold handshake_lines, x_line, setup_exchanges, Receiver.bind_line. simpl.
  unfold command_line. by rewrite <-!app_assoc.
Qed.

(** The receiver's side, on the replies of a successful handshake. *)
Lemma handshake_replies cfg pub key ws :
  Receiver.load_public_key_bytes pub = Ok key →
  Receiver.handshake cfg pub
    {| Client.socket := {| written := ws; outcomes := [] |};
       Client.replies := Some <$> ["Public key registered" +:+ nl; "Queue declared" +:+ nl;
         "Exchange declared" +:+ nl; "Queue bound" +:+ nl] |}
  = (Ok true, {| Client.socket := {| written := ws ++ handshake_lines cfg key; outcomes := [] |};
                 Client.replies := [] |}).
Proof.
  intros Hpub. unfold Receiver.handshake, Receiver.register_public_key, Receiver.configure_server.
  rewrite Hpub. unfold mbind, Client.M_bind. cbn [fmap list_fmap].
  rewrite Client.send_recv_ok.
  replace (bool_decide (trim ("Public key registered" +:+ nl) = "Public key registered"))
    with true by (vm_compute; reflexivity).
  unfold mret, Client.M_ret.
  cbn iota beta. rewrite !Client.send_recv_ok. unfold Client.write_text, Client.flush_socket.
  unfold handshake_lines. simpl. by rewrite <-!List.app_assoc.
Qed.

(** C21: the handshake of a receiver with the server: when the requests are
    within the rate limit and the key can be saved, the five lines make the
    server save the key under the certificate's name, declare the queue and the
    exchange, bind them and subscribe the session; and the server's replies
    make the receiver go on to its receive loop, having sent those lines. *)
Theorem handshake_with_server envs cfg pub key st s w :
  idle s → outcomes (stream s) = [] → role s = Acl.Receiver → owns s (Receiver.queue_name cfg) →
  named (Receiver.queue_name cfg) → named (Receiver.exchange_name cfg) →
  named (Receiver.routing_key cfg) →
  Receiver.load_public_key_bytes pub = Ok key → named (b64_encode key) →
  is_ok (State.save_public_key (client_id s) (b64_encode key) (broker w)).1 = true →
  all_granted (inputs envs (handshake_lines cfg key)) (s, w) = true →
  outcomes st = [] →
  let '(s', w') := serve (inputs envs (handshake_lines cfg key)) (s, w) in
  core w' = run [SaveKey (client_id s) (b64_encode key); DeclareQueue (Receiver.queue_name cfg);
     DeclareExchange (Receiver.exchange_name cfg);
     Bind (Receiver.queue_name cfg) (Receiver.exchange_name cfg) (Receiver.routing_key cfg);
     Register (Receiver.queue_name cfg) (chan s)] (core w)
  ∧ ∃ replies, written (stream s') = written (stream s) ++ replies
    ∧ Receiver.handshake cfg pub {| Client.socket := st; Client.replies := Some <$> replies |}
      = (Ok true, {| Client.socket := {| written := written st ++ handshake_lines cfg key;
                                         outcomes := [] |}; Client.replies := [] |}).
Proof.
  destruct cfg as [q e k]. cbn [Receiver.queue_name Receiver.exchange_name Receiver.routing_key].
  intros Hi Ho Hr Hown Hq He Hk Hpub Hkey Hsave Hg Hst.
  rewrite (handshake_lines_eq s) in *.
  set (line := command_line "register_public_key" (b64_encode key)) in *.
  cbn [inputs imap all_granted fst snd] in Hg.
  apply andb_prop in Hg as [Hg1 Hg].
  assert (parse_request line = ("register_public_key", b64_encode key)) as Hp
    by (apply parse_command_line; [done..|by apply named_sendable]).
  rewrite Hp in Hg1. cbn [fst] in Hg1.
  pose proof (serve_register (envs 0) s w (b64_encode key) Hi
    (receiver_may s "register_public_key" Hr eq_refl) Hg1 (named_sendable _ Hkey)) as H1.
  destruct (State.save_public_key _ _ _) as [[] b']; [|done]. cbn [fst] in H1.
  pose proof (talked_line _ _ _ _ _ _ _ _ (talked_start s w Hi Ho) H1) as T1.
  pose proof (talked_exchanges (envs ∘ Datatypes.S) s (s, w) (setup_exchanges s q e k) _ _ _
    ltac:(done) (setup_exchanges_served s q e k Hr Hown Hq He Hk) T1 Hg) as [C1 _ _ _ C2].
  cbn [inputs imap serve fst snd] in *.
  destruct (serve _ _) as [s' w']. split; [exact C1|]. eexists. split; [exact C2|].
  destruct st as [ws os]. simpl in Hst. subst os line. rewrite <-(handshake_lines_eq s).
  by apply handshake_replies.
Qed.

End Handshake.

End Protocol.

(** ** Witnesses *)

#[local] Existing Instance StorageProps.toy_primitives.
#[local] Existing Instance ServerProps.toy_json.

Definition config0 : Receiver.Config :=
  {| Receiver.queue_name := "c_queue"; Receiver.exchange_name := "e"; Receiver.routing_key := "k" |}.
Lemma handshake_with_server_witness :
  core (serve (inputs (λ _, ServerProps.sample_env) (handshake_lines config0 "key"))
    (ServerProps.sample_session Acl.Receiver [], ServerProps.sample_world ServerProps.empty_broker)).2
  = run [SaveKey "c" (b64_encode "key"); DeclareQueue "c_queue"; DeclareExchange "e";
         Bind "c_queue" "e" "k"; Register "c_queue" 7]
      (core (ServerProps.sample_world ServerProps.empty_broker)).
Proof.
  pose proof (handshake_with_server (λ _, ServerProps.sample_env) config0 (Some (b64_encode "key"))
    "key" {| written := []; outcomes := [] |} (ServerProps.sample_session Acl.Receiver [])
    (ServerProps.sample_world ServerProps.empty_broker)
    ltac:(done) ltac:(done) ltac:(done) ltac:(vm_compute; done) ltac:(vm_compute; done)
    ltac:(vm_compute; done) ltac:(vm_compute; done) ltac:(vm_compute; done)
    ltac:(vm_compute; done) ltac:(vm_compute; done) ltac:(vm_compute; done) eq_refl) as H.
  destruct (serve _ _) as [s' w']. exact (proj1 H).
Defined.

End Protocol.
