(* ===== verification/SenderProps.v ===== *)
(** The sender in conversation with the server, and the text of its messages. *)
From S2P Require Import Prelude RustStr Acl Storage StorageFacts State StateFacts.
From S2P Require Import StateInv RateLimiter Heartbeat Metrics Server ServerFacts.
From S2P Require Import StorageProps JsonTree ServerProps Crypto Client Receiver.
From S2P Require Import ReceiverProps Protocol Sender Pipeline PipelineProps.
From stdpp Require Import countable list pretty options.
From Stdlib Require Import Ascii SpecFloat.

Module SenderProps.
Import RustStr Server ServerFacts StateInv Protocol Sender.

(** ** The text of a message *)

Lemma replace_from_skip skip pat to s t :
  String.length s = skip → replace_from skip pat to (s +:+ t) = replace_from 0 pat to t.
Proof.
  revert skip. induction s as [|a s IH]; intros skip Hl; simpl in Hl; subst skip; [done|].
  rewrite app_cons. cbn [replace_from]. by apply IH.
Qed.

(** A pattern in front of a text. *)
Lemma replace_match a pat to t :
  replace (String a pat) to (String a pat +:+ t) = to +:+ replace (String a pat) to t.
Proof.
  unfold replace. rewrite app_cons. cbn [replace_from]. rewrite <-app_cons, starts_with_app.
  cbn [String.length]. rewrite Nat.sub_0_r || rewrite Nat.sub_succ, Nat.sub_0_r.
  by rewrite replace_from_skip.
Qed.
(** A text without the first character of the pattern is kept. *)
Lemma replace_none a pat to s t :
  no_char a s = true → replace (String a pat) to (s +:+ t) = s +:+ replace (String a pat) to t.
Proof.
  unfold replace. induction s as [|b s IH]; [done|]. intros [Hb Hs]%andb_prop.
  apply bool_decide_eq_true in Hb. rewrite !app_cons. cbn [replace_from starts_with].
  rewrite bool_decide_false by congruence. cbn [andb]. by rewrite <-IH.
Qed.

Lemma replace_id a pat to s : no_char a s = true → replace (String a pat) to s = s.
Proof.
  intros H. pose proof (replace_none a pat to s "" H) as Hr. by rewrite !app_nil_r in Hr.
Qed.

(** With the default template a message says who sent it and its
    correlation identifier, when neither contains a brace (a brace in the
    certificate's name would be taken for a placeholder). *)
Theorem default_message_text client uuid seq now :
  no_char "{"%char client = true → no_char "{"%char (String.substring 0 8 uuid) = true →
  Crypto.content (generate_message client default_message seq uuid now)
  = client +:+ "-CipherMQ Sample message with ID: " +:+ String.substring 0 8 uuid.
Proof.
  intros Hc Hu. cbn [generate_message Crypto.content]. set (corr := String.substring 0 8 uuid) in *.
  unfold render. cbn [content_template default_message extra_fields foldl].
  set (lit := "-CipherMQ Sample message with ID: ").
  assert (no_char "{"%char lit = true) as Hl by (vm_compute; reflexivity).
  replace (replace "{sender_id}" client default_template)
    with (client +:+ lit +:+ "{correlation_id}").
  2:{ change default_template with ("{sender_id}" +:+ lit +:+ "{correlation_id}").
      by rewrite replace_match, replace_none. }
  rewrite !replace_none by done.
  replace (replace "{correlation_id}" corr "{correlation_id}") with corr.
  2:{ change (replace "{correlation_id}" corr "{correlation_id}")
        with (replace "{correlation_id}" corr ("{correlation_id}" +:+ "")).
      rewrite replace_match. by rewrite app_nil_r. }
  by rewrite !(replace_id _ _ _ _ Hu).
Qed.

(** ** Conversations with the server *)

Section Conversation.
Context {S : Type} `{A : StorageApi S} `{J : Json}.
Implicit Types (w : World S) (s : Session) (env : Env).

(** *** Publications *)

Section Publish.
Context {SJ : Serde} {SL : SerdeLaws SJ} {JR : JsonReads J SJ} (cfg : Config).

(** The server reads the payload of a publication as the message it stands for. *)
Lemma payload_reads em : json_message (Pipeline.payload_str em) = Ok (ReceiverProps.published em).
Proof using JR. apply json_reads; by destruct em. Qed.
Lemma payload_sendable em : sendable (Pipeline.payload_str em).
Proof using SL.
  split; [intros t; apply print_utf8|]. destruct (print_visible (Pipeline.payload em)) as (_ & b & _ & Hb & _ & Hv).
  by exists b.
Qed.

Lemma publish_command_line em :
  Pipeline.publish_command cfg em
  = command_line "publish" (exchange cfg +:+ " " +:+ Crypto.routing_key em +:+ " " +:+ Pipeline.payload_str em).
Proof. unfold Pipeline.publish_command, command_line. by rewrite <-!app_assoc. Qed.

Lemma publish_args_sendable em :
  all_chars visible (exchange cfg) = true → all_chars visible (Crypto.routing_key em) = true →
  sendable (exchange cfg +:+ " " +:+ Crypto.routing_key em +:+ " " +:+ Pipeline.payload_str em).
Proof using SL.
  intros He Hk. apply sendable_app; [by apply visible_utf8|].
  apply sendable_space. apply sendable_app; [by apply visible_utf8|].
  apply sendable_space. apply payload_sendable.
Qed.

Lemma serve_publish env s w em :
  idle s → may s "publish" → grants env s "publish" w = true →
  all_chars visible (exchange cfg) = true → all_chars visible (Crypto.routing_key em) = true →
  served env (Pipeline.publish_command cfg em) s w
    [Publish (exchange cfg) (Crypto.routing_key em) (ReceiverProps.published em) (client_id s)
       (instant env 5) (utc env 5)]
    (Some (match (State.publish (exchange cfg) (Crypto.routing_key em) (ReceiverProps.published em)
                    (client_id s) (instant env 5) (utc env 5) (broker w) (runtime w)).1 with
           | Ok _ => PipelineProps.ack_reply em
           | Err err => "Error: " +:+ err +:+ nl
           end)).
Proof using SL JR.
  intros Hi Hm Hg He Hk. rewrite publish_command_line.
  apply serve_line; [done..|by apply publish_args_sendable|done|]. serve_dispatch. unfold cmd_publish.
  change (?e +:+ " " +:+ ?k +:+ " " +:+ ?p) with (e +:+ String space (k +:+ String space p)).
  cbn [splitn]. rewrite !split_once_app by (by apply visible_no_space).
  rewrite payload_reads. unfold publish_one. rewrite Hcid. cbn [broker runtime]. simpl.
  by destruct (State.publish _ _ _ _ _ _ _ _) as [[] [b' rt']].
Qed.

(** C12: a publication from the sender's pipeline to the broker and back: the
    request line makes the server publish exactly the encrypted message under
    the certificate's name; when that succeeds, the reply makes the pipeline
    take the message out of its pending map and return one permit, and when it
    fails, the permit is lost. *)
Theorem publication_round_trip env s w em p :
  idle s → outcomes (stream s) = [] → may s "publish" → grants env s "publish" w = true →
  all_chars visible (exchange cfg) = true → all_chars visible (Crypto.routing_key em) = true →
  PipelineProps.sound_id em →
  let '(s', w') := on_event env (Read (Pipeline.publish_command cfg em)) s w in
  let '(r, c) := State.publish (exchange cfg) (Crypto.routing_key em) (ReceiverProps.published em)
                   (client_id s) (instant env 5) (utc env 5) (broker w) (runtime w) in
  core w' = c
  ∧ ∃ reply, written (stream s') = written (stream s) ++ [reply]
    ∧ match r with
      | Ok _ => Pipeline.pending (Pipeline.on_reply reply p)
                  = delete (Crypto.message_id em) (Pipeline.pending p)
                ∧ Pipeline.permits (Pipeline.on_reply reply p) = 1 + Pipeline.permits p
      | Err _ => Pipeline.pending (Pipeline.on_reply reply p) = Pipeline.pending p
                 ∧ Pipeline.permits (Pipeline.on_reply reply p) = Pipeline.permits p
      end.
Proof using SL JR.
  intros Hi Ho Hm Hg He Hk [Hv Hne].
  pose proof (serve_publish env s w em Hi Hm Hg He Hk) as H. unfold served in H.
  destruct (on_event env _ s w) as [s' w']. destruct H as (H1 & _ & _ & H4).
  unfold run, exec, foldl, core in H1. cbn [broker runtime] in H1.
  destruct (State.publish _ _ _ _ _ _ _ _) as [r c]. cbn [fst snd] in *. split; [done|].
  unfold reply, with_stream, write_all, next_outcome in H4. rewrite Ho in H4. cbn in H4.
  eexists. split; [by rewrite H4|]. unfold Pipeline.on_reply. destruct r as [u|err].
  - by rewrite PipelineProps.ack_reply_parsed.
  - by rewrite PipelineProps.error_reply_not_ack.
Qed.

(** C36: two publications that reach the server in one read are both lost: the
    server takes them for one request, whose message text has trailing
    characters; it publishes nothing and answers once, with an error that
    returns no permit to the pipeline. *)
Theorem pipelined_publishes_lost env s w em1 em2 p :
  idle s → outcomes (stream s) = [] → may s "publish" → grants env s "publish" w = true →
  all_chars visible (exchange cfg) = true → all_chars visible (Crypto.routing_key em1) = true →
  all_chars visible (Crypto.routing_key em2) = true →
  (∀ rest, first_char rest = Some "p"%char →
     is_ok (json_message (Pipeline.payload_str em1 +:+ nl +:+ rest)) = false) →
  let '(s', w') := on_event env
    (Read (Pipeline.publish_command cfg em1 +:+ Pipeline.publish_command cfg em2)) s w in
  core w' = core w
  ∧ ∃ reply, written (stream s') = written (stream s) ++ [reply]
    ∧ Pipeline.pending (Pipeline.on_reply reply p) = Pipeline.pending p
    ∧ Pipeline.permits (Pipeline.on_reply reply p) = Pipeline.permits p.
Proof using SL.
  intros Hi Ho Hm Hg He Hk1 Hk2 Hstrict.
  set (tail := "publish " +:+ exchange cfg +:+ " " +:+ Crypto.routing_key em2 +:+ " "
               +:+ Pipeline.payload_str em2).
  assert (sendable tail) as Htail.
  { apply (sendable_app "publish "); [by apply ascii_utf8|by apply publish_args_sendable]. }
  specialize (Hstrict tail eq_refl).
  destruct (json_message (Pipeline.payload_str em1 +:+ nl +:+ tail)) as [|err] eqn:Hj; [done|].
  assert (served env (command_line "publish" (exchange cfg +:+ " " +:+ Crypto.routing_key em1 +:+ " "
      +:+ (Pipeline.payload_str em1 +:+ nl +:+ tail))) s w [] (Some ("Invalid message format: " +:+ err +:+ nl)))
    as H.
  { apply serve_line; [done..| |done|].
    - apply sendable_app; [by apply visible_utf8|]. apply sendable_space.
      apply sendable_app; [by apply visible_utf8|]. apply sendable_space.
      apply sendable_app; [apply payload_sendable|]. apply (sendable_app nl); [by apply ascii_utf8|done].
    - serve_dispatch. unfold cmd_publish.
      change (?e +:+ " " +:+ ?k +:+ " " +:+ ?p) with (e +:+ String space (k +:+ String space p)).
      cbn [splitn]. rewrite !split_once_app by (by apply visible_no_space). by rewrite Hj. }
  replace (Pipeline.publish_command cfg em1 +:+ Pipeline.publish_command cfg em2)
    with (command_line "publish" (exchange cfg +:+ " " +:+ Crypto.routing_key em1 +:+ " "
      +:+ (Pipeline.payload_str em1 +:+ nl +:+ tail)))
    by (unfold Pipeline.publish_command, command_line, tail; by rewrite <-!app_assoc).
  unfold served in H. destruct (on_event env _ s w) as [s' w']. destruct H as (H1 & _ & _ & H4).
  split; [done|]. unfold reply, with_stream, write_all, next_outcome in H4. rewrite Ho in H4.
  cbn in H4. eexists. split; [by rewrite H4|]. unfold Pipeline.on_reply.
  change ("Invalid message format: " +:+ err +:+ nl)
    with (String "I" ("nvalid message format: " +:+ err +:+ nl)).
  destruct (trim_first "I"%char ("nvalid message format: " +:+ err +:+ nl) eq_refl) as [->|Hf]; [done|].
  destruct (trim _) as [|a t]; [done|]. by injection Hf as ->.
Qed.

End Publish.
(** *** Public keys *)

Definition get_key_line (cid : string) : string := "get_public_key " +:+ cid +:+ nl.

Lemma serve_get_key env s w cid :
  idle s → may s "get_public_key" → grants env s "get_public_key" w = true → sendable cid →
  served env (get_key_line cid) s w [GetKey cid]
    (Some (match (State.get_public_key cid (broker w)).1 with
           | Ok (Some key) => "Public key: " +:+ key +:+ nl
           | Ok None => "Public key not found" +:+ nl
           | Err err => "Error: " +:+ err +:+ nl
           end)).
Proof.
  intros. change (get_key_line cid) with (command_line "get_public_key" cid).
  apply serve_line; [done..|]. serve_dispatch. unfold cmd_get_public_key.
  rewrite not_is_empty by (by apply sendable_ne). cbn [broker]. simpl.
  by destruct (State.get_public_key _ _) as [[[]|] b'].
Qed.

Lemma key_reply_read cid key ws :
  named key →
  (get_public_key cid {| Client.socket := {| written := ws; outcomes := [] |};
                         Client.replies := [Some ("Public key: " +:+ key +:+ nl)] |}).1
  = Ok (Some key).
Proof.
  intros [Hv Hne]. destruct (all_visible_last _ Hv Hne) as (b & Hb & Vb).
  unfold get_public_key, mbind, Client.M_bind. rewrite Client.send_recv_ok.
  replace ("Public key: " +:+ key +:+ nl) with (("Public key: " +:+ key) +:+ String (ascii_of_N 10) "")
    by (by rewrite <-app_assoc).
  rewrite (trim_line "P"%char b); [|done|by rewrite last_char_app|done|done].
  unfold mret, Client.M_ret. by rewrite strip_prefix_app.
Qed.

(** *** The configuration requests *)

Definition configure_requests (b : Binding) : list (string * string) :=
  [("declare_queue", queue_name b); ("declare_exchange", exchange_name b);
   ("bind", queue_name b +:+ " " +:+ exchange_name b +:+ " " +:+ routing_key b)].
Definition configure_lines (bs : list Binding) : list string :=
  (λ r, command_line r.1 r.2) <$> mjoin (configure_requests <$> bs).

Lemma length_configure bs : length (mjoin (configure_requests <$> bs)) = 3 * length bs.
Proof.
  induction bs as [|b bs IH]; [done|].
  change (mjoin (configure_requests <$> b :: bs))
    with (configure_requests b ++ mjoin (configure_requests <$> bs)).
  rewrite List.length_app, IH. simpl. lia.
Qed.

Definition denial (s : Session) (cmd : string) : string :=
  match Acl.check_command (role s) cmd with
  | Acl.Denied reason => "Access denied: " +:+ reason +:+ " (role=" +:+ Acl.as_str (role s) +:+ ")" +:+ nl
  | Acl.Allowed => ""
  end.

Lemma deny_line env cmd args s w :
  idle s → Acl.check_command (role s) cmd ≠ Acl.Allowed →
  all_chars visible cmd = true → cmd ≠ "" → sendable args →
  served env (command_line cmd args) s w [] (Some (denial s cmd)).
Proof.
  intros [Ha Hb] Hd Hv Hne Hs. unfold served, on_event. rewrite Ha. cbn [negb].
  assert (is_empty (command_line cmd args) = false) as -> by (by destruct cmd).
  unfold handle_request. cbn [buffer with_buffer role client_id limiter with_monitor].
  rewrite Hb. change ("" +:+ ?x) with x. rewrite parse_command_line by done. unfold denial.
  destruct (Acl.check_command (role s) cmd) as [|reason]; [done|].
  split_and!; done.
Qed.

Lemma talked_denied envs c c1 ops texts (rs : list (string * string)) :
  talked c c1 ops texts →
  Forall (λ r, Acl.check_command (role c.1) r.1 ≠ Acl.Allowed ∧ all_chars visible r.1 = true
               ∧ r.1 ≠ "" ∧ sendable r.2) rs →
  talked c (serve (inputs envs ((λ r, command_line r.1 r.2) <$> rs)) c1) ops
    (texts ++ ((λ r, denial c.1 r.1) <$> rs)).
Proof.
  revert envs c1 texts. induction rs as [|r rs IH]; intros envs c1 texts Ht Hrs.
  { simpl. by rewrite List.app_nil_r. }
  apply Forall_cons in Hrs as [(H1 & H2 & H3 & H4) Hrs].
  assert (role c1.1 = role c.1) as Hrole by apply (t_same _ _ _ _ Ht).
  assert (denial c1.1 r.1 = denial c.1 r.1) as Hden by (unfold denial; by rewrite Hrole).
  pose proof (deny_line (envs 0) r.1 r.2 c1.1 c1.2 (t_idle _ _ _ _ Ht)
    ltac:(by rewrite Hrole) H2 H3 H4) as Hserved. rewrite Hden in Hserved.
  pose proof (talked_line _ _ _ _ _ _ _ _ Ht Hserved) as Ht'. rewrite List.app_nil_r in Ht'.
  specialize (IH (envs ∘ Datatypes.S) _ _ Ht' Hrs). rewrite <-List.app_assoc in IH. exact IH.
Qed.

Lemma configure_replies bs ws replies rest :
  length replies = 3 * length bs →
  configure_server bs {| Client.socket := {| written := ws; outcomes := [] |};
                         Client.replies := (Some <$> replies) ++ rest |}
  = (Ok (), {| Client.socket := {| written := ws ++ configure_lines bs; outcomes := [] |};
               Client.replies := rest |}).
Proof.
  revert ws replies. induction bs as [|b bs IH]; intros ws replies Hl.
  { destruct replies; [|done]. simpl. by rewrite List.app_nil_r. }
  destruct replies as [|r1 [|r2 [|r3 replies]]]; simpl in Hl; try lia.
  cbn [configure_server fmap list_fmap app]. unfold mbind, Client.M_bind.
  rewrite !Client.send_recv_ok, IH by lia. do 3 f_equal. rewrite <-!List.app_assoc. f_equal.
  unfold configure_lines, configure_requests. simpl. unfold command_line.
  by rewrite <-!app_assoc.
Qed.

(** The configuration requests the sender makes on every connection are in
    vain: the server refuses each of them, nothing is declared or bound, and
    the sender goes on all the same. *)
Theorem sender_setup_denied envs bs ws s w :
  idle s → outcomes (stream s) = [] → role s = Acl.Sender →
  Forall (λ b, named (queue_name b) ∧ named (exchange_name b) ∧ named (routing_key b)) bs →
  let '(s', w') := serve (inputs envs (configure_lines bs)) (s, w) in
  core w' = core w
  ∧ ∃ replies, written (stream s') = written (stream s) ++ replies
    ∧ Forall (λ r, starts_with "Access denied: " r = true) replies
    ∧ configure_server bs {| Client.socket := {| written := ws; outcomes := [] |};
                             Client.replies := Some <$> replies |}
      = (Ok (), {| Client.socket := {| written := ws ++ configure_lines bs; outcomes := [] |};
                   Client.replies := [] |}).
Proof.
  intros Hi Ho Hr Hbs.
  assert (Forall (λ r, Acl.check_command (role s) r.1 ≠ Acl.Allowed ∧ all_chars visible r.1 = true
    ∧ r.1 ≠ "" ∧ sendable r.2) (mjoin (configure_requests <$> bs))) as Hrs.
  { apply Forall_forall. intros r (l & Hl & (b & -> & Hb)%list_elem_of_fmap)%list_elem_of_join.
    rewrite Forall_forall in Hbs. destruct (Hbs b Hb) as (Hq & He & Hk). rewrite Hr.
    unfold configure_requests in Hl. rewrite !elem_of_cons, elem_of_nil in Hl.
    destruct Hl as [->|[->|[->|[]]]]; (split; [by vm_compute|]); (split; [done|]); (split; [done|]).
    - by apply named_sendable.
    - by apply named_sendable.
    - apply sendable_app; [apply visible_utf8, Hq|]. apply sendable_space.
      apply sendable_app; [apply visible_utf8, He|]. apply sendable_space.
      by apply named_sendable. }
  pose proof (talked_denied envs _ _ _ _ _ (talked_start s w Hi Ho) Hrs) as [C1 _ _ _ C2].
  change ((λ r, command_line r.1 r.2) <$> mjoin (configure_requests <$> bs))
    with (configure_lines bs) in C1, C2.
  destruct (serve _ _) as [s' w']. split; [exact C1|]. eexists. split; [exact C2|]. split.
  - apply Forall_forall. intros x (r & -> & Hin)%list_elem_of_fmap.
    rewrite Forall_forall in Hrs. destruct (Hrs r Hin) as [Hd _]. unfold denial. cbn [fst].
    destruct (Acl.check_command (role s) r.1); [done|]. apply starts_with_app.
  - rewrite <-(List.app_nil_r (Some <$> _)). apply configure_replies. cbn [app].
    rewrite length_fmap. apply length_configure.
Qed.

End Conversation.

(** *** Key distribution *)

Section Keys.
Context `{P : Primitives} `{J : Json}.

(** C19: key distribution: after a receiver has registered its public key, a
    sender that asks the server for the key of that receiver gets exactly this
    key, through the request lines, the broker, the storage actor with its
    encryption, and the reply. *)
Theorem key_distribution `{!PrimitivesOk P} env1 env2 (rs ss : Session) (w : World Storage.Store)
    key ws :
  idle rs → may rs "register_public_key" → grants env1 rs "register_public_key" w = true →
  named (b64_encode key) → StorageFacts.handle_ok (State.storage (broker w)) →
  idle ss → outcomes (stream ss) = [] → may ss "get_public_key" → named (client_id rs) →
  let '(_, w1) := on_event env1 (Read (Receiver.register_line key)) rs w in
  is_ok (State.save_public_key (client_id rs) (b64_encode key) (broker w)).1 = true →
  Storage.envs (State.storage (broker w1)) = [] →
  grants env2 ss "get_public_key" w1 = true →
  let '(ss', _) := on_event env2 (Read (get_key_line (client_id rs))) ss w1 in
  ∃ reply, written (stream ss') = written (stream ss) ++ [reply]
    ∧ (get_public_key (client_id rs)
         {| Client.socket := {| written := ws; outcomes := [] |}; Client.replies := [Some reply] |}).1
      = Ok (Some (b64_encode key)).
Proof.
  intros Hi Hm Hg Hk Hh Hi2 Ho2 Hm2 Hn.
  pose proof (serve_register env1 rs w (b64_encode key) Hi Hm Hg (named_sendable _ Hk)) as H1.
  change (Receiver.register_line key) with (command_line "register_public_key" (b64_encode key)).
  unfold served in H1. destruct (on_event env1 _ rs w) as [rs1 w1].
  destruct H1 as (H1 & _). intros Hok Henvs Hg2.
  assert (broker w1 = (State.save_public_key (client_id rs) (b64_encode key) (broker w)).2) as Hb.
  { change (broker w1) with (core w1).1. rewrite H1. done. }
  pose proof (serve_get_key env2 ss w1 (client_id rs) Hi2 Hm2 Hg2 (named_sendable _ Hn)) as H2.
  unfold served in H2. destruct (on_event env2 _ ss w1) as [ss1 w2].
  destruct H2 as (_ & _ & _ & H2).
  assert ((State.get_public_key (client_id rs) (broker w1)).1 = Ok (Some (b64_encode key))) as Hget.
  { rewrite Hb in Henvs |- *. unfold State.save_public_key in *.
    destruct (api_save_public_key _ (State.storage (broker w))) as [[[]|] st'] eqn:Hs; [|done].
    cbn [snd] in *. unfold State.get_public_key.
    pose proof (StorageProps.saved_key_read _ _ _ _ Hh Hs Henvs) as Hr.
    change (State.storage (State.with_storage (λ _, st') (broker w))) with st'.
    unfold api_get_public_key, StorageFacts.Store_api.
    destruct (Storage.get_public_key (client_id rs) st') as [r st'']. cbn [fst] in Hr. by rewrite Hr. }
  rewrite Hget in H2. unfold reply, with_stream, write_all, next_outcome in H2. rewrite Ho2 in H2.
  cbn in H2. eexists. split; [by rewrite H2|]. by apply key_reply_read.
Qed.

End Keys.

(** ** Witnesses *)

#[local] Existing Instance StorageProps.toy_primitives.
#[local] Existing Instance StorageProps.toy_primitives_ok.
#[local] Existing Instance ServerProps.toy_json.
#[local] Existing Instance ServerProps.toy_json_ok.

#[local] Existing Instance JsonFacts.toy_serde.
#[local] Existing Instance JsonFacts.toy_serde_laws.
#[local] Existing Instance ServerProps.toy_json_reads.

Definition em1 : Crypto.EncryptedMessage :=
  {| Crypto.message_id := "s-1-r"; Crypto.receiver_client_id := "r"; Crypto.enc_session_key := "k";
     Crypto.nonce := "n"; Crypto.ciphertext := "c"; Crypto.sent_time := "t";
     Crypto.routing_key := "r_key" |}.
Definition sender1 : Session := ServerProps.sample_session Acl.Sender [].
Definition world1 : World Storage.Store := ServerProps.sample_world ServerProps.empty_broker.
Definition env1 : Env := ServerProps.sample_env.
Definition config1 : Config := PipelineProps.tiny 10.
Definition pipe1 : Pipeline.Pipe := PipelineProps.begin 10.

Lemma default_message_text_witness :
  Crypto.content (generate_message "sender_1" default_message 1 "c0ffee12-0000" 1700000000123)
  = "sender_1-CipherMQ Sample message with ID: c0ffee12".
Proof.
  exact (default_message_text "sender_1" "c0ffee12-0000" 1 1700000000123 eq_refl eq_refl).
Defined.

Lemma granted1 : grants env1 sender1 "publish" world1 = true.
Proof. vm_compute. reflexivity. Qed.

Lemma publication_round_trip_witness :
  core (on_event env1 (Read (Pipeline.publish_command config1 em1)) sender1 world1).2
  = (State.publish "e" "r_key" (ReceiverProps.published em1) "c" 9 "t" (broker world1)
       (runtime world1)).2.
Proof.
  pose proof (publication_round_trip config1 env1 sender1 world1 em1 pipe1 ltac:(done) eq_refl eq_refl
    granted1 eq_refl eq_refl ltac:(by split)) as H.
  destruct (on_event _ _ _ _) as [s' w'].
  change (client_id sender1) with "c" in H. change (instant env1 5) with 9%Z in H.
  change (utc env1 5) with "t" in H. change (exchange config1) with "e" in H.
  change (Crypto.routing_key em1) with "r_key" in H.
  destruct (State.publish _ _ _ _ _ _ _ _) as [r c]. exact (proj1 H).
Defined.

Lemma toy_strict v rest : is_ok (json_message (print v +:+ nl +:+ rest)) = false.
Proof.
  unfold json_message, ServerProps.toy_json, parse, print, JsonFacts.toy_serde.
  change (nl +:+ rest) with (String (ascii_of_N 10) rest). by rewrite unbits_trailing.
Qed.
Lemma pipelined_publishes_lost_witness :
  core (on_event env1 (Read (Pipeline.publish_command config1 em1
          +:+ Pipeline.publish_command config1 em1)) sender1 world1).2 = core world1.
Proof.
  pose proof (pipelined_publishes_lost config1 env1 sender1 world1 em1 em1 pipe1 ltac:(done) eq_refl
    eq_refl granted1 eq_refl eq_refl eq_refl (λ rest _, toy_strict _ rest)) as H.
  destruct (on_event _ _ _ _) as [s' w']. exact (proj1 H).
Defined.

Definition binding1 : Binding :=
  {| queue_name := "r_queue"; exchange_name := "e"; routing_key := "r_key" |}.
Lemma sender_setup_denied_witness :
  core (serve (inputs (λ _, env1) (configure_lines [binding1])) (sender1, world1)).2 = core world1.
Proof.
  pose proof (sender_setup_denied (λ _, env1) [binding1] [] sender1 world1 ltac:(done) eq_refl eq_refl
    ltac:(by repeat constructor)) as H.
  destruct (serve _ _) as [s' w']. exact (proj1 H).
Defined.

Lemma key_distribution_witness :
  ∃ reply,
    written (stream (on_event env1 (Read (get_key_line "c")) sender1
      (on_event env1 (Read (Receiver.register_line "pk")) (ServerProps.sample_session Acl.Receiver [])
         world1).2).1) = [reply]
    ∧ (get_public_key "c"
         {| Client.socket := {| written := []; outcomes := [] |}; Client.replies := [Some reply] |}).1
      = Ok (Some "pk").
Proof.
  pose proof (key_distribution env1 env1 (ServerProps.sample_session Acl.Receiver []) sender1 world1
    "pk" [] ltac:(done) eq_refl ltac:(vm_compute; reflexivity) ltac:(done)
    ltac:(by repeat constructor) ltac:(done) eq_refl eq_refl ltac:(done)) as H.
  change (client_id (ServerProps.sample_session Acl.Receiver [])) with "c" in H.
  assert (is_ok (State.save_public_key "c" (b64_encode "pk") (broker world1)).1 = true) as Hsave
    by (vm_compute; reflexivity).
  destruct (on_event env1 (Read (Receiver.register_line "pk")) _ _) as [rs w1] eqn:E.
  assert (Storage.envs (State.storage (broker w1)) = []
    ∧ grants env1 sender1 "get_public_key" w1 = true) as [He Hg].
  { change w1 with (rs, w1).2. rewrite <-E. vm_compute. by split. }
  specialize (H Hsave He Hg). cbn [snd].
  destruct (on_event env1 (Read (get_key_line "c")) sender1 w1) as [ss w2]. exact H.
Defined.

End SenderProps.
