(* ===== verification/Lifecycle.v ===== *)
(** The life of a message through all three programs: the sender encrypts and
    publishes it, the broker queues it and hands it to the consumer's channel,
    the session writes it, the receiver decrypts, stores and acknowledges it,
    and the broker forgets it. *)
From S2P Require Import Prelude RustStr Acl Storage StorageFacts State StateFacts.
From S2P Require Import StateInv RateLimiter Heartbeat Metrics Server ServerFacts.
From S2P Require Import StorageProps JsonTree ServerProps Crypto Client Receiver.
From S2P Require Import ReceiverProps Protocol Sender Pipeline PipelineProps SenderProps.
From stdpp Require Import countable list options.
From Stdlib Require Import Ascii.

Module Lifecycle.
Import RustStr Server ServerFacts StateInv StateFacts Protocol.

Section Life.
Context {S : Type} {A : StorageApi S} {J : Json}.
Implicit Types (w : World S) (s : Session) (env : Env).

(** ** Acknowledgements *)

(** The server serves the line of an acknowledgement. *)
Lemma serve_ack env s w id :
  idle s → outcomes (stream s) = [] → may s "ack" → grants env s "ack" w = true → named id →
  let '(s', w') := on_event env (Read (Receiver.ack_line id)) s w in
  core w' = (State.acknowledge id (instant env 5) (utc env 5) (broker w), runtime w)
  ∧ idle s' ∧ stream s' = {| written := written (stream s) ++ ["ACK confirmed " +:+ id +:+ nl];
                             outcomes := [] |}.
Proof.
  intros [Ha Hb] Ho Hm Hg Hn. unfold on_event. rewrite Ha. cbn [negb].
  change (Receiver.ack_line id) with (command_line "ack" id).
  change (is_empty (command_line "ack" id)) with false. cbv iota.
  unfold handle_request. cbn [buffer with_buffer role client_id limiter with_monitor].
  rewrite Hb. change ("" +:+ ?x) with x.
  rewrite parse_command_line by (done || by apply named_sendable). rewrite Hm.
  unfold grants in Hg. destruct (RateLimiter.check _ _ _ _) as [v rl]. cbn [fst] in Hg.
  rewrite Hg. cbn [negb]. rewrite decide_True by done. unfold cmd_ack.
  rewrite not_is_empty by apply Hn. unfold write_all, flush, next_outcome.
  cbn [stream with_buffer with_stream]. rewrite Ho. done.
Qed.

(** ** Deliveries *)

(** What [mark_delivered] leaves alone, and that it keeps a message live. *)
Lemma mark_delivered_frame id now u (b : State.ServerState S) :
  let b' := State.mark_delivered id now u b in
  State.queues b' = State.queues b ∧ State.message_queues b' = State.message_queues b
  ∧ (is_Some (State.message_status b !! id) → is_Some (State.message_status b' !! id)).
Proof.
  simpl. unfold State.mark_delivered. destruct (State.message_status b !! id) as [st|] eqn:Hs; [|done].
  destruct (State.delivered_time st); [by rewrite Hs|]. simpl. by rewrite lookup_insert_eq.
Qed.

(** The delivery of the next message of a channel over a working socket. *)
Lemma deliver_next env s w id m rest :
  active s = true → outcomes (stream s) = [] →
  State.chans (runtime w) !! chan s = Some {| State.open := true; State.buf := (id, m) :: rest |} →
  State.deliverable (broker w) id = true →
  let '(s', w') := on_event env Recv s w in
  same_session s s' ∧ active s' = true ∧ buffer s' = buffer s
  ∧ stream s' = {| written := written (stream s) ++ [ReceiverProps.delivery_text id m]; outcomes := [] |}
  ∧ State.queues (broker w') = State.queues (broker w)
  ∧ State.message_queues (broker w') = State.message_queues (broker w)
  ∧ is_Some (State.message_status (broker w') !! id) ∧ limiter w' = limiter w.
Proof.
  intros Ha Ho Hc Hd. unfold on_event. rewrite Ha, Hc. cbn [negb]. unfold handle_delivery.
  cbn [broker with_runtime]. unfold State.deliverable in Hd |- *.
  destruct (State.message_status (broker w) !! id) as [st|] eqn:Hst; [|done]. rewrite Hd. cbn [negb].
  unfold MAX_RETRIES. cbn [deliver_attempts]. unfold write_all, flush, next_outcome. rewrite Ho.
  cbn [outcomes written]. split; [done|]. split; [done|]. split; [done|]. split; [done|].
  cbn [broker with_broker]. set (b1 := State.mark_delivered id (instant env 3) (utc env 3) (broker w)).
  destruct (mark_delivered_frame id (instant env 3) (utc env 3) (broker w)) as (F1 & F2 & F3).
  destruct (mark_delivered_frame id (instant env 0) (utc env 0) b1) as (G1 & G2 & G3).
  split; [etrans; [exact G1|exact F1]|]. split; [etrans; [exact G2|exact F2]|].
  split; [|done]. apply G3, F3. by rewrite Hst.
Qed.

(** ** The whole life *)

(** The last leg: an acknowledgement of a message that only [q] holds. *)
Lemma last_leg id now u b (b0 : State.ServerState S) q l m :
  State.queues b = <[q := l ++ [(id, m)]]> (State.queues b0) → State.queues b0 !! q = Some l →
  id ∉ l.*1 → State.message_queues b !! id = Some {[q]} → is_Some (State.message_status b !! id) →
  State.queues (State.acknowledge id now u b) = State.queues b0
  ∧ State.message_status (State.acknowledge id now u b) !! id = None.
Proof.
  intros Hq Hl Hid Hidx [st Hst]. rewrite (acknowledge_eq id now u b st Hst). cbn [State.queues
    State.message_status State.with_storage]. split.
  - apply map_eq. intros q'. rewrite lookup_purge_queues, Hidx, Hq. simpl.
    destruct (decide (q' = q)) as [->|Hne].
    + rewrite decide_True by set_solver. rewrite lookup_insert_eq, Hl. simpl. f_equal.
      rewrite filter_app, filter_cons_False by (simpl; naive_solver). rewrite List.app_nil_r.
      apply filter_all. intros [i e] Hin Hi. simpl in Hi. subst i.
      apply Hid, list_elem_of_fmap. by exists (id, e).
    + rewrite decide_False by set_solver. by rewrite lookup_insert_ne.
  - destruct (purge_frame id b) as [-> _]. by rewrite lookup_delete_eq.
Qed.

Context {P : Primitives} {K : Ciphers} {RJ : ReceiverJson}.

(** The receiver's part: it acknowledges the delivered message and stores it. *)
Lemma receiver_leg `{!JsonOk J} `{!ReceiverJsonOk J RJ} `{!CiphersOk P K}
    msg rsk receiver key rand time em sys wr times :
  let id := Crypto.message_id em in
  String.length (Crypto.session_key rand) = 32 → String.length (Crypto.nonce_bytes rand) = 12 →
  from_utf8_lossy (Crypto.content msg) = Crypto.content msg →
  Crypto.encrypt_message msg (b64_encode (x25519_public rsk)) receiver key rand time = Ok em →
  PipelineProps.sound_id em → ReceiverProps.attentive sys → id ∉ Receiver.processed sys →
  Receiver.writer sys = Some wr → Receiver.wstage wr = Receiver.Receiving →
  outcomes (Receiver.file wr) = [] → 1 + length (Receiver.msg_channel sys) < length times →
  let turns := ReceiverProps.delivery_turns (ReceiverProps.delivery_text id (ReceiverProps.published em)) in
  ∃ sys1 sys2 wr2 recs,
    Receiver.run rsk turns sys = Some sys1
    ∧ written (Receiver.stream sys1) = written (Receiver.stream sys) ++ [Receiver.ack_line id]
    ∧ Receiver.run rsk (Receiver.Store <$> times) sys1 = Some sys2
    ∧ Receiver.writer sys2 = Some wr2
    ∧ written (Receiver.file wr2) = written (Receiver.file wr) ++ ReceiverProps.lines_of recs
    ∧ ReceiverProps.pair_of <$> recs
      = (ReceiverProps.pair_of <$> Receiver.batch wr) ++ Receiver.msg_channel sys
        ++ [(id, Crypto.content msg)].
Proof.
  intros id Hk Hn Hu Henc [Hv Hne] Hat Hpr Hwr Hst Ho Hlen turns.
  destruct (all_visible_first _ Hv Hne) as (a & Hf & Hva).
  destruct (ReceiverProps.delivery_accepted rsk id (to_json (ReceiverProps.published em))
    (Crypto.envelope em) (Crypto.content msg) sys
    (ReceiverProps.delivery_text id (ReceiverProps.published em)))
    as (sys1 & R1 & _ & R2 & R3 & _ & R4);
    [done|eapply ReceiverProps.parse_delivery_text; [exact Hf|exact Hva|by apply visible_no_space]
    |done|apply ReceiverProps.envelope_published|by eapply Crypto.encrypt_decrypt|].
  unfold Receiver.storing in R2. rewrite Hwr in R2, R3. rewrite bool_decide_true in R2 by (by rewrite Hst).
  destruct (ReceiverProps.store_turns_write (written (Receiver.file wr)) [] rsk times sys1 wr)
    as (sys2 & wr2 & recs & T1 & T2 & _ & _ & _ & T3 & T4); [done| |done| |].
  { split; [done| |by rewrite Hst]. by rewrite List.app_nil_r. }
  { rewrite R2, length_app. simpl. lia. }
  exists sys1, sys2, wr2, recs. split_and!; try done. by rewrite T4, R2.
Qed.

Context {SJ : Serde} {SL : SerdeLaws SJ} {JR : JsonReads J SJ}.

(** A broker and two sessions ready for a message: it is new, its key leads to
    one queue with room, the receiver's session is the only consumer of that
    queue and has nothing else to deliver, and the sockets work. *)
Record ready (cfg : Sender.Config) (em : Crypto.EncryptedMessage) env w (ss rs : Session)
    (q : string) (l : list State.Entry) : Prop := {
  rd_wf : wf (broker w);
  rd_sender : idle ss ∧ outcomes (stream ss) = [] ∧ may ss "publish"
              ∧ grants env ss "publish" w = true;
  rd_receiver : idle rs ∧ outcomes (stream rs) = [] ∧ may rs "ack" ∧ client_id rs ≠ client_id ss;
  rd_names : all_chars visible (Sender.exchange cfg) = true
             ∧ all_chars visible (Crypto.routing_key em) = true ∧ PipelineProps.sound_id em;
  rd_new : State.message_status (broker w) !! Crypto.message_id em = None;
  rd_route : State.target_queues (Sender.exchange cfg) (Crypto.routing_key em) (broker w) = [q];
  rd_queue : State.queues (broker w) !! q = Some l ∧ length l < State.max_queue_size (broker w)
             ∧ Crypto.message_id em ∉ l.*1;
  rd_consumer : State.consumers (broker w) !! q = Some [chan rs];
  rd_channel : State.chans (runtime w) !! chan rs = Some {| State.open := true; State.buf := [] |};
  rd_saved : is_ok (State.publish (Sender.exchange cfg) (Crypto.routing_key em)
                      (ReceiverProps.published em) (client_id ss) (instant env 5) (utc env 5)
                      (broker w) (runtime w)).1 = true
}.

(** The first leg: the publication. *)
Lemma first_leg cfg em env w ss rs q l p :
  ready cfg em env w ss rs q l →
  let '(ss', w1) := on_event env (Read (Pipeline.publish_command cfg em)) ss w in
  let id := Crypto.message_id em in
  (∃ reply, written (stream ss') = written (stream ss) ++ [reply]
     ∧ Pipeline.pending (Pipeline.on_reply reply p) = delete id (Pipeline.pending p)
     ∧ Pipeline.permits (Pipeline.on_reply reply p) = 1 + Pipeline.permits p)
  ∧ State.queues (broker w1) = <[q := l ++ [(id, ReceiverProps.published em)]]> (State.queues (broker w))
  ∧ State.message_queues (broker w1) !! id = Some {[q]}
  ∧ State.deliverable (broker w1) id = true
  ∧ State.chans (runtime w1) !! chan rs
    = Some {| State.open := true; State.buf := [(id, ReceiverProps.published em)] |}
  ∧ ∀ env', grants env' rs "ack" w1 = grants env' rs "ack" w.
Proof using SL JR.
  intros [Hwf (Hi & Ho & Hm & Hg) (_ & _ & _ & Hcn) (He & Hk & Hsound) Hnew Hroute (Hq & Hl & Hfresh) Hcons Hchan Hok].
  pose proof (SenderProps.serve_publish cfg env ss w em Hi Hm Hg He Hk) as Hsv.
  pose proof (on_event_limiter env (Read (Pipeline.publish_command cfg em)) ss w) as Hlim.
  unfold served in Hsv. destruct (on_event env _ ss w) as [ss' w1]. destruct Hsv as (H1 & _ & _ & H4).
  unfold run, exec, foldl, core in H1. cbn [broker runtime] in H1.
  pose proof (publish_cases (Sender.exchange cfg) (Crypto.routing_key em) (ReceiverProps.published em)
    (client_id ss) (instant env 5) (utc env 5) (broker w) (runtime w) (targets_NoDup _ _ _ Hwf)) as Hp.
  destruct (State.publish _ _ _ _ _ _ _ _) as [r [b rt]]. cbn [fst snd] in *.
  destruct r as [u|err]; [|done]. injection H1 as -> ->.
  change (State.message_id (ReceiverProps.published em)) with (Crypto.message_id em) in Hp.
  rewrite Hnew in Hp. destruct Hp as [_ Hp]. destruct (_ && _); [|by destruct Hp].
  destruct Hp as [_ Hp]. destruct Hsound as [Hv Hne].
  split; [|split; [|split; [|split; [|split]]]].
  - unfold reply, with_stream, write_all, next_outcome in H4. rewrite Ho in H4. cbn in H4.
    eexists. split; [by rewrite H4|]. unfold Pipeline.on_reply.
    by rewrite PipelineProps.ack_reply_parsed.
  - apply map_eq. intros q'. rewrite (pub_queues _ _ _ _ _ _ _ _ Hp), Hroute.
    destruct (decide (q' = q)) as [->|Hn].
    + rewrite decide_True by (by left). rewrite Hq, lookup_insert_eq. simpl. f_equal.
      unfold push. by rewrite decide_False by lia.
    + rewrite decide_False by (intros ->%list_elem_of_singleton; done). by rewrite lookup_insert_ne.
  - destruct (pub_index_new _ _ _ _ _ _ _ _ Hp) as (qs & Hqs & Hin).
    change (State.message_id (ReceiverProps.published em)) with (Crypto.message_id em) in Hqs.
    rewrite Hqs. f_equal. apply set_eq. intros q'. rewrite Hin, Hroute, list_elem_of_singleton.
    set_solver.
  - unfold State.deliverable.
    assert (State.message_status b !! Crypto.message_id em = Some (State.sent (instant env 5))) as ->
      by (apply (pub_status _ _ _ _ _ _ _ _ Hp); by left). done.
  - rewrite (pub_chans _ _ _ _ _ _ _ _ Hp), Hchan, Hroute. unfold copies. simpl. rewrite Hcons. simpl.
    unfold occurrences. rewrite filter_cons_True by done. done.
  - intros env'. unfold grants. simpl in Hlim. destruct Hlim as [->|(pub & t & ->)]; [done|].
    by rewrite RateLimiter.rate_limit_isolation.
Qed.

(** C3: the life of a message: a sender encrypts a text for a receiver and
    publishes it; the broker's reply clears the sender's pending entry and
    returns its permit; the delivery to the receiver's session makes the
    receiver acknowledge the message, and its storing task, on a working disk,
    write the record of the original text to the output file after those that
    were waiting; and the acknowledgement leaves the broker's queues exactly as
    they were before the publication, with the message forgotten. *)
Theorem message_lifecycle `{!JsonOk J} `{!ReceiverJsonOk J RJ}
    `{!CiphersOk P K} cfg msg rsk receiver key rand time em env1 env2 env3 w ss rs q l p sys wr times :
  (** the sender's encryption *)
  String.length (Crypto.session_key rand) = 32 → String.length (Crypto.nonce_bytes rand) = 12 →
  from_utf8_lossy (Crypto.content msg) = Crypto.content msg →
  Crypto.encrypt_message msg (b64_encode (x25519_public rsk)) receiver key rand time = Ok em →
  (** the broker *)
  ready cfg em env1 w ss rs q l → grants env3 rs "ack" w = true →
  (** the receiver program *)
  ReceiverProps.attentive sys → Crypto.message_id em ∉ Receiver.processed sys →
  Receiver.writer sys = Some wr → Receiver.wstage wr = Receiver.Receiving →
  outcomes (Receiver.file wr) = [] → 1 + length (Receiver.msg_channel sys) < length times →
  let id := Crypto.message_id em in
  let '(ss', w1) := on_event env1 (Read (Pipeline.publish_command cfg em)) ss w in
  let '(rs1, w2) := on_event env2 Recv rs w1 in
  (∃ reply, written (stream ss') = written (stream ss) ++ [reply]
     ∧ Pipeline.pending (Pipeline.on_reply reply p) = delete id (Pipeline.pending p)
     ∧ Pipeline.permits (Pipeline.on_reply reply p) = 1 + Pipeline.permits p)
  ∧ ∃ text sys1 sys2 wr2 recs ack,
      written (stream rs1) = written (stream rs) ++ [text]
      ∧ Receiver.run rsk (ReceiverProps.delivery_turns text) sys = Some sys1
      ∧ written (Receiver.stream sys1) = written (Receiver.stream sys) ++ [ack]
      ∧ Receiver.run rsk (Receiver.Store <$> times) sys1 = Some sys2
      ∧ Receiver.writer sys2 = Some wr2
      ∧ written (Receiver.file wr2) = written (Receiver.file wr) ++ ReceiverProps.lines_of recs
      ∧ ReceiverProps.pair_of <$> recs
        = (ReceiverProps.pair_of <$> Receiver.batch wr) ++ Receiver.msg_channel sys
          ++ [(id, Crypto.content msg)]
      ∧ let '(rs2, w3) := on_event env3 (Read ack) rs1 w2 in
        idle rs2 ∧ State.queues (broker w3) = State.queues (broker w)
        ∧ State.message_status (broker w3) !! id = None.
Proof using SL JR.
  intros Hk Hn Hu Henc Hrd Hg Hat Hpr Hwr Hst Ho2 Hlen id.
  pose proof (first_leg cfg em env1 w ss rs q l p Hrd) as H1.
  destruct Hrd as [_ _ (Hi & Ho & Hm & _) (_ & _ & Hid) _ _ (Hq & _ & Hfresh) _ _ _].
  destruct (on_event env1 _ ss w) as [ss' w1]. destruct H1 as (Hreply & Q1 & I1 & D1 & C1 & G1).
  pose proof (deliver_next env2 rs w1 id _ [] (proj1 Hi) Ho C1 D1) as H2.
  destruct (on_event env2 Recv rs w1) as [rs1 w2].
  destruct H2 as (Hsame & Ha1 & Hb1 & Hs1 & Q2 & I2 & St2 & L2). split; [exact Hreply|].
  destruct (receiver_leg msg rsk receiver key rand time em sys wr times
    Hk Hn Hu Henc Hid Hat Hpr Hwr Hst Ho2 Hlen)
    as (sys1 & sys2 & wr2 & recs & R1 & R2 & R3 & R4 & R5 & R6).
  exists (ReceiverProps.delivery_text id (ReceiverProps.published em)), sys1, sys2, wr2, recs,
    (Receiver.ack_line id). split; [by rewrite Hs1|].
  do 6 (split; [done|]).
  assert (grants env3 rs1 "ack" w2 = true) as Hg1.
  { transitivity (grants env3 rs "ack" w1); [|by rewrite G1].
    unfold grants. by rewrite L2, (proj1 Hsame). }
  assert (idle rs1) as Hi1 by (split; [done|]; rewrite Hb1; apply Hi).
  pose proof (serve_ack env3 rs1 w2 id Hi1 (f_equal outcomes Hs1)
    (may_same _ _ _ Hsame Hm) Hg1 Hid) as H3.
  destruct (on_event env3 _ rs1 w2) as [rs2 w3]. destruct H3 as (H3 & Hi2 & _).
  split; [exact Hi2|]. injection H3 as -> _.
  apply (last_leg id _ _ (broker w2) (broker w) q l (ReceiverProps.published em));
    [by rewrite Q2|done|done|by rewrite I2|done].
Qed.

End Life.
(** ** Witness *)

#[local] Existing Instance Crypto.plain_base64.
#[local] Existing Instance Crypto.plain_ciphers.
#[local] Existing Instance Crypto.plain_ciphers_ok.
#[local] Existing Instance ServerProps.toy_json.
#[local] Existing Instance ServerProps.toy_json_ok.
#[local] Existing Instance ReceiverProps.toy_receiver_json.
#[local] Existing Instance ReceiverProps.toy_receiver_json_ok.
#[local] Existing Instance JsonFacts.toy_serde.
#[local] Existing Instance JsonFacts.toy_serde_laws.
#[local] Existing Instance ServerProps.toy_json_reads.

Definition actor_api : StorageApi Storage.Store :=
  StorageFacts.Store_api (P := StorageProps.toy_primitives).
#[local] Existing Instance actor_api.

Definition quiet : Stream := {| written := []; outcomes := [] |}.
Definition sender_session : Session :=
  {| client_id := "s"; ip := "10.0.0.1"; role := Acl.Sender; chan := 1; buffer := "";
     stream := quiet; active := true |}.
Definition receiver_session : Session :=
  {| client_id := "r"; ip := "10.0.0.2"; role := Acl.Receiver; chan := 2; buffer := "";
     stream := quiet; active := true |}.
(** The broker after the receiver's set-up. *)
Definition set_up : list Op :=
  [OpenChan 2; DeclareQueue "r_q"; DeclareExchange "e"; Bind "r_q" "e" "r_key"; Register "r_q" 2].
Definition set_up_core : State.ServerState Storage.Store * State.Runtime :=
  StateInv.run set_up (State.new StorageProps.empty_store 10, {| State.chans := ∅; State.tasks := [] |}).
Definition set_up_world : World Storage.Store :=
  {| broker := set_up_core.1; runtime := set_up_core.2; monitor := Heartbeat.new 60;
     metrics := Metrics.new 0; limiter := RateLimiter.new RateLimiter.config1 |}.

Lemma set_up_ready :
  ready (PipelineProps.tiny 10) Crypto.hello_encrypted ServerProps.sample_env set_up_world
    sender_session receiver_session "r_q" [].
Proof.
  split.
  - change (broker set_up_world) with set_up_core.1. eapply (reachable_wf (λ _ _, True) 10).
    apply (reachable_run (λ _ _, True) 10 set_up); [constructor|apply admissible_True].
  - repeat split; vm_compute; reflexivity.
  - repeat split; try (vm_compute; reflexivity). discriminate.
  - split; [reflexivity|]. split; [vm_compute; reflexivity|].
    split; rewrite ReceiverProps.hello_id; [reflexivity|discriminate].
  - rewrite ReceiverProps.hello_id. vm_compute. reflexivity.
  - vm_compute. reflexivity.
  - split; [vm_compute; reflexivity|]. split; [vm_compute; lia|]. apply not_elem_of_nil.
  - vm_compute. reflexivity.
  - vm_compute. reflexivity.
  - vm_compute. reflexivity.
Qed.

Lemma message_lifecycle_witness :
  let '(_, w1) := on_event ServerProps.sample_env
    (Read (Pipeline.publish_command (PipelineProps.tiny 10) Crypto.hello_encrypted))
    sender_session set_up_world in
  let '(rs1, w2) := on_event ServerProps.sample_env Recv receiver_session w1 in
  ∃ wr2 recs ack,
    written (Receiver.file wr2) = ["old"] ++ ReceiverProps.lines_of recs
    ∧ ReceiverProps.pair_of <$> recs = [("s-1234-r", "hello")]
    ∧ State.queues (broker (on_event ServerProps.sample_env (Read ack) rs1 w2).2)
      = State.queues (broker set_up_world).
Proof.
  pose proof (message_lifecycle (PipelineProps.tiny 10) Crypto.hello "secret" "r" "r_key" Crypto.dice
    "now" Crypto.hello_encrypted ServerProps.sample_env ServerProps.sample_env ServerProps.sample_env
    set_up_world sender_session receiver_session "r_q" [] (PipelineProps.begin 10)
    (ReceiverProps.session ["old"] quiet) _ [1%Z; 2%Z] eq_refl eq_refl eq_refl ReceiverProps.hello_sent
    set_up_ready ltac:(vm_compute; reflexivity)
    (ReceiverProps.hello_attentive {| written := ["old"]; outcomes := [] |} true)
    (ReceiverProps.unseen _ (ReceiverProps.session ["old"] quiet) eq_refl) eq_refl eq_refl eq_refl
    ltac:(simpl; lia)) as H. cbv zeta in H.
  destruct (on_event _ _ sender_session set_up_world) as [ss' w1].
  destruct (on_event _ Recv receiver_session w1) as [rs1 w2].
  destruct H as (_ & text & sys1 & sys2 & wr2 & recs & ack & _ & _ & _ & _ & _ & Hf & Hp & H).
  exists wr2, recs, ack. split; [exact Hf|]. split.
  - rewrite Hp, ReceiverProps.hello_id. reflexivity.
  - destruct (on_event _ (Read ack) rs1 w2) as [rs2 w3]. apply H.
Defined.

End Lifecycle.
