(* ===== verification/Tools.v ===== *)
(** The two set-up programs: [create_ca_key/Rust_Key_Maker_X25519/src/main.rs]
    makes the key pair of a receiver, and
    [create_ca_key/Rust_CA_Maker_ECDSA_P-384_Multi_Client/src/main.rs] a
    certificate authority, the server's certificate and one certificate per
    client. The crate [rcgen] is the class [Rcgen]. *)
From S2P Require Import Prelude RustStr Storage Tls.
From S2P Require Import Server Broker TlsProps Crypto Client Receiver.
From stdpp Require Import list options.
From Stdlib Require Import Ascii.

(** [rcgen::CertificateParams], the fields the program sets. *)
Record CertificateParams (DN : Type) := {
  is_ca : bool;
  not_before : Z;
  not_after : Z;
  distinguished_name : DN;
  subject_alt_names : list string
}.
Arguments is_ca {DN}.
Arguments not_before {DN}.
Arguments not_after {DN}.
Arguments distinguished_name {DN}.
Arguments subject_alt_names {DN}.

(** The name of [CertificateParams::default] and [DistinguishedName::push];
    [KeyPair::generate_for] (its [n]-th call), [serialize_pem], [self_signed],
    [signed_by] and [pem]; keys and certificates are in DER form. *)
Class Rcgen := {
  DistinguishedName : Type;
  default_name : DistinguishedName;
  push : string → string → DistinguishedName → DistinguishedName;
  generate : nat → result string string;
  key_pem : string → string;
  self_signed : CertificateParams DistinguishedName → string → result string string;
  signed_by : CertificateParams DistinguishedName → string → string → string → result string string;
  cert_pem : string → string
}.

(** What the libraries promise, for connections made at time [t]: [pem] and
    [serialize_pem] write one block that the readers find again, [push] of a
    common name sets it, a certificate fits its key, a self-signed authority is
    a root, and what it signs for a name is valid between its two dates. *)
Class RcgenLaws (L : TlsLib) (R : Rcgen) (t : Z) : Prop := {
  cert_reads : ∀ der, pem_certs (cert_pem der) = [Ok der];
  cert_reads_first : ∀ der, parse_x509_pem (cert_pem der) = Ok der;
  key_reads : ∀ der, pkcs8_private_keys (key_pem der) = [Ok der];
  root_usable : ∀ p key ca, self_signed p key = Ok ca → is_ca p = true →
    root_add ca = Ok () ∧ verifier_build [ca] = Ok ();
  cert_fits_key : ∀ p key ca ca_key cert, signed_by p key ca ca_key = Ok cert →
    single_cert [cert] (Pkcs8 key) = Ok () ∧ client_auth_cert [cert] (Pkcs8 key) = Ok ();
  cert_named : ∀ p key ca ca_key cert cn dn, signed_by p key ca ca_key = Ok cert →
    distinguished_name p = push OID_X509_COMMON_NAME cn dn →
    ∃ subject, parse_x509 cert = Ok subject
      ∧ Tls.subject_cn subject = Some cn ∧ Tls.own_subject_cn subject = Ok cn;
  cert_valid : ∀ pa ca ca_key p key cert, self_signed pa ca_key = Ok ca → is_ca pa = true →
    signed_by p key ca ca_key = Ok cert → is_ca p = false →
    (not_before p ≤ t ≤ not_after p)%Z →
    webpki_client [ca] cert [] = true
    ∧ ∀ host, host ∈ subject_alt_names p → webpki_server [ca] cert [] host = true
}.

Module Tools.
Import RustStr Tls.

(** ** Files *)

(** The files by the path the programs use for them; a path is compared as
    written, so the names of clients are taken to be plain file names. A failed
    run has no result: what it wrote before the failure is not kept. *)
Abbreviation Disk := (gmap string string).

Section Files.
(** The paths that cannot be written. *)
Variable denied : string → bool.

(** [fs::write], [create_dir_all], [fs::copy] *)
Definition write (path text : string) (d : Disk) : result Disk string :=
  if denied path then Err "permission denied" else Ok (<[path := text]> d).
Definition create_dir_all (path : string) (d : Disk) : result Disk string :=
  if denied path then Err "permission denied" else Ok d.
Definition copy (from to : string) (d : Disk) : result Disk string :=
  match d !! from with Some text => write to text d | None => Err "not found" end.

(** ** The key maker *)

(** [main]; [private_bytes] are the 32 bytes of the new [StaticSecret]. *)
Definition make_keys `{P : Primitives} `{K : Ciphers} (private_bytes : string) (d : Disk)
    : result Disk string :=
  let public_bytes := x25519_public private_bytes in
  let private_b64 := b64_encode private_bytes in
  let public_b64 := b64_encode public_bytes in
  try d ← write "receiver_private.key" private_b64 d;
  write "receiver_public.key" public_b64 d.

(** ** The certificate maker *)

Definition days (n : Z) : Z := n * 86400.

Context `{R : Rcgen}.

(** The parameters of a certificate made at [now]; by default it is not an
    authority and has no alternative names. *)
Definition params (ca : bool) (now lifetime : Z) (cn : string) (sans : list string)
    : CertificateParams DistinguishedName :=
  {| is_ca := ca; not_before := now; not_after := now + days lifetime;
     distinguished_name := push OID_X509_COMMON_NAME cn default_name;
     subject_alt_names := sans |}.

Definition client_dir (cn : string) : string := "certs/clients/" +:+ cn.
Definition client_dest_dir (cn : string) : string := "src/client/certs/" +:+ cn.

(** The body of [for client_cn in client_cns]. *)
Definition make_client (n : nat) (now : Z) (ca_cert ca_key cn : string) (d : Disk)
    : result Disk string :=
  try d ← create_dir_all (client_dir cn) d;
  try key ← generate n;
  try cert ← signed_by (params false now 365 cn []) key ca_cert ca_key;
  try d ← write (client_dir cn +:+ "/client.key") (key_pem key) d;
  try d ← write (client_dir cn +:+ "/client.crt") (cert_pem cert) d;
  try d ← create_dir_all (client_dest_dir cn) d;
  try d ← copy "certs/ca.crt" (client_dest_dir cn +:+ "/ca.crt") d;
  try d ← copy (client_dir cn +:+ "/client.crt") (client_dest_dir cn +:+ "/client.crt") d;
  copy (client_dir cn +:+ "/client.key") (client_dest_dir cn +:+ "/client.key") d.
Fixpoint make_clients (n : nat) (now : nat → Z) (ca_cert ca_key : string) (cns : list string)
    (d : Disk) : result Disk string :=
  match cns with
  | [] => Ok d
  | cn :: cns =>
      try d ← make_client n (now n) ca_cert ca_key cn d;
      make_clients (1 + n) now ca_cert ca_key cns d
  end.

(** [main] with the arguments after the program's name; [now] are the times of
    the calls of [now_utc]. *)
Definition make_certs (now : nat → Z) (cns : list string) (d : Disk) : result Disk string :=
  if decide (cns = []) then Err "usage"
  else
    try d ← create_dir_all "certs" d;
    try d ← create_dir_all "src/client/certs" d;
    try ca_key ← generate 0;
    try ca_cert ← self_signed (params true (now 0) 3650 "CipherMQ" []) ca_key;
    try d ← write "certs/ca.key" (key_pem ca_key) d;
    try d ← write "certs/ca.crt" (cert_pem ca_cert) d;
    try server_key ← generate 1;
    try server_cert ← signed_by (params false (now 1) 365 "localhost" ["localhost"]) server_key
                        ca_cert ca_key;
    try d ← write "certs/server.key" (key_pem server_key) d;
    try d ← write "certs/server.crt" (cert_pem server_cert) d;
    make_clients 2 now ca_cert ca_key cns d.

End Files.

(** ** Lemmas *)

Lemma app_inj s s' t t' :
  String.length t = String.length t' → s +:+ t = s' +:+ t' → s = s' ∧ t = t'.
Proof.
  intros Hl. assert (∀ s s', String.length s = String.length s' → s +:+ t = s' +:+ t' →
    s = s' ∧ t = t') as Hs.
  { clear s s'. induction s as [|a s IH]; intros [|b s']; simpl; try done. intros [= Hlen].
    rewrite !app_cons. intros [= -> H]. destruct (IH s' Hlen H) as [-> ->]. done. }
  intros H. apply Hs; [|done].
  assert (String.length (s +:+ t) = String.length (s' +:+ t')) as HL by (by rewrite H).
  rewrite !Crypto.length_app in HL. lia.
Qed.

(** The files of two clients are different files. *)
Inductive Item := CaCrt | ClientCrt | ClientKey.
#[global] Instance Item_eq_dec : EqDecision Item.
Proof. solve_decision. Defined.
Definition item_name (i : Item) : string :=
  match i with CaCrt => "/ca.crt" | ClientCrt => "/client.crt" | ClientKey => "/client.key" end.
Definition dest (cn : string) (i : Item) : string := client_dest_dir cn +:+ item_name i.
Definition home (cn : string) (i : Item) : string := client_dir cn +:+ item_name i.
Lemma suffix_inj p s s' t t' :
  String.length t = String.length t' → (p +:+ s) +:+ t = (p +:+ s') +:+ t' → s = s' ∧ t = t'.
Proof.
  intros Hl. rewrite <-!app_assoc. intros H.
  assert (s +:+ t = s' +:+ t') as H'.
  { clear Hl. revert H. induction p as [|a p IH]; [done|]. rewrite !app_cons. intros [= H]. auto. }
  by apply app_inj.
Qed.

Lemma ca_not_client root cn cn' i :
  i ≠ CaCrt → (root +:+ cn) +:+ item_name CaCrt ≠ (root +:+ cn') +:+ item_name i.
Proof.
  intros Hi H.
  assert (∃ t, item_name i = "/cli" +:+ t ∧ String.length t = 7 ∧ "/ca.crt" ≠ t) as (t & Ht & Hl & Hne)
    by (destruct i; [done|by exists "ent.crt"|by exists "ent.key"]).
  rewrite Ht in H. rewrite (app_assoc _ "/cli"), <-(app_assoc _ cn' "/cli") in H.
  by apply suffix_inj in H as [_ ?].
Qed.
Lemma item_inj root cn cn' i i' :
  (root +:+ cn) +:+ item_name i = (root +:+ cn') +:+ item_name i' → cn = cn' ∧ i = i'.
Proof.
  intros H. destruct (decide (i = CaCrt)) as [->|Hi], (decide (i' = CaCrt)) as [->|Hi'].
  - by apply suffix_inj in H as [-> _].
  - by apply ca_not_client in H.
  - symmetry in H. by apply ca_not_client in H.
  - apply suffix_inj in H as [-> Ht]; [|by destruct i, i']. by destruct i, i'.
Qed.
Lemma dest_inj cn cn' i i' : dest cn i = dest cn' i' → cn = cn' ∧ i = i'.
Proof. apply item_inj. Qed.
Lemma home_inj cn cn' i i' : home cn i = home cn' i' → cn = cn' ∧ i = i'.
Proof. apply item_inj. Qed.
Lemma home_not_dest cn cn' i i' : home cn i ≠ dest cn' i'.
Proof. discriminate. Qed.

(** ** Running the certificate maker *)

Section Certs.
Context (denied : string → bool) {L : TlsLib} {R : Rcgen}.

Lemma write_ok path text d d' : write denied path text d = Ok d' → d' = <[path := text]> d.
Proof. unfold write. destruct (denied path); [done|]. by intros [= <-]. Qed.
Lemma copy_ok from to text d d' :
  d !! from = Some text → copy denied from to d = Ok d' → d' = <[to := text]> d.
Proof. unfold copy. intros ->. apply write_ok. Qed.
Lemma create_dir_all_ok path d d' : create_dir_all denied path d = Ok d' → d' = d.
Proof. unfold create_dir_all. destruct (denied path); [done|]. by intros [= <-]. Qed.

(** What the authority has issued to a client, as found on the disk. *)
Definition issued (now : nat → Z) (ca_cert ca_key cn : string) (d : Disk) : Prop :=
  ∃ n key cert, signed_by (params false (now n) 365 cn []) key ca_cert ca_key = Ok cert
    ∧ d !! dest cn CaCrt = Some (cert_pem ca_cert)
    ∧ (d !! dest cn ClientCrt = Some (cert_pem cert) ∧ d !! dest cn ClientKey = Some (key_pem key))
    ∧ (d !! home cn ClientCrt = Some (cert_pem cert) ∧ d !! home cn ClientKey = Some (key_pem key)).

(** The files of the server and of the authority do not belong to a client. *)
Definition server_path (path : string) : Prop :=
  path = "certs/ca.crt" ∨ path = "certs/server.crt" ∨ path = "certs/server.key".

Lemma client_paths path cn t :
  server_path path → path ≠ client_dir cn +:+ t ∧ path ≠ client_dest_dir cn +:+ t.
Proof. intros [-> |[-> | ->]]; split; discriminate. Qed.

Lemma make_client_ok n now ca_cert ca_key cn d d' :
  d !! "certs/ca.crt" = Some (cert_pem ca_cert) →
  make_client denied n (now n) ca_cert ca_key cn d = Ok d' →
  issued now ca_cert ca_key cn d'
  ∧ (∀ path, server_path path → d' !! path = d !! path)
  ∧ (∀ cn' i, cn ≠ cn' → d' !! dest cn' i = d !! dest cn' i ∧ d' !! home cn' i = d !! home cn' i).
Proof.
  intros Hca. unfold make_client.
  destruct (create_dir_all _ (client_dir cn) d) as [d1|] eqn:H1; [|done].
  apply create_dir_all_ok in H1 as ->.
  destruct (generate n) as [key|]; [|done].
  destruct (signed_by _ key ca_cert ca_key) as [cert|] eqn:Hs; [|done].
  destruct (write _ (_ +:+ "/client.key") _ d) as [d2|] eqn:H2; [|done]. apply write_ok in H2 as ->.
  destruct (write _ (_ +:+ "/client.crt") _ _) as [d3|] eqn:H3; [|done]. apply write_ok in H3 as ->.
  destruct (create_dir_all _ (client_dest_dir cn) _) as [d4|] eqn:H4; [|done].
  apply create_dir_all_ok in H4 as ->.
  destruct (copy _ "certs/ca.crt" _ _) as [d5|] eqn:H5; [|done].
  apply (copy_ok _ _ (cert_pem ca_cert)) in H5 as ->;
    [|rewrite !lookup_insert_ne; [done|discriminate..]].
  destruct (copy _ (_ +:+ "/client.crt") _ _) as [d6|] eqn:H6; [|done].
  apply (copy_ok _ _ (cert_pem cert)) in H6 as ->;
    [|rewrite lookup_insert_ne by discriminate; apply lookup_insert_eq].
  intros H7. apply (copy_ok _ _ (key_pem key)) in H7 as ->; last first.
  { do 2 rewrite lookup_insert_ne by discriminate. rewrite lookup_insert_ne; [apply lookup_insert_eq|].
    intros [_ ?]%suffix_inj; done. }
  change (client_dest_dir cn +:+ "/ca.crt") with (dest cn CaCrt).
  change (client_dest_dir cn +:+ "/client.crt") with (dest cn ClientCrt).
  change (client_dest_dir cn +:+ "/client.key") with (dest cn ClientKey).
  change (client_dir cn +:+ "/client.crt") with (home cn ClientCrt).
  change (client_dir cn +:+ "/client.key") with (home cn ClientKey). split_and!.
  - exists n, key, cert. split; [done|].
    split_and!; repeat (first [by rewrite lookup_insert_eq
      |rewrite lookup_insert_ne by (first [by apply not_eq_sym, home_not_dest
        |intros [_ ?]%dest_inj; done|intros [_ ?]%home_inj; done])]).
  - intros path Hp. rewrite !lookup_insert_ne by (symmetry; by apply client_paths). done.
  - intros cn' i Hne. rewrite !lookup_insert_ne; [done|
      first [apply home_not_dest|by apply not_eq_sym, home_not_dest
        |by intros [? _]%dest_inj|by intros [? _]%home_inj]..].
Qed.

Lemma make_clients_ok n now ca_cert ca_key cns d d' :
  d !! "certs/ca.crt" = Some (cert_pem ca_cert) →
  make_clients denied n now ca_cert ca_key cns d = Ok d' →
  (∀ cn, issued now ca_cert ca_key cn d ∨ cn ∈ cns → issued now ca_cert ca_key cn d')
  ∧ (∀ path, server_path path → d' !! path = d !! path).
Proof.
  revert n d. induction cns as [|c cns IH]; intros n d Hca; simpl.
  - intros [= <-]. split; [|done]. by intros cn [?|?%not_elem_of_nil].
  - destruct (make_client _ _ _ _ _ _ d) as [d1|] eqn:H1; [|done].
    apply make_client_ok in H1 as (Hc & Hsrv & Hoth); [|done]. intros H2.
    apply IH in H2 as [Hall Hsrv']; [|by rewrite Hsrv by (by left)]. split.
    + intros cn Hcn. apply Hall. destruct (decide (cn = c)) as [->|Hne]; [by left|].
      destruct Hcn as [(m & key & cert & H)|[?|?]%elem_of_cons]; [|done|by right].
      left. exists m, key, cert.
      assert (∀ i, d1 !! dest cn i = d !! dest cn i) as Hd by (intros i; by apply Hoth).
      assert (∀ i, d1 !! home cn i = d !! home cn i) as Hh by (intros i; by apply Hoth).
      by rewrite !Hd, !Hh.
    + intros path Hp. by rewrite Hsrv', Hsrv.
Qed.

(** The disk after a complete run. *)
Lemma make_certs_ok now cns d d' :
  make_certs denied now cns d = Ok d' →
  ∃ ca_key ca_cert key cert,
    self_signed (params true (now 0) 3650 "CipherMQ" []) ca_key = Ok ca_cert
    ∧ signed_by (params false (now 1) 365 "localhost" ["localhost"]) key ca_cert ca_key = Ok cert
    ∧ d' !! "certs/ca.crt" = Some (cert_pem ca_cert)
    ∧ d' !! "certs/server.crt" = Some (cert_pem cert)
    ∧ d' !! "certs/server.key" = Some (key_pem key)
    ∧ ∀ cn, cn ∈ cns → issued now ca_cert ca_key cn d'.
Proof.
  unfold make_certs. case_decide; [done|].
  destruct (create_dir_all _ "certs" d) as [d1|] eqn:H1; [|done]. apply create_dir_all_ok in H1 as ->.
  destruct (create_dir_all _ _ d) as [d1|] eqn:H1; [|done]. apply create_dir_all_ok in H1 as ->.
  destruct (generate 0) as [ca_key|]; [|done].
  destruct (self_signed _ ca_key) as [ca_cert|] eqn:Hca; [|done].
  destruct (write _ _ (key_pem ca_key) d) as [d2|] eqn:H2; [|done]. apply write_ok in H2 as ->.
  destruct (write _ _ (cert_pem ca_cert) _) as [d3|] eqn:H3; [|done]. apply write_ok in H3 as ->.
  destruct (generate 1) as [key|]; [|done].
  destruct (signed_by _ key ca_cert ca_key) as [cert|] eqn:Hs; [|done].
  destruct (write _ _ (key_pem key) _) as [d4|] eqn:H4; [|done]. apply write_ok in H4 as ->.
  destruct (write _ _ (cert_pem cert) _) as [d5|] eqn:H5; [|done]. apply write_ok in H5 as ->.
  intros [Hall Hsrv]%make_clients_ok; [|by simplify_map_eq].
  exists ca_key, ca_cert, key, cert. split_and!; [done..| | | |]; [..|intros cn ?; apply Hall; by right];
    rewrite Hsrv by (unfold server_path; auto); by simplify_map_eq.
Qed.

(** A disk as the programs of [Tls.v] read it. *)
Definition read_file (d : Disk) (path : string) : result string string :=
  match d !! path with Some text => Ok text | None => Err "not found" end.
(** A program that sees the disk under [files] and is configured with the files
    of a client, in either of its two directories. *)
Definition provisioned (files : string → result string string) (cfg : TlsConfig) (cn : string)
    (d : Disk) : Prop :=
  (files (certificate_path cfg) = read_file d "certs/ca.crt"
   ∨ files (certificate_path cfg) = read_file d (dest cn CaCrt))
  ∧ ((files (client_cert_path cfg) = read_file d (home cn ClientCrt)
      ∧ files (client_key_path cfg) = read_file d (home cn ClientKey))
     ∨ (files (client_cert_path cfg) = read_file d (dest cn ClientCrt)
        ∧ files (client_key_path cfg) = read_file d (dest cn ClientKey))).

Section Deployed.
Context (t : Z) {RL : RcgenLaws L R t}.

Lemma server_loads d pa ca_key ca_cert p key cert :
  self_signed pa ca_key = Ok ca_cert → is_ca pa = true →
  signed_by p key ca_cert ca_key = Ok cert →
  d !! "certs/ca.crt" = Some (cert_pem ca_cert) →
  d !! "certs/server.crt" = Some (cert_pem cert) →
  d !! "certs/server.key" = Some (key_pem key) →
  new_auth (read_file d) "certs/server.crt" "certs/server.key" "certs/ca.crt"
  = Ok {| acceptor := {| client_roots := [ca_cert]; server_chain := [cert]; server_key := Pkcs8 key |} |}.
Proof using RL.
  intros Hself Hisca Hsig H1 H2 H3. unfold new_auth, configure_mtls, read_file. rewrite H1, H2, H3.
  rewrite !cert_reads, key_reads. destruct (root_usable _ _ _ Hself Hisca) as [Hr Hv].
  destruct (cert_fits_key _ _ _ _ _ Hsig) as [Hf _]. simpl. rewrite Hr. simpl. by rewrite Hv, Hf.
Qed.

Lemma client_loads files cfg pa ca_key ca_cert p key cert :
  self_signed pa ca_key = Ok ca_cert → is_ca pa = true →
  signed_by p key ca_cert ca_key = Ok cert →
  files (certificate_path cfg) = Ok (cert_pem ca_cert) →
  files (client_cert_path cfg) = Ok (cert_pem cert) →
  files (client_key_path cfg) = Ok (key_pem key) →
  let cc := {| roots := [ca_cert]; client_chain := [cert]; client_key := Pkcs8 key;
               verifier := choose_verifier (check_hostname cfg) |} in
  sender_connector files cfg = Ok cc ∧ receiver_connector files cfg = Ok cc.
Proof using RL.
  intros Hself Hisca Hsig H1 H2 H3. destruct (root_usable _ _ _ Hself Hisca) as [Hr _].
  destruct (cert_fits_key _ _ _ _ _ Hsig) as [_ Hf].
  unfold sender_connector, receiver_connector, load_roots, load_chain, sender_key, open_context,
    client_config. simpl. rewrite H1, H2, H3. simpl.
  rewrite !cert_reads, key_reads. simpl. rewrite Hr. simpl. by rewrite Hf.
Qed.

Lemma client_named files cfg p key ca_cert ca_key cert cn dn :
  signed_by p key ca_cert ca_key = Ok cert →
  distinguished_name p = push OID_X509_COMMON_NAME cn dn →
  files (client_cert_path cfg) = Ok (cert_pem cert) →
  sender_client_id files cfg = Ok cn
  ∧ ∀ rest, extract_client_id {| peer_certificates := Some (cert :: rest) |} = Ok cn.
Proof using RL.
  intros Hsig Hdn H2. destruct (cert_named _ _ _ _ _ _ _ Hsig Hdn) as (sub & Hx & Hcn & Hown).
  unfold sender_client_id, open_context, extract_client_id. simpl. rewrite H2. simpl.
  rewrite cert_reads_first. simpl. by rewrite Hx, Hcn.
Qed.

(** An accepted connection of a client gets the name of its certificate. *)
Lemma accepted_name `{H : Handshakes Tcp} {HL : HandshakeLaws Tcp} auth cert cn (tcp : Tcp) s :
  (∀ rest, extract_client_id {| peer_certificates := Some (cert :: rest) |} = Ok cn) →
  presented tcp = [cert] → accept (acceptor auth) tcp = Ok s →
  authenticate auth tcp = Ok {| stream := s; client_id := cn |}.
Proof.
  intros Hex Hp Ha. unfold authenticate, new_connection. rewrite Ha.
  destruct (accept_verified _ _ _ Ha) as (c & r & Hp' & Hs & _).
  rewrite Hp in Hp'. injection Hp' as <- <-. destruct s as [pc]. simpl in Hs. subst pc.
  by rewrite Hex.
Qed.

Lemma read_file_Some d path text : d !! path = Some text → read_file d path = Ok text.
Proof. unfold read_file. by intros ->. Qed.

(** A deployment made by the certificate maker works for a year: after a
    complete run the server loads its files, every client loads its files and
    reads its own name there, the authority vouches for both sides, and the
    server gives each client's connections the client's name. *)
Lemma deployment now cns d d' :
  make_certs denied now cns d = Ok d' → (∀ n, now n ≤ t ≤ now n + days 365)%Z →
  ∃ auth server_cert,
    new_auth (read_file d') "certs/server.crt" "certs/server.key" "certs/ca.crt" = Ok auth
    ∧ server_chain (acceptor auth) = [server_cert]
    ∧ ∀ files cfg cn, cn ∈ cns → provisioned files cfg cn d' →
      ∃ cc cert,
        sender_connector files cfg = Ok cc ∧ receiver_connector files cfg = Ok cc
        ∧ sender_client_id files cfg = Ok cn
        ∧ client_chain cc = [cert] ∧ webpki_client (client_roots (acceptor auth)) cert [] = true
        ∧ (∀ host, check_hostname cfg = false ∨ host = "localhost" →
             verify_server_cert cc server_cert [] host = true)
        ∧ ∀ rest, extract_client_id {| peer_certificates := Some (cert :: rest) |} = Ok cn.
Proof using RL.
  intros (ca_key & ca_cert & key & cert & Hself & Hsig & H1 & H2 & H3 & Hall)%make_certs_ok Ht.
  destruct (cert_valid _ _ _ _ _ _ Hself eq_refl Hsig eq_refl (Ht 1)) as [_ Hsan].
  eexists _, cert. split; [exact (server_loads _ _ _ _ _ _ _ Hself eq_refl Hsig H1 H2 H3)|].
  split; [done|]. intros files cfg cn Hcn Hprov.
  destruct (Hall cn Hcn) as (n & ckey & ccert & Hcsig & H4 & [H5 H6] & [H7 H8]).
  apply read_file_Some in H1, H4, H5, H6, H7, H8. unfold provisioned in Hprov.
  rewrite H1, H4, H5, H6, H7, H8 in Hprov.
  assert (files (certificate_path cfg) = Ok (cert_pem ca_cert)) as F1 by naive_solver.
  assert (files (client_cert_path cfg) = Ok (cert_pem ccert)) as F2 by naive_solver.
  assert (files (client_key_path cfg) = Ok (key_pem ckey)) as F3 by naive_solver.
  destruct (client_loads _ _ _ _ _ _ _ _ Hself eq_refl Hcsig F1 F2 F3) as [Hsc Hrc].
  destruct (client_named _ _ _ _ _ _ _ cn default_name Hcsig eq_refl F2) as [Hid Hex].
  destruct (cert_valid _ _ _ _ _ _ Hself eq_refl Hcsig eq_refl (Ht n)) as [Hval _].
  eexists _, ccert. split; [exact Hsc|]. split; [exact Hrc|]. do 3 (split; [done|]). split; [|done].
  intros host Hh. unfold verify_server_cert. simpl.
  destruct (check_hostname cfg) eqn:Hc; simpl; [|done].
  destruct Hh as [?| ->]; [done|]. apply Hsan. simpl. set_solver.
Qed.

End Deployed.
End Certs.

(** ** The key maker *)

(** The receiver loads the pair the program generated. *)
Lemma make_keys_load `{P : Primitives} `{K : Ciphers} `{!CiphersOk P K} denied secret d d' :
  String.length secret = 32 → make_keys denied secret d = Ok d' →
  d' !! "receiver_public.key" = Some (b64_encode (x25519_public secret))
  ∧ Receiver.load_private_key (d' !! "receiver_private.key") = Ok secret
  ∧ Receiver.load_public_key_bytes (d' !! "receiver_public.key") = Ok (x25519_public secret).
Proof.
  intros Hl. unfold make_keys.
  destruct (write _ _ (b64_encode secret) d) as [d1|] eqn:H1; [|done]. apply write_ok in H1 as ->.
  intros ->%write_ok. rewrite !lookup_insert_eq, lookup_insert_ne, lookup_insert_eq by done. split; [done|].
  unfold Receiver.load_private_key, Receiver.load_public_key_bytes.
  rewrite !trim_all_visible by apply base64_visible. rewrite !base64_round_trip. simpl.
  by rewrite decide_True by done.
Qed.

(** C20: the key files made for a receiver work: the receiver loads the pair the
    program generated, and whatever a sender encrypts with the public key file
    the private key file decrypts. *)
Theorem generated_keys_work `{P : Primitives} `{K : Ciphers} `{!CiphersOk P K} denied secret d d' :
  String.length secret = 32 → make_keys denied secret d = Ok d' →
  Receiver.load_private_key (d' !! "receiver_private.key") = Ok secret
  ∧ Receiver.load_public_key_bytes (d' !! "receiver_public.key") = Ok (x25519_public secret)
  ∧ ∀ msg key_file routes rs now receiver em,
      key_file receiver = d' !! "receiver_public.key" →
      String.length (Crypto.session_key (rs receiver)) = 32 →
      String.length (Crypto.nonce_bytes (rs receiver)) = 12 →
      from_utf8_lossy (Crypto.content msg) = Crypto.content msg →
      Crypto.encrypt_for msg key_file routes rs now receiver = Some em →
      Crypto.decrypt_message (Crypto.envelope em) secret = Some (Ok (Crypto.content msg)).
Proof.
  intros Hl Hm. destruct (make_keys_load _ _ _ _ Hl Hm) as (Hpub & Hpriv & Hload).
  split; [done|]. split; [done|].
  intros msg key_file routes rs now receiver em Hk Hs Hn Hu. unfold Crypto.encrypt_for. rewrite Hk, Hpub.
  rewrite trim_all_visible by apply base64_visible.
  destruct (Crypto.encrypt_message _ _ _ _ _ _) as [em'|] eqn:He; [|done].
  intros [= <-]. by eapply Crypto.encrypt_decrypt.
Qed.

(** ** Witnesses *)

(** An authority for the toy certificates of [TlsProps]. *)
#[export] Existing Instances TlsProps.toy_tls TlsProps.toy_handshakes TlsProps.toy_handshake_laws.
#[export] Instance toy_rcgen : Rcgen := {|
  DistinguishedName := string;
  default_name := "rcgen";
  push := λ _ cn _, cn;
  generate := λ _, Ok "key";
  key_pem := λ k, k;
  self_signed := λ _ _, Ok "ca";
  signed_by := λ p _ _ _, if decide (Forall (eq (distinguished_name p)) (subject_alt_names p))
                          then Ok ("cert:" +:+ distinguished_name p) else Err "bad name";
  cert_pem := λ c, c
|}.
#[export] Instance toy_rcgen_laws t : RcgenLaws TlsProps.toy_tls toy_rcgen t.
Proof.
  split; try done.
  - intros p key ca ca_key cert cn dn. simpl. case_decide; [|done]. intros [= <-] ->.
    unfold TlsProps.toy_name. rewrite strip_prefix_app. by eexists.
  - intros pa ca ca_key p key cert H _. simpl in H. injection H as <-.
    unfold signed_by, toy_rcgen. case_decide as HF; [|done]. intros [= <-] _ _.
    split; [apply (starts_with_app "cert:")|]. intros host Hh. apply bool_decide_eq_true. split; [done|].
    by rewrite (proj1 (Forall_forall _ _) HF host Hh).
Qed.

Definition toy_disk : Disk :=
  match make_certs (λ _, false) (λ _, 0%Z) ["s"; "r"] ∅ with Ok d => d | Err _ => ∅ end.

Definition toy_keys : Disk :=
  match make_keys (P := Crypto.plain_base64) (K := Crypto.plain_ciphers) (λ _, false) Crypto.key32 ∅ with
  | Ok d => d | Err _ => ∅
  end.
Lemma generated_keys_work_witness :
  Receiver.load_private_key (P := Crypto.plain_base64) (toy_keys !! "receiver_private.key")
  = Ok Crypto.key32.
Proof.
  refine (proj1 (generated_keys_work (P := Crypto.plain_base64) (K := Crypto.plain_ciphers)
    (CiphersOk0 := Crypto.plain_ciphers_ok) (λ _, false) Crypto.key32 ∅ toy_keys eq_refl _)).
  vm_compute. reflexivity.
Defined.

End Tools.
