(* ===== verification/ClientStart.v ===== *)
(** The start of the two client programs ([main], [setup_logging] and the
    configuration of [clients/sender_1/src/main.rs] and
    [clients/receiver_1/src/main.rs]) in a deployment made by the set-up
    programs of [Tools.v]. *)
From S2P Require Import Prelude RustStr Storage Tls JsonTree AdminClient.
From S2P Require Import Server Crypto Client Receiver Sender TlsProps Tools.
From stdpp Require Import list options.
From Stdlib Require Import Ascii.

Module ClientStart.
Import RustStr Tls JsonTree AdminClient.

(** ** Configuration files *)

(** [struct LoggingConfig] *)
Record LoggingConfig := {
  level : string;
  info_file_path : string;
  debug_file_path : string;
  error_file_path : string;
  rotation : string;
  max_size_mb : Z
}.
(** [struct Config] of the sender; [pipeline] are the fields of [Sender.Config]. *)
Record SenderFile := {
  pipeline : Sender.Config;
  s_address : string;
  s_port : Z;
  s_tls : TlsConfig;
  s_logging : LoggingConfig
}.
(** [struct Config] of the receiver *)
Record ReceiverFile := {
  subscription : Receiver.Config;
  r_address : string;
  r_port : Z;
  r_tls : TlsConfig;
  r_logging : LoggingConfig
}.

(** An unsigned integer below a bound; [usize]. *)
Definition dec_uint (bound : Z) (v : Value) : option Z :=
  match v with JNum n => if (0 <=? n)%Z && (n <? bound)%Z then Some n else None | _ => None end.
Definition dec_u16 : Value → option Z := dec_uint (2 ^ 16).
Definition dec_u32 : Value → option Z := dec_uint (2 ^ 32).
Definition dec_usize (v : Value) : option nat := Z.to_nat <$> dec_u64 v.

(** The derived [Deserialize] of the structures; members a structure does not
    have are ignored. *)
Definition dec_client_tls (v : Value) : option TlsConfig :=
  f ← as_struct 4 v;
  a ← required f 0 "certificate_path" dec_string; b ← required f 1 "client_cert_path" dec_string;
  c ← required f 2 "client_key_path" dec_string; d ← required f 3 "check_hostname" dec_bool;
  Some {| certificate_path := a; client_cert_path := b; client_key_path := c; check_hostname := d |}.
Definition dec_logging (v : Value) : option LoggingConfig :=
  f ← as_struct 6 v;
  a ← required f 0 "level" dec_string; b ← required f 1 "info_file_path" dec_string;
  c ← required f 2 "debug_file_path" dec_string; d ← required f 3 "error_file_path" dec_string;
  e ← required f 4 "rotation" dec_string; g ← required f 5 "max_size_mb" dec_u64;
  Some {| level := a; info_file_path := b; debug_file_path := c; error_file_path := d;
          rotation := e; max_size_mb := g |}.
Definition dec_sender_binding (v : Value) : option Sender.Binding :=
  f ← as_struct 3 v;
  a ← required f 0 "queue_name" dec_string; b ← required f 1 "exchange_name" dec_string;
  c ← required f 2 "routing_key" dec_string;
  Some {| Sender.queue_name := a; Sender.exchange_name := b; Sender.routing_key := c |}.
(** [HashMap<String, String>] *)
Definition dec_strings (v : Value) : option (list (string * string)) :=
  match v with
  | JObj fields => mapM (λ kv : string * Value, t ← dec_string kv.2; Some (kv.1, t)) fields
  | _ => None
  end.
Definition dec_message (v : Value) : option Sender.MessageConfig :=
  f ← as_struct 2 v;
  a ← defaulted Sender.default_template f 0 "content_template" dec_string;
  b ← defaulted [] f 1 "extra_fields" dec_strings;
  Some {| Sender.content_template := a; Sender.extra_fields := b |}.
Definition dec_sender_settings (v : Value) : option Sender.SenderConfig :=
  f ← as_struct 8 v;
  a ← required f 0 "num_messages" dec_usize; b ← required f 1 "max_inflight" dec_usize;
  c ← required f 2 "max_retries" dec_u32; d ← required f 3 "ack_timeout_secs" dec_u64;
  e ← required f 4 "tcp_connect_timeout_secs" dec_u64; g ← required f 5 "batch_size" dec_usize;
  h ← required f 6 "batch_delay_ms" dec_u64; i ← required f 7 "message" dec_message;
  Some {| Sender.num_messages := a; Sender.max_inflight := b; Sender.max_retries := Z.to_nat c;
          Sender.ack_timeout_secs := d; Sender.tcp_connect_timeout_secs := e;
          Sender.batch_size := g; Sender.batch_delay_ms := h; Sender.message := i |}.
(** [ReceiverIds::deserialize]: a value as [Sender.receiver_ids] looks at it. *)
Definition ids_value (v : Value) : Sender.Value :=
  match v with
  | JStr s => Sender.JString s
  | JArr l => Sender.JArray (dec_string <$> l)
  | _ => Sender.JOther
  end.
Definition dec_ids (v : Value) : option (list string) :=
  match Sender.receiver_ids (ids_value v) with Ok ids => Some ids | Err _ => None end.
Definition dec_sender (v : Value) : option SenderFile :=
  f ← as_struct 8 v;
  a ← required f 0 "exchange_name" dec_string; b ← required f 1 "bindings" (dec_vec dec_sender_binding);
  c ← required f 2 "server_address" dec_string; d ← required f 3 "server_port" dec_u16;
  e ← required f 4 "tls" dec_client_tls; g ← required f 5 "logging" dec_logging;
  h ← defaulted [] f 6 "receiver_client_ids" dec_ids;
  i ← defaulted Sender.default_sender f 7 "sender" dec_sender_settings;
  Some {| pipeline := {| Sender.exchange := a; Sender.bindings := b;
                         Sender.receiver_client_ids := h; Sender.sender := i |};
          s_address := c; s_port := d; s_tls := e; s_logging := g |}.
Definition dec_receiver (v : Value) : option ReceiverFile :=
  f ← as_struct 7 v;
  a ← required f 0 "queue_name" dec_string; b ← required f 1 "exchange_name" dec_string;
  c ← required f 2 "routing_key" dec_string; d ← required f 3 "server_address" dec_string;
  e ← required f 4 "server_port" dec_u16; g ← required f 5 "tls" dec_client_tls;
  h ← required f 6 "logging" dec_logging;
  Some {| subscription := {| Receiver.queue_name := a; Receiver.exchange_name := b;
                             Receiver.routing_key := c |};
          r_address := d; r_port := e; r_tls := g; r_logging := h |}.

(** ** Logging *)

(** [Path::parent], normalized: the components of a path without the last. *)
Definition ordinary (c : string) : bool := negb (bool_decide (c = "" ∨ c = ".")).
Definition components (path : string) : list string :=
  match splitn (1 + String.length path) "/"%char path with
  | "." :: rest => "." :: filter (λ c, ordinary c = true) rest
  | parts => filter (λ c, ordinary c = true) parts
  end.
Definition parent (path : string) : option string :=
  match components path with
  | [] => None
  | l => Some ((if starts_with "/" path then "/" else "") +:+ join "/" (removelast l))
  end.

(** [to_lowercase] and [to_uppercase] of a level name in ASCII letters. *)
Definition lower (a : ascii) : ascii :=
  let n := N_of_ascii a in if ((65 <=? n) && (n <=? 90))%N then ascii_of_N (n + 32) else a.
Definition upper (a : ascii) : ascii :=
  let n := N_of_ascii a in if ((97 <=? n) && (n <=? 122))%N then ascii_of_N (n - 32) else a.
Fixpoint map_string (f : ascii → ascii) (s : string) : string :=
  match s with "" => "" | String a s => String (f a) (map_string f s) end.
Definition to_lowercase : string → string := map_string lower.
Definition to_uppercase : string → string := map_string upper.

(** What the environment of a program does: the files it can read, the
    directories and log files it can make, the directives [EnvFilter] takes. *)
Record Io := {
  files : string → result string string;
  create_dir_all : string → result () string;
  append : string → result () string;
  directive_ok : string → bool
}.
(** The filter and the file of the installed subscriber. *)
Record LogSetup := { env_filter : string; log_file : string }.

Fixpoint make_dirs (io : Io) (dirs : list string) : result () string :=
  match dirs with
  | [] => Ok ()
  | d :: dirs => try _u ← create_dir_all io d; make_dirs io dirs
  end.
Definition log_dirs (cfg : LoggingConfig) : list string :=
  omap parent [info_file_path cfg; debug_file_path cfg; error_file_path cfg].
(** [setup_logging] of both programs after the level is known. *)
Definition install_logging (io : Io) (cfg : LoggingConfig) (target lowered : string)
    : result LogSetup string :=
  try _u ← make_dirs io (log_dirs cfg);
  let directive := target +:+ "=" +:+ lowered in
  let chosen := if directive_ok io directive then directive else target +:+ "=info" in
  try _u ← map_err (λ _, "Cannot open log file " +:+ info_file_path cfg) (append io (info_file_path cfg));
  Ok {| env_filter := chosen; log_file := info_file_path cfg |}.
Definition sender_logging (io : Io) (cfg : LoggingConfig) : result LogSetup string :=
  install_logging io cfg "sender" (to_lowercase (level cfg)).
Definition receiver_logging (io : Io) (cfg : LoggingConfig) : result LogSetup string :=
  install_logging io cfg "receiver" (to_lowercase (to_uppercase (level cfg))).

(** ** The programs *)

(** [ServerName::try_from] with the fallback of both clients; [valid] are the
    names it accepts. *)
Definition server_name (valid : string → bool) (address : string) : string :=
  if valid address then address else "localhost".

Definition key_dir : string := "../../create_ca_key/Rust_Key_Maker_X25519/".
Definition option_of {A E} (r : result A E) : option A :=
  match r with Ok a => Some a | Err _ => None end.

Section Start.
Context `{J : Serde} `{L : TlsLib} `{P : Primitives} (io : Io).

(** [config.json], as both programs read it. *)
Definition load_config {A} (dec : Value → option A) : result A string :=
  try config_str ← map_err (λ _, "Configuration file 'config.json' not found") (files io "config.json");
  ok_or (from_str dec config_str) "Failed to parse config.json".

(** What the sender has when its pipeline begins. *)
Record SenderStart := {
  s_config : SenderFile;
  s_client_id : string;
  s_connector : ClientConfig;
  s_log : LogSetup
}.
(** [main] of the sender, up to the pipeline *)
Definition sender_main : result SenderStart string :=
  try _u ← make_dirs io ["logs"; "keys"];
  try config ← load_config dec_sender;
  try log ← sender_logging io (s_logging config);
  try client_id ← sender_client_id (files io) (s_tls config);
  try connector ← sender_connector (files io) (s_tls config);
  Ok {| s_config := config; s_client_id := client_id; s_connector := connector; s_log := log |}.

(** What the receiver has when its tasks begin. *)
Record ReceiverStart := {
  r_config : ReceiverFile;
  r_private_key : string;
  r_connector : ClientConfig;
  r_log : LogSetup;
  r_output : string
}.
(** [main] of the receiver, up to its tasks *)
Definition receiver_main : result ReceiverStart string :=
  try _u ← make_dirs io ["logs"; "keys"; "data"];
  try config ← load_config dec_receiver;
  try log ← receiver_logging io (r_logging config);
  try private_key ← Receiver.load_private_key
                      (option_of (files io (key_dir +:+ "receiver_private.key")));
  try connector ← receiver_connector (files io) (r_tls config);
  Ok {| r_config := config; r_private_key := private_key; r_connector := connector; r_log := log;
        r_output := "data/" +:+ Receiver.queue_name (subscription config)
                    +:+ "_received_messages.jsonl" |}.

End Start.

(** ** Lemmas *)

(** The two programs choose the same level although one changes case twice. *)
Lemma lower_upper s : to_lowercase (to_uppercase s) = to_lowercase s.
Proof.
  induction s as [|a s IH]; [done|]. unfold to_lowercase, to_uppercase in *. simpl. rewrite IH. f_equal.
  destruct a as [[] [] [] [] [] [] [] []]; reflexivity.
Qed.

(** An environment in which directories and log files can be made. *)
Definition writable (io : Io) : Prop :=
  (∀ d, create_dir_all io d = Ok ()) ∧ ∀ f, append io f = Ok ().

Lemma make_dirs_writable io dirs : writable io → make_dirs io dirs = Ok ().
Proof. intros [Hd _]. induction dirs as [|d dirs IH]; [done|]. simpl. by rewrite Hd. Qed.

Lemma install_writable io cfg target l :
  writable io → ∃ log, install_logging io cfg target l = Ok log ∧ log_file log = info_file_path cfg.
Proof.
  intros Hw. unfold install_logging. rewrite make_dirs_writable by done. destruct Hw as [_ Hf].
  rewrite Hf. simpl. by eexists.
Qed.

Section Starts.
Context {J : Serde} {L : TlsLib} {P : Primitives}.

Lemma sender_main_starts io config cn cc :
  writable io → load_config io dec_sender = Ok config →
  sender_client_id (files io) (s_tls config) = Ok cn →
  sender_connector (files io) (s_tls config) = Ok cc →
  ∃ log, sender_main io
    = Ok {| s_config := config; s_client_id := cn; s_connector := cc; s_log := log |}.
Proof.
  intros Hw Hc Hid Hcc. destruct (install_writable io (s_logging config) "sender"
    (to_lowercase (level (s_logging config))) Hw) as (log & Hlog & _).
  exists log. unfold sender_main, sender_logging. rewrite make_dirs_writable by done.
  by rewrite Hc, Hlog, Hid, Hcc.
Qed.

Lemma receiver_main_starts io config key cc :
  writable io → load_config io dec_receiver = Ok config →
  Receiver.load_private_key (option_of (files io (key_dir +:+ "receiver_private.key"))) = Ok key →
  receiver_connector (files io) (r_tls config) = Ok cc →
  ∃ st, receiver_main io = Ok st
    ∧ r_config st = config ∧ r_private_key st = key ∧ r_connector st = cc.
Proof.
  intros Hw Hc Hk Hcc. destruct (install_writable io (r_logging config) "receiver"
    (to_lowercase (to_uppercase (level (r_logging config)))) Hw) as (log & Hlog & _).
  unfold receiver_main, receiver_logging. rewrite make_dirs_writable by done.
  rewrite Hc, Hlog, Hk, Hcc. by eexists.
Qed.

End Starts.

Lemma option_of_read d path : option_of (Tools.read_file d path) = d !! path.
Proof. unfold Tools.read_file. by destruct (d !! path). Qed.

(** ** Properties *)

Section Deployed.
Context {J : Serde} {L : TlsLib} {P : Primitives} {K : Ciphers} {CO : CiphersOk P K}.
Context {R : Rcgen} (t : Z) {RL : RcgenLaws L R t}.
Context {Tcp : Type} {H : Handshakes Tcp} {HL : HandshakeLaws Tcp}.

(** Server and client accept each other, and the server knows the client's name. *)
Definition admitted (auth : MTlsAuth) (cfg : TlsConfig) (cc : ClientConfig) (cn : string) : Prop :=
  ∃ cert server_cert, client_chain cc = [cert] ∧ server_chain (acceptor auth) = [server_cert]
    ∧ webpki_client (client_roots (acceptor auth)) cert [] = true
    ∧ (∀ host, check_hostname cfg = false ∨ host = "localhost" →
         verify_server_cert cc server_cert [] host = true)
    ∧ ∀ (tcp : Tcp) s, presented tcp = client_chain cc → accept (acceptor auth) tcp = Ok s →
        authenticate auth tcp = Ok {| stream := s; client_id := cn |}.

(** C16: a system set up by the two set-up programs starts, for a year: from the
    certificates and keys they wrote the server's acceptor, the sender and the
    receiver all start; the sender takes the name of its certificate, the
    receiver has the generated key pair, and the server and each client accept
    each other, the server under the client's name. *)
Theorem deployment_starts denied now cns d d' secret k k' sio rio sc rc scn rcn :
  (** the set-up programs *)
  Tools.make_certs denied now cns d = Ok d' → (∀ n, now n ≤ t ≤ now n + Tools.days 365)%Z →
  Tools.make_keys denied secret k = Ok k' → String.length secret = 32 →
  (** the clients: their configurations, certificates and keys *)
  writable sio → load_config sio dec_sender = Ok sc →
  scn ∈ cns → Tools.provisioned (files sio) (s_tls sc) scn d' →
  writable rio → load_config rio dec_receiver = Ok rc →
  rcn ∈ cns → Tools.provisioned (files rio) (r_tls rc) rcn d' →
  (∀ f, files rio (key_dir +:+ f) = Tools.read_file k' f) →
  ∃ auth ss rs,
    new_auth (Tools.read_file d') "certs/server.crt" "certs/server.key" "certs/ca.crt" = Ok auth
    ∧ sender_main sio = Ok ss ∧ s_config ss = sc ∧ s_client_id ss = scn
    ∧ receiver_main rio = Ok rs ∧ r_config rs = rc ∧ r_private_key rs = secret
    ∧ Receiver.load_public_key_bytes (option_of (files rio (key_dir +:+ "receiver_public.key")))
      = Ok (x25519_public secret)
    ∧ admitted auth (s_tls sc) (s_connector ss) scn ∧ admitted auth (r_tls rc) (r_connector rs) rcn.
Proof using CO HL RL.
  intros Hcerts Ht Hkeys Hlen Hws Hsc Hscn Hsp Hwr Hrc Hrcn Hrp Hkd.
  destruct (Tools.deployment denied t now cns d d' Hcerts Ht) as (auth & scert & Ha & Hch & Hall).
  destruct (Tools.make_keys_load _ _ _ _ Hlen Hkeys) as (_ & Hpriv & Hpub).
  destruct (Hall _ _ _ Hscn Hsp) as (cc & cert & Hcc & _ & Hid & Hc1 & Hc2 & Hc3 & Hc4).
  destruct (Hall _ _ _ Hrcn Hrp) as (cc' & cert' & _ & Hcc' & _ & Hd1 & Hd2 & Hd3 & Hd4).
  destruct (sender_main_starts _ _ _ _ Hws Hsc Hid Hcc) as [log Hsm].
  destruct (receiver_main_starts rio rc secret cc') as (rs & Hrm & Hr1 & Hr2 & Hr3); [done..| |done|].
  { rewrite Hkd, option_of_read. exact Hpriv. }
  exists auth. eexists _, rs. split; [done|]. split; [exact Hsm|]. do 2 (split; [done|]).
  split; [exact Hrm|]. do 2 (split; [done|]). split; [by rewrite Hkd, option_of_read|]. rewrite Hr3.
  split; [exists cert, scert|exists cert', scert]; do 4 (split; [done|]); intros tcp s.
  - simpl. rewrite Hc1. by apply Tools.accepted_name.
  - rewrite Hd1. by apply Tools.accepted_name.
Qed.

End Deployed.

(** ** Witnesses *)

Lemma load_printed {J : Serde} {JL : SerdeLaws J} {A} io (dec : Value → option A) v c :
  files io "config.json" = Ok (print v) → fits v = true → dec v = Some c → load_config io dec = Ok c.
Proof.
  intros Hf Hv Hd. unfold load_config. rewrite Hf. simpl. unfold from_str.
  by rewrite parse_print, Hd by done.
Qed.

(** The configuration files of the repository, [clients/sender_1/config.json]
    and [clients/receiver_1/config.json]. *)
Definition cert_dir : string := "../../create_ca_key/Rust_CA_Maker_ECDSA_P-384_Multi_Client/".
Definition shipped_tls (cn : string) : Value :=
  obj [("certificate_path", JStr (cert_dir +:+ "certs/ca.crt"));
       ("client_cert_path", JStr (cert_dir +:+ "certs/clients/" +:+ cn +:+ "/client.crt"));
       ("client_key_path", JStr (cert_dir +:+ "certs/clients/" +:+ cn +:+ "/client.key"));
       ("verify_mode", JStr "CERT_REQUIRED"); ("check_hostname", JBool false)].
Definition shipped_logging (level name : string) : Value :=
  obj [("level", JStr level); ("info_file_path", JStr ("logs/" +:+ name +:+ "_info.log"));
       ("debug_file_path", JStr ("logs/" +:+ name +:+ "_debug.log"));
       ("error_file_path", JStr ("logs/" +:+ name +:+ "_error.log"));
       ("rotation", JStr "daily"); ("max_size_mb", JNum 100)].
Definition shipped_sender : Value :=
  obj [("receiver_client_ids", JArr [JStr "receiver_1"]); ("exchange_name", JStr "ciphermq_exchange");
       ("bindings", JArr [obj [("queue_name", JStr "receiver_1_queue");
                               ("exchange_name", JStr "ciphermq_exchange");
                               ("routing_key", JStr "receiver_1_key")]]);
       ("server_address", JStr "127.0.0.1"); ("server_port", JNum 5672);
       ("tls", shipped_tls "sender_1"); ("logging", shipped_logging "DEBUG" "client");
       ("sender", obj [("num_messages", JNum 100); ("max_inflight", JNum 100); ("max_retries", JNum 3);
                       ("ack_timeout_secs", JNum 3); ("tcp_connect_timeout_secs", JNum 120);
                       ("batch_size", JNum 10); ("batch_delay_ms", JNum 10);
                       ("message", obj [("content_template", JStr Sender.default_template);
                                        ("extra_fields", JObj [])])])].
Definition shipped_receiver : Value :=
  obj [("queue_name", JStr "receiver_1_queue"); ("exchange_name", JStr "ciphermq_exchange");
       ("routing_key", JStr "receiver_1_key"); ("server_address", JStr "127.0.0.1");
       ("server_port", JNum 5672); ("tls", shipped_tls "receiver_1");
       ("logging", shipped_logging "INFO" "receiver1")].

(** The machine on which the set-up programs ran. *)
Definition machine_certs : Tools.Disk :=
  match Tools.make_certs (R := Tools.toy_rcgen) (λ _, false) (λ _, 0%Z) ["sender_1"; "receiver_1"] ∅
  with Ok d => d | Err _ => ∅ end.
Definition machine (config : Value) : Io := {|
  files := λ path,
    if decide (path = "config.json") then Ok (print (Serde := JsonFacts.toy_serde) config)
    else match strip_prefix cert_dir path, strip_prefix key_dir path with
         | Some f, _ => Tools.read_file machine_certs f
         | _, Some f => Tools.read_file Tools.toy_keys f
         | _, _ => Err "not found"
         end;
  create_dir_all := λ _, Ok ();
  append := λ _, Ok ();
  directive_ok := λ _, true
|}.
Definition shipped_sender_file : SenderFile :=
  match dec_sender shipped_sender with
  | Some c => c
  | None => {| pipeline := {| Sender.exchange := ""; Sender.bindings := [];
                 Sender.receiver_client_ids := []; Sender.sender := Sender.default_sender |};
               s_address := ""; s_port := 0; s_tls := TlsProps.toy_cfg true;
               s_logging := {| level := ""; info_file_path := ""; debug_file_path := "";
                               error_file_path := ""; rotation := ""; max_size_mb := 0 |} |}
  end.
Definition shipped_receiver_file : ReceiverFile :=
  match dec_receiver shipped_receiver with
  | Some c => c
  | None => {| subscription := {| Receiver.queue_name := ""; Receiver.exchange_name := "";
                 Receiver.routing_key := "" |};
               r_address := ""; r_port := 0; r_tls := TlsProps.toy_cfg true;
               r_logging := s_logging shipped_sender_file |}
  end.

Lemma deployment_starts_witness :
  ∃ ss, sender_main (J := JsonFacts.toy_serde) (L := TlsProps.toy_tls) (machine shipped_sender) = Ok ss
        ∧ s_client_id ss = "sender_1".
Proof.
  destruct (deployment_starts (J := JsonFacts.toy_serde) (L := TlsProps.toy_tls)
    (P := Crypto.plain_base64) (K := Crypto.plain_ciphers) (CO := Crypto.plain_ciphers_ok)
    (R := Tools.toy_rcgen) 7 (RL := Tools.toy_rcgen_laws 7) (Tcp := list string)
    (H := TlsProps.toy_handshakes) (HL := TlsProps.toy_handshake_laws)
    (λ _, false) (λ _, 0%Z) ["sender_1"; "receiver_1"] ∅ machine_certs Crypto.key32 ∅ Tools.toy_keys
    (machine shipped_sender) (machine shipped_receiver) shipped_sender_file shipped_receiver_file
    "sender_1" "receiver_1") as (auth & ss & rs & _ & Hs & _ & Hid & _).
  - vm_compute. reflexivity.
  - intros _. unfold Tools.days. lia.
  - vm_compute. reflexivity.
  - reflexivity.
  - split; reflexivity.
  - apply (load_printed (JL := JsonFacts.toy_serde_laws) _ _ shipped_sender); vm_compute; reflexivity.
  - left.
  - split; [left|left; split]; vm_compute; reflexivity.
  - split; reflexivity.
  - apply (load_printed (JL := JsonFacts.toy_serde_laws) _ _ shipped_receiver); vm_compute; reflexivity.
  - right. left.
  - split; [left|left; split]; vm_compute; reflexivity.
  - intros f. unfold machine. cbn [files]. rewrite decide_False by discriminate.
    change (strip_prefix cert_dir (key_dir +:+ f)) with (@None string).
    by rewrite strip_prefix_app.
  - exists ss. split; [exact Hs|exact Hid].
Defined.

End ClientStart.
